(* ===== verification/_CoqProject ===== *)
-Q . S2P
Prelude.v
GoInt.v
SeqNum.v
I2CP.v
Packet.v
PacketProps.v
PacketHeader.v
Crypto.v
Limits.v
MessageStatus.v
Floats.v
Sha256.v
Base64.v
GoStrings.v
AccessList.v
TCBCache.v
Runtime.v
Conn.v
ConnRecv.v
ConnAck.v
ConnLife.v
ConnWrite.v
Delivery.v
ConnFrames.v
ConnOps.v
ConnExamples.v
ConnRecvProps.v
ConnAckProps.v
ConnWriteProps.v
ConnCoherent.v
ConnTx.v
Transfer.v
Duplex.v
Echo.v
ConnLifeProps.v
StreamEnd.v
Acks.v
System.v
Addr.v
Ping.v
Listener.v
Manager.v
SystemFrames.v
SystemInv.v
SystemOps.v
SystemProps.v
SystemExamples.v
Handshake.v
ListenerProps.v
HandshakeProps.v
Streams.v
PingProps.v
ManagerProps.v
Locks.v
LockUse.v
