(* ===== verification/Prelude.v ===== *)
(** * go-streaming: a verification development

    go-streaming is the I2P streaming protocol in Go: reliable byte streams
    over the unreliable messages of an I2P session (I2CP).  This library models
    the program's code under src/ as Rocq definitions that read like it, and
    proves what makes its parts correct, or where they are not.  It models
    every method of the package that changes state.

    ** How the program works

    A [StreamManager] (manager.go) owns an I2CP session.  I2CP's callbacks put
    incoming messages into a queue of a hundred; one goroutine takes them,
    parses each into a [Packet] (packet.go) and dispatches it: ECHO packets to
    the ping manager (ping.go), opening SYNs to the [StreamListener] of the
    port, anything else into the queue of the [StreamConn] registered for the
    two ports (stream.go), and a RESET back when nobody wants the packet.  A
    SYN passes the access list (accesslist.go), the connection limiter
    (limits.go), and the checks of its source, signature and replay words
    (crypto.go) before it becomes a connection, whose parameters may come from
    the cache of what earlier connections to the peer measured (tcb_cache.go).
    A connection reassembles data, acknowledges it and reports gaps, slides a
    congestion window, retransmits, chokes and is choked, and closes; what
    I2CP says of the messages it sent comes back through a tracker
    (message_status.go).

    ** The files

    Foundations.  [Prelude]: the state-and-error monad of the model, the
    frame classes [Pres], [Safe] and [Total], the calculus [wp], lists and
    tactics.  [GoInt], [SeqNum]: machine integers, byte slices, sequence
    numbers with wrap-around.  [Floats], [Sha256], [Base64], [GoStrings]: the
    parts of Go's language and standard library the code computes with.
    [I2CP], [Runtime]: third-party code and the undetermined environment as
    type classes, with their laws and one concrete instance each.

    Components, one file each, a Go method as a definition of the same name.
    [Packet] (packet.go), [Crypto] (crypto.go, the random identifiers of
    packet.go), [Limits] (limits.go), [MessageStatus] (message_status.go),
    [AccessList] (accesslist.go), [TCBCache] (tcb_cache.go).  The connection
    (stream.go): [Conn] (state, sending), [ConnRecv] (receiving, [Read]),
    [ConnAck] (acknowledgements, timers, congestion), [ConnLife] (handshake,
    dispatch, closing, deadlines), [ConnWrite] ([Write]).  The system:
    [System] (the manager's state as a heap of shared objects, the tables,
    sending; manager.go), [Addr] (addresses and names), [Ping] (ping.go),
    [Listener] (the listener of stream.go), [Manager] (manager.go, and dialing
    through a manager).  Locking: [Locks] (programs of lock sections and waits,
    and their interleavings), [LockUse] (which locks every method takes, in what
    nesting).  The example: [Echo] (examples/echo), the server's handler and the
    client's test as interaction trees over the calls of a [net.Conn].

    State.  A connection's method is a function of a [World]: the connection,
    what it shares with the manager ([ManagerView]: tracker, cache, limiter,
    table), the clock, and the messages sent.  A manager's method is a function
    of a [Sys]; [on_conn] runs a connection's method on an object of the heap
    and writes back what it did to the shared parts.  Errors of the code are
    values of one inductive type per component, a run-time panic of Go is the
    third outcome [Panic].

    Interleaving.  [ConnOps] and [SystemOps] have everything that can happen to
    a connection and to a manager as inductive types of operations; a call
    that waits carries the operations that happen meanwhile.  [conn_run] and
    [sys_run] execute any list of them, and the invariants hold for all.  A
    method is one step between the points where it waits; what happens inside
    it is finer in [Locks], where goroutines are interleaved lock by lock.

    ** What is proved

    Packets ([PacketProps], [Crypto], [Delivery]): the exact wire form and the
    exact failures of [Marshal]; the round trip; that whatever parses is
    well-formed and parses again; the exact inputs on which [Unmarshal] panics;
    that the signed bytes are the wire image with a zero signature on both
    sides, so that signed packets verify at the receiver.

    Connections ([ConnRecvProps], [ConnAckProps], [ConnWriteProps],
    [ConnLifeProps]): over every run, what [Read] returns is a prefix of the
    peer's stream, the NACK list names only holes between what has arrived, and
    window, threshold and timeout keep their bounds; the float64 estimator is the
    integer filter of RFC 6298; what acknowledgements, NACKs and the timer do to
    the packets in flight; what [Write] puts on the wire; the state machine;
    what closing sends and releases.  [ConnCoherent]: the maps and the
    queue of a connection agree and are bounded whoever sends the packets, so
    that the delivery loop ends.  [Acks]: where acknowledging a packet is not
    what it seems, that a packet overwriting unread data is acknowledged and
    that the number a data packet acknowledges is noted without anything being
    taken out of flight.

    Streams ([PacketHeader], [ConnTx], [Transfer], [StreamEnd], [Streams]): the packets a
    sender has ever emitted carry, under each number, one chunk of what was
    written ([ConnTx]); so, over a network that loses, repeats and reorders
    them, the receiver has a prefix of what the sender has written, and all of
    it when everything has arrived ([Transfer]); after the sender has closed, a
    reader comes to the end of the file with what had arrived ([StreamEnd]);
    the two ends together, each reading, writing, waiting, closing and taking
    what the other sends, carry both directions at once ([Duplex]); and the two
    connections a handshake makes are such ends ([Streams]).  On top of that
    runs the echo example: what the server writes back is what it has read,
    and the client's comparison never fails ([Echo]).  Where this ends: the probes of a choked sender add a zero
    byte each, a lost probe stops the stream, and the end of the file looks the
    same when data is missing.

    Shared components ([Limits], [MessageStatus], [TCBCache], [AccessList]): no
    window of time holds more connections than configured; every message is
    accounted for once; what the cache returns and for how long; the access
    list decides by the digests it has in standard Base64, and other forms list
    nobody.

    The system ([SystemFrames], [SystemInv], [SystemOps], [SystemProps],
    [ListenerProps], [Handshake], [HandshakeProps], [PingProps],
    [ManagerProps]): in every reachable state the tables name
    connections of the right ports that have not been told to stop and open
    listeners, and the packet processor panics on nothing but a truncated
    datagram; where a packet goes; what becomes of a SYN; that the
    two halves of the handshake agree; that a ping comes back; what closing the
    manager does; and what its parts' sharing leads to: forged SYNs spend the
    limit, a second peer can take over a connection's route, and RESETs are
    answered by RESETs.

    Locks ([Locks], [LockUse]): goroutines that call any methods but
    [CleanupExpired] take their locks in one order, so that they never block
    each other for ever, and a lock held for writing is held once;
    [CleanupExpired] takes the tracker's lock and then a connection's, against
    the order, and deadlocks with a [Write].

    ** Bounds and fuel

    [deliverBufferedPackets] gets one unit of fuel more than there are buffered
    packets, and every round removes one.  [Crypto.generateStreamID] recurses
    on the words the random source delivers.  The waits of [Read], [Write],
    [DialWithManager], [Ping] and [LookupDestination] recurse on the list of
    what happens during them; at its end the call is still waiting, which is an
    outcome of its own ([EBlocked], [SBlocked]).  Everything else is
    structural.

    ** Assumptions

    Theorems name the laws they use: [I2CPLaws] (the wire form of a
    destination is self-delimiting), [key_of] and [session_ok] (a session's key
    signs, and its destination verifies), [CircBufLaws] (the circular buffer
    keeps the last bytes written), [GoRuntimeLaws] (the clock does not go
    back, a range visits every key once).  The concrete instances satisfy them.

    ** Not modelled

    Logging, which changes no state.  Preemption inside a method, apart from
    the locks: the methods are steps because their state is under a lock, which
    is not proved field by field, so data races are outside the model, as are
    the locks inside [sync.Map] and go-i2cp.  One place where this matters: the
    code queues an accepted connection without the listener's lock, so that a
    [Close] of the listener in between makes it send on a closed channel; in
    the model both are steps.  [waitForChokeFallback], which only
    connections without condition variables would use; the constructors make
    none (its locking is in [LockUse]).  Of the example, setting up go-i2cp,
    signal handling and the accept loop; the test containers. *)

From stdpp Require Export prelude gmap list strings.
From Stdlib Require Export ZArith Lia.
From Stdlib Require Import Init.Byte.

#[global] Open Scope Z_scope.
#[global] Set Default Goal Selector "!".

Declare Scope go_scope.
Delimit Scope go_scope with go.
Create HintDb go discriminated.

(** ** Record update

    [r <| f := v |>] is the Go assignment [r.f = v] on a value of a struct. *)

Class Eta (R : Type) := eta : R → R.

Class Setter {R T : Type} (proj : R → T) := upd : (T → T) → R → R.
Arguments upd {R T} proj {_} _ _ /.

Ltac derive_setter :=
  match goal with
  | |- @Setter ?R ?T ?p =>
      let e := eval unfold eta in (eta : R → R) in
      let e := eval hnf in e in
      let b := eval pattern p in e in
      lazymatch b with
      | ?F _ =>
          let r := constr:(fun g : T → T => F (fun r => g (p r))) in
          let r := eval cbv beta in r in
          exact r
      end
  end.

Notation "r <| p := v |>" := (upd p (fun _ => v) r)
  (at level 1, p constr, v at level 200, left associativity) : go_scope.
Notation "r <| p ::= f |>" := (upd p f r)
  (at level 1, p constr, f at level 200, left associativity) : go_scope.
#[global] Open Scope go_scope.
#[global] Open Scope Z_scope.

(** ** Outcomes of a Go call

    A call returns normally, returns a non-nil [error], or panics (an index
    or slice expression out of range). *)

Inductive result (E A : Type) : Type :=
| Ok (a : A)
| Err (e : E)
| Panic.
Arguments Ok {E A} a.
Arguments Err {E A} e.
Arguments Panic {E A}.

Definition result_ret {E : Type} : MRet (result E) := fun A a => Ok a.
Definition result_bind {E : Type} : MBind (result E) := fun A B k m =>
  match m with Ok a => k a | Err e => Err e | Panic => Panic end.
#[global] Existing Instance result_ret.
#[global] Existing Instance result_bind.

(** ** State passing

    [ST S A] is a Go method on a mutable receiver of type [S] returning [A];
    [STE S E A] one that may also fail.  A failing method keeps the writes it
    has made, so the state is returned on every outcome. *)

Definition ST (S A : Type) : Type := S → A * S.
Definition st_ret {S : Type} : MRet (ST S) := fun A a s => (a, s).
Definition st_bind {S : Type} : MBind (ST S) := fun A B k m s =>
  let '(a, s') := m s in k a s'.
#[global] Existing Instance st_ret.
#[global] Existing Instance st_bind.

Definition gets {S A : Type} (f : S → A) : ST S A := fun s => (f s, s).
Definition modify {S : Type} (f : S → S) : ST S unit := fun s => (tt, f s).
Definition when {S : Type} (b : bool) (m : ST S unit) : ST S unit :=
  if b then m else mret tt.

Definition STE (S E A : Type) : Type := S → result E A * S.
Definition ste_ret {S E : Type} : MRet (STE S E) := fun A a s => (Ok a, s).
Definition ste_bind {S E : Type} : MBind (STE S E) := fun A B k m s =>
  match m s with
  | (Ok a, s') => k a s'
  | (Err e, s') => (Err e, s')
  | (Panic, s') => (Panic, s')
  end.
#[global] Existing Instance ste_ret.
#[global] Existing Instance ste_bind.

Definition fail {S E A : Type} (e : E) : STE S E A := fun s => (Err e, s).
Definition emodify {S E : Type} (f : S → S) : STE S E unit := fun s => (Ok tt, f s).
Definition egets {S E A : Type} (f : S → A) : STE S E A := fun s => (Ok (f s), s).
Definition lift {S E A : Type} (r : result E A) : STE S E A := fun s => (r, s).

(** [if err := m; err != nil { log }]: the error is seen, not propagated. *)
Definition try {S E A : Type} (m : STE S E A) : STE S E (option E) := fun s =>
  match m s with
  | (Ok _, s') => (Ok None, s')
  | (Err e, s') => (Ok (Some e), s')
  | (Panic, s') => (Panic, s')
  end.

(** The outcome as a value: [inl] the result, [inr] the error. *)
Definition catch {S E A : Type} (m : STE S E A) : STE S E (A + E) := fun s =>
  match m s with
  | (Ok a, s') => (Ok (inl a), s')
  | (Err e, s') => (Ok (inr e), s')
  | (Panic, s') => (Panic, s')
  end.

Definition ewhen {S E : Type} (b : bool) (m : STE S E unit) : STE S E unit :=
  if b then m else mret tt.

(** [Pres R m]: every outcome of [m], error and panic included, leaves a state
    related by [R] to the one it started from.  For a preorder [R] instance
    search composes it along the structure of a method, so that a component
    being unchanged ([R] its equality), an invariant being kept or a counter
    only growing is proved at the leaves. *)
Class Pres {S E A : Type} (R : S → S → Prop) (m : STE S E A) : Prop :=
  pres : ∀ s, R s (snd (m s)).
#[global] Hint Mode Pres ! - - ! ! : typeclass_instances.

Section Pres.
Context {S E : Type} (R : S → S → Prop) `{HR : !PreOrder R}.

#[global] Instance pres_ret {A} (a : A) : Pres R (mret a : STE S E A).
Proof. intros s. reflexivity. Qed.
#[global] Instance pres_fail {A} (e : E) : Pres R (fail e : STE S E A).
Proof. intros s. reflexivity. Qed.
#[global] Instance pres_lift {A} (r : result E A) : Pres R (lift r : STE S E A).
Proof. intros s. reflexivity. Qed.
#[global] Instance pres_egets {A} (f : S → A) : Pres R (egets f : STE S E A).
Proof. intros s. reflexivity. Qed.

#[global] Instance pres_bind {A B} (m : STE S E A) (k : A → STE S E B) :
  Pres R m → (∀ a, Pres R (k a)) → Pres R (m ≫= k).
Proof.
  intros Hm Hk s. unfold mbind, ste_bind. specialize (Hm s).
  destruct (m s) as [[a|e|] s']; cbn in *; [|done..].
  specialize (Hk a s'). by etransitivity.
Qed.

#[global] Instance pres_try {A} (m : STE S E A) : Pres R m → Pres R (try m).
Proof. intros Hm s. specialize (Hm s). unfold try. by destruct (m s) as [[] ?]. Qed.

#[global] Instance pres_catch {A} (m : STE S E A) : Pres R m → Pres R (catch m).
Proof. intros Hm s. specialize (Hm s). unfold catch. by destruct (m s) as [[] ?]. Qed.

#[global] Instance pres_if {A} (b : bool) (m1 m2 : STE S E A) :
  Pres R m1 → Pres R m2 → Pres R (if b then m1 else m2).
Proof. by destruct b. Qed.
#[global] Instance pres_ewhen (b : bool) (m : STE S E unit) : Pres R m → Pres R (ewhen b m).
Proof. intros; unfold ewhen; destruct b; [done|]. intros s. reflexivity. Qed.
#[global] Instance pres_option {A B} (o : option A) (m1 : A → STE S E B) (m2 : STE S E B) :
  (∀ a, Pres R (m1 a)) → Pres R m2 →
  Pres R (match o with Some a => m1 a | None => m2 end).
Proof. by destruct o. Qed.
#[global] Instance pres_sum {A B C} (o : A + B) (m1 : A → STE S E C) (m2 : B → STE S E C) :
  (∀ a, Pres R (m1 a)) → (∀ b, Pres R (m2 b)) →
  Pres R (match o with inl a => m1 a | inr b => m2 b end).
Proof. by destruct o. Qed.
#[global] Instance pres_result {A B F} (o : result F A) (m1 : A → STE S E B) (m2 : F → STE S E B)
    (m3 : STE S E B) :
  (∀ a, Pres R (m1 a)) → (∀ e, Pres R (m2 e)) → Pres R m3 →
  Pres R (match o with Ok a => m1 a | Err e => m2 e | Panic => m3 end).
Proof. by destruct o. Qed.
#[global] Instance pres_pair {A B C} (p : A * B) (m : A → B → STE S E C) :
  (∀ a b, Pres R (m a b)) → Pres R (let '(a, b) := p in m a b).
Proof. by destruct p. Qed.

Lemma pres_ret_bind {A B} (a : A) (k : A → STE S E B) : Pres R (k a) → Pres R (mret a ≫= k).
Proof. intros H s. exact (H s). Qed.

Lemma pres_emodify (g : S → S) : (∀ s, R s (g s)) → Pres R (emodify g : STE S E unit).
Proof. intros H s. apply H. Qed.
End Pres.

(** "The component [f] is unchanged", and "the invariant [P] is kept". *)
Definition same {S T : Type} (f : S → T) (s s' : S) : Prop := f s' = f s.
Definition keeps {S : Type} (P : S → Prop) (s s' : S) : Prop := P s → P s'.
#[global] Instance same_preorder {S T} (f : S → T) : PreOrder (same f).
Proof. split; unfold same; [done|intros ?????; congruence]. Qed.
#[global] Instance keeps_preorder {S} (P : S → Prop) : PreOrder (keeps P).
Proof. split; unfold keeps; [by intros ?|by auto]. Qed.

#[global] Hint Extern 1 (Pres (same _) (emodify _)) =>
  (apply pres_emodify; intros; exact eq_refl) : typeclass_instances.

(** [Safe m]: [m] does not panic.  [Total m]: it returns normally. *)
Class Safe {S E A : Type} (m : STE S E A) : Prop := safe : ∀ s, fst (m s) ≠ Panic.
Class Total {S E A : Type} (m : STE S E A) : Prop := total : ∀ s, ∃ a, fst (m s) = Ok a.
#[global] Hint Mode Safe - - - ! : typeclass_instances.
#[global] Hint Mode Total - - - ! : typeclass_instances.

Section Outcomes.
Context {S E : Type}.

#[global] Instance safe_ret {A} (a : A) : Safe (mret a : STE S E A).
Proof. done. Qed.
#[global] Instance safe_fail {A} (e : E) : Safe (fail e : STE S E A).
Proof. done. Qed.
#[global] Instance safe_egets {A} (f : S → A) : Safe (egets f : STE S E A).
Proof. done. Qed.
#[global] Instance safe_emodify (f : S → S) : Safe (emodify f : STE S E unit).
Proof. done. Qed.
#[global] Instance safe_bind {A B} (m : STE S E A) (k : A → STE S E B) :
  Safe m → (∀ a, Safe (k a)) → Safe (m ≫= k).
Proof.
  intros Hm Hk s. unfold mbind, ste_bind. specialize (Hm s).
  destruct (m s) as [[a|e|] s']; cbn in *; [apply Hk|done|done].
Qed.
#[global] Instance safe_if {A} (b : bool) (m1 m2 : STE S E A) :
  Safe m1 → Safe m2 → Safe (if b then m1 else m2).
Proof. by destruct b. Qed.
#[global] Instance safe_ewhen (b : bool) (m : STE S E unit) : Safe m → Safe (ewhen b m).
Proof. by destruct b. Qed.
#[global] Instance safe_option {A B} (o : option A) (m1 : A → STE S E B) (m2 : STE S E B) :
  (∀ a, Safe (m1 a)) → Safe m2 → Safe (match o with Some a => m1 a | None => m2 end).
Proof. by destruct o. Qed.
#[global] Instance safe_pair {A B C} (p : A * B) (m : A → B → STE S E C) :
  (∀ a b, Safe (m a b)) → Safe (let '(a, b) := p in m a b).
Proof. by destruct p. Qed.

#[global] Instance total_ret {A} (a : A) : Total (mret a : STE S E A).
Proof. by eexists. Qed.
#[global] Instance total_egets {A} (f : S → A) : Total (egets f : STE S E A).
Proof. by eexists. Qed.
#[global] Instance total_emodify (f : S → S) : Total (emodify f : STE S E unit).
Proof. by eexists. Qed.
#[global] Instance total_bind {A B} (m : STE S E A) (k : A → STE S E B) :
  Total m → (∀ a, Total (k a)) → Total (m ≫= k).
Proof.
  intros Hm Hk s. unfold mbind, ste_bind. destruct (Hm s) as [a Ha].
  destruct (m s) as [? s']. cbn in *. subst. apply Hk.
Qed.
#[global] Instance total_try {A} (m : STE S E A) : Safe m → Total (try m).
Proof. intros Hm s. specialize (Hm s). unfold try.
  destruct (m s) as [[a|e|] ?]; cbn in *; [by eexists..|done].
Qed.
#[global] Instance total_if {A} (b : bool) (m1 m2 : STE S E A) :
  Total m1 → Total m2 → Total (if b then m1 else m2).
Proof. by destruct b. Qed.
#[global] Instance total_ewhen (b : bool) (m : STE S E unit) : Total m → Total (ewhen b m).
Proof. destruct b; [done|]. intros _ s. by eexists. Qed.
#[global] Instance total_option {A B} (o : option A) (m1 : A → STE S E B) (m2 : STE S E B) :
  (∀ a, Total (m1 a)) → Total m2 → Total (match o with Some a => m1 a | None => m2 end).
Proof. by destruct o. Qed.
#[global] Instance total_pair {A B C} (p : A * B) (m : A → B → STE S E C) :
  (∀ a b, Total (m a b)) → Total (let '(a, b) := p in m a b).
Proof. by destruct p. Qed.
End Outcomes.

(** ** Lists *)

Section Filter.
Context {A : Type} (P Q : A → Prop) `{HPd : !∀ x, Decision (P x)} `{HQd : !∀ x, Decision (Q x)}.
Implicit Types l : list A.

Lemma filter_all l : (∀ x, x ∈ l → P x) → filter P l = l.
Proof.
  induction l as [|x l IH]; intros H; [done|]. rewrite filter_cons_True by (apply H; left).
  f_equal. apply IH. intros y Hy. apply H. by right.
Qed.

Lemma filter_none l : (∀ x, x ∈ l → ¬ P x) → filter P l = [].
Proof.
  induction l as [|x l IH]; intros H; [done|]. rewrite filter_cons_False by (apply H; left).
  apply IH. intros y Hy. apply H. by right.
Qed.

Lemma filter_length_mono l :
  (∀ x, x ∈ l → P x → Q x) → (length (filter P l) ≤ length (filter Q l))%nat.
Proof.
  induction l as [|x l IH]; intros H; [done|]. rewrite !filter_cons.
  assert (length (filter P l) ≤ length (filter Q l))%nat.
  { apply IH. intros y Hy. apply H. by right. }
  assert (P x → Q x) by (apply H; left). repeat case_decide; cbn; try lia. tauto.
Qed.

Lemma filter_ext_elem l : (∀ x, x ∈ l → P x ↔ Q x) → filter P l = filter Q l.
Proof.
  induction l as [|x l IH]; intros H; [done|]. rewrite !filter_cons.
  assert (P x ↔ Q x) by (apply H; left). rewrite IH by (intros y Hy; apply H; by right).
  repeat case_decide; tauto || done.
Qed.
End Filter.

(** [Forall] of what a boolean guards. *)
Lemma Forall_when {A} (f : A → bool) (P : A → Prop) (l : list A) :
  Forall (λ x, f x = true → P x) l → forallb f l = true → Forall P l.
Proof.
  induction 1 as [|x l Hx _ IH]; cbn; [constructor|]. intros [H1 H2]%andb_true_iff. constructor; auto.
Qed.

Lemma omap_ext_elem {A B} (f g : A → option B) (l : list A) :
  (∀ x, x ∈ l → f x = g x) → omap f l = omap g l.
Proof.
  induction l as [|x l IH]; intros H; [done|]. cbn. rewrite (H x) by left.
  rewrite IH; [done|]. intros y Hy. apply H. by right.
Qed.

(** ** State-and-error methods *)

Lemma ste_step {S E A B} (m : STE S E A) (k : A → STE S E B) s a s' :
  m s = (Ok a, s') → (m ≫= k) s = k a s'.
Proof. intros H. unfold mbind, ste_bind. by rewrite H. Qed.
Lemma ste_panic {S E A B} (m : STE S E A) (k : A → STE S E B) s s' :
  m s = (Panic, s') → (m ≫= k) s = (Panic, s').
Proof. intros H. unfold mbind, ste_bind. by rewrite H. Qed.
Lemma ste_err {S E A B} (m : STE S E A) (k : A → STE S E B) s e s' :
  m s = (Err e, s') → (m ≫= k) s = (Err e, s').
Proof. intros H. unfold mbind, ste_bind. by rewrite H. Qed.

Lemma ste_assoc {S E A B C} (m : STE S E A) (k : A → STE S E B) (k' : B → STE S E C) s :
  ((m ≫= k) ≫= k') s = (m ≫= λ a, k a ≫= k') s.
Proof. unfold mbind, ste_bind. by destruct (m s) as [[] ?]. Qed.

(** [returns m s Q]: if [m] returns normally from [s], [Q] holds of its result
    and of the state it leaves. *)
Definition returns {S E A} (m : STE S E A) (s : S) (Q : A → S → Prop) : Prop :=
  ∀ a s', m s = (Ok a, s') → Q a s'.

Lemma returns_ret {S E A} (a : A) (s : S) (Q : A → S → Prop) :
  Q a s → returns (mret a : STE S E A) s Q.
Proof. intros H a' s' [= <- <-]. done. Qed.
Lemma returns_fail {S E A} (e : E) (s : S) (Q : A → S → Prop) : returns (fail e : STE S E A) s Q.
Proof. by intros ? ?. Qed.
Lemma returns_bind {S E A B} (m : STE S E A) (k : A → STE S E B) (s : S) Q :
  returns m s (λ a s', returns (k a) s' Q) → returns (m ≫= k) s Q.
Proof.
  intros H b s'. unfold mbind, ste_bind. destruct (m s) as [[a|e|] s1] eqn:Em; [|done..].
  apply (H _ _ Em).
Qed.
Lemma returns_impl {S E A} (m : STE S E A) (s : S) (P Q : A → S → Prop) :
  returns m s P → (∀ a s', P a s' → Q a s') → returns m s Q.
Proof. intros H HPQ a s' Em. by apply HPQ, H. Qed.
Lemma returns_pres {S E A} (R : S → S → Prop) (m : STE S E A) (s : S) :
  Pres R m → returns m s (λ _ s', R s s').
Proof. intros H a s' Em. specialize (H s). by rewrite Em in H. Qed.

(** [wp m Q E s]: from [s], [m] does not panic; if it returns, [Q] holds of the
    result and the state it leaves, if it fails, [E] of the error and the
    state.  The rules below follow the structure of a method. *)
Definition wp {S E A} (m : STE S E A) (Q : A → S → Prop) (F : E → S → Prop) (s : S) : Prop :=
  match m s with (Ok a, s') => Q a s' | (Err e, s') => F e s' | (Panic, _) => False end.

#[global] Arguments wp : simpl never.

Lemma wp_ret {S E A} (a : A) (s : S) Q (F : E → S → Prop) : Q a s → wp (mret a) Q F s.
Proof. done. Qed.
Lemma wp_fail {S E A} (e : E) (s : S) (Q : A → S → Prop) F : F e s → wp (fail e) Q F s.
Proof. done. Qed.
Lemma wp_egets {S E A} (f : S → A) (s : S) Q (F : E → S → Prop) : Q (f s) s → wp (egets f) Q F s.
Proof. done. Qed.
Lemma wp_emodify {S E} (f : S → S) (s : S) Q (F : E → S → Prop) : Q tt (f s) → wp (emodify f) Q F s.
Proof. done. Qed.
Lemma wp_bind {S E A B} (m : STE S E A) (k : A → STE S E B) (s : S) Q F :
  wp m (λ a, wp (k a) Q F) F s → wp (m ≫= k) Q F s.
Proof. unfold wp, mbind, ste_bind. by destruct (m s) as [[] ?]. Qed.
Lemma wp_try {S E A} (m : STE S E A) (s : S) Q F :
  wp m (λ _, Q None) (λ e, Q (Some e)) s → wp (try m) Q F s.
Proof. unfold wp, try. by destruct (m s) as [[] ?]. Qed.
Lemma wp_catch {S E A} (m : STE S E A) (s : S) Q F :
  wp m (λ a, Q (inl a)) (λ e, Q (inr e)) s → wp (catch m) Q F s.
Proof. unfold wp, catch. by destruct (m s) as [[] ?]. Qed.
Lemma wp_ext {S E A} (m m' : STE S E A) (Q : A → S → Prop) (F : E → S → Prop) s :
  m s = m' s → wp m' Q F s → wp m Q F s.
Proof. unfold wp. by intros ->. Qed.
Lemma wp_mono {S E A} (m : STE S E A) (s : S) (Q Q' : A → S → Prop) (F F' : E → S → Prop) :
  wp m Q F s → (∀ a s', Q a s' → Q' a s') → (∀ e s', F e s' → F' e s') → wp m Q' F' s.
Proof. unfold wp. destruct (m s) as [[] ?]; auto. Qed.
Lemma wp_ewhen {S E} (b : bool) (m : STE S E unit) (s : S) Q F :
  (b = true → wp m Q F s) → (b = false → Q tt s) → wp (ewhen b m) Q F s.
Proof. destruct b; unfold ewhen; [auto|]. intros _ H. apply wp_ret, H, eq_refl. Qed.
Lemma wp_safe {S E A} (R : S → S → Prop) (m : STE S E A) (s : S) :
  Safe m → Pres R m → wp m (λ _, R s) (λ _, R s) s.
Proof.
  intros Hs Hp. specialize (Hs s). specialize (Hp s). unfold wp.
  by destruct (m s) as [[] ?].
Qed.

(** ** Tactics *)

#[global] Arguments Nat.ltb : simpl never.
#[global] Arguments Nat.leb : simpl never.
#[global] Arguments Nat.eqb : simpl never.

(** [lia] with Euclidean division equations for [/] and [mod] by constants. *)
Ltac zlia := Z.to_euclidean_division_equations; lia.

(** Reflect the boolean comparisons on [Z] and [nat] in the context. *)
Ltac zbool :=
  repeat match goal with
  | H : (_ && _)%bool = true |- _ => apply andb_true_iff in H; destruct H
  | H : (_ || _)%bool = false |- _ => apply orb_false_iff in H; destruct H
  | H : negb _ = true |- _ => apply negb_true_iff in H
  | H : negb _ = false |- _ => apply negb_false_iff in H
  | H : (_ <? _)%nat = true |- _ => apply Nat.ltb_lt in H
  | H : (_ <? _)%nat = false |- _ => apply Nat.ltb_ge in H
  | H : (_ <=? _)%nat = true |- _ => apply Nat.leb_le in H
  | H : (_ <=? _)%nat = false |- _ => apply Nat.leb_gt in H
  | H : (_ =? _)%nat = true |- _ => apply Nat.eqb_eq in H
  | H : (_ =? _)%nat = false |- _ => apply Nat.eqb_neq in H
  | H : (_ <? _) = true |- _ => apply Z.ltb_lt in H
  | H : (_ <? _) = false |- _ => apply Z.ltb_ge in H
  | H : (_ <=? _) = true |- _ => apply Z.leb_le in H
  | H : (_ <=? _) = false |- _ => apply Z.leb_gt in H
  | H : (_ =? _) = true |- _ => apply Z.eqb_eq in H
  | H : (_ =? _) = false |- _ => apply Z.eqb_neq in H
  end.

(** Case analysis on the first [if]/[match] scrutinee of the goal. *)
Ltac case_if :=
  match goal with
  | |- context [if ?b then _ else _] =>
      lazymatch type of b with bool => idtac end;
      lazymatch b with
      | context [if _ then _ else _] => fail
      | _ => let H := fresh "Hif" in destruct b eqn:H
      end
  end.

Ltac invc H := inversion H; subst; clear H.

(** One rule of [wp] for the primitive steps. *)
Ltac wp_step :=
  cbv beta;
  lazymatch goal with
  | |- wp (_ ≫= _) _ _ _ => apply wp_bind
  | |- wp (mret _) _ _ _ => apply wp_ret
  | |- wp (fail _) _ _ _ => apply wp_fail
  | |- wp (egets _) _ _ _ => apply wp_egets
  | |- wp (emodify _) _ _ _ => apply wp_emodify
  | |- wp (try _) _ _ _ => apply wp_try
  | |- wp (catch _) _ _ _ => apply wp_catch
  end.

(** A closed equation, by evaluating both sides in the kernel's virtual
    machine (without reading back a normal form). *)
Ltac vmeq := lazymatch goal with |- ?a = ?b => vm_cast_no_check (eq_refl b) end.
