(* ===== verification/GoInt.v ===== *)
(** * Go's machine integers, byte slices and instants

    Fixed-width integers are [Z] with the wrap-around of every operation
    written out; bytes are [Init.Byte.byte]; [BigEndian] is the part of
    encoding/binary the packet format uses; slices panic out of range;
    [time.Time] is a number of nanoseconds (0 is the zero time) and
    [time.Duration] an int64. *)

From S2P Require Import Prelude.
From Stdlib Require Import Strings.Byte.

Create Rewrite HintDb u32.

(** ** Conversions to the fixed-width types *)

Definition u8 (z : Z) : Z := z mod 256.
Definition u16 (z : Z) : Z := z mod 65536.
Definition u32 (z : Z) : Z := z mod 4294967296.
Definition u64 (z : Z) : Z := z mod 18446744073709551616.

(** Two's complement reading of a w-bit word. *)
Definition i32 (z : Z) : Z :=
  let m := z mod 4294967296 in if m <? 2147483648 then m else m - 4294967296.
Definition i64 (z : Z) : Z :=
  let m := z mod 18446744073709551616 in
  if m <? 9223372036854775808 then m else m - 18446744073709551616.

Abbreviation is_u8 z := (0 <= z < 256).
Abbreviation is_u16 z := (0 <= z < 65536).
Abbreviation is_u32 z := (0 <= z < 4294967296).
Abbreviation is_u64 z := (0 <= z < 18446744073709551616).
Abbreviation is_i64 z := (-9223372036854775808 <= z < 9223372036854775808).

(** Arithmetic modulo 2^32, the type of stream sequence numbers. *)
Notation "a +% b" := (u32 (a + b)) (at level 50, left associativity) : go_scope.
Notation "a -% b" := (u32 (a - b)) (at level 50, left associativity) : go_scope.

(** ** Bytes and big-endian words *)

#[export] Instance byte_eq_decision : EqDecision byte := Byte.byte_eq_dec.

Definition byte_of_Z (z : Z) : byte :=
  match Byte.of_N (Z.to_N (z mod 256)) with Some b => b | None => x00 end.
Definition Z_of_byte (b : byte) : Z := Z.of_N (Byte.to_N b).

Fixpoint be_put (n : nat) (z : Z) : list byte :=
  match n with
  | O => []
  | S n => byte_of_Z (z / 256 ^ Z.of_nat n) :: be_put n z
  end.

Definition be_get (bs : list byte) : Z :=
  foldl (λ acc b, acc * 256 + Z_of_byte b) 0 bs.

(** [binary.BigEndian.PutUint16/PutUint32] into a fresh array. *)
Definition PutUint16 (v : Z) : list byte := be_put 2 v.
Definition PutUint32 (v : Z) : list byte := be_put 4 v.

#[global] Arguments PutUint16 : simpl never.
#[global] Arguments PutUint32 : simpl never.

(** ** Slices *)

Section Slices.
Context {E : Type}.

(** [data[i]] *)
Definition index (data : list byte) (i : nat) : result E byte :=
  match data !! i with Some b => Ok b | None => Panic end.

(** [data[i:]] *)
Definition slice_from (data : list byte) (i : nat) : result E (list byte) :=
  if decide (i ≤ length data)%nat then Ok (drop i data) else Panic.

(** [data[i:j]]; the source only slices below the length. *)
Definition slice (data : list byte) (i j : nat) : result E (list byte) :=
  if decide (i ≤ j ≤ length data)%nat then Ok (take (j - i) (drop i data)) else Panic.

(** [binary.BigEndian.Uint16(b)] and [Uint32(b)] check the bound first. *)
Definition BigEndian_Uint (n : nat) (b : list byte) : result E Z :=
  if decide (n ≤ length b)%nat then Ok (be_get (take n b)) else Panic.
Definition Uint16 : list byte → result E Z := BigEndian_Uint 2.
Definition Uint32 : list byte → result E Z := BigEndian_Uint 4.
End Slices.

#[global] Arguments Uint16 : simpl never.
#[global] Arguments Uint32 : simpl never.
#[global] Arguments slice : simpl never.
#[global] Arguments slice_from : simpl never.
#[global] Arguments index : simpl never.

(** ** Instants and durations *)

Definition Nanosecond : Z := 1.
Definition Millisecond : Z := 1000000.
Definition Second : Z := 1000000000.
Definition Minute : Z := 60 * Second.
Definition Hour : Z := 60 * Minute.

Definition minDuration : Z := -9223372036854775808.
Definition maxDuration : Z := 9223372036854775807.

(** [t.Sub(u)] saturates at the bounds of int64. *)
Definition time_Sub (t u : Z) : Z := Z.max minDuration (Z.min maxDuration (t - u)).
Definition time_Add (t d : Z) : Z := t + d.
Definition time_After (t u : Z) : bool := u <? t.
Definition time_Before (t u : Z) : bool := t <? u.
Definition time_IsZero (t : Z) : bool := t =? 0.

(** ** Lemmas on words *)

Lemma u16_small z : is_u16 z → u16 z = z.
Proof. unfold u16; zlia. Qed.
Lemma u32_small z : is_u32 z → u32 z = z.
Proof. unfold u32; zlia. Qed.
Lemma u32_range z : is_u32 (u32 z).
Proof. unfold u32; zlia. Qed.
Lemma u16_range z : is_u16 (u16 z).
Proof. unfold u16; zlia. Qed.
Lemma u64_range z : is_u64 (u64 z).
Proof. unfold u64; zlia. Qed.
Lemma u32_idemp z : u32 (u32 z) = u32 z.
Proof. apply u32_small, u32_range. Qed.
Lemma u32_add_l a b : u32 (u32 a + b) = u32 (a + b).
Proof. unfold u32. apply Z.add_mod_idemp_l; lia. Qed.
Lemma u32_add_r a b : u32 (a + u32 b) = u32 (a + b).
Proof. unfold u32. apply Z.add_mod_idemp_r; lia. Qed.
Lemma u32_sub_l a b : u32 (u32 a - b) = u32 (a - b).
Proof. unfold u32. apply Zminus_mod_idemp_l. Qed.
Lemma u32_sub_r a b : u32 (a - u32 b) = u32 (a - b).
Proof. unfold u32. apply Zminus_mod_idemp_r. Qed.
Lemma i64_small z : is_i64 z → i64 z = z.
Proof. unfold i64. intros. cbv zeta. case_if; zbool; zlia. Qed.
Lemma i64_range z : is_i64 (i64 z).
Proof. unfold i64. cbv zeta. case_if; zbool; zlia. Qed.

#[export] Hint Resolve u16_range u32_range u64_range i64_range : go.
#[export] Hint Rewrite u32_add_l u32_add_r u32_sub_l u32_sub_r u32_idemp : u32.

(** ** Lemmas on bytes *)

Lemma Z_of_byte_range b : 0 <= Z_of_byte b < 256.
Proof. unfold Z_of_byte. pose proof (Byte.to_N_bounded b). lia. Qed.

Lemma Z_of_byte_of_Z z : Z_of_byte (byte_of_Z z) = z mod 256.
Proof.
  unfold Z_of_byte, byte_of_Z.
  pose proof (Z.mod_pos_bound z 256 ltac:(lia)) as Hz.
  pose proof (Byte.to_of_N_option_map (Z.to_N (z mod 256))) as H.
  destruct (Byte.of_N (Z.to_N (z mod 256))) as [b|] eqn:E; cbn in H.
  - destruct (Z.to_N (z mod 256) <=? 255)%N; [|done]. injection H as ->. lia.
  - destruct (N.leb_spec (Z.to_N (z mod 256)) 255); [done|lia].
Qed.

Lemma byte_of_Z_of_byte b : byte_of_Z (Z_of_byte b) = b.
Proof.
  unfold byte_of_Z. rewrite Z.mod_small by apply Z_of_byte_range.
  unfold Z_of_byte. rewrite N2Z.id, Byte.of_to_N. done.
Qed.

Lemma Z_of_byte_inj a b : Z_of_byte a = Z_of_byte b → a = b.
Proof. intros H. rewrite <-(byte_of_Z_of_byte a), H. apply byte_of_Z_of_byte. Qed.

Lemma byte_of_Z_mod z : byte_of_Z (z mod 256) = byte_of_Z z.
Proof. unfold byte_of_Z. by rewrite Zmod_mod. Qed.

Lemma length_be_put n z : length (be_put n z) = n.
Proof. induction n; cbn [be_put length]; congruence. Qed.

Lemma be_get_acc bs acc :
  foldl (λ acc b, acc * 256 + Z_of_byte b) acc bs
  = acc * 256 ^ Z.of_nat (length bs) + be_get bs.
Proof.
  unfold be_get. revert acc. induction bs as [|b bs IH]; intros acc; cbn [foldl length].
  - change (256 ^ Z.of_nat 0) with 1. lia.
  - rewrite IH, (IH (0 * 256 + _)), Nat2Z.inj_succ, Z.pow_succ_r by lia. lia.
Qed.

Lemma be_get_cons b bs :
  be_get (b :: bs) = Z_of_byte b * 256 ^ Z.of_nat (length bs) + be_get bs.
Proof. unfold be_get at 1; cbn [foldl]. rewrite be_get_acc. lia. Qed.

Lemma be_get_range bs : 0 <= be_get bs < 256 ^ Z.of_nat (length bs).
Proof.
  induction bs as [|b bs IH]; [cbn; lia|].
  rewrite be_get_cons. cbn [length]. rewrite Nat2Z.inj_succ, Z.pow_succ_r by lia.
  pose proof (Z_of_byte_range b). nia.
Qed.

Lemma be_get_put n z : be_get (be_put n z) = z mod 256 ^ Z.of_nat n.
Proof.
  induction n as [|n IH]; [cbn [be_put]; by rewrite Z.mod_1_r|].
  cbn [be_put]. rewrite be_get_cons, length_be_put, IH, Z_of_byte_of_Z.
  rewrite Nat2Z.inj_succ, Z.pow_succ_r by lia.
  set (p := 256 ^ Z.of_nat n). assert (0 < p) by (unfold p; lia).
  rewrite (Z.mul_comm 256 p), Z.rem_mul_r by lia. lia.
Qed.

Lemma be_put_mod n z m : (n ≤ m)%nat → be_put n (z mod 256 ^ Z.of_nat m) = be_put n z.
Proof.
  induction n as [|n IH]; intros Hnm; [done|]. cbn [be_put].
  rewrite IH by lia. f_equal.
  rewrite <-(byte_of_Z_mod (z / _)), <-byte_of_Z_mod. f_equal.
  replace (Z.of_nat m) with (Z.of_nat n + (1 + (Z.of_nat m - Z.of_nat n - 1))) by lia.
  rewrite !Z.pow_add_r by lia. change (256 ^ 1) with 256.
  set (p := 256 ^ Z.of_nat n). set (q := 256 ^ (_ - _ - 1)).
  assert (0 < p) by (unfold p; lia). assert (0 < q) by (unfold q; lia).
  rewrite Z.rem_mul_r by nia.
  rewrite Z.mul_comm, Z.div_add by lia. rewrite (Z.div_small (z mod p)) by zlia.
  rewrite Z.add_0_l, Z.rem_mul_r by lia.
  rewrite Z.mul_comm, Z.mod_add by lia. by rewrite Zmod_mod.
Qed.

Lemma be_put_get bs : be_put (length bs) (be_get bs) = bs.
Proof.
  induction bs as [|b bs IH]; [done|]. cbn [length be_put].
  pose proof (be_get_range bs). rewrite be_get_cons.
  set (p := 256 ^ Z.of_nat (length bs)) in *. f_equal.
  - rewrite Z.div_add_l, Z.div_small, Z.add_0_r by lia. apply byte_of_Z_of_byte.
  - rewrite <-(be_put_mod _ _ (length bs)) by lia. fold p.
    rewrite Z.add_comm, Z.mod_add, Z.mod_small by lia. done.
Qed.

#[export] Instance byte_countable : Countable byte :=
  inj_countable Byte.to_N Byte.of_N Byte.of_to_N.
