(* ===== verification/SeqNum.v ===== *)
(** * Sequence-number arithmetic (stream.go)

    The comparison helpers every part of a connection uses on 32-bit packet
    sequence numbers that wrap around, and the facts that justify them: on
    numbers less than 2^31 apart they agree with the order of the unwrapped
    counters. *)

From S2P Require Import Prelude GoInt.

Definition seqLessThan (a b : Z) : bool := i32 (a -% b) <? 0.
Definition seqLessThanOrEqual (a b : Z) : bool := (a =? b) || seqLessThan a b.
Definition seqGreaterThan (a b : Z) : bool := 0 <? i32 (a -% b).
Definition seqGreaterThanOrEqual (a b : Z) : bool := (a =? b) || seqGreaterThan a b.
Definition seqDiff (a b : Z) : Z := b -% a.

(** ** Characterisations by the forward distance [b - a] modulo 2^32 *)

Lemma seqLessThan_dist a b :
  seqLessThan a b = true ↔ 0 < b -% a <= 2147483648.
Proof.
  unfold seqLessThan, i32, u32. rewrite Z.ltb_lt. cbv zeta.
  case_if; zbool; zlia.
Qed.

Lemma seqGreaterThan_dist a b :
  seqGreaterThan a b = true ↔ 0 < a -% b < 2147483648.
Proof.
  unfold seqGreaterThan, i32, u32. rewrite Z.ltb_lt. cbv zeta.
  case_if; zbool; zlia.
Qed.

Lemma seqGreaterThan_LessThan a b : seqGreaterThan a b = true → seqLessThan b a = true.
Proof. rewrite seqGreaterThan_dist, seqLessThan_dist. lia. Qed.

Lemma seqLessThan_irrefl a : seqLessThan a a = false.
Proof. unfold seqLessThan. by rewrite Z.sub_diag. Qed.

(** ** Unwrapped counters

    [u32 (base + i)] is the sequence number of the [i]-th packet after
    [base]; within half the space the helpers decide the order of [i]. *)

Lemma seqLessThan_unwrap base i j :
  -2147483648 < i - j < 2147483648 →
  seqLessThan (base +% i) (base +% j) = (i <? j).
Proof.
  intros Hd. apply eq_iff_eq_true. rewrite seqLessThan_dist, Z.ltb_lt.
  unfold u32. zlia.
Qed.

Lemma seqGreaterThan_unwrap base i j :
  -2147483648 < i - j < 2147483648 →
  seqGreaterThan (base +% i) (base +% j) = (j <? i).
Proof.
  intros Hd. apply eq_iff_eq_true. rewrite seqGreaterThan_dist, Z.ltb_lt.
  unfold u32. zlia.
Qed.

Lemma seq_unwrap_inj base i j :
  -4294967296 < i - j < 4294967296 → base +% i = base +% j → i = j.
Proof. unfold u32. zlia. Qed.

Lemma seq_unwrap_eqb base i j :
  -4294967296 < i - j < 4294967296 → (base +% i =? base +% j) = (i =? j).
Proof.
  intros Hd. apply eq_iff_eq_true. rewrite !Z.eqb_eq. split; [|congruence].
  by apply seq_unwrap_inj.
Qed.

(** Distinct words are ordered exactly one way, except the antipodal pair. *)
Lemma seqLessThan_trichotomy a b :
  is_u32 a → is_u32 b → a ≠ b → b -% a ≠ 2147483648 →
  seqLessThan a b = negb (seqLessThan b a).
Proof.
  intros Ha Hb Hne Hanti. apply eq_iff_eq_true.
  rewrite negb_true_iff, <-not_true_iff_false, !seqLessThan_dist.
  unfold u32 in *. zlia.
Qed.

Lemma seqDiff_spec a b : is_u32 a → is_u32 b → a +% seqDiff a b = b.
Proof. intros. unfold seqDiff. rewrite u32_add_r. unfold u32. zlia. Qed.
