(* ===== verification/I2CP.v ===== *)
(** * The I2CP libraries, as the streaming code sees them

    go-i2cp's [Destination], key pairs and signature check and go-i2p's
    certificate parser are third-party code: their operations are the fields
    of a type class, the documented behaviour the packet code relies on is a
    second class of laws, and every definition of the development is
    parametric in both.  [ConcreteI2CP] is one instance, for evaluation. *)

From S2P Require Import Prelude GoInt.
From Stdlib Require Import Strings.Byte.

Abbreviation bytes := (list byte).

Class I2CP := {
  Destination : Type;
  (** Bytes [dest.WriteToMessage(stream)] and [WriteToStream] append; [None]
      is a non-nil error. *)
  WriteToMessage : Destination → option bytes;
  WriteToStream : Destination → option bytes;
  (** [NewDestinationFromMessage(NewStream(bs), nil)] *)
  NewDestinationFromMessage : bytes → option Destination;
  VerifySignature : Destination → bytes → bytes → bool;
  (** [dest.SigningPublicKey()] then [PublicKey()]; [None] is a nil key. *)
  SigningPublicKey : Destination → option bytes;
  Ed25519KeyPair : Type;
  Sign : Ed25519KeyPair → bytes → option bytes;
  (** go-i2p/common/certificate *)
  Certificate : Type;
  CERT_MIN_SIZE : nat;
  CERT_NULL : Z;
  CERT_KEY : Z;
  ReadCertificate : bytes → option Certificate;
  CertType : Certificate → option Z;
  GetSignatureTypeFromCertificate : Certificate → option Z;
}.

(** The wire form of a destination is self-delimiting: reading it back from
    the front of a longer message yields the destination that was written,
    and no destination has an empty wire form. *)
Class I2CPLaws (I : I2CP) : Prop := {
  destination_roundtrip : ∀ d bs rest,
    WriteToMessage d = Some bs → NewDestinationFromMessage (bs ++ rest) = Some d;
  destination_nonempty : ∀ d, WriteToMessage d ≠ Some [];
}.

(** A key pair belongs to a destination when signatures it makes are 64 bytes
    (Ed25519) and are accepted under that destination. *)
Definition key_of `{I2CP} (kp : Ed25519KeyPair) (d : Destination) : Prop :=
  ∀ data sig, Sign kp data = Some sig → VerifySignature d data sig = true.

(** ** A concrete instance

    Destinations are their 391-byte wire form (encryption key, signing key,
    certificate with the key types of a KEY certificate); signing is a toy keyed
    checksum, enough to satisfy the laws on real inputs. *)

Definition toy_sum (key : bytes) (data : bytes) : bytes :=
  let h := foldl (λ acc b, (acc * 31 + Z_of_byte b) mod 18446744073709551616) 7 (key ++ data) in
  be_put 32 h ++ be_put 32 (h + 1).

Definition toy_key (d : bytes) : bytes := take 32 (drop 256 d).

#[export] Instance ConcreteI2CP : I2CP := {|
  Destination := bytes;
  WriteToMessage := λ d, if decide (length d = 391%nat) then Some d else None;
  WriteToStream := λ d, if decide (length d = 391%nat) then Some d else None;
  NewDestinationFromMessage := λ bs,
    if decide (391 ≤ length bs)%nat then Some (take 391 bs) else None;
  VerifySignature := λ d data sig, bool_decide (sig = toy_sum (toy_key d) data);
  SigningPublicKey := λ d, Some (toy_key d);
  Ed25519KeyPair := bytes;
  Sign := λ k data, Some (toy_sum k data);
  Certificate := bytes;
  CERT_MIN_SIZE := 3;
  CERT_NULL := 0;
  CERT_KEY := 5;
  ReadCertificate := λ bs, if decide (3 ≤ length bs)%nat then Some bs else None;
  CertType := λ c, Z_of_byte <$> head c;
  GetSignatureTypeFromCertificate := λ c, Some (be_get (take 2 (drop 3 c)));
|}.

Lemma ConcreteI2CP_laws : I2CPLaws ConcreteI2CP.
Proof.
  split.
  - intros d bs rest. cbn. case_decide as Hd; [|done]. intros [= <-].
    rewrite length_app. case_decide; [|lia]. by rewrite take_app_length'.
  - intros d. cbn. case_decide as Hd; [|done]. intros [= ->]. done.
Qed.
#[export] Existing Instance ConcreteI2CP_laws.

Lemma toy_key_of d : @key_of ConcreteI2CP (toy_key d) d.
Proof. intros data sig [= <-]. cbn. by rewrite bool_decide_true. Qed.

Lemma toy_sum_length k data : length (toy_sum k data) = 64%nat.
Proof. unfold toy_sum. by rewrite length_app, !length_be_put. Qed.
