(* ===== verification/Packet.v ===== *)
(** * The packet format (packet.go)

    [Packet], its flags, [Marshal] and [Unmarshal] with every helper they are
    made of, in the source's order.  [Marshal] returns an error for each
    inconsistency the code checks; [Unmarshal] is a method on a mutable packet
    whose slice accesses can panic. *)

From S2P Require Import Prelude GoInt I2CP.
From Stdlib Require Import Strings.Byte.

(** ** Flags *)

Definition FlagSYN : Z := Z.shiftl 1 0.
Definition FlagCLOSE : Z := Z.shiftl 1 1.
Definition FlagRESET : Z := Z.shiftl 1 2.
Definition FlagSignatureIncluded : Z := Z.shiftl 1 3.
Definition FlagSignatureRequested : Z := Z.shiftl 1 4.
Definition FlagFromIncluded : Z := Z.shiftl 1 5.
Definition FlagDelayRequested : Z := Z.shiftl 1 6.
Definition FlagMaxPacketSizeIncluded : Z := Z.shiftl 1 7.
Definition FlagProfileInteractive : Z := Z.shiftl 1 8.
Definition FlagECHO : Z := Z.shiftl 1 9.
Definition FlagNoACK : Z := Z.shiftl 1 10.
Definition FlagOfflineSignature : Z := Z.shiftl 1 11.

(** [flags&f != 0] *)
Definition has_flag (flags f : Z) : bool := negb (Z.land flags f =? 0).

#[global] Arguments has_flag : simpl never.

Definition SignatureTypeDSA_SHA1 : Z := 0.
Definition SignatureTypeECDSA_SHA256_P256 : Z := 1.
Definition SignatureTypeECDSA_SHA384_P384 : Z := 2.
Definition SignatureTypeECDSA_SHA512_P521 : Z := 3.
Definition SignatureTypeRSA_SHA256_2048 : Z := 4.
Definition SignatureTypeRSA_SHA384_3072 : Z := 5.
Definition SignatureTypeRSA_SHA512_4096 : Z := 6.
Definition SignatureTypeEd25519 : Z := 7.
Definition SignatureTypeEd25519ph : Z := 8.

Definition DestinationPublicKeySize : nat := 256.
Definition DestinationSigningKeyPadding : nat := 128.

(** The errors of packet.go, one constructor per [fmt.Errorf]. *)
Inductive PacketError :=
| EFromNil
| EEncodeFrom
| ESigLenUnknown
| EOfflineNil
| ETooManyNACKs (n : nat)
| ESigLenMismatch (expected got : nat)
| ETransientKeyMismatch (expected got : nat)
| EDestSigMismatch (expected got : nat)
| ETooShort (got : nat)
| ETooShortNACKs
| ETooShortOptions
| EShortDelay
| EShortMaxPacketSize
| EShortFrom
| EUnmarshalFrom
| ESizeFrom
| ENoSigLen
| EShortSignature
| EShortOfflineHeader
| EUnknownTransientType (t : Z)
| EShortTransientKey
| ENoDestSigLen
| EShortDestSignature.

(** ** The structs *)

Record OfflineSig := MkOfflineSig {
  Expires : Z;
  TransientSigType : Z;
  TransientPublicKey : bytes;
  DestSignature : bytes;
}.
#[export] Instance eta_OfflineSig : Eta OfflineSig := λ o,
  MkOfflineSig (Expires o) (TransientSigType o) (TransientPublicKey o) (DestSignature o).
#[export] Instance set_Expires : Setter Expires := ltac:(derive_setter).
#[export] Instance set_TransientSigType : Setter TransientSigType := ltac:(derive_setter).
#[export] Instance set_TransientPublicKey : Setter TransientPublicKey := ltac:(derive_setter).
#[export] Instance set_DestSignature : Setter DestSignature := ltac:(derive_setter).

Definition empty_OfflineSig : OfflineSig := MkOfflineSig 0 0 [] [].

Section Packet.
Context {I : I2CP}.

Record Packet := MkPacket {
  SendStreamID : Z;
  RecvStreamID : Z;
  SequenceNum : Z;
  AckThrough : Z;
  Flags : Z;
  NACKs : list Z;
  OptionalDelay : Z;
  ResendDelay : Z;
  MaxPacketSize : Z;
  FromDestination : option Destination;
  Signature : bytes;
  OfflineSignature : option OfflineSig;
  Payload : bytes;
}.

(** [&Packet{}] *)
Definition empty_Packet : Packet := MkPacket 0 0 0 0 0 [] 0 0 0 None [] None [].

#[global] Instance eta_Packet : Eta Packet := λ p,
  MkPacket (SendStreamID p) (RecvStreamID p) (SequenceNum p) (AckThrough p) (Flags p)
    (NACKs p) (OptionalDelay p) (ResendDelay p) (MaxPacketSize p) (FromDestination p)
    (Signature p) (OfflineSignature p) (Payload p).
#[global] Instance set_SendStreamID : Setter SendStreamID := ltac:(derive_setter).
#[global] Instance set_RecvStreamID : Setter RecvStreamID := ltac:(derive_setter).
#[global] Instance set_SequenceNum : Setter SequenceNum := ltac:(derive_setter).
#[global] Instance set_AckThrough : Setter AckThrough := ltac:(derive_setter).
#[global] Instance set_Flags : Setter Flags := ltac:(derive_setter).
#[global] Instance set_NACKs : Setter NACKs := ltac:(derive_setter).
#[global] Instance set_OptionalDelay : Setter OptionalDelay := ltac:(derive_setter).
#[global] Instance set_ResendDelay : Setter ResendDelay := ltac:(derive_setter).
#[global] Instance set_MaxPacketSize : Setter MaxPacketSize := ltac:(derive_setter).
#[global] Instance set_FromDestination : Setter FromDestination := ltac:(derive_setter).
#[global] Instance set_Signature : Setter Signature := ltac:(derive_setter).
#[global] Instance set_OfflineSignature : Setter OfflineSignature := ltac:(derive_setter).
#[global] Instance set_Payload : Setter Payload := ltac:(derive_setter).

(** ** Key and signature lengths *)

Definition parseSignatureTypeFromBytes (data : bytes) : Z * bool :=
  let minSize := (DestinationPublicKeySize + DestinationSigningKeyPadding + CERT_MIN_SIZE)%nat in
  if (length data <? minSize)%nat then (0, false)
  else
    let certOffset := (DestinationPublicKeySize + DestinationSigningKeyPadding)%nat in
    let certBytes := drop certOffset data in
    match ReadCertificate certBytes with
    | None => (0, false)
    | Some cert =>
        match CertType cert with
        | None => (0, false)
        | Some certType =>
            if certType =? CERT_NULL then (SignatureTypeDSA_SHA1, true)
            else if certType =? CERT_KEY then
              match GetSignatureTypeFromCertificate cert with
              | None => (0, false)
              | Some sigType => (sigType, true)
              end
            else (SignatureTypeEd25519, true)
        end
    end.

Definition serializeDestination (dest : option Destination) : option bytes :=
  match dest with
  | None => None
  | Some d => WriteToMessage d
  end.

Definition getSignatureTypeFromDestination (dest : option Destination) : Z :=
  match dest with
  | None => SignatureTypeEd25519
  | Some _ =>
      match serializeDestination dest with
      | None => SignatureTypeEd25519
      | Some destBytes =>
          let '(sigType, ok) := parseSignatureTypeFromBytes destBytes in
          if negb ok then SignatureTypeEd25519 else sigType
      end
  end.

Definition getSignatureLength (dest : option Destination) : nat :=
  match dest with
  | None => 0%nat
  | Some _ =>
      let sigType := getSignatureTypeFromDestination dest in
      if sigType =? SignatureTypeDSA_SHA1 then 40%nat
     else if sigType =? SignatureTypeECDSA_SHA256_P256 then 64%nat
     else if sigType =? SignatureTypeECDSA_SHA384_P384 then 96%nat
     else if sigType =? SignatureTypeECDSA_SHA512_P521 then 132%nat
     else if sigType =? SignatureTypeRSA_SHA256_2048 then 256%nat
     else if sigType =? SignatureTypeRSA_SHA384_3072 then 384%nat
     else if sigType =? SignatureTypeRSA_SHA512_4096 then 512%nat
     else if (sigType =? SignatureTypeEd25519) || (sigType =? SignatureTypeEd25519ph) then 64%nat
     else 64%nat
  end.

Definition getPublicKeyLength (sigType : Z) : nat :=
  if sigType =? SignatureTypeDSA_SHA1 then 128%nat
  else if sigType =? SignatureTypeECDSA_SHA256_P256 then 64%nat
  else if sigType =? SignatureTypeECDSA_SHA384_P384 then 96%nat
  else if sigType =? SignatureTypeECDSA_SHA512_P521 then 132%nat
  else if sigType =? SignatureTypeRSA_SHA256_2048 then 256%nat
  else if sigType =? SignatureTypeRSA_SHA384_3072 then 384%nat
  else if sigType =? SignatureTypeRSA_SHA512_4096 then 512%nat
  else if (sigType =? SignatureTypeEd25519) || (sigType =? SignatureTypeEd25519ph) then 32%nat
  else 0%nat.

#[global] Arguments getSignatureLength : simpl never.
#[global] Arguments getPublicKeyLength : simpl never.

(** ** Marshal *)

Definition calculateFromDestinationSize (p : Packet) : result PacketError bytes :=
  if negb (has_flag (Flags p) FlagFromIncluded) then Ok []
  else match FromDestination p with
       | None => Err EFromNil
       | Some d => match WriteToMessage d with
                   | None => Err EEncodeFrom
                   | Some bs => Ok bs
                   end
       end.

Definition calculateSignatureSize (p : Packet) : result PacketError nat :=
  if negb (has_flag (Flags p) FlagSignatureIncluded) then Ok 0%nat
  else
    let sigLen := getSignatureLength (FromDestination p) in
    if (sigLen =? 0)%nat then Err ESigLenUnknown else Ok sigLen.

Definition calculateOfflineSignatureSize (p : Packet) : result PacketError nat :=
  if negb (has_flag (Flags p) FlagOfflineSignature) then Ok 0%nat
  else match OfflineSignature p with
       | None => Err EOfflineNil
       | Some o =>
           let transientKeyLen := getPublicKeyLength (TransientSigType o) in
           let destSigLen := getSignatureLength (FromDestination p) in
           Ok (4 + 2 + transientKeyLen + destSigLen)%nat
       end.

Definition marshalRequiredFields (p : Packet) (buf : bytes) : bytes :=
  let buf := buf ++ PutUint32 (SendStreamID p) in
  let buf := buf ++ PutUint32 (RecvStreamID p) in
  let buf := buf ++ PutUint32 (SequenceNum p) in
  buf ++ PutUint32 (AckThrough p).

Definition marshalNACKs (p : Packet) (buf : bytes) : result PacketError bytes :=
  if (255 <? length (NACKs p))%nat then Err (ETooManyNACKs (length (NACKs p)))
  else
    let buf := buf ++ [byte_of_Z (Z.of_nat (length (NACKs p)))] in
    let buf := foldl (λ buf nack, buf ++ PutUint32 nack) buf (NACKs p) in
    Ok (buf ++ [byte_of_Z (ResendDelay p)]).

Definition marshalFlagsAndOptionSize (p : Packet) (buf : bytes) (optionSize : Z) : bytes :=
  let buf := buf ++ PutUint16 (Flags p) in
  buf ++ PutUint16 optionSize.

Definition marshalDelayField (p : Packet) (buf : bytes) : bytes :=
  if negb (has_flag (Flags p) FlagDelayRequested) then buf
  else buf ++ PutUint16 (OptionalDelay p).

Definition marshalFromDestination (p : Packet) (buf fromBytes : bytes) : bytes :=
  if negb (has_flag (Flags p) FlagFromIncluded) then buf else buf ++ fromBytes.

Definition marshalMaxPacketSize (p : Packet) (buf : bytes) : bytes :=
  if negb (has_flag (Flags p) FlagMaxPacketSizeIncluded) then buf
  else buf ++ PutUint16 (MaxPacketSize p).

Definition marshalSignature (p : Packet) (buf : bytes) (sigLen : nat) : result PacketError bytes :=
  if negb (has_flag (Flags p) FlagSignatureIncluded) then Ok buf
  else if (0 <? length (Signature p))%nat then
    if negb (length (Signature p) =? sigLen)%nat
    then Err (ESigLenMismatch sigLen (length (Signature p)))
    else Ok (buf ++ Signature p)
  else Ok (buf ++ replicate sigLen x00).

Definition marshalOfflineSignature (p : Packet) (buf : bytes) : result PacketError bytes :=
  if negb (has_flag (Flags p) FlagOfflineSignature) then Ok buf
  else match OfflineSignature p with
       | None => Panic
       | Some o =>
           let buf := buf ++ PutUint32 (Expires o) in
           let buf := buf ++ PutUint16 (TransientSigType o) in
           let transientKeyLen := getPublicKeyLength (TransientSigType o) in
           if negb (length (TransientPublicKey o) =? transientKeyLen)%nat
           then Err (ETransientKeyMismatch transientKeyLen (length (TransientPublicKey o)))
           else
             let buf := buf ++ TransientPublicKey o in
             let destSigLen := getSignatureLength (FromDestination p) in
             if negb (length (DestSignature o) =? destSigLen)%nat
             then Err (EDestSigMismatch destSigLen (length (DestSignature o)))
             else Ok (buf ++ DestSignature o)
       end.

Definition calculateTotalOptionSize (p : Packet) (fromBytesLen sigLen offlineSigSize : nat) : Z :=
  let optionSize := 0 in
  let optionSize :=
    if has_flag (Flags p) FlagDelayRequested then u16 (optionSize + 2) else optionSize in
  let optionSize :=
    if has_flag (Flags p) FlagMaxPacketSizeIncluded then u16 (optionSize + 2) else optionSize in
  u16 (optionSize + u16 (Z.of_nat (fromBytesLen + sigLen + offlineSigSize))).

Definition calculateOptionSizes (p : Packet) : result PacketError (bytes * nat * nat * Z) :=
  fromBytes ← calculateFromDestinationSize p;
  sigLen ← calculateSignatureSize p;
  offlineSigSize ← calculateOfflineSignatureSize p;
  let optionSize := calculateTotalOptionSize p (length fromBytes) sigLen offlineSigSize in
  Ok (fromBytes, sigLen, offlineSigSize, optionSize).

Definition marshalPacketBody (p : Packet) (buf fromBytes : bytes) (sigLen : nat)
    (optionSize : Z) : result PacketError bytes :=
  buf ← marshalNACKs p buf;
  let buf := marshalFlagsAndOptionSize p buf optionSize in
  let buf := marshalDelayField p buf in
  let buf := marshalFromDestination p buf fromBytes in
  let buf := marshalMaxPacketSize p buf in
  buf ← marshalOfflineSignature p buf;
  marshalSignature p buf sigLen.

Definition Marshal (p : Packet) : result PacketError bytes :=
  '(fromBytes, sigLen, _, optionSize) ← calculateOptionSizes p;
  let buf := marshalRequiredFields p [] in
  buf ← marshalPacketBody p buf fromBytes sigLen optionSize;
  Ok (buf ++ Payload p).

(** ** Unmarshal

    Methods on the packet being filled.  [getUint w data off] is
    [binary.BigEndian.Uint(data[off:])]. *)

Definition getUint32 (data : bytes) (off : nat) : STE Packet PacketError Z :=
  lift (slice_from data off ≫= Uint32).
Definition getUint16 (data : bytes) (off : nat) : STE Packet PacketError Z :=
  lift (slice_from data off ≫= Uint16).

Definition unmarshalRequiredFields (data : bytes) : STE Packet PacketError nat :=
  v ← getUint32 data 0; _ ← emodify (λ p, p <| SendStreamID := v |>);
  v ← getUint32 data 4; _ ← emodify (λ p, p <| RecvStreamID := v |>);
  v ← getUint32 data 8; _ ← emodify (λ p, p <| SequenceNum := v |>);
  v ← getUint32 data 12; _ ← emodify (λ p, p <| AckThrough := v |>);
  mret 16%nat.

Fixpoint readNACKs (data : bytes) (offset n : nat) : STE Packet PacketError (list Z) :=
  match n with
  | O => mret []
  | S n => v ← getUint32 data offset; vs ← readNACKs data (offset + 4) n; mret (v :: vs)
  end.

Definition unmarshalNACKs (data : bytes) (offset : nat) : STE Packet PacketError nat :=
  nackCount ← lift (index data offset);
  let n := Z.to_nat (Z_of_byte nackCount) in
  let offset := S offset in
  if (n =? 0)%nat then mret offset
  else if (length data <? offset + n * 4)%nat then fail ETooShortNACKs
  else
    vs ← readNACKs data offset n;
    _ ← emodify (λ p, p <| NACKs := vs |>);
    mret (offset + n * 4)%nat.

Definition unmarshalOptionalDelay (data : bytes) (offset optionsEnd : nat)
    : STE Packet PacketError nat :=
  p ← egets id;
  if negb (has_flag (Flags p) FlagDelayRequested) then mret offset
  else if (optionsEnd <? offset + 2)%nat then fail EShortDelay
  else
    v ← getUint16 data offset;
    _ ← emodify (λ p, p <| OptionalDelay := v |>);
    mret (offset + 2)%nat.

Definition unmarshalMaxPacketSize (data : bytes) (offset optionsEnd : nat)
    : STE Packet PacketError nat :=
  p ← egets id;
  if negb (has_flag (Flags p) FlagMaxPacketSizeIncluded) then mret offset
  else if (optionsEnd <? offset + 2)%nat then fail EShortMaxPacketSize
  else
    v ← getUint16 data offset;
    _ ← emodify (λ p, p <| MaxPacketSize := v |>);
    mret (offset + 2)%nat.

Definition unmarshalFromDestination (data : bytes) (offset optionsEnd : nat)
    : STE Packet PacketError nat :=
  p ← egets id;
  if negb (has_flag (Flags p) FlagFromIncluded) then mret offset
  else if (optionsEnd <=? offset)%nat then fail EShortFrom
  else
    stream ← lift (slice data offset optionsEnd);
    match NewDestinationFromMessage stream with
    | None => fail EUnmarshalFrom
    | Some dest =>
        _ ← emodify (λ p, p <| FromDestination := Some dest |>);
        match WriteToMessage dest with
        | None => fail ESizeFrom
        | Some tempStream => mret (offset + length tempStream)%nat
        end
    end.

Definition unmarshalSignature (data : bytes) (offset optionsEnd : nat)
    : STE Packet PacketError nat :=
  p ← egets id;
  if negb (has_flag (Flags p) FlagSignatureIncluded) then mret offset
  else
    let sigLen := getSignatureLength (FromDestination p) in
    if (sigLen =? 0)%nat then fail ENoSigLen
    else if (optionsEnd <? offset + sigLen)%nat then fail EShortSignature
    else
      sig ← lift (slice data offset (offset + sigLen));
      _ ← emodify (λ p, p <| Signature := sig |>);
      mret (offset + sigLen)%nat.

Definition unmarshalOfflineSigHeader (data : bytes) (offset : nat) (offsig : OfflineSig)
    : STE Packet PacketError (nat * OfflineSig) :=
  v ← getUint32 data offset;
  let offsig := offsig <| Expires := v |> in
  v ← getUint16 data (offset + 4);
  let offsig := offsig <| TransientSigType := v |> in
  mret ((offset + 6)%nat, offsig).

Definition unmarshalTransientKey (data : bytes) (offset optionsEnd : nat) (offsig : OfflineSig)
    : STE Packet PacketError (nat * OfflineSig) :=
  let transientKeyLen := getPublicKeyLength (TransientSigType offsig) in
  if (transientKeyLen =? 0)%nat then fail (EUnknownTransientType (TransientSigType offsig))
  else if (optionsEnd <? offset + transientKeyLen)%nat then fail EShortTransientKey
  else
    k ← lift (slice data offset (offset + transientKeyLen));
    mret ((offset + transientKeyLen)%nat, offsig <| TransientPublicKey := k |>).

Definition unmarshalDestSignature (data : bytes) (offset optionsEnd : nat) (offsig : OfflineSig)
    : STE Packet PacketError (nat * OfflineSig) :=
  p ← egets id;
  let destSigLen := getSignatureLength (FromDestination p) in
  if (destSigLen =? 0)%nat then fail ENoDestSigLen
  else if (optionsEnd <? offset + destSigLen)%nat then fail EShortDestSignature
  else
    sig ← lift (slice data offset (offset + destSigLen));
    mret ((offset + destSigLen)%nat, offsig <| DestSignature := sig |>).

Definition unmarshalOfflineSignature (data : bytes) (offset optionsEnd : nat)
    : STE Packet PacketError nat :=
  p ← egets id;
  if negb (has_flag (Flags p) FlagOfflineSignature) then mret offset
  else if (optionsEnd <? offset + 6)%nat then fail EShortOfflineHeader
  else
    '(offset, offsig) ← unmarshalOfflineSigHeader data offset empty_OfflineSig;
    '(offset, offsig) ← unmarshalTransientKey data offset optionsEnd offsig;
    '(offset, offsig) ← unmarshalDestSignature data offset optionsEnd offsig;
    _ ← emodify (λ p, p <| OfflineSignature := Some offsig |>);
    mret offset.

Definition unmarshalHeader (data : bytes) : STE Packet PacketError (nat * nat) :=
  offset ← unmarshalRequiredFields data;
  offset ← unmarshalNACKs data offset;
  b ← lift (index data offset);
  _ ← emodify (λ p, p <| ResendDelay := Z_of_byte b |>);
  let offset := S offset in
  v ← getUint16 data offset;
  _ ← emodify (λ p, p <| Flags := v |>);
  let offset := (offset + 2)%nat in
  optionSize ← getUint16 data offset;
  let offset := (offset + 2)%nat in
  if (length data <? offset + Z.to_nat optionSize)%nat then fail ETooShortOptions
  else mret (offset, (offset + Z.to_nat optionSize)%nat).

Definition unmarshalOptions (data : bytes) (offset optionsEnd : nat) : STE Packet PacketError unit :=
  offset ← unmarshalOptionalDelay data offset optionsEnd;
  offset ← unmarshalFromDestination data offset optionsEnd;
  offset ← unmarshalMaxPacketSize data offset optionsEnd;
  offset ← unmarshalOfflineSignature data offset optionsEnd;
  _ ← unmarshalSignature data offset optionsEnd;
  mret ().

Definition Unmarshal (data : bytes) : STE Packet PacketError unit :=
  if (length data <? 22)%nat then fail (ETooShort (length data))
  else
    '(offset, optionsEnd) ← unmarshalHeader data;
    _ ← unmarshalOptions data offset optionsEnd;
    if (optionsEnd <? length data)%nat then
      payload ← lift (slice_from data optionsEnd);
      emodify (λ p, p <| Payload := payload |>)
    else mret ().

(** Parsing into a fresh packet, as the packet dispatcher does. *)
Definition unmarshal_fresh (data : bytes) : result PacketError Packet :=
  match Unmarshal data empty_Packet with
  | (Ok _, p) => Ok p
  | (Err e, _) => Err e
  | (Panic, _) => Panic
  end.

End Packet.
