(* ===== verification/PacketProps.v ===== *)
(** * Properties of the packet format

    The wire layout of [Marshal], the round trip through [Unmarshal], the
    exact inputs on which [Unmarshal] panics, and well-formedness of every
    packet it accepts. *)

From S2P Require Import Prelude GoInt I2CP Packet.
From Stdlib Require Import Strings.Byte.

(** ** Specification vocabulary *)

(** [data] is [off] bytes followed by [suf]. *)
Definition Suffix (data : bytes) (off : nat) (suf : bytes) : Prop :=
  ∃ pre, data = pre ++ suf ∧ length pre = off.

Section Spec.
Context {I : I2CP}.

(** The value of every field fits its Go type. *)
Record packet_wf (p : Packet) : Prop := {
  wf_send : is_u32 (SendStreamID p);
  wf_recv : is_u32 (RecvStreamID p);
  wf_seq : is_u32 (SequenceNum p);
  wf_ack : is_u32 (AckThrough p);
  wf_flags : is_u16 (Flags p);
  wf_nacks : Forall (λ n, is_u32 n) (NACKs p);
  wf_delay : is_u16 (OptionalDelay p);
  wf_resend : is_u8 (ResendDelay p);
  wf_mps : is_u16 (MaxPacketSize p);
  wf_offline : ∀ o, OfflineSignature p = Some o →
    is_u32 (Expires o) ∧ is_u16 (TransientSigType o);
}.

(** The option fields as they stand on the wire. *)
Definition opt_delay (p : Packet) : bytes :=
  if has_flag (Flags p) FlagDelayRequested then PutUint16 (OptionalDelay p) else [].
Definition opt_from (p : Packet) : bytes :=
  if has_flag (Flags p) FlagFromIncluded
  then default [] (FromDestination p ≫= WriteToMessage) else [].
Definition opt_mps (p : Packet) : bytes :=
  if has_flag (Flags p) FlagMaxPacketSizeIncluded then PutUint16 (MaxPacketSize p) else [].
Definition opt_offline (p : Packet) : bytes :=
  if has_flag (Flags p) FlagOfflineSignature then
    match OfflineSignature p with
    | None => []
    | Some o => PutUint32 (Expires o) ++ PutUint16 (TransientSigType o)
                  ++ TransientPublicKey o ++ DestSignature o
    end
  else [].
(** An absent signature is sent as zeros. *)
Definition wire_signature (p : Packet) : bytes :=
  if has_flag (Flags p) FlagSignatureIncluded then
    if (0 <? length (Signature p))%nat then Signature p
    else replicate (getSignatureLength (FromDestination p)) x00
  else [].
Definition options (p : Packet) : bytes :=
  opt_delay p ++ opt_from p ++ opt_mps p ++ opt_offline p ++ wire_signature p.

(** The whole packet, with [size] in the option-size field. *)
Definition wire (p : Packet) : bytes :=
  PutUint32 (SendStreamID p) ++ PutUint32 (RecvStreamID p)
  ++ PutUint32 (SequenceNum p) ++ PutUint32 (AckThrough p)
  ++ [byte_of_Z (Z.of_nat (length (NACKs p)))] ++ concat (PutUint32 <$> NACKs p)
  ++ [byte_of_Z (ResendDelay p)] ++ PutUint16 (Flags p)
  ++ PutUint16 (Z.of_nat (length (options p)))
  ++ options p ++ Payload p.

(** When [Marshal] succeeds: its checks, one by one. *)
Record marshal_ok (p : Packet) : Prop := {
  mo_nacks : (length (NACKs p) ≤ 255)%nat;
  mo_from : has_flag (Flags p) FlagFromIncluded = true →
    ∃ d bs, FromDestination p = Some d ∧ WriteToMessage d = Some bs;
  mo_sig : has_flag (Flags p) FlagSignatureIncluded = true →
    getSignatureLength (FromDestination p) ≠ 0%nat ∧
    (Signature p = [] ∨ length (Signature p) = getSignatureLength (FromDestination p));
  mo_offline : has_flag (Flags p) FlagOfflineSignature = true →
    ∃ o, OfflineSignature p = Some o ∧
      length (TransientPublicKey o) = getPublicKeyLength (TransientSigType o) ∧
      length (DestSignature o) = getSignatureLength (FromDestination p);
}.

(** What the receiver reconstructs: the fields whose flags are set. *)
Definition wire_view (p : Packet) : Packet :=
  p <| OptionalDelay := if has_flag (Flags p) FlagDelayRequested then OptionalDelay p else 0 |>
    <| FromDestination := if has_flag (Flags p) FlagFromIncluded then FromDestination p else None |>
    <| MaxPacketSize :=
         if has_flag (Flags p) FlagMaxPacketSizeIncluded then MaxPacketSize p else 0 |>
    <| OfflineSignature :=
         if has_flag (Flags p) FlagOfflineSignature then OfflineSignature p else None |>
    <| Signature := wire_signature p |>.

(** The sender's obligations that [Marshal] does not check: the signature
    blocks need FROM on the wire, the transient key type must have a known
    length, and the options must fit the 16-bit size field. *)
Record sendable (p : Packet) : Prop := {
  sd_sig : has_flag (Flags p) FlagSignatureIncluded = true →
    has_flag (Flags p) FlagFromIncluded = true;
  sd_offline : has_flag (Flags p) FlagOfflineSignature = true →
    has_flag (Flags p) FlagFromIncluded = true ∧
    ∀ o, OfflineSignature p = Some o → getPublicKeyLength (TransientSigType o) ≠ 0%nat;
  sd_size : Z.of_nat (length (options p)) < 65536;
}.

(** The NACK count byte of a datagram. *)
Definition nack_count (data : bytes) : nat :=
  match data !! 16%nat with Some b => Z.to_nat (Z_of_byte b) | None => 0 end.

(** The truncated datagrams that escape the length checks of the header. *)
Definition header_overrun (data : bytes) : Prop :=
  (22 ≤ length data ∧ 1 ≤ nack_count data ∧
   17 + 4 * nack_count data ≤ length data < 22 + 4 * nack_count data)%nat.

End Spec.

(** ** Reading at an offset *)

Lemma Suffix_drop data off suf : Suffix data off suf → drop off data = suf ∧ (off ≤ length data)%nat.
Proof. intros (pre & -> & <-). rewrite drop_app_length, length_app. split; [done|lia]. Qed.

Lemma Suffix_app data off x rest :
  Suffix data off (x ++ rest) → Suffix data (off + length x) rest.
Proof.
  intros (pre & -> & <-). exists (pre ++ x). by rewrite <-app_assoc, length_app.
Qed.

Lemma Suffix_app_n data off x rest n :
  Suffix data off (x ++ rest) → length x = n → Suffix data (off + n) rest.
Proof. intros H <-. by apply Suffix_app. Qed.

Lemma Suffix_cons data off b rest : Suffix data off (b :: rest) → Suffix data (S off) rest.
Proof. intros H. replace (S off) with (off + length [b])%nat by (cbn; lia). by apply Suffix_app. Qed.

Lemma Suffix_length data off suf : Suffix data off suf → length data = (off + length suf)%nat.
Proof. intros (pre & -> & <-). by rewrite length_app. Qed.

Lemma index_Suffix {E} data off b rest :
  Suffix data off (b :: rest) → index (E:=E) data off = Ok b.
Proof.
  intros (pre & -> & <-). unfold index. rewrite list_lookup_middle by done. done.
Qed.

Lemma slice_Suffix {E} data off x rest n :
  Suffix data off (x ++ rest) → length x = n → slice (E:=E) data off (off + n) = Ok x.
Proof.
  intros H <-. pose proof (Suffix_length _ _ _ H) as Hl. rewrite length_app in Hl.
  apply Suffix_drop in H as [H _]. unfold slice. case_decide; [|lia].
  rewrite H. replace (off + length x - off)%nat with (length x) by lia.
  by rewrite take_app_length.
Qed.

Lemma slice_from_Suffix {E} data off suf :
  Suffix data off suf → slice_from (E:=E) data off = Ok suf.
Proof. intros [<- ?]%Suffix_drop. unfold slice_from. by case_decide. Qed.

Lemma be_get_app_put n z rest :
  be_get (take n (be_put n z ++ rest)) = z mod 256 ^ Z.of_nat n.
Proof. rewrite take_app_length' by (by rewrite length_be_put). apply be_get_put. Qed.

Section Readers.
Context {I : I2CP}.
Implicit Types p : Packet.

Lemma getUint32_Suffix data off v rest p :
  Suffix data off (PutUint32 v ++ rest) → is_u32 v → getUint32 data off p = (Ok v, p).
Proof.
  intros H Hv. unfold getUint32, lift. rewrite (slice_from_Suffix _ _ _ H). cbn.
  unfold Uint32, BigEndian_Uint. unfold PutUint32. rewrite length_app, length_be_put.
  case_decide; [|lia]. rewrite be_get_app_put. change (256 ^ Z.of_nat 4) with 4294967296.
  by rewrite Z.mod_small.
Qed.

Lemma getUint16_Suffix data off v rest p :
  Suffix data off (PutUint16 v ++ rest) → is_u16 v → getUint16 data off p = (Ok v, p).
Proof.
  intros H Hv. unfold getUint16, lift. rewrite (slice_from_Suffix _ _ _ H). cbn.
  unfold Uint16, BigEndian_Uint. unfold PutUint16. rewrite length_app, length_be_put.
  case_decide; [|lia]. rewrite be_get_app_put. change (256 ^ Z.of_nat 2) with 65536.
  by rewrite Z.mod_small.
Qed.

Lemma readNACKs_Suffix data off ns rest p :
  Suffix data off (concat (PutUint32 <$> ns) ++ rest) → Forall (λ n, is_u32 n) ns →
  readNACKs data off (length ns) p = (Ok ns, p).
Proof.
  revert off. induction ns as [|n ns IH]; intros off H Hns; [done|].
  apply Forall_cons in Hns as [Hn Hns]. cbn in H. rewrite <-app_assoc in H.
  cbn [length readNACKs]. unfold mbind at 1, ste_bind at 1.
  rewrite (getUint32_Suffix _ _ _ _ _ H Hn). unfold mbind, ste_bind.
  rewrite IH; [done| |done]. by apply (Suffix_app_n _ _ _ _ 4) in H.
Qed.
End Readers.

(** ** The Marshal layout *)

Section Marshal.
Context {I : I2CP}.
Implicit Types p : Packet.

Lemma foldl_append {A} (f : A → bytes) (l : list A) buf :
  foldl (λ buf a, buf ++ f a) buf l = buf ++ concat (f <$> l).
Proof.
  revert buf. induction l as [|a l IH]; intros buf; cbn; [by rewrite app_nil_r|].
  by rewrite IH, <-app_assoc.
Qed.

Lemma marshalNACKs_spec p buf :
  marshalNACKs p buf =
  if (255 <? length (NACKs p))%nat then Err (ETooManyNACKs (length (NACKs p)))
  else Ok (buf ++ [byte_of_Z (Z.of_nat (length (NACKs p)))]
             ++ concat (PutUint32 <$> NACKs p) ++ [byte_of_Z (ResendDelay p)]).
Proof.
  unfold marshalNACKs. case_if; [done|].
  rewrite foldl_append. by rewrite <-!app_assoc.
Qed.

Lemma getPublicKeyLength_le t : (getPublicKeyLength t ≤ 512)%nat.
Proof. unfold getPublicKeyLength. repeat case_if; lia. Qed.
Lemma getSignatureLength_le d : (getSignatureLength d ≤ 512)%nat.
Proof. unfold getSignatureLength. destruct d; [|lia]. cbv zeta. repeat case_if; lia. Qed.
Lemma getSignatureLength_pos d : (0 < getSignatureLength (Some d))%nat.
Proof. unfold getSignatureLength. cbv zeta. repeat case_if; lia. Qed.

Lemma length_PutUint16 v : length (PutUint16 v) = 2%nat.
Proof. apply length_be_put. Qed.
Lemma length_PutUint32 v : length (PutUint32 v) = 4%nat.
Proof. apply length_be_put. Qed.

Lemma calculateFromDestinationSize_ok p :
  marshal_ok p → calculateFromDestinationSize p = Ok (opt_from p).
Proof.
  intros [_ Hf _ _]. unfold calculateFromDestinationSize, opt_from.
  destruct (has_flag _ _); [|done]. destruct (Hf eq_refl) as (d & bs & -> & Hbs).
  cbn. by rewrite Hbs.
Qed.

Lemma calculateSignatureSize_ok p :
  marshal_ok p → calculateSignatureSize p = Ok (length (wire_signature p)).
Proof.
  intros [_ _ Hs _]. unfold calculateSignatureSize, wire_signature.
  destruct (has_flag _ _); [|done]. destruct (Hs eq_refl) as [Hn Hl]. cbn [negb].
  apply Nat.eqb_neq in Hn as Hn'. cbv zeta. rewrite Hn'. destruct Hl as [->|Hl].
  - cbn [length]. by rewrite Nat.ltb_irrefl, length_replicate.
  - case_if; [by rewrite Hl|by rewrite length_replicate].
Qed.

Lemma calculateOfflineSignatureSize_ok p :
  marshal_ok p → calculateOfflineSignatureSize p = Ok (length (opt_offline p)).
Proof.
  intros [_ _ _ Ho]. unfold calculateOfflineSignatureSize, opt_offline.
  destruct (has_flag _ _); [|done]. destruct (Ho eq_refl) as (o & -> & Hk & Hg). cbn.
  by rewrite !length_app, length_PutUint32, length_PutUint16, Hk, Hg.
Qed.

(** The size field counts the options, modulo its 16 bits. *)
Lemma calculateTotalOptionSize_options p :
  calculateTotalOptionSize p (length (opt_from p)) (length (wire_signature p))
    (length (opt_offline p)) = u16 (Z.of_nat (length (options p))).
Proof.
  unfold calculateTotalOptionSize, options. rewrite !length_app.
  unfold opt_delay, opt_mps. unfold u16.
  repeat case_if; rewrite ?length_PutUint16; cbn [length]; zlia.
Qed.

Lemma calculateOptionSizes_ok p :
  marshal_ok p →
  calculateOptionSizes p = Ok (opt_from p, length (wire_signature p), length (opt_offline p),
                               u16 (Z.of_nat (length (options p)))).
Proof.
  intros H. unfold calculateOptionSizes.
  rewrite calculateFromDestinationSize_ok by done. cbn.
  rewrite calculateSignatureSize_ok by done. cbn.
  rewrite calculateOfflineSignatureSize_ok by done. cbn.
  by rewrite calculateTotalOptionSize_options.
Qed.

Lemma marshalOfflineSignature_ok p buf :
  marshal_ok p → marshalOfflineSignature p buf = Ok (buf ++ opt_offline p).
Proof.
  intros [_ _ _ Ho]. unfold marshalOfflineSignature, opt_offline.
  destruct (has_flag _ _); cbn; [|by rewrite app_nil_r].
  destruct (Ho eq_refl) as (o & -> & Hk & Hg).
  rewrite Hk, Hg, !Nat.eqb_refl. cbn. by rewrite <-!app_assoc.
Qed.

Lemma marshalSignature_ok p buf :
  marshal_ok p → marshalSignature p buf (length (wire_signature p)) = Ok (buf ++ wire_signature p).
Proof.
  intros [_ _ Hs _]. unfold marshalSignature, wire_signature.
  destruct (has_flag _ _); cbn; [|by rewrite app_nil_r].
  case_if; [by rewrite Nat.eqb_refl|]. by rewrite length_replicate.
Qed.

Lemma u16_put z : PutUint16 (u16 z) = PutUint16 z.
Proof. unfold PutUint16, u16. by apply (be_put_mod 2 z 2). Qed.

Lemma marshalDelayField_opt p buf : marshalDelayField p buf = buf ++ opt_delay p.
Proof. unfold marshalDelayField, opt_delay. destruct (has_flag _ _); [done|]. by rewrite app_nil_r. Qed.

Lemma marshalMaxPacketSize_opt p buf : marshalMaxPacketSize p buf = buf ++ opt_mps p.
Proof. unfold marshalMaxPacketSize, opt_mps. destruct (has_flag _ _); [done|]. by rewrite app_nil_r. Qed.

Lemma marshalFromDestination_opt p buf :
  marshalFromDestination p buf (opt_from p) = buf ++ opt_from p.
Proof. unfold marshalFromDestination, opt_from. destruct (has_flag _ _); [done|]. by rewrite app_nil_r. Qed.

Lemma Marshal_wire p : marshal_ok p → Marshal p = Ok (wire p).
Proof.
  intros H. unfold Marshal. rewrite calculateOptionSizes_ok by done. cbn [mbind result_bind].
  unfold marshalPacketBody. rewrite marshalNACKs_spec.
  destruct (Nat.ltb_spec 255 (length (NACKs p))) as [Hn|_]; [destruct H; lia|].
  cbn [mbind result_bind]. rewrite marshalOfflineSignature_ok by done. cbn [mbind result_bind].
  rewrite marshalSignature_ok by done. cbn [mbind result_bind]. f_equal.
  rewrite marshalMaxPacketSize_opt, marshalFromDestination_opt, marshalDelayField_opt.
  unfold wire, marshalRequiredFields, marshalFlagsAndOptionSize, options.
  rewrite u16_put. by rewrite <-!app_assoc.
Qed.

(** [Marshal] succeeds only under its checks, and never panics. *)
Lemma Marshal_inv p :
  match Marshal p with Ok _ => marshal_ok p | Err _ => True | Panic => False end.
Proof.
  unfold Marshal, calculateOptionSizes, marshalPacketBody. rewrite marshalNACKs_spec.
  unfold calculateFromDestinationSize, calculateSignatureSize,
    calculateOfflineSignatureSize, marshalOfflineSignature, marshalSignature.
  destruct (Nat.ltb_spec 255 (length (NACKs p))) as [Hn|Hn]; cbn [mbind result_bind].
  { repeat (case_match; simplify_eq/=; try done). }
  destruct (has_flag (Flags p) FlagFromIncluded) eqn:Ff;
    destruct (has_flag (Flags p) FlagSignatureIncluded) eqn:Fs;
    destruct (has_flag (Flags p) FlagOfflineSignature) eqn:Fo;
    cbn [negb mbind result_bind];
    repeat (case_match; simplify_eq/=; try done).
  all: split; [done|rewrite Ff|rewrite Fs|rewrite Fo].
  all: intros ?; try done; zbool; eauto 10.
  all: repeat match goal with H : FromDestination _ = Some _ |- _ => rewrite H in *; clear H end.
  all: try solve [eauto 10].
  all: split; [done|]; destruct (Signature _); [by left|right; cbn in *; lia].
Qed.

(** The checks are exact: [Marshal] returns bytes if and only if the packet
    passes them, and the bytes are the wire image. *)
Lemma Marshal_ok_iff p data : Marshal p = Ok data ↔ marshal_ok p ∧ data = wire p.
Proof.
  split.
  - intros H. pose proof (Marshal_inv p) as Hi. rewrite H in Hi. split; [done|].
    apply Marshal_wire in Hi. congruence.
  - intros [H ->]. by apply Marshal_wire.
Qed.
End Marshal.

(** ** The round trip *)

Section Unmarshal.
Context {I : I2CP} `{!I2CPLaws I}.
Implicit Types p q : Packet.

Lemma unmarshalRequiredFields_spec data a b c d rest q :
  Suffix data 0 (PutUint32 a ++ PutUint32 b ++ PutUint32 c ++ PutUint32 d ++ rest) →
  is_u32 a → is_u32 b → is_u32 c → is_u32 d →
  unmarshalRequiredFields data q =
    (Ok 16%nat, q <| SendStreamID := a |> <| RecvStreamID := b |>
                  <| SequenceNum := c |> <| AckThrough := d |>)
  ∧ Suffix data 16 rest.
Proof.
  intros H0 Ha Hb Hc Hd. unfold unmarshalRequiredFields.
  pose proof (Suffix_app_n _ _ _ _ 4 H0 (length_PutUint32 _)) as H1.
  pose proof (Suffix_app_n _ _ _ _ 4 H1 (length_PutUint32 _)) as H2.
  pose proof (Suffix_app_n _ _ _ _ 4 H2 (length_PutUint32 _)) as H3.
  pose proof (Suffix_app_n _ _ _ _ 4 H3 (length_PutUint32 _)) as H4.
  split; [|done].
  erewrite ste_step by (by eapply getUint32_Suffix). erewrite ste_step by done.
  erewrite ste_step by (by eapply getUint32_Suffix). erewrite ste_step by done.
  erewrite ste_step by (by eapply getUint32_Suffix). erewrite ste_step by done.
  erewrite ste_step by (by eapply getUint32_Suffix). erewrite ste_step by done.
  done.
Qed.

Lemma length_nack_bytes ns : length (concat (PutUint32 <$> ns)) = (length ns * 4)%nat.
Proof.
  induction ns as [|n ns IH]; [done|].
  rewrite fmap_cons. cbn [concat length]. rewrite length_app, length_PutUint32, IH. lia.
Qed.

Lemma unmarshalNACKs_spec data off ns rest q :
  Suffix data off ([byte_of_Z (Z.of_nat (length ns))] ++ concat (PutUint32 <$> ns) ++ rest) →
  (length ns ≤ 255)%nat → Forall (λ n, is_u32 n) ns → NACKs q = [] →
  unmarshalNACKs data off q = (Ok (S off + length ns * 4)%nat, q <| NACKs := ns |>)
  ∧ Suffix data (S off + length ns * 4) rest.
Proof.
  intros H0 Hlen Hns Hq. unfold unmarshalNACKs.
  assert (Hl : Z.to_nat (Z_of_byte (byte_of_Z (Z.of_nat (length ns)))) = length ns).
  { rewrite Z_of_byte_of_Z, Z.mod_small by lia. lia. }
  assert (H1 : Suffix data (S off) (concat (PutUint32 <$> ns) ++ rest)) by (by eapply Suffix_cons).
  pose proof (Suffix_app_n _ _ _ _ _ H1 (length_nack_bytes ns)) as H2.
  split; [|done].
  erewrite ste_step by (unfold lift; by erewrite index_Suffix). rewrite Hl.
  destruct (Nat.eqb_spec (length ns) 0) as [Hz|Hz].
  - apply nil_length_inv in Hz as ->. cbn [length]. rewrite Nat.add_0_r.
    unfold mret, ste_ret. f_equal. destruct q; cbn in *; by subst.
  - pose proof (Suffix_length _ _ _ H1) as Hd. rewrite length_app, length_nack_bytes in Hd.
    destruct (Nat.ltb_spec (length data) (S off + length ns * 4)); [lia|].
    erewrite ste_step by (by eapply readNACKs_Suffix). by erewrite ste_step by done.
Qed.

Lemma wire_view_delay p : OptionalDelay (wire_view p) =
  if has_flag (Flags p) FlagDelayRequested then OptionalDelay p else 0.
Proof. done. Qed.
Lemma wire_view_dest p : FromDestination (wire_view p) =
  if has_flag (Flags p) FlagFromIncluded then FromDestination p else None.
Proof. done. Qed.
Lemma wire_view_mps p : MaxPacketSize (wire_view p) =
  if has_flag (Flags p) FlagMaxPacketSizeIncluded then MaxPacketSize p else 0.
Proof. done. Qed.
Lemma wire_view_offline p : OfflineSignature (wire_view p) =
  if has_flag (Flags p) FlagOfflineSignature then OfflineSignature p else None.
Proof. done. Qed.

(** Each option parser, at its place in the option data of the wire image of
    [p]: it consumes its own bytes and fills in its own field. *)
Lemma unmarshalOptionalDelay_spec p data off e rest q :
  packet_wf p → Flags q = Flags p → OptionalDelay q = 0 →
  Suffix data off (opt_delay p ++ rest) → (off + length (opt_delay p) ≤ e)%nat →
  unmarshalOptionalDelay data off e q =
    (Ok (off + length (opt_delay p))%nat, q <| OptionalDelay := OptionalDelay (wire_view p) |>).
Proof.
  intros Hwf Hf Hq H0 He. unfold unmarshalOptionalDelay. rewrite (ste_step _ _ _ q q) by done.
  rewrite Hf. unfold opt_delay in *. rewrite wire_view_delay.
  destruct (has_flag (Flags p) FlagDelayRequested); cbn [negb].
  - rewrite length_PutUint16 in *. destruct (Nat.ltb_spec e (off + 2)); [lia|].
    erewrite ste_step by (eapply getUint16_Suffix; [done|apply Hwf]). by erewrite ste_step by done.
  - cbn [length]. rewrite Nat.add_0_r. unfold mret, ste_ret. f_equal.
    destruct q; cbn in *; by subst.
Qed.

Lemma unmarshalMaxPacketSize_spec p data off e rest q :
  packet_wf p → Flags q = Flags p → MaxPacketSize q = 0 →
  Suffix data off (opt_mps p ++ rest) → (off + length (opt_mps p) ≤ e)%nat →
  unmarshalMaxPacketSize data off e q =
    (Ok (off + length (opt_mps p))%nat, q <| MaxPacketSize := MaxPacketSize (wire_view p) |>).
Proof.
  intros Hwf Hf Hq H0 He. unfold unmarshalMaxPacketSize. rewrite (ste_step _ _ _ q q) by done.
  rewrite Hf. unfold opt_mps in *. rewrite wire_view_mps.
  destruct (has_flag (Flags p) FlagMaxPacketSizeIncluded); cbn [negb].
  - rewrite length_PutUint16 in *. destruct (Nat.ltb_spec e (off + 2)); [lia|].
    erewrite ste_step by (eapply getUint16_Suffix; [done|apply Hwf]). by erewrite ste_step by done.
  - cbn [length]. rewrite Nat.add_0_r. unfold mret, ste_ret. f_equal.
    destruct q; cbn in *; by subst.
Qed.

Lemma unmarshalFromDestination_spec p data off e mid rest q :
  marshal_ok p → Flags q = Flags p → FromDestination q = None →
  Suffix data off (opt_from p ++ mid ++ rest) →
  e = (off + length (opt_from p) + length mid)%nat →
  unmarshalFromDestination data off e q =
    (Ok (off + length (opt_from p))%nat,
     q <| FromDestination := FromDestination (wire_view p) |>).
Proof.
  intros [_ Hm _ _] Hf Hq H0 ->. unfold unmarshalFromDestination. rewrite (ste_step _ _ _ q q) by done.
  rewrite Hf. unfold opt_from in *. rewrite wire_view_dest.
  destruct (has_flag (Flags p) FlagFromIncluded); cbn [negb].
  2: { cbn [length]. rewrite Nat.add_0_r. unfold mret, ste_ret. f_equal.
       destruct q; cbn in *; by subst. }
  destruct (Hm eq_refl) as (d & bs & Hd & Hbs).
  rewrite Hd in *. cbn [mbind option_bind] in *. rewrite Hbs in *. cbn [default from_option id] in *.
  assert (Hn : (0 < length bs)%nat).
  { destruct bs; [|cbn; lia]. by apply destination_nonempty in Hbs. }
  destruct (Nat.leb_spec (off + length bs + length mid) off); [lia|].
  assert (H1 : Suffix data off ((bs ++ mid) ++ rest)) by (by rewrite <-app_assoc).
  rewrite (ste_step _ _ _ (bs ++ mid) q).
  - rewrite (destination_roundtrip d bs mid Hbs). erewrite ste_step by done. by rewrite Hbs.
  - unfold lift. rewrite <-Nat.add_assoc.
    by rewrite (slice_Suffix _ _ _ _ _ H1) by (by rewrite length_app).
Qed.

(** With FROM on the wire whenever a signature block is, the parser computes
    the signature length from the destination the sender used. *)
Lemma wire_view_from p :
  has_flag (Flags p) FlagFromIncluded = true → FromDestination (wire_view p) = FromDestination p.
Proof. intros H. cbn. by rewrite H. Qed.

Lemma unmarshalSignature_spec p data off e rest q :
  marshal_ok p → sendable p → Flags q = Flags p →
  FromDestination q = FromDestination (wire_view p) → Signature q = [] →
  Suffix data off (wire_signature p ++ rest) → (off + length (wire_signature p) ≤ e)%nat →
  unmarshalSignature data off e q =
    (Ok (off + length (wire_signature p))%nat, q <| Signature := wire_signature p |>).
Proof.
  intros [_ _ Hm _] [Hs _ _] Hf Hd Hq H0 He. unfold unmarshalSignature.
  rewrite (ste_step _ _ _ q q) by done. rewrite Hf, Hd. unfold wire_signature in *.
  destruct (has_flag (Flags p) FlagSignatureIncluded); cbn [negb].
  2: { cbn [length]. rewrite Nat.add_0_r. unfold mret, ste_ret. f_equal.
       destruct q; cbn in *; by subst. }
  rewrite wire_view_from by auto. destruct (Hm eq_refl) as [Hn Hl]. cbv zeta.
  set (sig := if (0 <? length (Signature p))%nat then Signature p else _) in *.
  assert (Hsig : length sig = getSignatureLength (FromDestination p)).
  { subst sig. destruct Hl as [->|Hl]; [by rewrite Nat.ltb_irrefl, length_replicate|].
    case_if; [done|by rewrite length_replicate]. }
  rewrite <-Hsig in *. destruct (Nat.eqb_spec (length sig) 0); [done|].
  destruct (Nat.ltb_spec e (off + length sig)); [lia|].
  rewrite (ste_step _ _ _ sig q) by (unfold lift; by erewrite slice_Suffix).
  by erewrite ste_step by done.
Qed.

Lemma unmarshalOfflineSignature_spec p data off e rest q :
  packet_wf p → marshal_ok p → sendable p → Flags q = Flags p →
  FromDestination q = FromDestination (wire_view p) → OfflineSignature q = None →
  Suffix data off (opt_offline p ++ rest) → (off + length (opt_offline p) ≤ e)%nat →
  unmarshalOfflineSignature data off e q =
    (Ok (off + length (opt_offline p))%nat,
     q <| OfflineSignature := OfflineSignature (wire_view p) |>).
Proof.
  intros Hwf [_ Hmf _ Hm] [_ Hs _] Hf Hd Hq H0 Hle.
  unfold unmarshalOfflineSignature. rewrite (ste_step _ _ _ q q) by done. rewrite Hf.
  unfold opt_offline in *. rewrite wire_view_offline.
  destruct (has_flag (Flags p) FlagOfflineSignature) eqn:Fo; cbn [negb].
  2: { cbn [length]. rewrite Nat.add_0_r. unfold mret, ste_ret. f_equal.
       destruct q; cbn in *; by subst. }
  destruct (Hs eq_refl) as [Ff Hk0]. destruct (Hm eq_refl) as (o & Ho & Hk & Hg).
  rewrite wire_view_from in Hd by done. specialize (Hk0 o Ho).
  destruct (wf_offline _ Hwf o Ho) as [He Ht]. rewrite Ho in *.
  assert (Hg0 : length (DestSignature o) ≠ 0%nat).
  { destruct (Hmf Ff) as (d & ? & Hd' & _). rewrite Hg, Hd'. pose proof (getSignatureLength_pos d). lia. }
  rewrite !length_app, length_PutUint32, length_PutUint16 in *. rewrite <-!app_assoc in H0.
  destruct (Nat.ltb_spec e (off + 6)); [lia|].
  pose proof (Suffix_app_n _ _ _ _ 4 H0 (length_PutUint32 _)) as H1.
  pose proof (Suffix_app_n _ _ _ _ 2 H1 (length_PutUint16 _)) as H2.
  pose proof (Suffix_app _ _ _ _ H2) as H3.
  replace (off + 4 + 2)%nat with (off + 6)%nat in H2, H3 by lia.
  erewrite ste_step; [|unfold unmarshalOfflineSigHeader;
    erewrite ste_step by (by eapply getUint32_Suffix);
    erewrite ste_step by (by eapply getUint16_Suffix); reflexivity].
  cbn beta iota. erewrite ste_step.
  2: { unfold unmarshalTransientKey. cbn [upd set_TransientSigType TransientSigType]. cbv zeta.
       destruct (Nat.eqb_spec (getPublicKeyLength (TransientSigType o)) 0); [done|].
       rewrite <-Hk. destruct (Nat.ltb_spec e (off + 6 + length (TransientPublicKey o))); [lia|].
       rewrite (ste_step _ _ _ (TransientPublicKey o) q)
         by (unfold lift; by erewrite slice_Suffix). done. }
  cbn beta iota. erewrite ste_step.
  2: { unfold unmarshalDestSignature. rewrite (ste_step _ _ _ q q) by done. cbv zeta.
       rewrite Hd, <-Hg. destruct (Nat.eqb_spec (length (DestSignature o)) 0); [done|].
       destruct (Nat.ltb_spec e (off + 6 + length (TransientPublicKey o)
                                   + length (DestSignature o))); [lia|].
       rewrite (ste_step _ _ _ (DestSignature o) q)
         by (unfold lift; by erewrite slice_Suffix). done. }
  cbn beta iota. erewrite ste_step by done. cbn.
  unfold mret, ste_ret. f_equal; [f_equal; lia|]. by destruct o.
Qed.

(** The packet once the header is read. *)
Definition header_view (p : Packet) : Packet :=
  MkPacket (SendStreamID p) (RecvStreamID p) (SequenceNum p) (AckThrough p) (Flags p)
    (NACKs p) 0 (ResendDelay p) 0 None [] None [].

Lemma unmarshalHeader_wire p :
  packet_wf p → (length (NACKs p) ≤ 255)%nat → Z.of_nat (length (options p)) < 65536 →
  let off := (22 + length (NACKs p) * 4)%nat in
  unmarshalHeader (wire p) empty_Packet =
    (Ok (off, (off + length (options p))%nat), header_view p)
  ∧ Suffix (wire p) off (options p ++ Payload p).
Proof.
  intros [] Hn Ho off. assert (H0 : Suffix (wire p) 0 (wire p)) by (by exists []).
  unfold wire at 2 in H0. unfold unmarshalHeader.
  eapply (unmarshalRequiredFields_spec _ _ _ _ _ _ empty_Packet) in H0 as [E1 H1]; try done.
  lazymatch type of E1 with _ = (Ok _, ?q) =>
    eapply (unmarshalNACKs_spec _ _ _ _ q) in H1 as [E2 H2]; [|done..] end.
  pose proof (index_Suffix (E:=PacketError) _ _ _ _ H2) as E3.
  apply Suffix_cons in H2 as H3.
  pose proof (Suffix_app_n _ _ _ _ 2 H3 (length_PutUint16 _)) as H4.
  pose proof (Suffix_app_n _ _ _ _ 2 H4 (length_PutUint16 _)) as H5.
  split; [|by replace off with (S (17 + length (NACKs p) * 4) + 2 + 2)%nat by lia].
  erewrite ste_step by exact E1. erewrite ste_step by exact E2.
  erewrite ste_step by (unfold lift; by rewrite E3). erewrite ste_step by done.
  erewrite ste_step by (by eapply getUint16_Suffix). erewrite ste_step by done.
  erewrite ste_step by (eapply getUint16_Suffix; [done|lia]).
  pose proof (Suffix_length _ _ _ H5) as Hl. rewrite length_app in Hl.
  rewrite Nat2Z.id. destruct (Nat.ltb_spec (length (wire p))
    (S (17 + length (NACKs p) * 4) + 2 + 2 + length (options p))); [lia|].
  unfold mret, ste_ret. f_equal; [do 2 f_equal; lia|].
  unfold header_view. cbn. rewrite Z_of_byte_of_Z, (Z.mod_small (ResendDelay p)) by lia. done.
Qed.

(** The option data, after the header. *)
Lemma unmarshalOptions_wire p off :
  packet_wf p → marshal_ok p → sendable p →
  Suffix (wire p) off (options p ++ Payload p) →
  ∃ q, unmarshalOptions (wire p) off (off + length (options p)) (header_view p) = (Ok (), q)
       ∧ q <| Payload := Payload p |> = wire_view p ∧ Payload q = [].
Proof.
  intros Hwf Hok Hsd H0. unfold options in *. rewrite !length_app. rewrite <-!app_assoc in H0.
  apply Suffix_app in H0 as H1. apply Suffix_app in H1 as H2. apply Suffix_app in H2 as H3.
  unfold unmarshalOptions. eexists. split.
  - erewrite ste_step by (eapply unmarshalOptionalDelay_spec; try done; lia).
    erewrite ste_step.
    2: { eapply (unmarshalFromDestination_spec p _ _ _
           (opt_mps p ++ opt_offline p ++ wire_signature p) (Payload p)); try done.
         - by rewrite <-!app_assoc.
         - rewrite !length_app. lia. }
    erewrite ste_step by (eapply unmarshalMaxPacketSize_spec; try done; lia).
    erewrite ste_step by (eapply unmarshalOfflineSignature_spec; try done; lia).
    apply Suffix_app in H3.
    erewrite ste_step by (eapply unmarshalSignature_spec; try done; lia). reflexivity.
  - split; [|done]. by destruct p.
Qed.

Lemma Unmarshal_wire p :
  packet_wf p → marshal_ok p → sendable p → unmarshal_fresh (wire p) = Ok (wire_view p).
Proof.
  intros Hwf Hok Hsd. unfold unmarshal_fresh, Unmarshal.
  destruct (unmarshalHeader_wire p Hwf (mo_nacks _ Hok) (sd_size _ Hsd)) as [Eh Hh].
  pose proof (Suffix_length _ _ _ Hh) as Hl. rewrite length_app in Hl.
  destruct (Nat.ltb_spec (length (wire p)) 22); [lia|].
  erewrite ste_step by exact Eh. cbn beta iota.
  destruct (unmarshalOptions_wire p _ Hwf Hok Hsd Hh) as (q & Eq & Hq & Hz).
  erewrite ste_step by exact Eq. apply Suffix_app in Hh as Hp.
  destruct (Nat.ltb_spec (22 + length (NACKs p) * 4 + length (options p)) (length (wire p))).
  - erewrite ste_step by (unfold lift; by erewrite slice_from_Suffix). cbn. by rewrite <-Hq.
  - assert (Payload p = []) as Hp0 by (apply nil_length_inv; lia).
    cbn. f_equal. rewrite <-Hq, Hp0. destruct q; cbn in *; by subst.
Qed.
End Unmarshal.

(** ** Panics

    Every slice access of the option parsers is guarded; the header reads
    its last five bytes after checking for the NACKs only. *)

Section Panics.
Context {I : I2CP}.
Implicit Types q : Packet.

Definition NoPanic {S E A} (m : STE S E A) : Prop := ∀ s, fst (m s) ≠ Panic.

Lemma NoPanic_bind {S E A B} (m : STE S E A) (k : A → STE S E B) :
  NoPanic m → (∀ a, NoPanic (k a)) → NoPanic (m ≫= k).
Proof.
  intros Hm Hk s. unfold mbind, ste_bind. specialize (Hm s).
  destruct (m s) as [[a|e|] s']; cbn in *; [apply Hk|done|done].
Qed.
Lemma NoPanic_ret {S E A} (a : A) : NoPanic (mret a : STE S E A).
Proof. done. Qed.
Lemma NoPanic_fail {S E A} (e : E) : NoPanic (fail e : STE S E A).
Proof. done. Qed.
Lemma NoPanic_emodify {S E} (f : S → S) : NoPanic (emodify f : STE S E unit).
Proof. done. Qed.
Lemma NoPanic_egets {S E A} (f : S → A) : NoPanic (egets f : STE S E A).
Proof. done. Qed.

Lemma getUint16_cases data off q :
  getUint16 data off q =
    (if decide (off + 2 ≤ length data)%nat then Ok (be_get (take 2 (drop off data))) else Panic, q).
Proof.
  unfold getUint16, lift, slice_from, Uint16, BigEndian_Uint.
  repeat (case_decide; cbn); try done; rewrite ?length_drop in *; try done; lia.
Qed.
Lemma getUint32_cases data off q :
  getUint32 data off q =
    (if decide (off + 4 ≤ length data)%nat then Ok (be_get (take 4 (drop off data))) else Panic, q).
Proof.
  unfold getUint32, lift, slice_from, Uint32, BigEndian_Uint.
  repeat (case_decide; cbn); try done; rewrite ?length_drop in *; try done; lia.
Qed.

Lemma NoPanic_getUint16 data off : (off + 2 ≤ length data)%nat → NoPanic (getUint16 data off).
Proof. intros H q. rewrite getUint16_cases. by case_decide. Qed.
Lemma NoPanic_getUint32 data off : (off + 4 ≤ length data)%nat → NoPanic (getUint32 data off).
Proof. intros H q. rewrite getUint32_cases. by case_decide. Qed.
Lemma NoPanic_slice {S E} data i j :
  (i ≤ j ≤ length data)%nat → NoPanic (lift (slice data i j) : STE S E bytes).
Proof. intros H s. unfold lift, slice. by case_decide. Qed.
Lemma NoPanic_slice_from {S E} data i :
  (i ≤ length data)%nat → NoPanic (lift (slice_from data i) : STE S E bytes).
Proof. intros H s. unfold lift, slice_from. by case_decide. Qed.

Ltac nopanic :=
  repeat first
    [ apply NoPanic_ret | apply NoPanic_fail | apply NoPanic_emodify | apply NoPanic_egets
    | apply NoPanic_bind; [|intros ?] | progress cbv zeta
    | apply NoPanic_getUint16; lia | apply NoPanic_getUint32; lia
    | apply NoPanic_slice; lia | apply NoPanic_slice_from; lia
    | case_match; zbool ].

Lemma readNACKs_NoPanic data off n : (off + n * 4 ≤ length data)%nat → NoPanic (readNACKs data off n).
Proof.
  revert off. induction n as [|n IH]; intros off H; cbn [readNACKs]; nopanic. apply IH. lia.
Qed.

Lemma unmarshalOptions_NoPanic data off e :
  (e ≤ length data)%nat → NoPanic (unmarshalOptions data off e).
Proof.
  intros He. unfold unmarshalOptions, unmarshalOptionalDelay, unmarshalFromDestination,
    unmarshalMaxPacketSize, unmarshalOfflineSignature, unmarshalSignature,
    unmarshalOfflineSigHeader, unmarshalTransientKey, unmarshalDestSignature.
  nopanic.
Qed.

(** A step that cannot fail in place. *)
Lemma getUint16_ok data off q :
  (off + 2 ≤ length data)%nat → ∃ v, getUint16 data off q = (Ok v, q) ∧ is_u16 v.
Proof.
  intros H. rewrite getUint16_cases. case_decide; [|done]. eexists; split; [done|].
  pose proof (be_get_range (take 2 (drop off data))) as Hr.
  rewrite length_take, length_drop, Nat.min_l in Hr by lia. done.
Qed.
Lemma getUint32_ok data off q :
  (off + 4 ≤ length data)%nat → ∃ v, getUint32 data off q = (Ok v, q) ∧ is_u32 v.
Proof.
  intros H. rewrite getUint32_cases. case_decide; [|done]. eexists; split; [done|].
  pose proof (be_get_range (take 4 (drop off data))) as Hr.
  rewrite length_take, length_drop, Nat.min_l in Hr by lia. done.
Qed.

Lemma readNACKs_ok data off n q :
  (off + n * 4 ≤ length data)%nat →
  ∃ vs, readNACKs data off n q = (Ok vs, q) ∧ Forall (λ v, is_u32 v) vs ∧ length vs = n.
Proof.
  revert off. induction n as [|n IH]; intros off H; cbn [readNACKs]; [by eexists|].
  destruct (getUint32_ok data off q) as (v & Ev & Hv); [lia|].
  destruct (IH (off + 4)%nat) as (vs & Es & Hs & Hl); [lia|].
  exists (v :: vs). erewrite ste_step by done. erewrite ste_step by done. cbn. auto.
Qed.

Lemma unmarshalRequiredFields_ok data q :
  (22 ≤ length data)%nat → ∃ a b c d,
    unmarshalRequiredFields data q =
      (Ok 16%nat, q <| SendStreamID := a |> <| RecvStreamID := b |>
                    <| SequenceNum := c |> <| AckThrough := d |>)
    ∧ is_u32 a ∧ is_u32 b ∧ is_u32 c ∧ is_u32 d.
Proof.
  intros H. unfold unmarshalRequiredFields.
  edestruct (getUint32_ok data 0) as (a & Ea & Ha); [lia|].
  edestruct (getUint32_ok data 4) as (b & Eb & Hb); [lia|].
  edestruct (getUint32_ok data 8) as (c & Ec & Hc); [lia|].
  edestruct (getUint32_ok data 12) as (d & Ed & Hd); [lia|].
  exists a, b, c, d. split; [|done].
  do 4 (erewrite ste_step by done; erewrite ste_step by done). done.
Qed.

(** The NACK block: an error when the datagram ends inside it. *)
Lemma unmarshalNACKs_cases data q :
  (22 ≤ length data)%nat → NACKs q = [] →
  let n := nack_count data in
  if decide (1 ≤ n ∧ length data < 17 + 4 * n)%nat
  then ∃ q', unmarshalNACKs data 16 q = (Err ETooShortNACKs, q')
  else ∃ vs, unmarshalNACKs data 16 q = (Ok (17 + 4 * n)%nat, q <| NACKs := vs |>)
             ∧ Forall (λ v, is_u32 v) vs ∧ length vs = n.
Proof.
  intros Hl Hq n. unfold unmarshalNACKs.
  destruct (lookup_lt_is_Some_2 data 16) as [b Hb]; [lia|].
  assert (Hn : n = Z.to_nat (Z_of_byte b)) by (subst n; unfold nack_count; by rewrite Hb).
  rewrite (ste_step _ _ _ b q) by (unfold lift, index; by rewrite Hb). rewrite <-Hn.
  destruct (Nat.eqb_spec n 0) as [Hz|Hz]; case_decide as Hd; try lia.
  - rewrite Hz in *. exists []. unfold mret, ste_ret. split; [|done]. f_equal. destruct q; cbn in *; by subst.
  - destruct (Nat.ltb_spec (length data) (17 + n * 4)); [by eexists|lia].
  - destruct (Nat.ltb_spec (length data) (17 + n * 4)); [lia|].
    destruct (readNACKs_ok data 17 n q) as (vs & E & Hvs); [lia|].
    exists vs. erewrite ste_step by done. erewrite ste_step by done. split; [|done].
    unfold mret, ste_ret. do 3 f_equal. lia.
Qed.

Lemma getUint16_panic data off q : (length data < off + 2)%nat → getUint16 data off q = (Panic, q).
Proof. intros. rewrite getUint16_cases. case_decide; [lia|done]. Qed.

(** What a header whose five fixed trailing bytes are present yields. *)
Definition header_ok (data : bytes) (r : result PacketError (nat * nat)) (q : Packet) : Prop :=
  match r with
  | Ok (off, e) => (off ≤ e ≤ length data)%nat ∧ packet_wf q ∧ length (NACKs q) = nack_count data
      ∧ off = (22 + 4 * nack_count data)%nat
      ∧ Payload q = [] ∧ OptionalDelay q = 0 ∧ MaxPacketSize q = 0
      ∧ FromDestination q = None ∧ Signature q = [] ∧ OfflineSignature q = None
  | Err _ => True
  | Panic => False
  end.

Lemma unmarshalHeader_cases data :
  (22 ≤ length data)%nat →
  let '(r, q) := unmarshalHeader data empty_Packet in
  (header_overrun data ∧ r = Panic) ∨ (¬ header_overrun data ∧ header_ok data r q).
Proof.
  intros Hl. unfold unmarshalHeader, header_overrun.
  destruct (unmarshalRequiredFields_ok data empty_Packet Hl) as (a & b & c & d & E & ? & ? & ? & ?).
  erewrite ste_step by exact E.
  set (n := nack_count data). set (q0 := _ <| AckThrough := d |>).
  pose proof (unmarshalNACKs_cases data q0 Hl eq_refl) as Hn. cbv zeta in Hn. fold n in Hn.
  case_decide as Hd.
  { destruct Hn as [q' Hn]. erewrite ste_err by exact Hn. right. split; [lia|done]. }
  destruct Hn as (vs & En & Hvs & Hlen). erewrite ste_step by exact En.
  set (q1 := q0 <| NACKs := vs |>).
  destruct (decide (17 + 4 * n < length data)%nat) as [Hb0|Hb0].
  2: { erewrite ste_panic; [left; split; [lia|done]|]. unfold lift, index.
       rewrite lookup_ge_None_2 by lia. done. }
  destruct (lookup_lt_is_Some_2 data (17 + 4 * n)) as [b0 Hb]; [lia|].
  rewrite (ste_step _ _ _ b0 q1) by (unfold lift, index; by rewrite Hb).
  erewrite ste_step by done. cbv zeta.
  destruct (decide (20 + 4 * n ≤ length data)%nat) as [Hb1|Hb1].
  2: { erewrite ste_panic; [left; split; [lia|done]|]. apply getUint16_panic. lia. }
  edestruct (getUint16_ok data (S (17 + 4 * n))) as (f & Ef & Hf); [lia|].
  erewrite ste_step by exact Ef. erewrite ste_step by done.
  destruct (decide (22 + 4 * n ≤ length data)%nat) as [Hb2|Hb2].
  2: { erewrite ste_panic; [left; split; [lia|done]|]. apply getUint16_panic. lia. }
  edestruct (getUint16_ok data (S (17 + 4 * n) + 2)) as (sz & Es & Hs); [lia|].
  erewrite ste_step by exact Es.
  case_if; [right; split; [lia|done]|]. right. split; [lia|]. zbool.
  unfold header_ok. cbn. split_and!; try done; try lia.
  pose proof (Z_of_byte_range b0). split; cbn; done.
Qed.

(** [Unmarshal] into a fresh packet panics exactly on the truncated
    datagrams [header_overrun] describes. *)
Lemma Unmarshal_panic_iff data :
  unmarshal_fresh data = Panic ↔ header_overrun data.
Proof.
  unfold unmarshal_fresh, Unmarshal. case_if; zbool.
  { cbn. split; [done|]. intros []. lia. }
  pose proof (unmarshalHeader_cases data ltac:(lia)) as H.
  destruct (unmarshalHeader data empty_Packet) as [r q] eqn:E.
  destruct H as [[Ho ->]|[Ho Hk]]; [by erewrite ste_panic|].
  split; [|done]. intros Hp. exfalso. destruct r as [[off e]|er|]; [|by rewrite (ste_err _ _ _ _ _ E) in Hp|done].
  rewrite (ste_step _ _ _ _ _ E) in Hp. cbv beta iota in Hp. destruct Hk as (He & _).
  set (m := mbind _ (unmarshalOptions data off e)) in Hp.
  assert (NoPanic m) as Hm; [|specialize (Hm q); by destruct (m q) as [[]]].
  subst m. apply NoPanic_bind; [apply unmarshalOptions_NoPanic; lia|]. intros _.
  case_if; [|by apply NoPanic_ret]. zbool. apply NoPanic_bind; [apply NoPanic_slice_from; lia|].
  intros. apply NoPanic_emodify.
Qed.
End Panics.

(** ** Accepted packets

    Which option fields have been parsed so far; a field that is not parsed,
    or whose flag is clear, has its zero value. *)

Section Accepted.
Context {I : I2CP}.
Implicit Types q : Packet.

Record parsed (d f m o s : bool) (q : Packet) : Prop := {
  pa_wf : packet_wf q;
  pa_nacks : (length (NACKs q) ≤ 255)%nat;
  pa_delay : d && has_flag (Flags q) FlagDelayRequested = false → OptionalDelay q = 0;
  pa_from : if f && has_flag (Flags q) FlagFromIncluded
    then ∃ d bs, FromDestination q = Some d ∧ WriteToMessage d = Some bs
    else FromDestination q = None;
  pa_mps : m && has_flag (Flags q) FlagMaxPacketSizeIncluded = false → MaxPacketSize q = 0;
  pa_offline : if o && has_flag (Flags q) FlagOfflineSignature
    then ∃ o, OfflineSignature q = Some o ∧ getPublicKeyLength (TransientSigType o) ≠ 0%nat ∧
      length (TransientPublicKey o) = getPublicKeyLength (TransientSigType o) ∧
      getSignatureLength (FromDestination q) ≠ 0%nat ∧
      length (DestSignature o) = getSignatureLength (FromDestination q)
    else OfflineSignature q = None;
  pa_sig : if s && has_flag (Flags q) FlagSignatureIncluded
    then getSignatureLength (FromDestination q) ≠ 0%nat ∧
      length (Signature q) = getSignatureLength (FromDestination q)
    else Signature q = [];
}.

(** A partial-correctness triple for methods that may fail. *)
Definition triple {S E A} (P : S → Prop) (m : STE S E A) (Q : A → S → Prop) : Prop :=
  ∀ s, P s → match m s with (Ok a, s') => Q a s' | _ => True end.

Lemma triple_bind {S E A B} (P : S → Prop) (m : STE S E A) (k : A → STE S E B) Q R :
  triple P m Q → (∀ a, triple (Q a) (k a) R) → triple P (m ≫= k) R.
Proof.
  intros Hm Hk s Hs. specialize (Hm s Hs). unfold mbind, ste_bind.
  destruct (m s) as [[a|e|] s']; [by apply Hk|done|done].
Qed.

Lemma slice_inv {E} data i j x : slice (E:=E) data i j = Ok x → length x = (j - i)%nat.
Proof.
  unfold slice. case_decide; [|done]. intros [= <-]. rewrite length_take, length_drop. lia.
Qed.

Lemma unmarshalOptionalDelay_triple data off e :
  triple (parsed false false false false false) (unmarshalOptionalDelay data off e)
    (λ _, parsed true false false false false).
Proof.
  intros q [Hwf ? Hd ? ? ? ?]. unfold unmarshalOptionalDelay. rewrite (ste_step _ _ _ q q) by done.
  destruct (has_flag (Flags q) FlagDelayRequested) eqn:Hf; cbn [negb].
  - case_if; [done|]. unfold mbind, ste_bind. rewrite getUint16_cases. case_decide; [|done].
    pose proof (getUint16_ok data off q ltac:(lia)) as (v & Ev & Hv).
    rewrite getUint16_cases in Ev. case_decide; [|done]. injection Ev as ->. cbn.
    destruct Hwf. repeat (split; cbn; try done). by rewrite Hf.
  - cbn. split; try done. intros _. by apply Hd.
Qed.

Lemma unmarshalMaxPacketSize_triple data off e :
  triple (parsed true true false false false) (unmarshalMaxPacketSize data off e)
    (λ _, parsed true true true false false).
Proof.
  intros q [Hwf ? ? ? Hd ? ?]. unfold unmarshalMaxPacketSize. rewrite (ste_step _ _ _ q q) by done.
  destruct (has_flag (Flags q) FlagMaxPacketSizeIncluded) eqn:Hf; cbn [negb].
  - case_if; [done|]. unfold mbind, ste_bind. rewrite getUint16_cases. case_decide; [|done].
    pose proof (getUint16_ok data off q ltac:(lia)) as (v & Ev & Hv).
    rewrite getUint16_cases in Ev. case_decide; [|done]. injection Ev as ->. cbn.
    destruct Hwf. repeat (split; cbn; try done). by rewrite Hf.
  - cbn. split; try done. intros _. by apply Hd.
Qed.

Lemma unmarshalFromDestination_triple data off e :
  triple (parsed true false false false false) (unmarshalFromDestination data off e)
    (λ _, parsed true true false false false).
Proof.
  intros q [Hwf ? ? Hd ? ? ?]. unfold unmarshalFromDestination. rewrite (ste_step _ _ _ q q) by done.
  destruct (has_flag (Flags q) FlagFromIncluded) eqn:Hf; cbn [negb].
  - case_if; [done|]. unfold mbind, ste_bind, lift.
    destruct (slice data off e) as [x| |]; [|done..].
    destruct (NewDestinationFromMessage x) as [d|]; [|done]. cbn.
    destruct (WriteToMessage d) as [bs|] eqn:Hw; [|done]. cbn.
    destruct Hwf. repeat (split; cbn; try done). rewrite Hf. cbn. eauto.
  - cbn. split; try done. by rewrite Hf.
Qed.

Lemma unmarshalOfflineSignature_triple data off e :
  triple (parsed true true true false false) (unmarshalOfflineSignature data off e)
    (λ _, parsed true true true true false).
Proof.
  intros q [Hwf ? ? ? ? Hd ?]. unfold unmarshalOfflineSignature. rewrite (ste_step _ _ _ q q) by done.
  destruct (has_flag (Flags q) FlagOfflineSignature) eqn:Hf; cbn [negb].
  2: { cbn. split; try done. by rewrite Hf. }
  case_if; [done|]. unfold unmarshalOfflineSigHeader, unmarshalTransientKey, unmarshalDestSignature.
  destruct (decide (off + 6 ≤ length data)%nat).
  2: { unfold mbind, ste_bind. rewrite getUint32_cases. case_decide; [|done].
       rewrite getUint16_cases. case_decide; [lia|done]. }
  pose proof (getUint32_ok data off q ltac:(lia)) as (v & Ev & Hv).
  pose proof (getUint16_ok data (off + 4) q ltac:(lia)) as (w & Ew & Hw).
  unfold mbind, ste_bind. rewrite Ev, Ew. cbn.
  case_if; [done|]. case_if; [done|]. unfold lift.
  destruct (slice data _ _) as [k| |] eqn:Hk; [|done..]. cbn. case_if; [done|]. case_if; [done|].
  destruct (slice data _ _) as [g| |] eqn:Hg in |- *; [|done..]. cbn. zbool.
  apply slice_inv in Hk, Hg. split; cbn; try done.
  - destruct Hwf. split; try done. cbn. by intros ? [= <-].
  - rewrite Hf. eexists. split; [done|]. cbn. repeat split; try done; lia.
Qed.

Lemma unmarshalSignature_triple data off e :
  triple (parsed true true true true false) (unmarshalSignature data off e)
    (λ _, parsed true true true true true).
Proof.
  intros q [Hwf ? ? ? ? ? Hd]. unfold unmarshalSignature. rewrite (ste_step _ _ _ q q) by done.
  destruct (has_flag (Flags q) FlagSignatureIncluded) eqn:Hf; cbn [negb].
  - cbv zeta. case_if; [done|]. case_if; [done|]. unfold mbind, ste_bind, lift.
    destruct (slice data _ _) as [x| |] eqn:Hx; [|done..]. cbn. apply slice_inv in Hx. zbool.
    destruct Hwf. repeat (split; cbn; try done). rewrite Hf. cbn. split; [done|lia].
  - cbn. split; try done. by rewrite Hf.
Qed.

Lemma unmarshalOptions_triple data off e :
  triple (parsed false false false false false) (unmarshalOptions data off e)
    (λ _, parsed true true true true true).
Proof.
  unfold unmarshalOptions.
  eapply triple_bind; [apply unmarshalOptionalDelay_triple|intros ?; cbv beta].
  eapply triple_bind; [apply unmarshalFromDestination_triple|intros ?; cbv beta].
  eapply triple_bind; [apply unmarshalMaxPacketSize_triple|intros ?; cbv beta].
  eapply triple_bind; [apply unmarshalOfflineSignature_triple|intros ?; cbv beta].
  eapply triple_bind; [apply unmarshalSignature_triple|intros ?; cbv beta]. by intros ?.
Qed.

Lemma nack_count_le data : (nack_count data ≤ 255)%nat.
Proof.
  unfold nack_count. destruct (data !! 16%nat) as [b|]; [|lia]. pose proof (Z_of_byte_range b). lia.
Qed.

Lemma Unmarshal_parsed data q :
  unmarshal_fresh data = Ok q → parsed true true true true true q.
Proof.
  unfold unmarshal_fresh, Unmarshal. case_if; [done|]. zbool.
  pose proof (unmarshalHeader_cases data ltac:(lia)) as H.
  destruct (unmarshalHeader data empty_Packet) as [r q0] eqn:E.
  unfold mbind at 1, ste_bind at 1. rewrite E.
  destruct H as [[_ ->]|[_ Hk]]; [done|]. destruct r as [[off e]|er|]; [|done..].
  destruct Hk as (He & Hwf & Hn & _ & Hp & ? & ? & ? & ? & ?).
  assert (parsed false false false false false q0) as Ht.
  { split; try done. rewrite Hn. apply nack_count_le. }
  apply (unmarshalOptions_triple data off e) in Ht.
  unfold mbind, ste_bind. destruct (unmarshalOptions data off e q0) as [[[]|er|] q1]; [|done..].
  case_if; [|by intros [= <-]]. unfold lift.
  destruct (slice_from data e) as [x| |]; [|done..]. cbn. intros [= <-].
  by destruct Ht as [[] ? ? ? ? ? ?].
Qed.

(** Every accepted packet passes the checks of [Marshal] and is its own
    wire view. *)
Lemma parsed_canonical q :
  parsed true true true true true q →
  packet_wf q ∧ marshal_ok q ∧ wire_view q = q ∧
  (Z.of_nat (length (options q)) < 65536 → sendable q).
Proof.
  intros [Hwf Hn Hd Hf Hm Ho Hs]. cbn in *. split; [done|].
  assert (marshal_ok q) as Hok.
  { split; [done|..]; intros Hfl; rewrite Hfl in *; [done|by destruct Hs; auto|].
    destruct Ho as (o & ? & ? & ? & ? & ?). eauto. }
  split; [done|]. split.
  - assert (wire_signature q = Signature q) as Hsig.
    { unfold wire_signature. destruct (has_flag (Flags q) FlagSignatureIncluded); [|done].
      case_if; zbool; [done|]. destruct Hs as [? Hs]. lia. }
    unfold wire_view. rewrite Hsig.
    replace (if has_flag (Flags q) FlagDelayRequested then OptionalDelay q else 0)
      with (OptionalDelay q) by (by destruct (has_flag (Flags q) FlagDelayRequested); [|rewrite ?Hd]).
    replace (if has_flag (Flags q) FlagMaxPacketSizeIncluded then MaxPacketSize q else 0)
      with (MaxPacketSize q) by (by destruct (has_flag (Flags q) FlagMaxPacketSizeIncluded); [|rewrite ?Hm]).
    replace (if has_flag (Flags q) FlagFromIncluded then FromDestination q else None)
      with (FromDestination q) by (by destruct (has_flag (Flags q) FlagFromIncluded); [|rewrite ?Hf]).
    replace (if has_flag (Flags q) FlagOfflineSignature then OfflineSignature q else None)
      with (OfflineSignature q) by (by destruct (has_flag (Flags q) FlagOfflineSignature); [|rewrite ?Ho]).
    by destruct q.
  - assert (Hff : getSignatureLength (FromDestination q) ≠ 0%nat →
      has_flag (Flags q) FlagFromIncluded = true).
    { intros H. destruct (has_flag (Flags q) FlagFromIncluded); [done|].
      rewrite Hf in H. by destruct H. }
    split; [intros Hfl; rewrite Hfl in Hs; apply Hff, Hs| |done].
    intros Hfl. rewrite Hfl in *. destruct Ho as (o & Ho & Hk & _ & Hg & _).
    split; [by apply Hff|]. intros o' ?. simplify_eq. done.
Qed.
End Accepted.

(** ** The properties *)

Section Properties.
Context {I : I2CP}.

(** C12.  [Marshal] is exact: it returns bytes if and only if the packet passes
    the checks of [marshal_ok] (NACK count, FROM present and encodable,
    signature and offline-signature lengths), the bytes are then the fields in
    wire order with the options' total length in the size field, and no packet
    makes it panic. *)
Theorem Marshal_exact (p : Packet) (data : bytes) :
  (Marshal p = Ok data ↔ marshal_ok p ∧ data = wire p) ∧ Marshal p ≠ Panic.
Proof.
  split; [apply Marshal_ok_iff|]. pose proof (Marshal_inv p). by destruct (Marshal p).
Qed.

(** [Unmarshal] panics (index out of range) exactly on the datagrams of at
    least 22 bytes whose NACK list fits but whose last five header bytes do
    not; every slice access of the option parsers is in bounds. *)
Theorem Unmarshal_panic_exact (data : bytes) :
  unmarshal_fresh data = Panic ↔ header_overrun data.
Proof. apply Unmarshal_panic_iff. Qed.

Context `{!I2CPLaws I}.

(** C10.  Round trip: a well-formed packet that passes [Marshal]'s checks and
    meets the sender's obligations is serialised, and parsing the bytes gives
    back every field whose flag is set (an absent signature as zeros). *)
Theorem packet_roundtrip (p : Packet) :
  packet_wf p → marshal_ok p → sendable p →
  ∃ data, Marshal p = Ok data ∧ unmarshal_fresh data = Ok (wire_view p).
Proof. intros Hwf Hok Hs. exists (wire p). split; [by apply Marshal_wire|by apply Unmarshal_wire]. Qed.

(** C13.  Every packet [Unmarshal] accepts is canonical: its fields fit their
    types, it can be serialised again, and, as long as its options fit the
    16-bit size field, parsing that serialisation gives the same packet. *)
Theorem Unmarshal_canonical (data : bytes) (q : Packet) :
  unmarshal_fresh data = Ok q →
  packet_wf q ∧ ∃ data', Marshal q = Ok data' ∧
    (Z.of_nat (length (options q)) < 65536 → unmarshal_fresh data' = Ok q).
Proof.
  intros (Hwf & Hok & Hv & Hs)%Unmarshal_parsed%parsed_canonical. split; [done|].
  exists (wire q). split; [by apply Marshal_wire|]. intros Hlen.
  rewrite Unmarshal_wire by auto. by rewrite Hv.
Qed.
End Properties.

(** ** Concrete packets *)

Section Examples.

(** A destination with an Ed25519 KEY certificate. *)
Definition dest_ex : @Destination ConcreteI2CP :=
  replicate 384 x01 ++ [x05; x00; x04; x00; x07; x00; x04].

(** A signed SYN with two NACKs, a maximum packet size and an offline signature. *)
Definition syn_ex : @Packet ConcreteI2CP :=
  MkPacket 0 77 1234 0
    (FlagSYN + FlagSignatureIncluded + FlagFromIncluded + FlagMaxPacketSizeIncluded
      + FlagOfflineSignature)
    [5; 4294967295] 0 8 1730 (Some dest_ex) (replicate 64 x02)
    (Some (MkOfflineSig 99 7 (replicate 32 x03) (replicate 64 x04))) [x68; x69].

Lemma syn_ex_ok : packet_wf syn_ex ∧ marshal_ok syn_ex ∧ sendable syn_ex.
Proof.
  split_and!; split; try (intros _); try (cbn; lia); try done.
  - by repeat constructor.
  - by intros o [= <-].
  - exists dest_ex, dest_ex. by vm_compute.
  - split; [by vm_compute|right; by vm_compute].
  - eexists. split; [done|]. by vm_compute.
  - split; [done|]. intros o [= <-]. by vm_compute.
Qed.

Lemma packet_roundtrip_witness :
  ∃ data, Marshal syn_ex = Ok data ∧ unmarshal_fresh data = Ok (wire_view syn_ex).
Proof. apply (packet_roundtrip syn_ex); apply syn_ex_ok. Defined.

Lemma Unmarshal_canonical_witness :
  packet_wf (wire_view syn_ex) ∧ ∃ data', Marshal (wire_view syn_ex) = Ok data' ∧
    (Z.of_nat (length (options (wire_view syn_ex))) < 65536 →
     unmarshal_fresh data' = Ok (wire_view syn_ex)).
Proof. apply (Unmarshal_canonical (wire syn_ex) (wire_view syn_ex)). vmeq. Defined.

(** A 24-byte datagram announcing one NACK crashes the parser. *)
Example header_overrun_ex :
  unmarshal_fresh (I:=ConcreteI2CP) (replicate 16 x00 ++ [x01] ++ replicate 7 x00) = Panic.
Proof. vmeq. Qed.
End Examples.
