(* ===== verification/PacketHeader.v ===== *)
(** * What the header of a datagram says

    Sequence number and flags stand at fixed places before the options, so
    that a receiver reads them right whatever the other fields hold: lists of
    missing packets that are not normalised, destinations of any size. *)

From S2P Require Import Prelude GoInt I2CP Packet PacketProps.
From Stdlib Require Import Strings.Byte.

Section Header.
Context {I : I2CP}.
Implicit Types p q : Packet.

(** Every number of the packet cut to the width of its Go type. *)
Definition fit (p : Packet) : Packet :=
  p <| SendStreamID ::= u32 |> <| RecvStreamID ::= u32 |> <| SequenceNum ::= u32 |>
    <| AckThrough ::= u32 |> <| Flags ::= u16 |> <| NACKs ::= fmap u32 |> <| OptionalDelay ::= u16 |>
    <| ResendDelay ::= u8 |> <| MaxPacketSize ::= u16 |>.

Lemma u32_put z : PutUint32 (u32 z) = PutUint32 z.
Proof. apply (be_put_mod 4 z 4). lia. Qed.

Lemma options_fit p : is_u16 (Flags p) → options (fit p) = options p.
Proof.
  intros H. unfold options, opt_delay, opt_from, opt_mps, opt_offline, wire_signature, fit. cbn.
  by rewrite u16_small, !u16_put by done.
Qed.

Lemma wire_fit p : is_u16 (Flags p) → wire (fit p) = wire p.
Proof.
  intros H. unfold wire. rewrite options_fit by done. unfold fit. cbn.
  rewrite !u32_put, u16_put, length_fmap. unfold u8. rewrite byte_of_Z_mod, <-list_fmap_compose.
  rewrite (list_fmap_ext (PutUint32 ∘ u32) PutUint32 (NACKs p)); [done|]. intros i n _. apply u32_put.
Qed.

Lemma packet_wf_fit p : OfflineSignature p = None → packet_wf (fit p).
Proof.
  intros H. split; cbn; try apply u32_range; try apply u16_range.
  - apply Forall_fmap, Forall_true. intros n. apply u32_range.
  - unfold u8. zlia.
  - by rewrite H.
Qed.

(** The header parses to the header's fields, or not at all. *)
Lemma unmarshalHeader_fields p :
  packet_wf p → (length (NACKs p) ≤ 255)%nat →
  snd (unmarshalHeader (wire p) empty_Packet) = header_view p.
Proof.
  intros [] Hn. assert (H0 : Suffix (wire p) 0 (wire p)) by (by exists []).
  unfold wire at 2 in H0. rewrite <-(u16_put (Z.of_nat (length (options p)))) in H0.
  unfold unmarshalHeader.
  eapply (unmarshalRequiredFields_spec _ _ _ _ _ _ empty_Packet) in H0 as [E1 H1]; try done.
  lazymatch type of E1 with _ = (Ok _, ?q) =>
    eapply (unmarshalNACKs_spec _ _ _ _ q) in H1 as [E2 H2]; [|done..] end.
  pose proof (index_Suffix (E:=PacketError) _ _ _ _ H2) as E3.
  apply Suffix_cons in H2 as H3.
  pose proof (Suffix_app_n _ _ _ _ 2 H3 (length_PutUint16 _)) as H4.
  erewrite ste_step by exact E1. erewrite ste_step by exact E2.
  erewrite ste_step by (unfold lift; by rewrite E3). erewrite ste_step by done.
  erewrite ste_step by (by eapply getUint16_Suffix). erewrite ste_step by done.
  erewrite ste_step by (eapply getUint16_Suffix; [done|apply u16_range]).
  assert (Hv : ∀ A (r : result PacketError A) q, q = header_view p → snd (r, q) = header_view p) by done.
  case_if; apply Hv; unfold header_view; cbn; by rewrite Z_of_byte_of_Z, (Z.mod_small (ResendDelay p)) by lia.
Qed.

(** What the options do not touch. *)
Definition head (q : Packet) : Z * Z := (SequenceNum q, Flags q).

#[local] Instance unmarshalOptions_head data off e : Pres (same head) (unmarshalOptions data off e).
Proof.
  unfold unmarshalOptions, unmarshalOptionalDelay, unmarshalFromDestination, unmarshalMaxPacketSize,
    unmarshalOfflineSignature, unmarshalOfflineSigHeader, unmarshalTransientKey, unmarshalDestSignature,
    unmarshalSignature, getUint16, getUint32. cbv zeta. apply _.
Qed.

(** A packet whose wire image parses has the sequence number and the flags
    that were sent. *)
Lemma wire_head p q :
  OfflineSignature p = None → is_u16 (Flags p) → (length (NACKs p) ≤ 255)%nat →
  unmarshal_fresh (wire p) = Ok q → SequenceNum q = u32 (SequenceNum p) ∧ Flags q = Flags p.
Proof.
  intros Ho Hf Hn. rewrite <-(wire_fit p Hf). pose proof (packet_wf_fit p Ho) as Hwf.
  assert (Hn' : (length (NACKs (fit p)) ≤ 255)%nat) by (cbn; by rewrite length_fmap).
  pose proof (unmarshalHeader_fields _ Hwf Hn') as Hh.
  unfold unmarshal_fresh, Unmarshal. case_if; [done|].
  destruct (unmarshalHeader (wire (fit p)) empty_Packet) as [[[off e]|er|] q0] eqn:E.
  2, 3: (unfold mbind at 1, ste_bind at 1; by rewrite E).
  cbn [snd] in Hh. rewrite (ste_step _ _ _ _ _ E). cbv beta iota.
  set (m := mbind _ (unmarshalOptions _ _ _)).
  assert (Hm : Pres (same head) m) by (subst m; apply _). specialize (Hm q0).
  destruct (m q0) as [[[]|er|] q1]; [|done..]. intros [= <-].
  unfold same, head in Hm. cbn [snd] in Hm. injection Hm as -> ->. rewrite Hh. cbn.
  by rewrite u16_small.
Qed.

(** A packet without options is read back, its numbers cut to size. *)
Lemma Unmarshal_plain `{!I2CPLaws I} p :
  Flags p = 0 → OfflineSignature p = None → (length (NACKs p) ≤ 255)%nat →
  unmarshal_fresh (wire p) = Ok (wire_view (fit p)).
Proof.
  intros Hf Ho Hn. assert (Hu : is_u16 (Flags p)) by (rewrite Hf; lia).
  assert (Hff : Flags (fit p) = 0) by (cbn; by rewrite Hf).
  rewrite <-(wire_fit p Hu). apply Unmarshal_wire.
  - by apply packet_wf_fit.
  - split; rewrite ?Hff; try done. cbn. by rewrite length_fmap.
  - split; rewrite ?Hff; try done.
    unfold options, opt_delay, opt_from, opt_mps, opt_offline, wire_signature. by rewrite Hff.
Qed.
End Header.
