(* ===== verification/Crypto.v ===== *)
(** * Packet and offline signatures (crypto.go), random identifiers (packet.go)

    Signing a packet marshals it, zeroes the signature field at the offset
    [findSignatureOffset] computes and signs the result; verification redoes
    the same and asks the destination.  The properties: the offset is right,
    so the signed bytes are the wire image with a zero signature, and a packet
    signed by its destination's key verifies at the receiver. *)

From S2P Require Import Prelude GoInt I2CP Packet PacketProps.
From Stdlib Require Import Strings.Byte.

Section Crypto.
Context {I : I2CP}.
(** [ed25519.Verify pubKey msg sig] *)
Context (ed25519_Verify : bytes → bytes → bytes → bool).
Implicit Types pkt : Packet.

Inductive CryptoError :=
| CFromNil
| CNoSigFlag
| CMarshal (e : PacketError)
| CSigRange
| CSignFailed
| CSigLength (expected got : nat)
| CNoSignature
| CInvalidSignature
| COfflineNil
| CDestNil
| CCryptoNil
| CTransientEmpty
| CExpired
| CDestSigLength (got : nat)
| CDestSigZero
| CNoSigningKey
| CKeySize (got : nat)
| CNoMatch
| CRand.

Definition wrap {A} (r : result PacketError A) : result CryptoError A :=
  match r with Ok a => Ok a | Err e => Err (CMarshal e) | Panic => Panic end.

(** ** Random identifiers

    The argument is what [rand.Read] will deliver, call after call ([None] a
    read error); the rest is returned with the value. *)

Definition rand_Read (rs : list (option bytes)) : result CryptoError bytes * list (option bytes) :=
  match rs with
  | Some b :: rs => (Ok b, rs)
  | None :: rs => (Err CRand, rs)
  | [] => (Err CRand, [])
  end.

Definition generateISN (rs : list (option bytes)) : result CryptoError Z * list (option bytes) :=
  match rand_Read rs with
  | (Ok b, rs) => (Uint32 b, rs)
  | (Err e, rs) => (Err e, rs)
  | (Panic, rs) => (Panic, rs)
  end.

(** The loop draws until the identifier is not zero. *)
Fixpoint generateStreamID (rs : list (option bytes)) : result CryptoError Z * list (option bytes) :=
  match rs with
  | [] => (Err CRand, [])
  | None :: rs => (Err CRand, rs)
  | Some b :: rs =>
      match Uint32 b with
      | Ok id => if 0 <? id then (Ok id, rs) else generateStreamID rs
      | Err e => (Err e, rs)
      | Panic => (Panic, rs)
      end
  end.

(** ** findSignatureOffset *)

Definition findSignatureOffset (pkt : Packet) : nat :=
  let offset := 22%nat in
  let offset := (offset + length (NACKs pkt) * 4)%nat in
  let offset := if has_flag (Flags pkt) FlagDelayRequested then (offset + 2)%nat else offset in
  let offset :=
    if has_flag (Flags pkt) FlagFromIncluded then
      match FromDestination pkt with
      | Some d => match WriteToMessage d with
                  | Some bs => (offset + length bs)%nat
                  | None => (offset + 387)%nat
                  end
      | None => offset
      end
    else offset in
  let offset :=
    if has_flag (Flags pkt) FlagMaxPacketSizeIncluded then (offset + 2)%nat else offset in
  if has_flag (Flags pkt) FlagOfflineSignature then
    match OfflineSignature pkt with
    | Some o =>
        let transientKeyLen := getPublicKeyLength (TransientSigType o) in
        let destSigLen := getSignatureLength (FromDestination pkt) in
        (offset + (4 + 2 + transientKeyLen + destSigLen))%nat
    | None => offset
    end
  else offset.

(** [for i := 0; i < n; i++ { data[off+i] = 0 }] *)
Fixpoint zero_range (data : bytes) (off n : nat) : bytes :=
  match n with
  | O => data
  | S n => zero_range (<[off := x00]> data) (S off) n
  end.

(** ** Signing *)

Definition validateSignPacketPrereqs (pkt : Packet) : result CryptoError unit :=
  match FromDestination pkt with
  | None => Err CFromNil
  | Some _ =>
      if negb (has_flag (Flags pkt) FlagSignatureIncluded) then Err CNoSigFlag else Ok ()
  end.

Definition prepareDataForSigning (pkt : Packet) : result CryptoError (bytes * nat) :=
  data ← wrap (Marshal pkt);
  let sigOffset := findSignatureOffset pkt in
  let sigLen := getSignatureLength (FromDestination pkt) in
  if (length data <? sigOffset + sigLen)%nat then Err CSigRange
  else Ok (zero_range data sigOffset sigLen, sigLen).

Definition signAndValidate (keyPair : Ed25519KeyPair) (data : bytes) (expectedLen : nat)
    : result CryptoError bytes :=
  match Sign keyPair data with
  | None => Err CSignFailed
  | Some signature =>
      if negb (length signature =? expectedLen)%nat
      then Err (CSigLength expectedLen (length signature))
      else Ok signature
  end.

(** A method on the packet: the signature is written only on success. *)
Definition SignPacket (keyPair : Ed25519KeyPair) : STE Packet CryptoError unit :=
  pkt ← egets id;
  _ ← lift (validateSignPacketPrereqs pkt);
  '(data, sigLen) ← lift (prepareDataForSigning pkt);
  signature ← lift (signAndValidate keyPair data sigLen);
  emodify (λ p, p <| Signature := signature |>).

(** ** Verification *)

Definition validateSignaturePrerequisites (pkt : Packet) : result CryptoError unit :=
  match FromDestination pkt with
  | None => Err CFromNil
  | Some _ =>
      if (length (Signature pkt) =? 0)%nat then Err CNoSignature
      else if negb (has_flag (Flags pkt) FlagSignatureIncluded) then Err CNoSigFlag
      else Ok ()
  end.

(** The signature is replaced by zeros around the call of [Marshal] and
    restored at once, so the packet is unchanged. *)
Definition marshalWithZeroedSignature : STE Packet CryptoError bytes :=
  originalSig ← egets Signature;
  let sigLen := length originalSig in
  _ ← emodify (λ p, p <| Signature := replicate sigLen x00 |>);
  r ← egets Marshal;
  _ ← emodify (λ p, p <| Signature := originalSig |>);
  data ← lift (wrap r);
  sigOffset ← egets findSignatureOffset;
  if (length data <? sigOffset + sigLen)%nat then fail CSigRange
  else mret (zero_range data sigOffset sigLen).

Definition VerifyPacketSignature : STE Packet CryptoError unit :=
  pkt ← egets id;
  _ ← lift (validateSignaturePrerequisites pkt);
  originalSig ← egets Signature;
  data ← marshalWithZeroedSignature;
  dest ← egets FromDestination;
  match dest with
  | None => lift Panic
  | Some d => if negb (VerifySignature d data originalSig) then fail CInvalidSignature else mret ()
  end.

(** ** Offline signatures *)

Definition validateOfflineSignatureInputs (offsig : option OfflineSig) (dest : option Destination)
    (crypto : option unit) : result CryptoError (OfflineSig * Destination) :=
  match offsig with
  | None => Err COfflineNil
  | Some o =>
      match dest with
      | None => Err CDestNil
      | Some d =>
          match crypto with
          | None => Err CCryptoNil
          | Some _ => if (length (TransientPublicKey o) =? 0)%nat then Err CTransientEmpty
                      else Ok (o, d)
          end
      end
  end.

(** [now] is the clock in nanoseconds; [time.Now().Unix()] its seconds. *)
Definition checkOfflineSignatureExpiration (now : Z) (offsig : OfflineSig) : result CryptoError unit :=
  if Expires offsig <? now / Second then Err CExpired else Ok ().

Definition buildOfflineSignatureData (offsig : OfflineSig) : bytes :=
  let toSign := [] in
  let toSign := toSign ++ PutUint32 (Expires offsig) in
  let toSign := toSign ++ PutUint16 (TransientSigType offsig) in
  toSign ++ TransientPublicKey offsig.

Fixpoint has_nonzero (bs : bytes) : bool :=
  match bs with
  | [] => false
  | b :: bs => if negb (Z_of_byte b =? 0) then true else has_nonzero bs
  end.

Definition validateDestSignatureFormat (destSignature : bytes) : result CryptoError unit :=
  if negb (length destSignature =? 64)%nat then Err (CDestSigLength (length destSignature))
  else if has_nonzero destSignature then Ok () else Err CDestSigZero.

Definition VerifyOfflineSignature (now : Z) (offsig : option OfflineSig)
    (dest : option Destination) (crypto : option unit) : result CryptoError unit :=
  '(o, d) ← validateOfflineSignatureInputs offsig dest crypto;
  _ ← checkOfflineSignatureExpiration now o;
  let toSign := buildOfflineSignatureData o in
  _ ← validateDestSignatureFormat (DestSignature o);
  match SigningPublicKey d with
  | None => Err CNoSigningKey
  | Some pubKey =>
      if negb (length pubKey =? 32)%nat then Err (CKeySize (length pubKey))
      else if negb (ed25519_Verify pubKey toSign (DestSignature o)) then Err CNoMatch
      else Ok ()
  end.
End Crypto.

(** ** Lemmas *)

Lemma zero_range_app a b c :
  zero_range (a ++ b ++ c) (length a) (length b) = a ++ replicate (length b) x00 ++ c.
Proof.
  revert a. induction b as [|x b IH]; intros a; [done|]. cbn [length zero_range app replicate].
  rewrite insert_app_r_alt, Nat.sub_diag by lia. cbn.
  specialize (IH (a ++ [x00])). rewrite length_app, Nat.add_1_r in IH.
  rewrite <-!app_assoc in IH. exact IH.
Qed.

Lemma has_nonzero_spec bs : has_nonzero bs = true ↔ ∃ b, b ∈ bs ∧ b ≠ x00.
Proof.
  induction bs as [|b bs IH]; cbn.
  - split; [done|]. intros (? & []%elem_of_nil & _).
  - destruct (Z.eqb_spec (Z_of_byte b) 0) as [Hb|Hb]; cbn [negb].
    + apply (Z_of_byte_inj b x00) in Hb as ->. rewrite IH. split.
      * intros (c & ? & ?). exists c. by rewrite elem_of_cons; auto.
      * intros (c & [->|?]%elem_of_cons & ?); [done|]. by exists c.
    + split; [|done]. intros _. exists b. split; [by left|]. by intros ->.
Qed.

Lemma buildOfflineSignatureData_eq o :
  buildOfflineSignatureData o =
    PutUint32 (Expires o) ++ PutUint16 (TransientSigType o) ++ TransientPublicKey o.
Proof. unfold buildOfflineSignatureData. cbv zeta. by rewrite app_nil_l, <-app_assoc. Qed.

Section Lemmas.
Context {I : I2CP}.
Implicit Types p : Packet.

(** The wire image up to the signature. *)
Definition wire_prefix p : bytes :=
  PutUint32 (SendStreamID p) ++ PutUint32 (RecvStreamID p)
  ++ PutUint32 (SequenceNum p) ++ PutUint32 (AckThrough p)
  ++ [byte_of_Z (Z.of_nat (length (NACKs p)))] ++ concat (PutUint32 <$> NACKs p)
  ++ [byte_of_Z (ResendDelay p)] ++ PutUint16 (Flags p)
  ++ PutUint16 (Z.of_nat (length (options p)))
  ++ opt_delay p ++ opt_from p ++ opt_mps p ++ opt_offline p.

Lemma wire_split p : wire p = wire_prefix p ++ wire_signature p ++ Payload p.
Proof. unfold wire, wire_prefix, options. by rewrite <-!app_assoc. Qed.

Lemma findSignatureOffset_prefix p :
  marshal_ok p → findSignatureOffset p = length (wire_prefix p).
Proof.
  intros [_ Hf _ Ho]. unfold findSignatureOffset, wire_prefix, opt_delay, opt_from, opt_mps, opt_offline.
  rewrite !length_app, !length_PutUint32, !length_PutUint16, length_nack_bytes.
  destruct (has_flag (Flags p) FlagFromIncluded).
  1: destruct (Hf eq_refl) as (d & bs & Hd & Hbs); rewrite Hd; cbn [mbind option_bind]; rewrite Hbs.
  all: destruct (has_flag (Flags p) FlagOfflineSignature).
  1, 3: destruct (Ho eq_refl) as (o & Eo & Hk & Hg); rewrite Eo, ?Hd in *;
    rewrite !length_app, length_PutUint32, length_PutUint16, Hk, Hg.
  all: destruct (has_flag (Flags p) FlagDelayRequested);
    destruct (has_flag (Flags p) FlagMaxPacketSizeIncluded);
    cbn [length default from_option id]; rewrite ?length_PutUint16; lia.
Qed.

Lemma wire_signature_length p :
  marshal_ok p → has_flag (Flags p) FlagSignatureIncluded = true →
  length (wire_signature p) = getSignatureLength (FromDestination p).
Proof.
  intros [_ _ Hs _] Hf. unfold wire_signature. rewrite Hf. destruct (Hs Hf) as [_ Hl].
  case_if; zbool; [|by rewrite length_replicate].
  destruct Hl as [Hl|Hl]; [rewrite Hl in *; cbn in *; lia|done].
Qed.

(** The packet whose signature field is zeros: what is signed. *)
Definition unsigned p : Packet :=
  p <| Signature := replicate (getSignatureLength (FromDestination p)) x00 |>.

Lemma unsigned_wire_signature p :
  has_flag (Flags p) FlagSignatureIncluded = true →
  wire_signature (unsigned p) = replicate (getSignatureLength (FromDestination p)) x00.
Proof. intros Hf. unfold wire_signature. cbn. rewrite Hf. by case_if. Qed.

Lemma unsigned_options_length p :
  marshal_ok p → length (options (unsigned p)) = length (options p).
Proof.
  intros H. unfold options. rewrite !length_app. do 4 f_equal.
  destruct (has_flag (Flags p) FlagSignatureIncluded) eqn:Hf.
  - rewrite unsigned_wire_signature, wire_signature_length by done. by rewrite length_replicate.
  - unfold wire_signature. cbn. by rewrite Hf.
Qed.

Lemma unsigned_prefix p : marshal_ok p → wire_prefix (unsigned p) = wire_prefix p.
Proof. intros H. unfold wire_prefix. by rewrite unsigned_options_length. Qed.

Lemma unsigned_ok p : marshal_ok p → marshal_ok (unsigned p).
Proof.
  intros [? ? Hs ?]. split; try done. cbn. intros Hf. split; [by apply Hs|]. right.
  by rewrite length_replicate.
Qed.

Lemma zero_wire p :
  marshal_ok p → has_flag (Flags p) FlagSignatureIncluded = true →
  zero_range (wire p) (findSignatureOffset p) (getSignatureLength (FromDestination p))
  = wire (unsigned p).
Proof.
  intros H Hf. rewrite findSignatureOffset_prefix, <-wire_signature_length by done.
  rewrite (wire_split p), zero_range_app, wire_split, unsigned_prefix by done.
  by rewrite unsigned_wire_signature, wire_signature_length by done.
Qed.

Lemma wire_length_sig p :
  marshal_ok p → has_flag (Flags p) FlagSignatureIncluded = true →
  (findSignatureOffset p + getSignatureLength (FromDestination p) ≤ length (wire p))%nat.
Proof.
  intros H Hf. rewrite findSignatureOffset_prefix, wire_split, !length_app by done.
  rewrite wire_signature_length by done. lia.
Qed.

Lemma prepareDataForSigning_spec p :
  marshal_ok p → has_flag (Flags p) FlagSignatureIncluded = true →
  prepareDataForSigning p = Ok (wire (unsigned p), getSignatureLength (FromDestination p)).
Proof.
  intros H Hf. unfold prepareDataForSigning. rewrite Marshal_wire by done. cbn [wrap mbind result_bind].
  pose proof (wire_length_sig p H Hf). cbv zeta. case_if; zbool; [lia|]. by rewrite zero_wire.
Qed.

(** The bytes that are signed do not depend on the signature the packet holds. *)
Lemma unsigned_set_signature p sig : unsigned (p <| Signature := sig |>) = unsigned p.
Proof. done. Qed.

Lemma marshalWithZeroedSignature_spec p :
  marshal_ok p → has_flag (Flags p) FlagSignatureIncluded = true → Signature p ≠ [] →
  marshalWithZeroedSignature p = (Ok (wire (unsigned p)), p).
Proof.
  intros H Hf Hn. unfold marshalWithZeroedSignature.
  rewrite (ste_step _ _ _ (Signature p) p) by done.
  assert (Hl : length (Signature p) = getSignatureLength (FromDestination p)).
  { by destruct (mo_sig _ H Hf) as [_ [?|?]]. }
  rewrite Hl. erewrite ste_step by done.
  erewrite ste_step by done. fold (unsigned p).
  rewrite Marshal_wire by (by apply unsigned_ok).
  rewrite (ste_step _ _ _ () p) by (unfold emodify; by destruct p).
  rewrite (ste_step _ _ _ (wire (unsigned p)) p) by done.
  rewrite (ste_step _ _ _ (findSignatureOffset p) p) by done.
  pose proof (wire_length_sig _ (unsigned_ok p H) Hf) as Hw. cbn in Hw.
  change (findSignatureOffset (unsigned p)) with (findSignatureOffset p) in Hw.
  case_if; zbool; [lia|]. unfold mret, ste_ret. do 2 f_equal.
  apply (zero_wire (unsigned p) (unsigned_ok p H) Hf).
Qed.

Lemma VerifyPacketSignature_spec p d :
  marshal_ok p → FromDestination p = Some d →
  has_flag (Flags p) FlagSignatureIncluded = true → Signature p ≠ [] →
  VerifyPacketSignature p =
    (if VerifySignature d (wire (unsigned p)) (Signature p) then Ok () else Err CInvalidSignature, p).
Proof.
  intros H Hd Hf Hn. unfold VerifyPacketSignature. erewrite ste_step by done.
  rewrite (ste_step _ _ _ () p).
  2: { unfold lift, validateSignaturePrerequisites. cbn. rewrite Hd, Hf.
       by destruct (Signature p). }
  erewrite ste_step by done.
  erewrite ste_step by (by apply marshalWithZeroedSignature_spec).
  erewrite ste_step by done. rewrite Hd. by destruct (VerifySignature _ _ _).
Qed.

Lemma SignPacket_inv kp p p' :
  SignPacket kp p = (Ok (), p') →
  ∃ sig, p' = p <| Signature := sig |> ∧ marshal_ok p ∧ (∃ d, FromDestination p = Some d) ∧
    has_flag (Flags p) FlagSignatureIncluded = true ∧
    Sign kp (wire (unsigned p)) = Some sig ∧ length sig = getSignatureLength (FromDestination p).
Proof.
  unfold SignPacket. rewrite (ste_step _ _ _ p p) by done.
  unfold validateSignPacketPrereqs. destruct (FromDestination p) as [d|] eqn:Hd; [|done].
  destruct (has_flag (Flags p) FlagSignatureIncluded) eqn:Hf; [|done]. cbn [negb].
  rewrite (ste_step _ _ _ () p) by done.
  pose proof (Marshal_inv p) as Hi. destruct (Marshal p) as [data|e|] eqn:Hm; [| |done].
  2: { unfold prepareDataForSigning. rewrite Hm. done. }
  rewrite (ste_step _ _ _ (wire (unsigned p), getSignatureLength (FromDestination p)) p)
    by (unfold lift; by rewrite prepareDataForSigning_spec).
  unfold signAndValidate. destruct (Sign kp (wire (unsigned p))) as [sig|]; [|done].
  destruct (Nat.eqb_spec (length sig) (getSignatureLength (FromDestination p))); [|done].
  cbn. intros [= <-]. exists sig. rewrite <-Hd. eauto 10.
Qed.

Lemma signed_ok p sig :
  marshal_ok p → length sig = getSignatureLength (FromDestination p) →
  marshal_ok (p <| Signature := sig |>).
Proof. intros [? ? Hs ?] Hl. split; try done. cbn. intros Hf. split; [by apply Hs|by right]. Qed.

(** ** The receiver's view *)

Lemma wire_view_signature p :
  marshal_ok p → wire_signature (wire_view p) = wire_signature p.
Proof.
  intros H. unfold wire_signature at 1. cbn. destruct (has_flag _ _) eqn:Hf.
  - case_if; [done|]. pose proof (wire_signature_length _ H Hf) as Hl.
    destruct (mo_sig _ H Hf) as [Hn _]. zbool. lia.
  - unfold wire_signature. by rewrite Hf.
Qed.

Lemma wire_view_options p :
  marshal_ok p → options (wire_view p) = options p.
Proof.
  intros H. unfold options. rewrite wire_view_signature by done.
  unfold opt_delay, opt_from, opt_mps, opt_offline. cbn.
  by repeat (destruct (has_flag (Flags p) _); cbn [default from_option mbind option_bind]).
Qed.

Lemma wire_view_ok p : marshal_ok p → sendable p → marshal_ok (wire_view p).
Proof.
  intros H Hs. pose proof H as [? Hf Hg Ho]. pose proof Hs as [Hs1 Hs2 _]. split; cbn; [done|..].
  - intros Hfl. rewrite Hfl. by apply Hf.
  - intros Hfl. rewrite (Hs1 Hfl). split; [by apply Hg|]. right. by apply wire_signature_length.
  - intros Hfl. rewrite Hfl. rewrite (proj1 (Hs2 Hfl)). by apply Ho.
Qed.

Lemma wire_view_unsigned p :
  marshal_ok p → sendable p → has_flag (Flags p) FlagSignatureIncluded = true →
  wire (unsigned (wire_view p)) = wire (unsigned p).
Proof.
  intros H Hs Hf. rewrite !wire_split, !unsigned_prefix by auto using wire_view_ok.
  rewrite !unsigned_wire_signature by done. cbn. rewrite (sd_sig _ Hs Hf). f_equal.
  unfold wire_prefix. rewrite wire_view_options by done.
  unfold opt_delay, opt_from, opt_mps, opt_offline. cbn.
  by repeat (destruct (has_flag (Flags p) _); cbn [default from_option mbind option_bind]).
Qed.
End Lemmas.

(** ** The properties *)

Section Properties.
Context {I : I2CP}.
Implicit Types p : Packet.

(** Signatures are placed where the code looks for them: the bytes that
    are signed, produced by zeroing [getSignatureLength] bytes at
    [findSignatureOffset] of the marshalled packet, are the wire image of the
    packet with an all-zero signature, whatever signature the packet held; and
    verification recomputes the same bytes and leaves the packet unchanged. *)
Theorem signed_bytes_exact p :
  marshal_ok p → has_flag (Flags p) FlagSignatureIncluded = true →
  prepareDataForSigning p = Ok (wire (unsigned p), getSignatureLength (FromDestination p)) ∧
  (Signature p ≠ [] → marshalWithZeroedSignature p = (Ok (wire (unsigned p)), p)).
Proof.
  intros H Hf. split; [by apply prepareDataForSigning_spec|].
  intros. by apply marshalWithZeroedSignature_spec.
Qed.

(** What happens to a signed packet on its way. *)
Lemma signed_delivery `{!I2CPLaws I} p p' kp d :
  SignPacket kp p = (Ok (), p') → FromDestination p = Some d → key_of kp d →
  packet_wf p → sendable p' →
  Marshal p' = Ok (wire p') ∧ unmarshal_fresh (wire p') = Ok (wire_view p') ∧
  VerifyPacketSignature (wire_view p') = (Ok (), wire_view p').
Proof.
  intros Hs Hd Hk Hwf Hsend. apply SignPacket_inv in Hs as (sig & -> & Hok & _ & Hf & Hsig & Hl).
  pose proof (signed_ok p sig Hok Hl) as Hok'. set (p' := p <| Signature := sig |>) in *.
  assert (packet_wf p') by (by destruct Hwf).
  assert (Hsl : (0 < length sig)%nat).
  { rewrite Hl. destruct (mo_sig _ Hok Hf) as [? _]. lia. }
  split; [by apply Marshal_wire|].
  split; [by apply Unmarshal_wire|].
  assert (Hws : Signature (wire_view p') = sig).
  { cbn. unfold wire_signature. cbn. rewrite Hf. case_if; [done|]. zbool. lia. }
  erewrite VerifyPacketSignature_spec with (d := d); [|by apply wire_view_ok|..].
  - rewrite Hws, wire_view_unsigned by done.
    change (unsigned p') with (unsigned p). by rewrite (Hk _ _ Hsig).
  - cbn. by rewrite (sd_sig _ Hsend Hf : has_flag (Flags p) _ = true).
  - done.
  - rewrite Hws. intros Hnil. rewrite Hnil in Hsl. cbn in Hsl. lia.
Qed.

(** C14.  End to end: a packet signed with the key of its FROM destination,
    marshalled, parsed by the receiver and verified there is accepted. *)
Theorem signed_packet_accepted `{!I2CPLaws I} p p' kp d :
  SignPacket kp p = (Ok (), p') → FromDestination p = Some d → key_of kp d →
  packet_wf p → sendable p' →
  ∃ data q, Marshal p' = Ok data ∧ unmarshal_fresh data = Ok q ∧
    VerifyPacketSignature q = (Ok (), q).
Proof.
  intros Hs Hd Hk Hwf Hsend. destruct (signed_delivery p p' kp d Hs Hd Hk Hwf Hsend) as (H1 & H2 & H3).
  by exists (wire p'), (wire_view p').
Qed.

(** [VerifyOfflineSignature] accepts exactly when every input is present,
    the expiry second is not past, the destination signature is 64 bytes and
    not all zero, the signing key is 32 bytes and Ed25519 accepts the
    signature over expires, transient type and transient key. *)
Theorem VerifyOfflineSignature_exact (ver : bytes → bytes → bytes → bool) now offsig dest crypto :
  VerifyOfflineSignature ver now offsig dest crypto = Ok () ↔
  ∃ o d key, offsig = Some o ∧ dest = Some d ∧ crypto = Some () ∧ TransientPublicKey o ≠ [] ∧
    now / Second <= Expires o ∧ length (DestSignature o) = 64%nat ∧
    (∃ b, b ∈ DestSignature o ∧ b ≠ x00) ∧ SigningPublicKey d = Some key ∧ length key = 32%nat ∧
    ver key (PutUint32 (Expires o) ++ PutUint16 (TransientSigType o) ++ TransientPublicKey o)
      (DestSignature o) = true.
Proof.
  unfold VerifyOfflineSignature, validateOfflineSignatureInputs, checkOfflineSignatureExpiration,
    validateDestSignatureFormat.
  destruct offsig as [o|]; [|split; [done|by intros (?&?&?&?&?)]].
  destruct dest as [d|]; [|split; [done|by intros (?&?&?&?&?&?)]].
  destruct crypto as [[]|]; [|split; [done|by intros (?&?&?&?&?&?&?)]].
  destruct (Nat.eqb_spec (length (TransientPublicKey o)) 0) as [Hz|Hz].
  { apply nil_length_inv in Hz. split; [done|]. intros (?&?&?&?&?&?&?&_). simplify_eq. }
  cbn [mbind result_bind]. rewrite buildOfflineSignatureData_eq. destruct (Z.ltb_spec (Expires o) (now / Second)).
  { split; [done|]. intros (?&?&?&?&?&?&?&?&_). simplify_eq. lia. }
  cbn [mbind result_bind]. destruct (Nat.eqb_spec (length (DestSignature o)) 64); cbn [negb].
  2: { split; [done|]. intros (?&?&?&?&?&?&?&?&?&_). by simplify_eq. }
  pose proof (has_nonzero_spec (DestSignature o)) as Hnz.
  destruct (has_nonzero (DestSignature o)); cbn [mbind result_bind].
  2: { split; [done|]. intros (?&?&?&?&?&?&?&?&?&?&_). simplify_eq.
       assert (false = true) by (by apply Hnz). done. }
  destruct (SigningPublicKey d) as [key|] eqn:Hkey.
  2: { split; [done|]. intros (?&?&?&?&?&?&?&?&?&?&?&_). simplify_eq. }
  destruct (Nat.eqb_spec (length key) 32); cbn [negb].
  2: { split; [done|]. intros (?&?&?&?&?&?&?&?&?&?&?&?&_). by simplify_eq. }
  destruct (ver _ _ _) eqn:Hv; cbn [negb].
  - split; [|done]. intros _. exists o, d, key. split_and!; try done; [|by apply Hnz].
    intros Hn. by rewrite Hn in Hz.
  - split; [done|]. intros (?&?&?&?&?&?&?&?&?&?&?&?&Hv'). simplify_eq. congruence.
Qed.

(** C40.  Stream identifiers are never zero: [generateStreamID] returns the
    first non-zero word the random source delivers, so it terminates as soon as
    one is delivered, and it fails only on a read error. *)
Theorem generateStreamID_first (zeros : nat) (b : bytes) (rest : list (option bytes)) :
  length b = 4%nat → be_get b ≠ 0 →
  generateStreamID (replicate zeros (Some (replicate 4 x00)) ++ Some b :: rest) = (Ok (be_get b), rest)
  ∧ 0 < be_get b < 4294967296.
Proof.
  intros Hl Hb. pose proof (be_get_range b) as Hr. rewrite Hl in Hr.
  change (256 ^ Z.of_nat 4) with 4294967296 in Hr. split; [|lia].
  induction zeros as [|n IH]; cbn [replicate app generateStreamID]; [|exact IH].
  unfold Uint32, BigEndian_Uint. rewrite take_ge by lia. case_decide; [|lia].
  destruct (Z.ltb_spec 0 (be_get b)); [done|lia].
Qed.
End Properties.

Section Examples.
Definition key_ex : @Ed25519KeyPair ConcreteI2CP := toy_key dest_ex.

(** The SYN of [PacketProps], before it is signed. *)
Definition syn_unsigned : @Packet ConcreteI2CP := syn_ex <| Signature := [] |>.
Definition syn_sig : bytes := toy_sum key_ex (wire (unsigned syn_unsigned)).

Lemma syn_unsigned_ok :
  packet_wf syn_unsigned ∧ marshal_ok syn_unsigned ∧ sendable (syn_unsigned <| Signature := syn_sig |>).
Proof.
  destruct syn_ex_ok as ([] & [] & []). split_and!; split; try done.
  intros _. split; [by vm_compute|by left].
Qed.

Lemma signed_bytes_exact_witness :
  prepareDataForSigning syn_ex =
    Ok (wire (unsigned syn_ex), getSignatureLength (FromDestination syn_ex)) ∧
  (Signature syn_ex ≠ [] → marshalWithZeroedSignature syn_ex = (Ok (wire (unsigned syn_ex)), syn_ex)).
Proof. apply (signed_bytes_exact syn_ex); [apply syn_ex_ok|by vm_compute]. Defined.

Lemma signed_packet_accepted_witness :
  ∃ data q, Marshal (syn_unsigned <| Signature := syn_sig |>) = Ok data ∧
    unmarshal_fresh data = Ok q ∧ VerifyPacketSignature q = (Ok (), q).
Proof.
  apply (signed_packet_accepted syn_unsigned _ key_ex dest_ex);
    [vmeq|done|apply toy_key_of|apply syn_unsigned_ok..].
Defined.

Lemma generateStreamID_first_witness :
  generateStreamID (replicate 2 (Some (replicate 4 x00)) ++ Some [x00; x00; x01; x02] :: [])
    = (Ok (be_get [x00; x00; x01; x02]), []) ∧ 0 < be_get [x00; x00; x01; x02] < 4294967296.
Proof. apply (generateStreamID_first 2); done. Defined.
End Examples.
