(* ===== verification/Limits.v ===== *)
(** * Connection limits (limits.go)

    The limiter counts active streams and keeps the timestamps of accepted
    incoming connections, in total and per peer; a new connection is checked
    against the concurrent limit and against the connections of the last
    minute, hour and day.  The properties are about whole runs: however the
    requests fall, no sliding window ever holds more accepted connections than
    its limit. *)

From S2P Require Import Prelude GoInt I2CP.

(** ** Configuration *)

Inductive LimitAction := LimitActionReset | LimitActionDrop | LimitActionHTTP.

Record ConnectionLimitsConfig := MkLimitsConfig {
  MaxConcurrentStreams : Z;
  MaxConnsPerMinute : Z;
  MaxConnsPerHour : Z;
  MaxConnsPerDay : Z;
  MaxTotalConnsPerMinute : Z;
  MaxTotalConnsPerHour : Z;
  MaxTotalConnsPerDay : Z;
  limitAction : LimitAction;
  DisableRejectLogging : bool;
}.

Definition DefaultConnectionLimitsConfig : ConnectionLimitsConfig :=
  MkLimitsConfig (-1) 0 0 0 0 0 0 LimitActionReset false.

Inductive LimitError :=
| EConcurrent (max : Z)
| ETotalMinute (max : Z) | ETotalHour (max : Z) | ETotalDay (max : Z)
| EPeerMinute (max : Z) | EPeerHour (max : Z) | EPeerDay (max : Z).

(** ** State *)

Definition connectionHistory : Type := list Z.

Record connectionLimiter := MkLimiter {
  config : ConnectionLimitsConfig;
  activeStreams : Z;
  peerHistory : gmap bytes connectionHistory;
  totalHistory : connectionHistory;
}.
#[export] Instance eta_connectionLimiter : Eta connectionLimiter := λ c,
  MkLimiter (config c) (activeStreams c) (peerHistory c) (totalHistory c).
#[export] Instance set_config : Setter config := ltac:(derive_setter).
#[export] Instance set_activeStreams : Setter activeStreams := ltac:(derive_setter).
#[export] Instance set_peerHistory : Setter peerHistory := ltac:(derive_setter).
#[export] Instance set_totalHistory : Setter totalHistory := ltac:(derive_setter).

(** ** Histories *)

Definition pruneOldEntriesLocked (now : Z) (h : connectionHistory) : connectionHistory :=
  let cutoff := time_Add now (- (24 * Hour)) in
  foldl (λ acc ts, if time_After ts cutoff then acc ++ [ts] else acc) [] h.

Definition countSinceLocked (h : connectionHistory) (since : Z) : Z :=
  foldl (λ count ts, if time_After ts since then count + 1 else count) 0 h.

#[global] Arguments pruneOldEntriesLocked : simpl never.
#[global] Arguments countSinceLocked : simpl never.

Section Limits.
Context {I : I2CP}.

(** ** Operations *)

Definition newConnectionLimiter (c : option ConnectionLimitsConfig) : connectionLimiter :=
  let c := match c with None => DefaultConnectionLimitsConfig | Some c => c end in
  MkLimiter c 0 ∅ [].

Definition SetConfig (c : option ConnectionLimitsConfig) : ST connectionLimiter unit :=
  let c := match c with None => DefaultConnectionLimitsConfig | Some c => c end in
  modify (λ cl, cl <| config := c |>).

Definition GetConfig : ST connectionLimiter ConnectionLimitsConfig := gets config.

Definition ActiveStreams : ST connectionLimiter Z := gets activeStreams.

Definition getPeerHash (dest : option Destination) : bytes :=
  match dest with
  | None => []
  | Some d => match WriteToStream d with None => [] | Some bs => bs end
  end.

Definition checkConcurrentLimitLocked : STE connectionLimiter LimitError unit :=
  cl ← egets id;
  if (0 <? MaxConcurrentStreams (config cl)) && (MaxConcurrentStreams (config cl) <=? activeStreams cl)
  then fail (EConcurrent (MaxConcurrentStreams (config cl)))
  else mret ().

(** One of the six window checks: [limit <= 0] disables it. *)
Definition checkWindow (limit : Z) (h : connectionHistory) (now d : Z) (e : LimitError)
    : STE connectionLimiter LimitError unit :=
  if 0 <? limit then
    let count := countSinceLocked h (time_Add now (- d)) in
    if limit <=? count then fail e else mret ()
  else mret ().

Definition checkTotalRateLimitsLocked (now : Z) : STE connectionLimiter LimitError unit :=
  _ ← emodify (λ cl, cl <| totalHistory ::= pruneOldEntriesLocked now |>);
  cl ← egets id;
  let c := config cl in
  _ ← checkWindow (MaxTotalConnsPerMinute c) (totalHistory cl) now Minute
        (ETotalMinute (MaxTotalConnsPerMinute c));
  _ ← checkWindow (MaxTotalConnsPerHour c) (totalHistory cl) now Hour
        (ETotalHour (MaxTotalConnsPerHour c));
  checkWindow (MaxTotalConnsPerDay c) (totalHistory cl) now (24 * Hour)
    (ETotalDay (MaxTotalConnsPerDay c)).

(** The map holds pointers; the entry is created if it is missing. *)
Definition getOrCreatePeerHistoryLocked (peerHash : bytes)
    : STE connectionLimiter LimitError connectionHistory :=
  m ← egets peerHistory;
  match m !! peerHash with
  | Some h => mret h
  | None => _ ← emodify (λ cl, cl <| peerHistory ::= <[peerHash := []]> |>); mret []
  end.

Definition checkPeerRateLimitsLocked (peerDest : option Destination) (now : Z)
    : STE connectionLimiter LimitError unit :=
  match peerDest with
  | None => mret ()
  | Some _ =>
      c ← egets config;
      if (MaxConnsPerMinute c <=? 0) && (MaxConnsPerHour c <=? 0) && (MaxConnsPerDay c <=? 0)
      then mret ()
      else
        let peerHash := getPeerHash peerDest in
        history ← getOrCreatePeerHistoryLocked peerHash;
        let history := pruneOldEntriesLocked now history in
        _ ← emodify (λ cl, cl <| peerHistory ::= <[peerHash := history]> |>);
        _ ← checkWindow (MaxConnsPerMinute c) history now Minute (EPeerMinute (MaxConnsPerMinute c));
        _ ← checkWindow (MaxConnsPerHour c) history now Hour (EPeerHour (MaxConnsPerHour c));
        checkWindow (MaxConnsPerDay c) history now (24 * Hour) (EPeerDay (MaxConnsPerDay c))
  end.

Definition recordConnectionLocked (peerDest : option Destination) (now : Z)
    : STE connectionLimiter LimitError unit :=
  _ ← emodify (λ cl, cl <| activeStreams ::= λ n, n + 1 |>);
  _ ← emodify (λ cl, cl <| totalHistory ::= λ h, h ++ [now] |>);
  match peerDest with
  | None => mret ()
  | Some _ =>
      let peerHash := getPeerHash peerDest in
      history ← getOrCreatePeerHistoryLocked peerHash;
      emodify (λ cl, cl <| peerHistory ::= <[peerHash := history ++ [now]]> |>)
  end.

(** [now] is the single reading of the clock the method makes. *)
Definition CheckAndRecordConnection (now : Z) (peerDest : option Destination)
    : STE connectionLimiter LimitError unit :=
  _ ← checkConcurrentLimitLocked;
  _ ← checkTotalRateLimitsLocked now;
  _ ← checkPeerRateLimitsLocked peerDest now;
  recordConnectionLocked peerDest now.

Definition ConnectionClosed : ST connectionLimiter unit :=
  n ← gets activeStreams;
  when (0 <? n) (modify (λ cl, cl <| activeStreams ::= λ n, n - 1 |>)).

(** The loop deletes only the key it is visiting, so its effect is a map over
    the entries: prune, drop if empty, drop if nothing is recent. *)
Definition cleanupHistory (now : Z) (history : connectionHistory) : option connectionHistory :=
  let cutoff := time_Add now (- (24 * Hour)) in
  let history := pruneOldEntriesLocked now history in
  if (length history =? 0)%nat then None
  else
    let hasRecent := existsb (λ ts, time_After ts cutoff) history in
    if negb hasRecent then None else Some history.

Definition CleanupStaleHistory (now : Z) : ST connectionLimiter unit :=
  modify (λ cl, cl <| peerHistory ::= omap (cleanupHistory now) |>).
End Limits.

(** ** Histories as filters *)

Definition after (s : Z) (l : list Z) : list Z := filter (λ t, s < t) l.
#[global] Arguments after : simpl never.

Lemma pruneOldEntriesLocked_after now h :
  pruneOldEntriesLocked now h = after (now - 24 * Hour) h.
Proof.
  unfold pruneOldEntriesLocked, time_Add, time_After. cbv zeta.
  replace (now + - (24 * Hour)) with (now - 24 * Hour) by lia.
  set (s := now - 24 * Hour).
  assert (∀ acc, foldl (λ acc ts, if s <? ts then acc ++ [ts] else acc) acc h = acc ++ after s h)
    as Hacc; [|apply Hacc].
  induction h as [|t h IH]; intros acc; cbn [foldl].
  - by rewrite app_nil_r.
  - rewrite IH. unfold after. rewrite filter_cons.
    destruct (Z.ltb_spec s t); case_decide; try lia; [by rewrite <-app_assoc|done].
Qed.

Lemma countSinceLocked_after h s : countSinceLocked h s = Z.of_nat (length (after s h)).
Proof.
  unfold countSinceLocked, time_After. rewrite <-(Z.add_0_l (Z.of_nat _)).
  generalize 0. induction h as [|t h IH]; intros n; cbn [foldl]; [unfold after; cbn; lia|].
  rewrite IH. unfold after. rewrite filter_cons.
  destruct (Z.ltb_spec s t); case_decide; try lia; cbn [length]; lia.
Qed.

Lemma after_after s s' l : s <= s' → after s' (after s l) = after s' l.
Proof. intros H. unfold after. apply list_filter_filter_l. intros; lia. Qed.

Lemma after_app s l1 l2 : after s (l1 ++ l2) = after s l1 ++ after s l2.
Proof. apply filter_app. Qed.

(** ** Sliding windows

    [windowed w n l]: no window of length [w] holds more than [n] of the
    instants in [l]. *)

Definition within (w x : Z) (l : list Z) : list Z := filter (λ t, x - w < t ∧ t <= x) l.
Definition windowed (w n : Z) (l : list Z) : Prop := ∀ x, Z.of_nat (length (within w x l)) <= n.

Lemma windowed_nil w n : 0 <= n → windowed w n [].
Proof. intros ? x. cbn. lia. Qed.

(** Appending the present instant is safe when fewer than [n] entries lie in
    the window that ends there. *)
Lemma windowed_snoc w n l t :
  0 < w → windowed w n l → (∀ u, u ∈ l → u <= t) →
  Z.of_nat (length (after (t - w) l)) < n → windowed w n (l ++ [t]).
Proof.
  intros Hw Hl Hle Hc x. unfold within. rewrite filter_app, length_app.
  destruct (decide (x - w < t ∧ t <= x)) as [Hx|Hx].
  - assert (length (within w x l) ≤ length (after (t - w) l))%nat.
    { unfold within, after. apply filter_length_mono. intros u Hu. lia. }
    rewrite (filter_cons_True _ t []) by done. cbn [length filter]. unfold within in *. cbn. lia.
  - rewrite (filter_cons_False _ t []) by done. cbn. specialize (Hl x). unfold within in Hl. lia.
Qed.

(** ** One request *)

Section Spec.
Context {I : I2CP}.
Implicit Types cl : connectionLimiter.

Definition peer_hist cl (k : bytes) : connectionHistory := default [] (peerHistory cl !! k).

(** The window check [limit] leaves room for one more entry at [now]. *)
Definition window_free (limit : Z) (h : list Z) (now d : Z) : Prop :=
  0 < limit → Z.of_nat (length (after (now - d) h)) < limit.
#[global] Instance window_free_dec limit h now d : Decision (window_free limit h now d).
Proof. unfold window_free. apply _. Defined.

Definition windows_free (m h d : Z) (l : list Z) (now : Z) : Prop :=
  window_free m l now Minute ∧ window_free h l now Hour ∧ window_free d l now (24 * Hour).

(** The seven conditions under which a connection is admitted. *)
Definition admitted cl (now : Z) (dest : option Destination) : Prop :=
  let c := config cl in
  (0 < MaxConcurrentStreams c → activeStreams cl < MaxConcurrentStreams c) ∧
  windows_free (MaxTotalConnsPerMinute c) (MaxTotalConnsPerHour c) (MaxTotalConnsPerDay c)
    (totalHistory cl) now ∧
  (dest ≠ None → windows_free (MaxConnsPerMinute c) (MaxConnsPerHour c) (MaxConnsPerDay c)
    (peer_hist cl (getPeerHash dest)) now).

Lemma checkWindow_spec limit h now d e cl :
  checkWindow limit h now d e cl = (if decide (window_free limit h now d) then Ok () else Err e, cl).
Proof.
  unfold checkWindow, window_free, time_Add. cbv zeta. rewrite countSinceLocked_after.
  replace (now + - d) with (now - d) by lia.
  repeat case_if; zbool; case_decide; try done; exfalso; lia.
Qed.

Lemma window_free_prune limit h now d :
  d <= 24 * Hour → window_free limit (after (now - 24 * Hour) h) now d ↔ window_free limit h now d.
Proof. intros Hd. unfold window_free. rewrite after_after by lia. done. Qed.

(** Three windows over one history. *)
Lemma checkWindows_spec m h d l now e1 e2 e3 cl :
  ∃ e, (_ ← checkWindow m l now Minute e1;
        _ ← checkWindow h l now Hour e2;
        checkWindow d l now (24 * Hour) e3) cl
       = (if decide (windows_free m h d l now) then Ok () else Err e, cl).
Proof.
  unfold windows_free, mbind, ste_bind. rewrite checkWindow_spec.
  case_decide; [|exists e1; case_decide; [tauto|done]]. rewrite checkWindow_spec.
  case_decide; [|exists e2; case_decide; [tauto|done]]. rewrite checkWindow_spec.
  exists e3. repeat case_decide; try done; tauto.
Qed.

Lemma windows_free_prune m h d l now :
  windows_free m h d (after (now - 24 * Hour) l) now ↔ windows_free m h d l now.
Proof.
  unfold windows_free. rewrite !window_free_prune; [done|unfold Minute, Hour, Minute, Second; lia..].
Qed.

Lemma checkTotalRateLimitsLocked_spec now cl :
  let c := config cl in
  ∃ e, checkTotalRateLimitsLocked now cl =
    (if decide (windows_free (MaxTotalConnsPerMinute c) (MaxTotalConnsPerHour c)
       (MaxTotalConnsPerDay c) (totalHistory cl) now) then Ok () else Err e,
     cl <| totalHistory ::= after (now - 24 * Hour) |>).
Proof.
  intros c. unfold checkTotalRateLimitsLocked. erewrite ste_step by done. erewrite ste_step by done.
  replace (cl <| totalHistory ::= pruneOldEntriesLocked now |>)
    with (cl <| totalHistory ::= after (now - 24 * Hour) |>)
    by (unfold upd, set_totalHistory; by rewrite pruneOldEntriesLocked_after).
  cbn -[after]. fold c.
  destruct (checkWindows_spec (MaxTotalConnsPerMinute c) (MaxTotalConnsPerHour c)
    (MaxTotalConnsPerDay c) (after (now - 24 * Hour) (totalHistory cl)) now
    (ETotalMinute (MaxTotalConnsPerMinute c)) (ETotalHour (MaxTotalConnsPerHour c))
    (ETotalDay (MaxTotalConnsPerDay c)) (cl <| totalHistory ::= after (now - 24 * Hour) |>)) as [e He].
  exists e. cbn -[after] in He. etransitivity; [exact He|]. f_equal.
  by rewrite (decide_ext _ _ _ _ (windows_free_prune _ _ _ _ _)).
Qed.

(** What a request may do to the peer histories: prune some, add empty ones. *)
Definition same_recent (now : Z) cl cl' : Prop :=
  config cl' = config cl ∧ activeStreams cl' = activeStreams cl ∧
  after (now - 24 * Hour) (totalHistory cl') = after (now - 24 * Hour) (totalHistory cl) ∧
  ∀ k, after (now - 24 * Hour) (peer_hist cl' k) = after (now - 24 * Hour) (peer_hist cl k).

Lemma getOrCreatePeerHistoryLocked_spec k cl :
  ∃ m, getOrCreatePeerHistoryLocked k cl = (Ok (peer_hist cl k), cl <| peerHistory := m |>) ∧
    ∀ k', default [] (m !! k') = peer_hist cl k'.
Proof.
  unfold getOrCreatePeerHistoryLocked, peer_hist. erewrite ste_step by done.
  destruct (peerHistory cl !! k) as [h|] eqn:E.
  - exists (peerHistory cl). split; [by destruct cl|done].
  - exists (<[k := []]> (peerHistory cl)). split; [done|]. intros k'.
    destruct (decide (k = k')) as [<-|]; [by rewrite lookup_insert_eq, E|by rewrite lookup_insert_ne].
Qed.

Lemma checkPeerRateLimitsLocked_spec dest now cl :
  let c := config cl in
  ∃ r m, checkPeerRateLimitsLocked dest now cl = (r, cl <| peerHistory := m |>) ∧
    (∀ k, after (now - 24 * Hour) (default [] (m !! k)) = after (now - 24 * Hour) (peer_hist cl k)) ∧
    r ≠ Panic ∧
    (r = Ok () ↔ (dest ≠ None → windows_free (MaxConnsPerMinute c) (MaxConnsPerHour c)
      (MaxConnsPerDay c) (peer_hist cl (getPeerHash dest)) now)).
Proof.
  intros c. unfold checkPeerRateLimitsLocked. destruct dest as [d|].
  2: { exists (Ok ()), (peerHistory cl). split_and!; try done. by destruct cl. }
  erewrite ste_step by done. fold c. case_if.
  { exists (Ok ()), (peerHistory cl). split_and!; try done; [by destruct cl|].
    zbool. unfold windows_free, window_free. split; [intros; split_and!; lia|done]. }
  set (k := getPeerHash (Some d)).
  destruct (getOrCreatePeerHistoryLocked_spec k cl) as (m & Em & Hm).
  erewrite ste_step by exact Em. erewrite ste_step by done. rewrite pruneOldEntriesLocked_after.
  lazymatch goal with |- context [(?b ≫= _) ?s] =>
    destruct (checkWindows_spec (MaxConnsPerMinute c) (MaxConnsPerHour c) (MaxConnsPerDay c)
      (after (now - 24 * Hour) (peer_hist cl k)) now (EPeerMinute (MaxConnsPerMinute c))
      (EPeerHour (MaxConnsPerHour c)) (EPeerDay (MaxConnsPerDay c)) s) as [e He] end.
  rewrite He. clear He. rewrite (decide_ext _ _ _ _ (windows_free_prune _ _ _ _ _)).
  eexists _, (<[k := after (now - 24 * Hour) (peer_hist cl k)]> m). split_and!; [done|..].
  - intros k'. destruct (decide (k = k')) as [<-|].
    + rewrite lookup_insert_eq. cbn. by rewrite after_after by lia.
    + rewrite lookup_insert_ne by done. by rewrite Hm.
  - by case_decide.
  - case_decide; [done|]. split; [done|]. intros Hw. exfalso. auto.
Qed.

(** The entry a request adds to the history of peer [k]. *)
Definition peer_entry (dest : option Destination) (now : Z) (k : bytes) : list Z :=
  if decide (dest ≠ None ∧ getPeerHash dest = k) then [now] else [].

Lemma recordConnectionLocked_spec dest now cl :
  ∃ cl', recordConnectionLocked dest now cl = (Ok (), cl') ∧ config cl' = config cl ∧
    activeStreams cl' = activeStreams cl + 1 ∧ totalHistory cl' = totalHistory cl ++ [now] ∧
    ∀ k, peer_hist cl' k = peer_hist cl k ++ peer_entry dest now k.
Proof.
  unfold recordConnectionLocked, peer_entry. do 2 erewrite ste_step by done.
  destruct dest as [d|].
  2: { eexists. do 4 (split; [done|]). intros k. case_decide; [tauto|]. by rewrite app_nil_r. }
  set (cl1 := cl <| activeStreams ::= _ |> <| totalHistory ::= _ |>). set (k := getPeerHash (Some d)).
  destruct (getOrCreatePeerHistoryLocked_spec k cl1) as (m & Em & Hm).
  erewrite ste_step by exact Em. eexists. do 4 (split; [done|]). intros k'.
  unfold peer_hist at 1. cbn. case_decide as Hk.
  - destruct Hk as [_ Hk]. rewrite <-Hk, lookup_insert_eq. done.
  - rewrite lookup_insert_ne by (intros E; by apply Hk). rewrite app_nil_r. apply Hm.
Qed.

Lemma CheckAndRecordConnection_spec now dest cl :
  let '(r, cl') := CheckAndRecordConnection now dest cl in
  (r = Ok () ↔ admitted cl now dest) ∧ config cl' = config cl ∧
  match r with
  | Ok _ =>
    activeStreams cl' = activeStreams cl + 1 ∧
    after (now - 24 * Hour) (totalHistory cl') = after (now - 24 * Hour) (totalHistory cl ++ [now]) ∧
    ∀ k, after (now - 24 * Hour) (peer_hist cl' k)
       = after (now - 24 * Hour) (peer_hist cl k ++ peer_entry dest now k)
  | Err _ => same_recent now cl cl'
  | Panic => False
  end.
Proof.
  unfold CheckAndRecordConnection, admitted, same_recent.
  unfold mbind at 1, ste_bind at 1. unfold checkConcurrentLimitLocked.
  rewrite (ste_step _ _ _ cl cl) by done. case_if; cbn beta iota.
  { zbool. split; [split; [done|]|done]. intros [Hc _]. lia. }
  assert (Hconc : 0 < MaxConcurrentStreams (config cl) →
    activeStreams cl < MaxConcurrentStreams (config cl)).
  { apply andb_false_iff in Hif as [?|?]; zbool; lia. }
  unfold mret, ste_ret.
  destruct (checkTotalRateLimitsLocked_spec now cl) as [e Et].
  unfold mbind at 1, ste_bind at 1. rewrite Et. case_decide as Ht.
  2: { split; [split; [done|tauto]|]. split; [done|]. cbn. by rewrite after_after by lia. }
  set (cl1 := cl <| totalHistory ::= after (now - 24 * Hour) |>).
  destruct (checkPeerRateLimitsLocked_spec dest now cl1) as (r & m & Ep & Hm & Hnp & Hr).
  unfold mbind at 1, ste_bind at 1. rewrite Ep. set (cl2 := cl1 <| peerHistory := m |>).
  change (config cl1) with (config cl) in Hr.
  assert (Hp : ∀ k, peer_hist cl1 k = peer_hist cl k) by done.
  setoid_rewrite Hp in Hr. setoid_rewrite Hp in Hm. destruct r as [[]|e'|]; [|..|done].
  2: { split; [split; [done|]|].
       - intros (_ & _ & Hd). by apply Hr in Hd.
       - split; [done|]. split_and!; try done. subst cl2 cl1. cbn. by rewrite after_after by lia. }
  destruct (recordConnectionLocked_spec dest now cl2) as (cl' & Er & Hc & Ha & Hto & Hpe).
  rewrite Er. split; [split; [|done]|].
  { intros _. split_and!; [done|done|]. by apply Hr. }
  split; [done|]. split; [done|]. rewrite Hto.
  subst cl2 cl1. cbn. rewrite !after_app, after_after by lia. split; [done|].
  intros k. rewrite Hpe, !after_app. f_equal. apply Hm.
Qed.
End Spec.

(** ** Runs *)

Section Runs.
Context {I : I2CP}.

Inductive event :=
| EvConn (now : Z) (dest : option Destination)
| EvClosed
| EvCleanup (now : Z).

Definition event_time (ev : event) : option Z :=
  match ev with EvConn t _ | EvCleanup t => Some t | EvClosed => None end.

(** An accepted connection: when, and from which peer. *)
Abbreviation accept_log := (list (Z * option bytes)).

(** The limiter, with the log of what it has accepted. *)
Definition step (s : connectionLimiter * accept_log) (ev : event) : connectionLimiter * accept_log :=
  let '(cl, log) := s in
  match ev with
  | EvConn now dest =>
      match CheckAndRecordConnection now dest cl with
      | (Ok _, cl) => (cl, log ++ [(now, (λ _, getPeerHash dest) <$> dest)])
      | (_, cl) => (cl, log)
      end
  | EvClosed => (snd (ConnectionClosed cl), log)
  | EvCleanup now => (snd (CleanupStaleHistory now cl), log)
  end.

Definition run (c : ConnectionLimitsConfig) (evs : list event) : connectionLimiter * accept_log :=
  foldl step (newConnectionLimiter (Some c), []) evs.

(** The clock does not go back. *)
Fixpoint clock_from (t : Z) (evs : list event) : Prop :=
  match evs with
  | [] => True
  | ev :: evs =>
      match event_time ev with
      | Some t' => t <= t' ∧ clock_from t' evs
      | None => clock_from t evs
      end
  end.

Definition times (log : accept_log) : list Z := log.*1.
Definition peer_times (k : bytes) (log : accept_log) : list Z :=
  (filter (λ e, e.2 = Some k) log).*1.

Definition windowed_if (w n : Z) (l : list Z) : Prop := 0 < n → windowed w n l.

Record limits_inv (c : ConnectionLimitsConfig) (T : Z) (s : connectionLimiter * accept_log) : Prop := {
  li_config : config s.1 = c;
  li_past : ∀ e, e ∈ s.2 → e.1 <= T;
  li_active : 0 <= activeStreams s.1 ∧
    (0 < MaxConcurrentStreams c → activeStreams s.1 <= MaxConcurrentStreams c);
  li_total : after (T - 24 * Hour) (totalHistory s.1) = after (T - 24 * Hour) (times s.2);
  li_peer : ∀ k, after (T - 24 * Hour) (peer_hist s.1 k)
    = after (T - 24 * Hour) (peer_times k s.2);
  li_minute : windowed_if Minute (MaxTotalConnsPerMinute c) (times s.2);
  li_hour : windowed_if Hour (MaxTotalConnsPerHour c) (times s.2);
  li_day : windowed_if (24 * Hour) (MaxTotalConnsPerDay c) (times s.2);
  li_pminute : ∀ k, windowed_if Minute (MaxConnsPerMinute c) (peer_times k s.2);
  li_phour : ∀ k, windowed_if Hour (MaxConnsPerHour c) (peer_times k s.2);
  li_pday : ∀ k, windowed_if (24 * Hour) (MaxConnsPerDay c) (peer_times k s.2);
}.

Lemma after_mono_eq T T' l l' :
  T <= T' → after (T - 24 * Hour) l = after (T - 24 * Hour) l' →
  after (T' - 24 * Hour) l = after (T' - 24 * Hour) l'.
Proof.
  intros HT H. rewrite <-(after_after (T - 24 * Hour) _ l), <-(after_after (T - 24 * Hour) _ l') by lia.
  by rewrite H.
Qed.

Lemma limits_inv_later c T T' s : T <= T' → limits_inv c T s → limits_inv c T' s.
Proof.
  intros HT []. split; try done.
  - intros e He. specialize (li_past0 e He). lia.
  - by eapply after_mono_eq.
  - intros k. by eapply after_mono_eq.
Qed.

Lemma windowed_if_snoc w n l h now :
  0 < w <= 24 * Hour → windowed_if w n l → (∀ u, u ∈ l → u <= now) →
  after (now - 24 * Hour) h = after (now - 24 * Hour) l → window_free n h now w →
  windowed_if w n (l ++ [now]).
Proof.
  intros Hw Hl Hle Hh Hf Hn. apply windowed_snoc; [lia|auto|done|].
  specialize (Hf Hn). rewrite <-(after_after (now - 24 * Hour)) by lia.
  rewrite <-Hh. by rewrite after_after by lia.
Qed.

Lemma peer_times_snoc k log now dest :
  peer_times k (log ++ [(now, (λ _, getPeerHash dest) <$> dest)])
  = peer_times k log ++ peer_entry dest now k.
Proof.
  unfold peer_times, peer_entry. rewrite filter_app, fmap_app. f_equal.
  destruct dest as [d|]; cbn [fmap option_fmap option_map].
  - destruct (decide (getPeerHash (Some d) = k)) as [E|E].
    + rewrite filter_cons_True by exact (f_equal Some E). by rewrite decide_True.
    + rewrite filter_cons_False by (intros [=]; done). rewrite decide_False; [done|tauto].
  - rewrite filter_cons_False by done. rewrite decide_False; [done|tauto].
Qed.

Lemma peer_times_past k (log : accept_log) T :
  (∀ e, e ∈ log → e.1 <= T) → ∀ u, u ∈ peer_times k log → u <= T.
Proof.
  intros H u. unfold peer_times. rewrite list_elem_of_fmap.
  intros (e & -> & [_ He]%list_elem_of_filter). auto.
Qed.
Lemma times_past (log : accept_log) T : (∀ e, e ∈ log → e.1 <= T) → ∀ u, u ∈ times log → u <= T.
Proof. intros H u. unfold times. rewrite list_elem_of_fmap. intros (e & -> & He). auto. Qed.

(** A request at the present instant [T] keeps the invariant. *)
Lemma limits_inv_conn c T cl log dest :
  limits_inv c T (cl, log) → limits_inv c T (step (cl, log) (EvConn T dest)).
Proof.
  intros [Hc Hp [Ha0 Ha] Ht Hk Hm Hh Hd Hpm Hph Hpd]. cbn in *.
  pose proof (CheckAndRecordConnection_spec T dest cl) as Hs.
  destruct (CheckAndRecordConnection T dest cl) as [[[]|e|] cl'].
  - destruct Hs as ([Hadm _] & Hc' & Ha' & Ht' & Hk'). specialize (Hadm eq_refl).
    destruct Hadm as (Hconc & (Wm & Wh & Wd) & Hpeer). rewrite Hc in *.
    pose proof (times_past _ _ Hp) as Hpt.
    assert (Hsnoc : times (log ++ [(T, (λ _, getPeerHash dest) <$> dest)]) = times log ++ [T])
      by (unfold times; by rewrite fmap_app).
    assert (Hpk : ∀ w n k, 0 < w <= 24 * Hour → windowed_if w n (peer_times k log) →
      (dest ≠ None → window_free n (peer_hist cl (getPeerHash dest)) T w) →
      windowed_if w n (peer_times k (log ++ [(T, (λ _, getPeerHash dest) <$> dest)]))).
    { intros w n k Hw Hwk Hf. rewrite peer_times_snoc. unfold peer_entry. case_decide as Hd'.
      - destruct Hd' as [Hd1 Hd2]. subst k. eapply windowed_if_snoc; eauto using peer_times_past.
      - by rewrite app_nil_r. }
    assert (0 < Minute <= 24 * Hour) by (unfold Hour, Minute, Second; lia).
    assert (0 < Hour <= 24 * Hour) by (unfold Hour, Minute, Second; lia).
    split; cbn [fst snd]; rewrite ?Hsnoc; try done.
    + intros e [He|He%list_elem_of_singleton]%elem_of_app; [by apply Hp|]. by subst e.
    + lia.
    + by rewrite Ht', !after_app, Ht.
    + intros k. by rewrite peer_times_snoc, Hk', !after_app, Hk.
    + eapply windowed_if_snoc; eauto.
    + eapply windowed_if_snoc; eauto.
    + eapply windowed_if_snoc; eauto. lia.
    + intros k. apply Hpk; [done|apply Hpm|]. intros Hn. by destruct (Hpeer Hn) as (? & ? & ?).
    + intros k. apply Hpk; [done|apply Hph|]. intros Hn. by destruct (Hpeer Hn) as (? & ? & ?).
    + intros k. apply Hpk; [lia|apply Hpd|]. intros Hn. by destruct (Hpeer Hn) as (? & ? & ?).
  - destruct Hs as (_ & Hc' & _ & Ha' & Ht' & Hk'). split; cbn; try done.
    + congruence.
    + rewrite Ha'. done.
    + congruence.
    + intros k. by rewrite Hk', Hk.
  - by destruct Hs as (_ & _ & []).
Qed.

Lemma cleanupHistory_after now h :
  default [] (cleanupHistory now h) = after (now - 24 * Hour) h.
Proof.
  unfold cleanupHistory, time_Add. rewrite pruneOldEntriesLocked_after.
  replace (now + - (24 * Hour)) with (now - 24 * Hour) by lia. cbv zeta.
  destruct (Nat.eqb_spec (length (after (now - 24 * Hour) h)) 0) as [Hz|Hz].
  { apply nil_length_inv in Hz. by rewrite Hz. }
  destruct (existsb _ _) eqn:He; [done|]. cbn [negb default].
  destruct (after (now - 24 * Hour) h) as [|t l] eqn:El; [done|].
  cbn in He. apply orb_false_iff in He as [He _]. unfold time_After in He. zbool.
  assert (Ht : t ∈ after (now - 24 * Hour) h) by (rewrite El; left).
  unfold after in Ht. apply list_elem_of_filter in Ht. lia.
Qed.

Lemma limits_inv_step c T s ev :
  limits_inv c T s → (∀ t, event_time ev = Some t → t = T) → limits_inv c T (step s ev).
Proof.
  intros Hi Ht. destruct s as [cl log], ev as [now dest| |now].
  - specialize (Ht now eq_refl) as ->. by apply limits_inv_conn.
  - destruct Hi as [Hc Hp [Ha0 Ha] Htt Hk]. cbn in *. unfold ConnectionClosed, gets, mbind, st_bind, when.
    cbn. case_if; cbn; zbool; split; cbn; try done; lia.
  - specialize (Ht now eq_refl) as ->. destruct Hi as [Hc Hp Ha Htt Hk]. split; try done.
    cbn in *. intros k. rewrite <-(Hk k). unfold peer_hist. cbn. rewrite lookup_omap.
    destruct (peerHistory cl !! k) as [h|]; [|done]. cbn [mbind option_bind].
    rewrite cleanupHistory_after. cbn. by rewrite after_after by lia.
Qed.

Lemma limits_run_inv c evs T s :
  limits_inv c T s → clock_from T evs → ∃ T', T <= T' ∧ limits_inv c T' (foldl step s evs).
Proof.
  revert T s. induction evs as [|ev evs IH]; intros T s Hi Hc; cbn [foldl]; [exists T; split; [lia|done]|].
  cbn [clock_from] in Hc. destruct (event_time ev) as [t|] eqn:Et.
  - destruct Hc as [Ht Hc]. destruct (IH t (step s ev)) as (T' & ? & ?); [|done|].
    + apply limits_inv_step; [by eapply limits_inv_later|]. intros t' ?. congruence.
    + exists T'. split; [lia|done].
  - apply IH; [|done]. apply limits_inv_step; [done|]. congruence.
Qed.

Lemma limits_inv_init c T : limits_inv c T (newConnectionLimiter (Some c), []).
Proof.
  assert (Hw : ∀ w n, windowed_if w n []) by (intros w n Hn; apply windowed_nil; lia).
  split; try done.
  - by intros e ?%not_elem_of_nil.
  - cbn. lia.
Qed.

Lemma run_limits c T evs : clock_from T evs → ∃ T', limits_inv c T' (run c evs).
Proof. intros H. destruct (limits_run_inv c evs T _ (limits_inv_init c T) H) as (T' & _ & ?). by exists T'. Qed.
End Runs.

(** ** The properties *)

Section Properties.
Context {I : I2CP}.

(** C20.  Rate limits hold over whole runs: starting from a new limiter, however
    requests, closes and history cleanups are interleaved in time, every
    window of a minute, an hour or a day contains at most the configured
    number of accepted connections, in total and for every single peer. *)
Theorem rate_limits_hold (c : ConnectionLimitsConfig) (T : Z) (evs : list event) :
  clock_from T evs →
  let log := (run c evs).2 in
  (windowed_if Minute (MaxTotalConnsPerMinute c) (times log) ∧
   windowed_if Hour (MaxTotalConnsPerHour c) (times log) ∧
   windowed_if (24 * Hour) (MaxTotalConnsPerDay c) (times log)) ∧
  (∀ k, windowed_if Minute (MaxConnsPerMinute c) (peer_times k log) ∧
   windowed_if Hour (MaxConnsPerHour c) (peer_times k log) ∧
   windowed_if (24 * Hour) (MaxConnsPerDay c) (peer_times k log)).
Proof. intros [T' []]%(run_limits c). cbv zeta. auto. Qed.

(** A request is accepted exactly when the concurrent limit and all six
    windows have room, a disabled limit always having room; an accepted
    request adds one active stream and one timestamp, a refused one changes
    neither the active count nor any timestamp of the last day. *)
Theorem CheckAndRecordConnection_exact now dest cl :
  let '(r, cl') := CheckAndRecordConnection now dest cl in
  (r = Ok () ↔ admitted cl now dest) ∧
  match r with
  | Ok _ => activeStreams cl' = activeStreams cl + 1 ∧
      after (now - 24 * Hour) (totalHistory cl') = after (now - 24 * Hour) (totalHistory cl ++ [now]) ∧
      ∀ k, after (now - 24 * Hour) (peer_hist cl' k)
         = after (now - 24 * Hour) (peer_hist cl k ++ peer_entry dest now k)
  | Err _ => same_recent now cl cl'
  | Panic => False
  end.
Proof.
  pose proof (CheckAndRecordConnection_spec now dest cl) as H.
  destruct (CheckAndRecordConnection now dest cl) as [r cl']. destruct H as (H & _ & ?). done.
Qed.

(** C21.  The number of active streams never exceeds a configured maximum and
    never becomes negative, whatever the interleaving of requests and closes. *)
Theorem active_streams_bounded (c : ConnectionLimitsConfig) (T : Z) (evs : list event) :
  clock_from T evs →
  0 <= activeStreams (run c evs).1 ∧
  (0 < MaxConcurrentStreams c → activeStreams (run c evs).1 <= MaxConcurrentStreams c).
Proof. intros [T' []]%(run_limits c). auto. Qed.
End Properties.

Section Examples.
Definition lim_ex : ConnectionLimitsConfig := MkLimitsConfig 2 1 0 0 2 0 0 LimitActionDrop false.
Definition evs_ex : list (@event ConcreteI2CP) :=
  [EvConn 0 None; EvConn Second None; EvClosed; EvConn (2 * Second) None; EvCleanup (61 * Second);
   EvConn (61 * Second) None].

(** The third request falls in the same minute and is refused; a minute later
    there is room again. *)
Example limits_run_ex : (run lim_ex evs_ex).2 = [(0, None); (Second, None); (61 * Second, None)].
Proof. vmeq. Qed.

Lemma rate_limits_hold_witness :
  (windowed_if Minute 2 (times (run lim_ex evs_ex).2) ∧
   windowed_if Hour 0 (times (run lim_ex evs_ex).2) ∧
   windowed_if (24 * Hour) 0 (times (run lim_ex evs_ex).2)) ∧
  (∀ k, windowed_if Minute 1 (peer_times k (run lim_ex evs_ex).2) ∧
   windowed_if Hour 0 (peer_times k (run lim_ex evs_ex).2) ∧
   windowed_if (24 * Hour) 0 (peer_times k (run lim_ex evs_ex).2)).
Proof.
  apply (rate_limits_hold lim_ex 0 evs_ex). cbn. unfold Second. lia.
Defined.

Lemma active_streams_bounded_witness :
  0 <= activeStreams (run lim_ex evs_ex).1 ∧
  (0 < MaxConcurrentStreams lim_ex → activeStreams (run lim_ex evs_ex).1 <= MaxConcurrentStreams lim_ex).
Proof. apply (active_streams_bounded lim_ex 0 evs_ex). cbn. unfold Second. lia. Defined.
End Examples.
