(* ===== verification/MessageStatus.v ===== *)
(** * Message status tracking (message_status.go)

    Each message handed to I2CP gets a nonce; the status I2CP reports for it
    later removes the pending entry, updates the statistics and notifies the
    connection that sent it.  A connection is named by a number here: the
    tracker only stores the reference and calls back, so an operation returns
    the notices it sends, in order.  The properties: nonces do not collide,
    every message is accounted for exactly once, and a message is notified at
    most once. *)

From S2P Require Import Prelude GoInt.

(** go-i2cp's classification of the status codes. *)
Class MessageStatusCodes := {
  IsMessageStatusSuccess : Z → bool;
  IsMessageStatusFailure : Z → bool;
  IsMessageStatusRetriable : Z → bool;
}.

(** The codes of the I2CP specification, in outline: 1 accepted; 2, 4 and 6
    success; the others failures, the no-leaseset family retriable. *)
#[export] Instance ConcreteStatusCodes : MessageStatusCodes := {|
  IsMessageStatusSuccess := λ s, (s =? 2) || (s =? 4) || (s =? 6);
  IsMessageStatusFailure := λ s, negb ((s =? 1) || (s =? 2) || (s =? 4) || (s =? 6));
  IsMessageStatusRetriable := λ s, (s =? 16) || (s =? 21);
|}.

(** ** State *)

Record pendingMessageInfo := MkPending {
  p_nonce : Z;
  seqNum : Z;
  p_conn : option positive;
  sentAt : Z;
  payloadSize : Z;
  isDataPkt : bool;
  retryCount : Z;
  maxRetries : Z;
}.

Record MessageStats := MkStats {
  TotalSent : Z;
  TotalDelivered : Z;
  TotalFailed : Z;
  TotalRetried : Z;
  TotalExpired : Z;
  AvgDeliveryTimeMs : Z;
  LastDeliveryMs : Z;
}.
#[export] Instance eta_MessageStats : Eta MessageStats := λ s,
  MkStats (TotalSent s) (TotalDelivered s) (TotalFailed s) (TotalRetried s) (TotalExpired s)
    (AvgDeliveryTimeMs s) (LastDeliveryMs s).
#[export] Instance set_TotalSent : Setter TotalSent := ltac:(derive_setter).
#[export] Instance set_TotalDelivered : Setter TotalDelivered := ltac:(derive_setter).
#[export] Instance set_TotalFailed : Setter TotalFailed := ltac:(derive_setter).
#[export] Instance set_TotalRetried : Setter TotalRetried := ltac:(derive_setter).
#[export] Instance set_TotalExpired : Setter TotalExpired := ltac:(derive_setter).
#[export] Instance set_AvgDeliveryTimeMs : Setter AvgDeliveryTimeMs := ltac:(derive_setter).
#[export] Instance set_LastDeliveryMs : Setter LastDeliveryMs := ltac:(derive_setter).

Record messageStatusTracker := MkTracker {
  pendingMessages : gmap Z pendingMessageInfo;
  stats : MessageStats;
  nextNonce : Z;
}.
#[export] Instance eta_messageStatusTracker : Eta messageStatusTracker := λ t,
  MkTracker (pendingMessages t) (stats t) (nextNonce t).
#[export] Instance set_pendingMessages : Setter pendingMessages := ltac:(derive_setter).
#[export] Instance set_stats : Setter stats := ltac:(derive_setter).
#[export] Instance set_nextNonce : Setter nextNonce := ltac:(derive_setter).

(** A call back into the connection that sent the message. *)
Inductive Notice :=
| MessageDelivered (conn : positive) (seq : Z)
| MessageFailed (conn : positive) (seq : Z) (retriable : bool).

Section MessageStatus.
Context {C : MessageStatusCodes}.

(** ** Operations *)

Definition newMessageStatusTracker : messageStatusTracker :=
  MkTracker ∅ (MkStats 0 0 0 0 0 0 0) 1.

(** [atomic.AddUint32(&t.nextNonce, 1)] *)
Definition GenerateNonce : ST messageStatusTracker Z :=
  _ ← modify (λ t, t <| nextNonce ::= λ n, n +% 1 |>);
  gets nextNonce.

Definition bump (z : Z) : Z := u64 (z + 1).

Definition TrackMessage (now : Z) (conn : option positive) (seqNum payloadSize : Z)
    (isDataPkt : bool) : ST messageStatusTracker Z :=
  nonce ← GenerateNonce;
  let info := MkPending nonce seqNum conn now payloadSize isDataPkt 0 3 in
  _ ← modify (λ t, t <| pendingMessages ::= <[nonce := info]> |>);
  _ ← modify (λ t, t <| stats ::= λ s, s <| TotalSent ::= bump |> |>);
  mret nonce.

(** [d.Milliseconds()] truncates towards zero. *)
Definition Milliseconds (d : Z) : Z := Z.quot d Millisecond.

Definition handleSuccess (info : pendingMessageInfo) (deliveryTime : Z)
    : ST messageStatusTracker (list Notice) :=
  _ ← modify (λ t, t <| stats ::= λ s, s <| TotalDelivered ::= bump |> |>);
  _ ← modify (λ t, t <| stats ::= λ s, s <| LastDeliveryMs := Milliseconds deliveryTime |> |>);
  avgMs ← gets (λ t, AvgDeliveryTimeMs (stats t));
  let newAvg := Z.quot (i64 (avgMs * 7 + Milliseconds deliveryTime)) 8 in
  _ ← modify (λ t, t <| stats ::= λ s, s <| AvgDeliveryTimeMs := newAvg |> |>);
  match p_conn info with
  | Some conn => if isDataPkt info then mret [MessageDelivered conn (seqNum info)] else mret []
  | None => mret []
  end.

Definition handleFailure (info : pendingMessageInfo) (status : Z)
    : ST messageStatusTracker (list Notice) :=
  _ ← modify (λ t, t <| stats ::= λ s, s <| TotalFailed ::= bump |> |>);
  let retriable := IsMessageStatusRetriable status in
  match p_conn info with
  | Some conn =>
      if retriable && (retryCount info <? maxRetries info) && isDataPkt info then
        _ ← modify (λ t, t <| stats ::= λ s, s <| TotalRetried ::= bump |> |>);
        mret [MessageFailed conn (seqNum info) true]
      else if isDataPkt info then mret [MessageFailed conn (seqNum info) false]
      else mret []
  | None => mret []
  end.

(** Nothing is put back: the entry stays deleted. *)
Definition handleIntermediate (info : pendingMessageInfo) (status : Z)
    : ST messageStatusTracker (list Notice) := mret [].

Definition HandleStatus (now messageId status : Z) : ST messageStatusTracker (list Notice) :=
  m ← gets pendingMessages;
  match m !! messageId with
  | None => mret []
  | Some info =>
      _ ← modify (λ t, t <| pendingMessages ::= delete messageId |>);
      let deliveryTime := time_Sub now (sentAt info) in
      if IsMessageStatusSuccess status then handleSuccess info deliveryTime
      else if IsMessageStatusFailure status then handleFailure info status
      else handleIntermediate info status
  end.

Definition GetStats : ST messageStatusTracker MessageStats := gets stats.

Definition PendingCount : ST messageStatusTracker nat := gets (λ t, size (pendingMessages t)).

(** One visited entry of the loop of [CleanupExpired]: how many it expired,
    and the notice it sent. *)
Definition expireOne (now maxAge : Z) (nonce : Z) : ST messageStatusTracker (Z * list Notice) :=
  m ← gets pendingMessages;
  match m !! nonce with
  | None => mret (0, [])
  | Some info =>
      if maxAge <? time_Sub now (sentAt info) then
        _ ← modify (λ t, t <| pendingMessages ::= delete nonce |>);
        _ ← modify (λ t, t <| stats ::= λ s, s <| TotalExpired ::= bump |> |>);
        match p_conn info with
        | Some conn =>
            if isDataPkt info then mret (1, [MessageFailed conn (seqNum info) false]) else mret (1, [])
        | None => mret (1, [])
        end
      else mret (0, [])
  end.

Fixpoint expireAll (now maxAge : Z) (nonces : list Z) : ST messageStatusTracker (Z * list Notice) :=
  match nonces with
  | [] => mret (0, [])
  | n :: nonces =>
      '(e, ns) ← expireOne now maxAge n;
      '(es, ms) ← expireAll now maxAge nonces;
      mret (e + es, ns ++ ms)
  end.

(** [order] is the order in which the range loop visits the map's keys. *)
Definition CleanupExpired (now maxAge : Z) (order : list Z)
    : ST messageStatusTracker (Z * list Notice) := expireAll now maxAge order.

Definition Clear : ST messageStatusTracker unit := modify (λ t, t <| pendingMessages := ∅ |>).
End MessageStatus.

(** ** Runs *)

Section Runs.
Context {C : MessageStatusCodes}.

Inductive event :=
| EvTrack (now : Z) (conn : option positive) (seq size : Z) (data : bool)
| EvStatus (now messageId status : Z)
| EvCleanup (now maxAge : Z) (order : list Z)
| EvClear.

(** What a run leaves behind: the nonces handed out, the notices sent, and how
    many pending messages were dropped without a final status (an intermediate
    status, or [Clear]). *)
Record trace := MkTrace { nonces : list Z; notices : list Notice; dropped : Z }.

Definition intermediate (status : Z) : bool :=
  negb (IsMessageStatusSuccess status) && negb (IsMessageStatusFailure status).

Definition step (s : messageStatusTracker * trace) (ev : event) : messageStatusTracker * trace :=
  let '(t, tr) := s in
  match ev with
  | EvTrack now conn seq size data =>
      let '(n, t) := TrackMessage now conn seq size data t in
      (t, MkTrace (nonces tr ++ [n]) (notices tr) (dropped tr))
  | EvStatus now id status =>
      let '(ns, t') := HandleStatus now id status t in
      (t', MkTrace (nonces tr) (notices tr ++ ns)
             (if bool_decide (is_Some (pendingMessages t !! id)) && intermediate status
              then dropped tr + 1 else dropped tr))
  | EvCleanup now maxAge order =>
      let '((_, ns), t') := CleanupExpired now maxAge order t in
      (t', MkTrace (nonces tr) (notices tr ++ ns) (dropped tr))
  | EvClear =>
      (snd (Clear t), MkTrace (nonces tr) (notices tr) (dropped tr + Z.of_nat (size (pendingMessages t))))
  end.

Definition run (evs : list event) : messageStatusTracker * trace :=
  foldl step (newMessageStatusTracker, MkTrace [] [] 0) evs.

Definition is_track (ev : event) : bool := match ev with EvTrack _ _ _ _ _ => true | _ => false end.
Definition tracked (evs : list event) : Z := Z.of_nat (length (filter (λ ev, is_track ev = true) evs)).

(** Every message sent is pending, delivered, failed, expired or dropped. *)
Record tracker_inv (n : Z) (s : messageStatusTracker * trace) : Prop := {
  ti_nonce : nextNonce s.1 = n + 1;
  ti_nonces : nonces s.2 = (λ k, Z.of_nat k + 2) <$> seq 0 (Z.to_nat n);
  ti_pending : ∀ k, is_Some (pendingMessages s.1 !! k) → 2 <= k <= n + 1;
  ti_counts : 0 <= TotalDelivered (stats s.1) ∧ 0 <= TotalFailed (stats s.1)
    ∧ 0 <= TotalExpired (stats s.1) ∧ 0 <= dropped s.2 ∧ 0 <= TotalRetried (stats s.1);
  ti_retried : TotalRetried (stats s.1) <= TotalFailed (stats s.1);
  ti_sent : TotalSent (stats s.1) = n;
  ti_sum : n = Z.of_nat (size (pendingMessages s.1)) + TotalDelivered (stats s.1)
    + TotalFailed (stats s.1) + TotalExpired (stats s.1) + dropped s.2;
  ti_notices : Z.of_nat (length (notices s.2)) <=
    TotalDelivered (stats s.1) + TotalFailed (stats s.1) + TotalExpired (stats s.1);
}.

Lemma bump_small z : 0 <= z < 4294967296 → bump z = z + 1.
Proof. intros. unfold bump, u64. zlia. Qed.

Lemma size_delete_Z (m : gmap Z pendingMessageInfo) k i :
  m !! k = Some i → Z.of_nat (size (delete k m)) = Z.of_nat (size m) - 1.
Proof.
  intros H. rewrite map_size_delete, H. 
  assert (size m ≠ 0%nat) by (rewrite map_size_ne_0_lookup; eauto). lia.
Qed.

Lemma TrackMessage_eq now conn seq size data t :
  let n := nextNonce t +% 1 in
  TrackMessage now conn seq size data t =
    (n, MkTracker (<[n := MkPending n seq conn now size data 0 3]> (pendingMessages t))
          ((stats t) <| TotalSent ::= bump |>) n).
Proof. done. Qed.

Lemma inv_track n s now conn seq size data :
  0 <= n < 4294967294 → tracker_inv n s →
  tracker_inv (n + 1) (step s (EvTrack now conn seq size data)).
Proof.
  intros Hn [Hk Hks Hp Hc Hr Hs Hsum Hno]. destruct s as [t tr]. cbn [fst snd] in *.
  assert (Hu : n + 1 +% 1 = n + 2) by (unfold u32; zlia).
  unfold step. rewrite TrackMessage_eq. cbv zeta. rewrite Hk, Hu.
  assert (Hfresh : pendingMessages t !! (n + 2) = None).
  { destruct (pendingMessages t !! (n + 2)) eqn:E; [|done].
    specialize (Hp (n + 2) ltac:(rewrite E; eauto)). lia. }
  split; cbn; try done.
  - lia.
  - rewrite Hks. replace (Z.to_nat (n + 1)) with (S (Z.to_nat n)) by lia.
    rewrite seq_S, fmap_app. cbn. do 2 f_equal. lia.
  - intros k. destruct (decide (k = n + 2)) as [->|]; [lia|].
    rewrite lookup_insert_ne by done. intros Hsome. specialize (Hp k Hsome). lia.
  - rewrite Hs, bump_small by lia. done.
  - rewrite map_size_insert_None by done. lia.
Qed.

(** What a status does to an entry it finds: the entry goes, exactly one
    counter moves (none for an intermediate status), at most one notice is sent. *)
Lemma HandleStatus_found now id status t info :
  pendingMessages t !! id = Some info →
  ∃ ns st, HandleStatus now id status t = (ns, MkTracker (delete id (pendingMessages t)) st (nextNonce t)) ∧
    TotalSent st = TotalSent (stats t) ∧ TotalExpired st = TotalExpired (stats t) ∧
    (length ns ≤ if intermediate status then 0 else 1)%nat ∧
    TotalDelivered st = (if IsMessageStatusSuccess status
      then bump (TotalDelivered (stats t)) else TotalDelivered (stats t)) ∧
    TotalFailed st = (if negb (IsMessageStatusSuccess status) && IsMessageStatusFailure status
      then bump (TotalFailed (stats t)) else TotalFailed (stats t)) ∧
    (TotalRetried st = TotalRetried (stats t) ∨
     TotalRetried st = bump (TotalRetried (stats t)) ∧
     negb (IsMessageStatusSuccess status) && IsMessageStatusFailure status = true).
Proof.
  intros Hi. unfold HandleStatus, intermediate, mbind, st_bind, gets. rewrite Hi.
  unfold handleSuccess, handleFailure, handleIntermediate.
  destruct (IsMessageStatusSuccess status); [|destruct (IsMessageStatusFailure status)];
    destruct (p_conn info), (isDataPkt info); cbn;
    repeat case_if; eexists _, _; (split; [reflexivity|]); cbn; split_and!; auto.
Qed.

Lemma inv_status n s now id status :
  0 <= n < 4294967295 → tracker_inv n s → tracker_inv n (step s (EvStatus now id status)).
Proof.
  intros Hn [Hk Hks Hp Hc Hr Hs Hsum Hno]. destruct s as [t tr]. cbn [fst snd] in *. cbn [step].
  destruct (pendingMessages t !! id) as [info|] eqn:Hi.
  - destruct (HandleStatus_found now id status t info Hi)
      as (ns & st & -> & Es & Ee & El & Ed & Ef & Er).
    pose proof (size_delete_Z _ _ _ Hi) as Hsz.
    assert (size (pendingMessages t) ≠ 0%nat) by (rewrite map_size_ne_0_lookup; eauto).
    rewrite bool_decide_true by eauto.
    unfold intermediate in *. rewrite (bump_small (TotalDelivered (stats t))) in Ed by lia.
    rewrite (bump_small (TotalFailed (stats t))) in Ef by lia.
    rewrite (bump_small (TotalRetried (stats t))) in Er by lia.
    destruct (IsMessageStatusSuccess status), (IsMessageStatusFailure status);
      cbn [negb andb] in *; split; cbn; try done; try lia.
    all: try (intros k Hk'; apply Hp; rewrite lookup_delete_is_Some in Hk'; tauto).
    all: rewrite length_app; lia.
  - assert (HandleStatus now id status t = ([], t)) as ->.
    { unfold HandleStatus, mbind, st_bind, gets. by rewrite Hi. }
    rewrite bool_decide_false by (by intros [? [=]]). split; cbn; try done. by rewrite app_nil_r.
Qed.

Lemma expireOne_found now maxAge k t info :
  pendingMessages t !! k = Some info → maxAge < time_Sub now (sentAt info) →
  ∃ ns, expireOne now maxAge k t =
    ((1, ns), MkTracker (delete k (pendingMessages t)) ((stats t) <| TotalExpired ::= bump |>)
      (nextNonce t)) ∧ (length ns ≤ 1)%nat.
Proof.
  intros Hi Ha. unfold expireOne, mbind, st_bind, gets. rewrite Hi.
  apply Z.ltb_lt in Ha. rewrite Ha.
  destruct (p_conn info), (isDataPkt info); eexists; (split; [reflexivity|]); cbn; lia.
Qed.

Lemma expireOne_kept now maxAge k t :
  (∀ info, pendingMessages t !! k = Some info → time_Sub now (sentAt info) <= maxAge) →
  expireOne now maxAge k t = ((0, []), t).
Proof.
  intros H. unfold expireOne, mbind, st_bind, gets.
  destruct (pendingMessages t !! k) as [info|]; [|done]. specialize (H info eq_refl).
  apply Z.ltb_ge in H. by rewrite H.
Qed.

Lemma inv_expireOne n t tr now maxAge k :
  0 <= n < 4294967295 → tracker_inv n (t, tr) →
  let '((_, ns), t') := expireOne now maxAge k t in
  tracker_inv n (t', MkTrace (nonces tr) (notices tr ++ ns) (dropped tr)).
Proof.
  intros Hn Hinv. pose proof Hinv as [Hk Hks Hp Hc Hr Hs Hsum Hno]. cbn [fst snd] in *.
  destruct (pendingMessages t !! k) as [info|] eqn:Hi;
    [destruct (decide (maxAge < time_Sub now (sentAt info))) as [Ha|Ha]|].
  - destruct (expireOne_found now maxAge k t info Hi Ha) as (ns & -> & Hl).
    pose proof (size_delete_Z _ _ _ Hi) as Hsz.
    assert (size (pendingMessages t) ≠ 0%nat) by (rewrite map_size_ne_0_lookup; eauto).
    pose proof (bump_small (TotalExpired (stats t)) ltac:(lia)) as Hb.
    split; cbn; rewrite ?Hb; try done; try lia.
    + intros k'. rewrite lookup_delete_is_Some. intros [_ ?]. auto.
    + rewrite length_app. lia.
  - rewrite expireOne_kept; [|intros; simplify_eq; lia].
    rewrite app_nil_r. by destruct tr.
  - rewrite expireOne_kept; [|intros; simplify_eq]. rewrite app_nil_r. by destruct tr.
Qed.

Lemma inv_expireAll n t tr now maxAge ks :
  0 <= n < 4294967295 → tracker_inv n (t, tr) →
  let '((_, ns), t') := expireAll now maxAge ks t in
  tracker_inv n (t', MkTrace (nonces tr) (notices tr ++ ns) (dropped tr)).
Proof.
  intros Hn. revert t tr. induction ks as [|k ks IH]; intros t tr Hi; cbn [expireAll].
  { cbn. rewrite app_nil_r. by destruct tr. }
  unfold mbind, st_bind. pose proof (inv_expireOne n t tr now maxAge k Hn Hi) as H1.
  destruct (expireOne now maxAge k t) as [[e ns] t1].
  specialize (IH t1 (MkTrace (nonces tr) (notices tr ++ ns) (dropped tr)) H1).
  destruct (expireAll now maxAge ks t1) as [[es ms] t2]. cbn in *. by rewrite app_assoc.
Qed.

Lemma inv_clear n s : tracker_inv n s → tracker_inv n (step s EvClear).
Proof.
  intros [Hk Hks Hp Hc Hr Hs Hsum Hno]. destruct s as [t tr]. cbn in *.
  split; cbn; try done; rewrite ?map_size_empty; try lia.
  by intros k [? [=]].
Qed.

Lemma tracker_run_inv evs n s :
  0 <= n → tracker_inv n s → n + tracked evs < 4294967295 →
  tracker_inv (n + tracked evs) (foldl step s evs).
Proof.
  revert n s. induction evs as [|ev evs IH]; intros n s H0 Hi Hb; cbn [foldl].
  { unfold tracked. cbn. by rewrite Z.add_0_r. }
  unfold tracked in *. rewrite filter_cons in *.
  destruct ev as [now conn sq sz data|now id status|now maxAge order|]; cbn [is_track] in *.
  - rewrite decide_True in * by done. cbn [length] in *.
    replace (n + Z.of_nat (S _)) with (n + 1 + Z.of_nat (length (filter (λ ev, is_track ev = true) evs)))
      by lia.
    apply IH; [lia| |lia]. apply inv_track; [lia|done].
  - rewrite decide_False in * by done. apply IH; [lia| |lia]. apply inv_status; [lia|done].
  - rewrite decide_False in * by done. apply IH; [lia| |lia].
    destruct s as [t tr]. cbn [step]. unfold CleanupExpired.
    pose proof (inv_expireAll n t tr now maxAge order ltac:(lia) Hi) as H1.
    by destruct (expireAll now maxAge order t) as [[e ns] t'].
  - rewrite decide_False in * by done. apply IH; [lia| |lia]. by apply inv_clear.
Qed.

Lemma inv_init : tracker_inv 0 (newMessageStatusTracker, MkTrace [] [] 0).
Proof.
  split; cbn; try done. by intros k [? [=]].
Qed.

Lemma nonces_NoDup (n : nat) : NoDup ((λ k, Z.of_nat k + 2) <$> seq 0 n).
Proof. apply NoDup_fmap_2_strong; [|apply NoDup_seq]. intros; lia. Qed.
End Runs.

(** ** The properties *)

Section Properties.
Context {C : MessageStatusCodes}.

(** C22.  Accounting: over any run that tracks fewer than 2^32 - 1 messages,
    every message sent is exactly one of pending, delivered, failed, expired or
    dropped (by an intermediate status or [Clear]); the nonces handed out are
    pairwise distinct and never 0; and the notices to connections are no more
    than the final statuses and expiries. *)
Theorem messages_accounted (evs : list event) :
  tracked evs < 4294967295 →
  let '(t, tr) := run evs in
  TotalSent (stats t) = tracked evs ∧
  TotalSent (stats t) = Z.of_nat (size (pendingMessages t)) + TotalDelivered (stats t)
    + TotalFailed (stats t) + TotalExpired (stats t) + dropped tr ∧
  NoDup (nonces tr) ∧ (0 ∉ nonces tr) ∧
  Z.of_nat (length (notices tr)) <=
    TotalDelivered (stats t) + TotalFailed (stats t) + TotalExpired (stats t).
Proof.
  intros Hb. unfold run. pose proof (tracker_run_inv evs 0 _ ltac:(lia) inv_init Hb) as Hi.
  rewrite Z.add_0_l in Hi. destruct (foldl _ _ evs) as [t tr].
  destruct Hi as [Hk Hks Hp Hc Hr Hs Hsum Hno]. cbn [fst snd] in *.
  split_and!; [done|lia| | |done].
  - rewrite Hks. apply nonces_NoDup.
  - rewrite Hks. rewrite list_elem_of_fmap. intros (k & ? & _). lia.
Qed.

(** An intermediate status stops the tracking of its message: the entry is
    gone, no notice is sent, and every later status for the nonce is ignored,
    so its delivery or failure is never reported. *)
Theorem intermediate_untracks now now' id status status' t :
  is_Some (pendingMessages t !! id) → intermediate status = true →
  let '(ns, t') := HandleStatus now id status t in
  ns = [] ∧ pendingMessages t' !! id = None ∧ stats t' = stats t ∧
  HandleStatus now' id status' t' = ([], t').
Proof.
  intros [info Hi] Hm. unfold intermediate in Hm. apply andb_true_iff in Hm as [H1 H2].
  unfold HandleStatus, mbind, st_bind, gets. rewrite Hi. zbool. rewrite H1, H2.
  cbn. rewrite lookup_delete_eq. done.
Qed.
End Properties.

Section Examples.
Definition evs_ex : list event :=
  [EvTrack 0 (Some 1%positive) 10 100 true; EvTrack 5 (Some 1%positive) 11 100 true;
   EvTrack 5 None 0 22 false; EvStatus (8 * Millisecond) 2 4; EvStatus 9 3 1; EvStatus 10 3 4;
   EvCleanup (3 * Second) Second [4]].

(** The first message is delivered; the second is lost to the tracker by the
    "accepted" status; the third expires. *)
Example tracker_run_ex : (run evs_ex).2 = MkTrace [2; 3; 4] [MessageDelivered 1 10] 1.
Proof. vmeq. Qed.

Lemma messages_accounted_witness :
  let '(t, tr) := run evs_ex in
  TotalSent (stats t) = 3 ∧
  TotalSent (stats t) = Z.of_nat (size (pendingMessages t)) + TotalDelivered (stats t)
    + TotalFailed (stats t) + TotalExpired (stats t) + dropped tr ∧
  NoDup (nonces tr) ∧ (0 ∉ nonces tr) ∧
  Z.of_nat (length (notices tr)) <=
    TotalDelivered (stats t) + TotalFailed (stats t) + TotalExpired (stats t).
Proof. apply (messages_accounted evs_ex). reflexivity. Defined.

Lemma intermediate_untracks_witness :
  let '(ns, t') := HandleStatus 7 2 1 (run (take 1 evs_ex)).1 in
  ns = [] ∧ pendingMessages t' !! 2 = None ∧ stats t' = stats (run (take 1 evs_ex)).1 ∧
  HandleStatus 8 2 4 t' = ([], t').
Proof. apply (intermediate_untracks 7 8 2 1 4); [by eexists|reflexivity]. Defined.
End Examples.
