(* ===== verification/Floats.v ===== *)
(** * float64

    The finite float64 values as dyadic numbers [man * 2^exp], with the
    operations the source uses: conversion from and (truncating) to integers,
    sum, product, quotient, comparison, each rounded to 53 significant bits,
    ties to even.  The values of this program are durations below 2^63 ns and
    factors of order one, so neither overflow nor subnormal numbers occur.
    Results that need at most 53 bits are exact, which is what the users of
    this file rely on. *)

From S2P Require Import Prelude.

Record float := Fl { man : Z; exp : Z }.

(** Drop the [k] low bits of [m >= 0], rounding to nearest, ties to even. *)
Definition round_bits (m k : Z) : Z :=
  let q := Z.shiftr m k in
  let r := m - Z.shiftl q k in
  let half := Z.shiftl 1 (k - 1) in
  if r <? half then q
  else if half <? r then q + 1
  else if Z.even q then q else q + 1.

Definition round53 (m e : Z) : float :=
  if Z.abs m <? 9007199254740992 then Fl m e
  else
    let k := Z.log2 (Z.abs m) - 52 in
    Fl (Z.sgn m * round_bits (Z.abs m) k) (e + k).

Definition of_int (z : Z) : float := round53 z 0.
Definition fmul (a b : float) : float := round53 (man a * man b) (exp a + exp b).
Definition fadd (a b : float) : float :=
  let e := Z.min (exp a) (exp b) in
  round53 (man a * 2 ^ (exp a - e) + man b * 2 ^ (exp b - e)) e.

(** The quotient to 64 significant bits and a sticky bit, then rounded. *)
Definition fdiv (a b : float) : float :=
  let s := Z.max 0 (64 + Z.log2 (Z.abs (man b)) - Z.log2 (Z.abs (man a))) in
  let n := Z.abs (man a) * 2 ^ s in
  let q := n / Z.abs (man b) in
  let sticky := if n mod Z.abs (man b) =? 0 then 0 else 1 in
  round53 (Z.sgn (man a) * Z.sgn (man b) * (2 * q + sticky)) (exp a - exp b - s - 1).

Definition fltb (a b : float) : bool :=
  let e := Z.min (exp a) (exp b) in
  man a * 2 ^ (exp a - e) <? man b * 2 ^ (exp b - e).

(** Conversion to an integer truncates towards zero. *)
Definition trunc (a : float) : Z :=
  if 0 <=? exp a then man a * 2 ^ exp a else Z.quot (man a) (2 ^ (- exp a)).

(** Constants: the nearest float64 of the decimal. *)
Definition c0_5 : float := Fl 1 (-1).
Definition c0_75 : float := Fl 3 (-2).
Definition c0_25 : float := Fl 1 (-2).
Definition c0_125 : float := Fl 1 (-3).
Definition c0_875 : float := Fl 7 (-3).
Definition c0_8 : float := Fl 3602879701896397 (-52).
Definition c0_3 : float := Fl 5404319552844595 (-54).

(** ** Exactness *)

Definition fits (m : Z) : Prop := Z.abs m < 9007199254740992.

Lemma round53_exact m e : fits m → round53 m e = Fl m e.
Proof. unfold fits, round53. intros H. apply Z.ltb_lt in H. by rewrite H. Qed.

Lemma of_int_exact z : fits z → of_int z = Fl z 0.
Proof. apply round53_exact. Qed.

Lemma fmul_exact a b : fits (man a * man b) → fmul a b = Fl (man a * man b) (exp a + exp b).
Proof. apply round53_exact. Qed.

(** A weighted average with weights [p/2^k] and [q/2^k]. *)
Lemma weighted_exact x y p q k :
  0 <= x → 0 <= y → 0 <= p → 0 <= q → 0 <= k → fits (x * p + q * y) → fits x → fits y →
  trunc (fadd (fmul (of_int x) (Fl p (- k))) (fmul (Fl q (- k)) (of_int y)))
  = (x * p + q * y) / 2 ^ k.
Proof.
  intros Hx Hy Hp Hq Hk Hf Hfx Hfy. rewrite !of_int_exact by done.
  rewrite !fmul_exact by (unfold fits in *; cbn; nia).
  unfold fadd. cbn [man exp]. replace (0 + (- k)) with (- k) by lia. replace ((- k) + 0) with (- k) by lia.
  rewrite Z.min_id, Z.sub_diag. change (2 ^ 0) with 1. rewrite !Z.mul_1_r.
  rewrite round53_exact by done. unfold trunc. cbn [man exp]. rewrite Z.opp_involutive.
  destruct (Z.leb_spec 0 (- k)).
  - replace k with 0 by lia. change (2 ^ (- 0)) with 1. change (2 ^ 0) with 1.
    by rewrite Z.div_1_r, Z.mul_1_r.
  - rewrite Z.quot_div_nonneg; [done|nia|lia].
Qed.

(** A product with a factor [p/2^k]. *)
Lemma scaled_exact x p k :
  0 <= x → 0 <= p → 0 < k → fits x → fits (x * p) →
  trunc (fmul (of_int x) (Fl p (- k))) = x * p / 2 ^ k.
Proof.
  intros Hx Hp Hk Hfx Hf. rewrite of_int_exact, fmul_exact by done. unfold trunc. cbn [man exp].
  replace (0 + (- k)) with (- k) by lia. destruct (Z.leb_spec 0 (- k)); [lia|].
  rewrite Z.opp_involutive. rewrite Z.quot_div_nonneg; [done|nia|lia].
Qed.

(** Division of small integers by a power of two is exact. *)
Lemma fltb_scale a b m n e : 0 <= e →
  man a = m * 2 ^ e → exp a = n - e → fltb b (Fl m n) = fltb b a.
Proof.
  intros He Hm Hn. unfold fltb. cbn [man exp]. rewrite Hm, Hn.
  apply eq_iff_eq_true. rewrite !Z.ltb_lt.
  set (e1 := Z.min (exp b) n). set (e2 := Z.min (exp b) (n - e)).
  assert (e2 <= e1) by lia.
  replace (exp b - e2) with ((exp b - e1) + (e1 - e2)) by lia.
  replace (m * 2 ^ e * 2 ^ (n - e - e2)) with (m * 2 ^ (n - e1) * 2 ^ (e1 - e2)).
  2: { rewrite <-!Z.mul_assoc, <-!Z.pow_add_r by lia. do 2 f_equal. lia. }
  rewrite Z.pow_add_r by lia. rewrite Z.mul_assoc.
  assert (0 < 2 ^ (e1 - e2)) by (apply Z.pow_pos_nonneg; lia). nia.
Qed.
