(* ===== verification/Sha256.v ===== *)
(** * SHA-256 (crypto/sha256)

    The digest the source takes of a serialised destination, for the replay
    check of SYN packets, the TCB cache keys and the access list.  It is the
    algorithm of FIPS 180-4 on 32-bit words, checked on the standard's test
    vectors. *)

From S2P Require Import Prelude GoInt.
From Stdlib Require Import Strings.Byte.

Definition rotr (x n : Z) : Z := Z.lor (Z.shiftr x n) (u32 (Z.shiftl x (32 - n))).
Definition Ch (x y z : Z) : Z := Z.lxor (Z.land x y) (Z.land (4294967295 - x) z).
Definition Maj (x y z : Z) : Z := Z.lxor (Z.lxor (Z.land x y) (Z.land x z)) (Z.land y z).
Definition Sigma0 (x : Z) : Z := Z.lxor (Z.lxor (rotr x 2) (rotr x 13)) (rotr x 22).
Definition Sigma1 (x : Z) : Z := Z.lxor (Z.lxor (rotr x 6) (rotr x 11)) (rotr x 25).
Definition sigma0 (x : Z) : Z := Z.lxor (Z.lxor (rotr x 7) (rotr x 18)) (Z.shiftr x 3).
Definition sigma1 (x : Z) : Z := Z.lxor (Z.lxor (rotr x 17) (rotr x 19)) (Z.shiftr x 10).

Definition sha_K : list Z :=
  [1116352408; 1899447441; 3049323471; 3921009573; 961987163; 1508970993; 2453635748; 2870763221;
   3624381080; 310598401; 607225278; 1426881987; 1925078388; 2162078206; 2614888103; 3248222580;
   3835390401; 4022224774; 264347078; 604807628; 770255983; 1249150122; 1555081692; 1996064986;
   2554220882; 2821834349; 2952996808; 3210313671; 3336571891; 3584528711; 113926993; 338241895;
   666307205; 773529912; 1294757372; 1396182291; 1695183700; 1986661051; 2177026350; 2456956037;
   2730485921; 2820302411; 3259730800; 3345764771; 3516065817; 3600352804; 4094571909; 275423344;
   430227734; 506948616; 659060556; 883997877; 958139571; 1322822218; 1537002063; 1747873779;
   1955562222; 2024104815; 2227730452; 2361852424; 2428436474; 2756734187; 3204031479; 3329325298].

Definition sha_H0 : list Z :=
  [1779033703; 3144134277; 1013904242; 2773480762; 1359893119; 2600822924; 528734635; 1541459225].

(** The message, a one bit, zeros, and the length in bits as 64-bit word. *)
Definition sha_pad (m : list byte) : list byte :=
  let l := Z.of_nat (length m) in
  m ++ [x80] ++ replicate (Z.to_nat ((55 - l) mod 64)) x00 ++ be_put 8 (8 * l).

Fixpoint chunks (n fuel : nat) (l : list byte) : list (list byte) :=
  match fuel with
  | O => []
  | S fuel => match l with [] => [] | _ => take n l :: chunks n fuel (drop n l) end
  end.

Definition words (b : list byte) : list Z := be_get <$> chunks 4 16 b.

(** The message schedule, newest word first. *)
Fixpoint schedule (n : nat) (w : list Z) : list Z :=
  match n with
  | O => w
  | S n =>
      let nth i := default 0 (w !! i) in
      schedule n (u32 (sigma1 (nth 1%nat) + nth 6%nat + sigma0 (nth 14%nat) + nth 15%nat) :: w)
  end.

Definition round (s : list Z) (kw : Z * Z) : list Z :=
  match s with
  | [a; b; c; d; e; f; g; h] =>
      let t1 := h + Sigma1 e + Ch e f g + fst kw + snd kw in
      let t2 := Sigma0 a + Maj a b c in
      [u32 (t1 + t2); a; b; c; u32 (d + t1); e; f; g]
  | _ => s
  end.

Definition compress (h : list Z) (block : list byte) : list Z :=
  let w := rev (schedule 48 (rev (words block))) in
  zip_with (λ a b, a +% b) h (foldl round h (zip sha_K w)).

Definition Sum256 (m : list byte) : list byte :=
  let p := sha_pad m in
  concat (PutUint32 <$> foldl compress sha_H0 (chunks 64 (length p) p)).

(** ** Test vectors, and the length of the digest *)

Definition hex_value (l : list byte) : Z := be_get l.

Example sha_abc :
  hex_value (Sum256 [x61; x62; x63])
  = 0xba7816bf8f01cfea414140de5dae2223b00361a396177a9cb410ff61f20015ad.
Proof. vmeq. Qed.

Example sha_empty :
  hex_value (Sum256 []) = 0xe3b0c44298fc1c149afbf4c8996fb92427ae41e4649b934ca495991b7852b855.
Proof. vmeq. Qed.

Lemma length_round s kw : length s = 8%nat → length (round s kw) = 8%nat.
Proof. intros H. by do 9 (destruct s as [|? s]; try done). Qed.

Lemma length_rounds s kws : length s = 8%nat → length (foldl round s kws) = 8%nat.
Proof. revert s. induction kws as [|kw kws IH]; intros s H; [done|]. cbn. apply IH. by apply length_round. Qed.

Lemma length_compress h b : length h = 8%nat → length (compress h b) = 8%nat.
Proof. intros H. unfold compress. rewrite length_zip_with, length_rounds by done. lia. Qed.

Lemma length_Sum256 m : length (Sum256 m) = 32%nat.
Proof.
  unfold Sum256. cbv zeta. set (bs := chunks _ _ _).
  assert (Hl : ∀ h, length h = 8%nat → length (foldl compress h bs) = 8%nat).
  { induction bs as [|b bs IH]; intros h H; [done|]. cbn. apply IH. by apply length_compress. }
  specialize (Hl sha_H0 eq_refl). destruct (foldl compress sha_H0 bs) as [|h1 hs]; [done|].
  do 8 (destruct hs as [|? hs]; try done).
Qed.
