(* ===== verification/Base64.v ===== *)
(** * Base64 (encoding/base64)

    [StdEncoding] and [RawStdEncoding], which the access list uses for
    destination hashes: the standard alphabet, with and without padding.  The
    decoder is Go's non-strict one: it skips carriage returns and newlines and
    ignores the unused bits of the last digit. *)

From S2P Require Import Prelude GoInt I2CP.
From Stdlib Require Import Strings.Byte.

Definition enc_char (d : Z) : byte :=
  byte_of_Z (if d <? 26 then 65 + d else if d <? 52 then 71 + d else if d <? 62 then d - 4
             else if d =? 62 then 43 else 47).

Definition dec_char (c : byte) : option Z :=
  let z := Z_of_byte c in
  if (65 <=? z) && (z <=? 90) then Some (z - 65)
  else if (97 <=? z) && (z <=? 122) then Some (z - 71)
  else if (48 <=? z) && (z <=? 57) then Some (z + 4)
  else if z =? 43 then Some 62
  else if z =? 47 then Some 63
  else None.

Definition padChar : byte := x3d.
Definition newline (c : byte) : bool := bool_decide (c = x0a) || bool_decide (c = x0d).

(** The four digits of a 24-bit word, and the bytes of one. *)
Definition digits (v : Z) : list Z := [v / 262144; v / 4096 mod 64; v / 64 mod 64; v mod 64].
Definition word (ds : list Z) : Z := foldl (λ acc d, acc * 64 + d) 0 ds.

Fixpoint encode (bs : bytes) : bytes :=
  match bs with
  | a :: b :: c :: rest => (enc_char <$> digits (be_get [a; b; c])) ++ encode rest
  | [a; b] => (enc_char <$> take 3 (digits (be_get [a; b; x00]))) ++ [padChar]
  | [a] => (enc_char <$> take 2 (digits (be_get [a; x00; x00]))) ++ [padChar; padChar]
  | [] => []
  end.

(** Decoding, four digits at a time; [pad] is whether the encoding pads. *)
Fixpoint decode_quanta (pad : bool) (cs : bytes) : option bytes :=
  match cs with
  | [] => Some []
  | [_] => None
  | c1 :: c2 :: rest =>
      d1 ← dec_char c1;
      d2 ← dec_char c2;
      let out n d3 d4 := take n (be_put 3 (word [d1; d2; d3; d4])) in
      match rest with
      | [] => if pad then None else Some (out 1%nat 0 0)
      | [c3] => if pad then None else d3 ← dec_char c3; Some (out 2%nat d3 0)
      | c3 :: c4 :: rest =>
          match dec_char c3 with
          | None =>
              if pad && bool_decide (c3 = padChar) && bool_decide (c4 = padChar)
                   && bool_decide (rest = [])
              then Some (out 1%nat 0 0) else None
          | Some d3 =>
              match dec_char c4 with
              | None => if pad && bool_decide (c4 = padChar) && bool_decide (rest = [])
                        then Some (out 2%nat d3 0) else None
              | Some d4 => app (out 3%nat d3 d4) <$> decode_quanta pad rest
              end
          end
      end
  end.

Definition decode (pad : bool) (s : bytes) : option bytes :=
  decode_quanta pad (filter (λ c, newline c = false) s).

Definition StdEncoding_EncodeToString : bytes → bytes := encode.
Definition StdEncoding_DecodeString : bytes → option bytes := decode true.
Definition RawStdEncoding_DecodeString : bytes → option bytes := decode false.

(** ** Decoding an encoding *)

Lemma dec_enc d : 0 <= d < 64 → dec_char (enc_char d) = Some d.
Proof.
  intros H. assert (Forall (λ d, dec_char (enc_char d) = Some d) (Z.of_nat <$> seq 0 64)) as Hall
    by (apply (bool_decide_unpack _); vm_compute; exact I).
  rewrite Forall_forall in Hall. apply Hall. apply list_elem_of_fmap.
  exists (Z.to_nat d). rewrite elem_of_seq. lia.
Qed.

Lemma newline_enc d : 0 <= d < 64 → newline (enc_char d) = false.
Proof.
  intros H. assert (Forall (λ d, newline (enc_char d) = false) (Z.of_nat <$> seq 0 64)) as Hall
    by (apply (bool_decide_unpack _); vm_compute; exact I).
  rewrite Forall_forall in Hall. apply Hall. apply list_elem_of_fmap.
  exists (Z.to_nat d). rewrite elem_of_seq. lia.
Qed.

(** Induction three elements at a time. *)
Lemma list_ind3 {A} (P : list A → Prop) :
  P [] → (∀ a, P [a]) → (∀ a b, P [a; b]) → (∀ a b c l, P l → P (a :: b :: c :: l)) → ∀ l, P l.
Proof.
  intros H0 H1 H2 H3 l. induction l as [l IH] using (induction_ltof1 _ length).
  destruct l as [|a [|b [|c l]]]; [done..|]. apply H3, IH. unfold ltof. cbn. lia.
Qed.

Lemma be_get3 a b c : 0 <= be_get [a; b; c] < 16777216.
Proof. apply (be_get_range [a; b; c]). Qed.

Lemma digits_range v d : 0 <= v < 16777216 → d ∈ digits v → 0 <= d < 64.
Proof.
  intros H Hd. unfold digits in Hd. rewrite !elem_of_cons, elem_of_nil in Hd.
  destruct Hd as [->|[->|[->|[->|[]]]]]; zlia.
Qed.

Lemma word_digits v : word (digits v) = v.
Proof. unfold word, digits. cbn [foldl]. zlia. Qed.

Lemma encode_no_newline bs : Forall (λ c, newline c = false) (encode bs).
Proof.
  assert (∀ v n, 0 <= v < 16777216 → Forall (λ c, newline c = false) (enc_char <$> take n (digits v)))
    as Hd.
  { intros v n H. apply Forall_fmap, Forall_take, Forall_forall. intros d Hd.
    by eapply newline_enc, digits_range. }
  induction bs as [|a|a b|a b c bs IH] using list_ind3; [done|..]; cbn [encode].
  - apply Forall_app. split; [apply Hd, be_get3|]. by repeat constructor.
  - apply Forall_app. split; [apply Hd, be_get3|]. by repeat constructor.
  - apply Forall_app. split; [apply (Hd _ 4%nat), be_get3|done].
Qed.

Lemma decode_std_nl cs : Forall (λ c, newline c = false) cs → ∀ pad, decode pad cs = decode_quanta pad cs.
Proof.
  intros H pad. unfold decode. f_equal. apply filter_all. by apply Forall_forall.
Qed.

(** One full quantum of valid digits. *)
Lemma decode_quantum pad v rest : 0 <= v < 16777216 →
  decode_quanta pad ((enc_char <$> digits v) ++ rest) = app (be_put 3 v) <$> decode_quanta pad rest.
Proof.
  intros Hv. unfold digits. cbn [fmap list_fmap app decode_quanta].
  rewrite !dec_enc by zlia. cbn [mbind option_bind].
  pose proof (word_digits v) as Hw. unfold digits in Hw. by rewrite Hw.
Qed.

Lemma be_put_get3 a b c : be_put 3 (be_get [a; b; c]) = [a; b; c].
Proof. apply (be_put_get [a; b; c]). Qed.

(** The last, partial quantum: the digits left out are zero, so the word is
    the same. *)
Lemma word_digits2 v : v mod 4096 = 0 → word [v / 262144; v / 4096 mod 64; 0; 0] = v.
Proof. intros H. unfold word. cbn [foldl]. zlia. Qed.
Lemma word_digits3 v : v mod 64 = 0 → word [v / 262144; v / 4096 mod 64; v / 64 mod 64; 0] = v.
Proof. intros H. unfold word. cbn [foldl]. zlia. Qed.

Lemma be_get_tail1 a : be_get [a; x00; x00] mod 4096 = 0.
Proof. destruct a; reflexivity. Qed.
Lemma be_get_tail2 a b : be_get [a; b; x00] mod 64 = 0.
Proof.
  rewrite !be_get_cons. cbn [length]. change (be_get []) with 0. change (Z_of_byte x00) with 0.
  change (256 ^ Z.of_nat 2) with 65536. change (256 ^ Z.of_nat 1) with 256. zlia.
Qed.

Lemma dec_pad : dec_char padChar = None.
Proof. reflexivity. Qed.

Lemma decode_encode bs : StdEncoding_DecodeString (encode bs) = Some bs.
Proof.
  unfold StdEncoding_DecodeString. rewrite decode_std_nl by apply encode_no_newline.
  induction bs as [|a|a b|a b c bs IH] using list_ind3; [done|..].
  - pose proof (be_get3 a x00 x00). cbn [encode]. unfold digits.
    cbn [take fmap list_fmap app decode_quanta].
    rewrite !dec_enc, dec_pad by zlia. cbn [mbind option_bind].
    rewrite !bool_decide_true by done. cbn [andb].
    rewrite word_digits2 by apply be_get_tail1. by rewrite be_put_get3.
  - pose proof (be_get3 a b x00). cbn [encode]. unfold digits.
    cbn [take fmap list_fmap app decode_quanta].
    rewrite !dec_enc, dec_pad by zlia. cbn [mbind option_bind].
    rewrite !bool_decide_true by done. cbn [andb].
    rewrite word_digits3 by apply be_get_tail2. by rewrite be_put_get3.
  - cbn [encode]. rewrite decode_quantum by apply be_get3. rewrite IH.
    by rewrite be_put_get3.
Qed.

Lemma encode_inj bs bs' : encode bs = encode bs' → bs = bs'.
Proof.
  intros H. pose proof (decode_encode bs) as H1. rewrite H, decode_encode in H1. congruence.
Qed.

Lemma length_encode bs : length (encode bs) = (4 * ((length bs + 2) / 3))%nat.
Proof.
  induction bs as [|a|a b|a b c bs IH] using list_ind3; [done..|].
  cbn [encode]. rewrite length_app, IH. cbn [length].
  replace (S (S (S (length bs))) + 2)%nat with (1 * 3 + (length bs + 2))%nat by lia.
  rewrite Nat.div_add_l by lia. unfold digits. cbn [length fmap list_fmap]. lia.
Qed.

(** Induction four elements at a time, by quanta. *)
Lemma list_ind4 {A} (P : list A → Prop) :
  (∀ l, (length l < 4)%nat → P l) → (∀ a b c d l, P l → P (a :: b :: c :: d :: l)) → ∀ l, P l.
Proof.
  intros H0 H4 l. induction l as [l IH] using (induction_ltof1 _ length).
  destruct l as [|a [|b [|c [|d l]]]]; try (apply H0; cbn; lia). apply H4, IH. unfold ltof. cbn. lia.
Qed.

(** A character outside the alphabet, such as those of the URL-safe and of the
    I2P alphabet, is an error wherever it stands, unless it is the padding. *)
Definition foreign (x : byte) : Prop := dec_char x = None ∧ x ≠ padChar ∧ newline x = false.

Lemma decode_quanta_foreign pad x cs : foreign x → x ∈ cs → decode_quanta pad cs = None.
Proof.
  intros (Hx & Hp & _). induction cs as [cs Hl|a b c d cs IH] using list_ind4; intros Hin.
  - destruct cs as [|a [|b [|c [|d cs]]]]; cbn in Hl; try lia; [by apply elem_of_nil in Hin|done|..];
      rewrite !elem_of_cons, elem_of_nil in Hin; cbn [decode_quanta];
      destruct (dec_char a) eqn:Ha, (dec_char b) eqn:Hb; cbn; try done; destruct pad; try done;
      try (destruct (dec_char c) eqn:Hc; cbn; [|done]); naive_solver congruence.
  - rewrite !elem_of_cons in Hin. cbn [decode_quanta].
    destruct (dec_char a) eqn:Ha; [|done]. destruct (dec_char b) eqn:Hb; [|done]. cbn [mbind option_bind].
    assert (∀ y, x = y → y ≠ padChar) as Hne by (intros y <-; done).
    destruct (dec_char c) eqn:Hc, (dec_char d) eqn:Hd;
      repeat (case_bool_decide; subst; rewrite ?andb_false_r, ?andb_true_r; cbn [andb]); try done;
      destruct pad; try done;
      try (destruct Hin as [->|[->|[->|[->|Hin]]]]; try congruence; rewrite ?IH by done; done).
    all: destruct Hin as [->|[->|[->|[->|Hin]]]]; try congruence; set_solver.
Qed.

Lemma decode_foreign pad x cs : foreign x → x ∈ cs → decode pad cs = None.
Proof.
  intros Hx Hin. apply (decode_quanta_foreign pad x _ Hx). apply list_elem_of_filter. split; [apply Hx|done].
Qed.

(** An encoding whose padding is one character decodes without it, unpadded. *)
Lemma decode_raw bs cs : (length bs mod 3 = 2)%nat → encode bs = cs ++ [padChar] →
  RawStdEncoding_DecodeString cs = Some bs ∧ StdEncoding_DecodeString cs = None.
Proof.
  intros Hm He. assert (Forall (λ c, newline c = false) cs) as Hnl.
  { pose proof (encode_no_newline bs) as H. rewrite He, Forall_app in H. apply H. }
  unfold RawStdEncoding_DecodeString, StdEncoding_DecodeString. rewrite !decode_std_nl by done.
  clear Hnl. revert cs He Hm. induction bs as [|a|a b|a b c bs IH] using list_ind3; [done..| |].
  - intros cs He _. pose proof (be_get3 a b x00). cbn [encode] in He. apply app_inj_2 in He as [<- _]; [|done].
    unfold digits. cbn [take fmap list_fmap app decode_quanta].
    rewrite !dec_enc by zlia. cbn [mbind option_bind]. split; [|done].
    rewrite word_digits3 by apply be_get_tail2. by rewrite be_put_get3.
  - intros cs He Hm. cbn [encode] in He.
    assert (length bs mod 3 = 2)%nat as Hm'.
    { cbn [length] in Hm. replace (S (S (S (length bs)))) with (length bs + 1 * 3)%nat in Hm by lia.
      by rewrite Nat.Div0.mod_add in Hm. }
    assert (∃ cs', cs = (enc_char <$> digits (be_get [a; b; c])) ++ cs' ∧ encode bs = cs' ++ [padChar])
      as (cs' & -> & He').
    { assert (length bs ≠ 0)%nat by (intros E0; by rewrite E0 in Hm').
      assert (1 ≤ (length bs + 2) / 3)%nat by (apply Nat.div_le_lower_bound; lia).
      assert (4 ≤ length cs)%nat.
      { pose proof (f_equal length He) as Hl. rewrite !length_app, length_encode, length_fmap in Hl.
        change (length (digits _)) with 4%nat in Hl. change (length [padChar]) with 1%nat in Hl. lia. }
      exists (drop 4 cs). rewrite <- (take_drop 4 cs), <- app_assoc in He.
      apply app_inj_1 in He as [He1 He2]; [by rewrite He1, take_drop|].
      rewrite length_take, length_fmap. change (length (digits _)) with 4%nat. lia. }
    rewrite !decode_quantum by apply be_get3. destruct (IH cs' He' Hm') as [-> ->].
    rewrite be_put_get3. done.
Qed.

(** ** Test vectors (RFC 4648, section 10) *)

Example base64_foobar : encode [x66; x6f; x6f; x62; x61; x72] = [x5a; x6d; x39; x76; x59; x6d; x46; x79].
Proof. reflexivity. Qed.
Example base64_fooba : encode [x66; x6f; x6f; x62; x61] = [x5a; x6d; x39; x76; x59; x6d; x45; x3d].
Proof. reflexivity. Qed.
Example base64_garbage : StdEncoding_DecodeString [x5a; x6d; x39; x76; x3d] = None.
Proof. reflexivity. Qed.
Example base64_newline : StdEncoding_DecodeString [x5a; x6d; x0a; x39; x76; x0d] = Some [x66; x6f; x6f].
Proof. reflexivity. Qed.
