(* ===== verification/GoStrings.v ===== *)
(** * Splitting and trimming strings (package strings)

    Go strings are byte strings, here lists of bytes.  [TrimSpace] and
    [Fields] cut at Unicode white space, that is at the UTF-8 encodings of the
    code points [unicode.IsSpace] accepts: since no encoding of a code point
    occurs inside another, a byte position starts a space exactly when one of
    these encodings is a prefix of the rest. *)

From S2P Require Import Prelude GoInt I2CP.
From Stdlib Require Import Strings.Byte.

(** U+0009 to U+000D, U+0020, U+0085, U+00A0, U+1680, U+2000 to U+200A,
    U+2028, U+2029, U+202F, U+205F, U+3000. *)
Definition space_runes : list bytes :=
  [[x09]; [x0a]; [x0b]; [x0c]; [x0d]; [x20]; [xc2; x85]; [xc2; xa0]; [xe1; x9a; x80]] ++
  ((λ b, [xe2; x80; b]) <$> [x80; x81; x82; x83; x84; x85; x86; x87; x88; x89; x8a; xa8; xa9; xaf]) ++
  [[xe2; x81; x9f]; [xe3; x80; x80]].

Definition strip_prefix (p s : bytes) : option bytes :=
  if bool_decide (take (length p) s = p) then Some (drop (length p) s) else None.

(** What follows a space at the start of [s]. *)
Definition leading (ps : list bytes) (s : bytes) : option bytes :=
  head (omap (λ p, strip_prefix p s) ps).

(** Every step drops at least a byte: the length of [s] is fuel enough. *)
Fixpoint trim (ps : list bytes) (fuel : nat) (s : bytes) : bytes :=
  match fuel with
  | O => s
  | S fuel => match leading ps s with Some s' => trim ps fuel s' | None => s end
  end.

Definition TrimSpace (s : bytes) : bytes :=
  let s := trim space_runes (length s) s in
  reverse (trim (reverse <$> space_runes) (length s) (reverse s)).

(** [word] holds, in reverse, the field being read. *)
Definition flush (word : bytes) : list bytes := match word with [] => [] | _ => [reverse word] end.

Fixpoint fields (fuel : nat) (word s : bytes) : list bytes :=
  match fuel, s with
  | S fuel, c :: s' =>
      match leading space_runes s with
      | Some s' => flush word ++ fields fuel [] s'
      | None => fields fuel (c :: word) s'
      end
  | _, _ => flush word
  end.
Definition Fields (s : bytes) : list bytes := fields (length s) [] s.

(** [strings.ReplaceAll] of one byte by another. *)
Definition ReplaceAll (s : bytes) (old new : byte) : bytes :=
  (λ c, if bool_decide (c = old) then new else c) <$> s.

(** ** Printable text is left alone *)

Definition printable (c : byte) : bool := (33 <=? Z_of_byte c) && (Z_of_byte c <=? 126).
(** The ASCII white space. *)
Definition blank (c : byte) : bool :=
  ((9 <=? Z_of_byte c) && (Z_of_byte c <=? 13)) || (Z_of_byte c =? 32).

Lemma leading_printable c s : printable c = true → leading space_runes (c :: s) = None.
Proof. intros H. destruct c; try discriminate H; reflexivity. Qed.
Lemma leading_blank c s : blank c = true → leading space_runes (c :: s) = Some s.
Proof. intros H. destruct c; try discriminate H; reflexivity. Qed.
Lemma leading_rev_printable c s : printable c = true → leading (reverse <$> space_runes) (c :: s) = None.
Proof. intros H. destruct c; try discriminate H; reflexivity. Qed.
Lemma leading_rev_blank c s : blank c = true → leading (reverse <$> space_runes) (c :: s) = Some s.
Proof. intros H. destruct c; try discriminate H; reflexivity. Qed.

Section Trim.
Context (ps : list bytes).
Context (Hblank : ∀ c s, blank c = true → leading ps (c :: s) = Some s).
Context (Hnil : leading ps [] = None).
Context (Hprint : ∀ c s, printable c = true → leading ps (c :: s) = None).

Lemma trim_blanks u s fuel : Forall (λ c, blank c = true) u → (length u ≤ fuel)%nat →
  trim ps fuel (u ++ s) = trim ps (fuel - length u) s.
Proof.
  intros Hu. revert fuel. induction Hu as [|c u Hc Hu IH]; intros fuel Hf; cbn in *; [by rewrite Nat.sub_0_r|].
  destruct fuel as [|fuel]; [lia|]. cbn. rewrite Hblank by done. apply IH. lia.
Qed.

Lemma trim_blanks_all u fuel : Forall (λ c, blank c = true) u → (length u ≤ fuel)%nat →
  trim ps fuel u = [].
Proof.
  intros Hu Hf. pose proof (trim_blanks u [] fuel Hu Hf) as H. rewrite app_nil_r in H. rewrite H.
  by destruct (fuel - length u)%nat; cbn; rewrite ?Hnil.
Qed.

Lemma trim_printable c s fuel : printable c = true → trim ps fuel (c :: s) = c :: s.
Proof. intros Hc. destruct fuel; cbn; [done|]. by rewrite Hprint. Qed.
End Trim.

(** Blanks around a printable text are trimmed, and nothing else. *)
Lemma TrimSpace_around u h v : Forall (λ c, blank c = true) u → Forall (λ c, blank c = true) v →
  Forall (λ c, printable c = true) h → TrimSpace (u ++ h ++ v) = h.
Proof.
  intros Hu Hv Hh. unfold TrimSpace.
  rewrite (trim_blanks _ leading_blank) by (done || rewrite length_app; lia).
  destruct h as [|c h].
  - cbn [app]. by rewrite (trim_blanks_all _ leading_blank eq_refl) by (done || rewrite length_app; lia).
  - assert (printable c = true) as Hc by (by apply Forall_cons in Hh as [? _]).
    cbn [app]. rewrite (trim_printable _ leading_printable) by done.
    change (c :: h ++ v) with ((c :: h) ++ v). rewrite reverse_app.
    rewrite (trim_blanks _ leading_rev_blank) by
      (rewrite ?length_app, ?length_reverse; first [lia|by apply Forall_reverse]).
    assert (Forall (λ c, printable c = true) (reverse (c :: h))) as Hr by (by apply Forall_reverse).
    destruct (reverse (c :: h)) as [|d r] eqn:Er.
    { apply (f_equal length) in Er. rewrite length_reverse in Er. done. }
    apply Forall_cons in Hr as [Hd _].
    rewrite (trim_printable _ leading_rev_printable) by done. rewrite <- Er. apply reverse_involutive.
Qed.

Lemma length_trim ps fuel s : (length (trim ps fuel s) ≤ length s)%nat.
Proof.
  revert s. induction fuel as [|fuel IH]; intros s; cbn [trim]; [done|].
  destruct (leading ps s) as [s'|] eqn:E; [|done]. etrans; [apply IH|]. unfold leading in E.
  apply head_Some_elem_of, list_elem_of_omap in E as (p & _ & E). unfold strip_prefix in E.
  case_bool_decide; [|done]. injection E as <-. rewrite length_drop. lia.
Qed.

Lemma length_TrimSpace s : (length (TrimSpace s) ≤ length s)%nat.
Proof.
  unfold TrimSpace. rewrite length_reverse. etrans; [apply length_trim|]. rewrite length_reverse.
  apply length_trim.
Qed.

(** ** Fields of a text cut by separators *)

Lemma fields_word fuel word h s : Forall (λ c, printable c = true) h →
  fields (length h + fuel) word (h ++ s) = fields fuel (reverse h ++ word) s.
Proof.
  intros Hh. revert word. induction Hh as [|c h Hc Hh IH]; intros word; [done|].
  cbn [length plus app fields]. rewrite leading_printable by done. rewrite IH. rewrite reverse_cons.
  by rewrite <- app_assoc.
Qed.

Lemma fields_blank fuel word c s : blank c = true →
  fields (S fuel) word (c :: s) = flush word ++ fields fuel [] s.
Proof. intros Hc. cbn [fields]. by rewrite leading_blank. Qed.

Lemma fields_end word : fields 0 word [] = flush word.
Proof. done. Qed.

Lemma flush_rev h : h ≠ [] → flush (reverse h) = [h].
Proof.
  intros H. unfold flush. destruct (reverse h) eqn:E.
  - apply (f_equal (@reverse byte)) in E. by rewrite reverse_involutive in E.
  - by rewrite <- E, reverse_involutive.
Qed.

(** [separated sep s hs]: [s] is the texts [hs] with separators between them,
    before them and after them. *)
Inductive separated (sep : byte → Prop) : bytes → list bytes → Prop :=
| separated_nil : separated sep [] []
| separated_lead c s hs : sep c → separated sep s hs → separated sep (c :: s) hs
| separated_last h : h ≠ [] → Forall (λ c, printable c = true ∧ ¬ sep c) h → separated sep h [h]
| separated_cons h c s hs : h ≠ [] → Forall (λ c, printable c = true ∧ ¬ sep c) h → sep c →
    separated sep s hs → separated sep (h ++ c :: s) (h :: hs).

Lemma Fields_separated s hs : separated (λ c, blank c = true) s hs → Fields s = hs.
Proof.
  unfold Fields. induction 1 as [|c s hs Hc Hs IH|h Hne Hh|h c s hs Hne Hh Hc Hs IH].
  - done.
  - cbn [length]. by rewrite fields_blank.
  - rewrite <- (app_nil_r h) at 2. rewrite <- (Nat.add_0_r (length h)), fields_word.
    + rewrite app_nil_r. cbn. by apply flush_rev.
    + eapply Forall_impl; [exact Hh|]. by intros ? [].
  - rewrite length_app, fields_word.
    + rewrite app_nil_r. cbn [length]. rewrite fields_blank by done. rewrite IH. by rewrite flush_rev.
    + eapply Forall_impl; [exact Hh|]. by intros ? [].
Qed.
