(* ===== verification/AccessList.v ===== *)
(** * The access list (accesslist.go)

    Filtering of incoming connections by the SHA-256 hash of the peer's
    destination.  The filter keeps the list of hashes as configured and, for
    lookup, the set of their normal forms; the theorems say that the two always
    agree, that a decision depends only on the digests the list denotes, which
    are those it has in standard Base64, padded or not, and that a list as
    written in an option is read back exactly. *)

From stdpp Require Import gmap.
From S2P Require Import Prelude GoInt I2CP Sha256 Base64 GoStrings.
From Stdlib Require Import Strings.Byte.

(** ** Configuration *)

Definition AccessListModeDisabled : Z := 0.
Definition AccessListModeWhitelist : Z := 1.
Definition AccessListModeBlacklist : Z := 2.

Record AccessListConfig := MkAccessConfig {
  Mode : Z;
  Hashes : list bytes;
  DisableRejectLogging : bool;
}.
#[export] Instance eta_AccessListConfig : Eta AccessListConfig := λ r,
  MkAccessConfig (Mode r) (Hashes r) (DisableRejectLogging r).
#[export] Instance set_Mode : Setter Mode := ltac:(derive_setter).
#[export] Instance set_Hashes : Setter Hashes := ltac:(derive_setter).

Definition DefaultAccessListConfig : AccessListConfig :=
  MkAccessConfig AccessListModeDisabled [] false.

Inductive AccessError := EBlacklisted | ENotWhitelisted.

(** ** State

    A filter holds a pointer to the configuration object its user passed, and
    adds to and removes from that object: the objects are kept apart. *)

Record accessFilter := MkFilter {
  config : positive;
  hashSet : gset bytes;
}.
#[export] Instance eta_accessFilter : Eta accessFilter := λ r, MkFilter (config r) (hashSet r).
#[export] Instance set_config : Setter config := ltac:(derive_setter).
#[export] Instance set_hashSet : Setter hashSet := ltac:(derive_setter).

Record FilterWorld := MkFilterWorld {
  configs : gmap positive AccessListConfig;
  filter_ : accessFilter;
}.
#[export] Instance eta_FilterWorld : Eta FilterWorld := λ r, MkFilterWorld (configs r) (filter_ r).
#[export] Instance set_configs : Setter configs := ltac:(derive_setter).
#[export] Instance set_filter_ : Setter filter_ := ltac:(derive_setter).

Abbreviation F := (ST FilterWorld).

(** [*af.config]: a pointer the program holds is never dangling. *)
Definition cfg (w : FilterWorld) : AccessListConfig :=
  default DefaultAccessListConfig (configs w !! config (filter_ w)).

Definition write_cfg (f : AccessListConfig → AccessListConfig) (w : FilterWorld) : FilterWorld :=
  w <| configs ::= <[config (filter_ w) := f (cfg w)]> |>.

(** [&AccessListConfig{...}] *)
Definition alloc (c : AccessListConfig) (cs : gmap positive AccessListConfig) :
    positive * gmap positive AccessListConfig :=
  let p := fresh (dom cs) in (p, <[p := c]> cs).

(** ** Normal forms *)

Definition normalizeHash (hash : bytes) : bytes :=
  let hash := TrimSpace hash in
  if bool_decide (hash = []) then []
  else if (43 <=? length hash)%nat && (length hash <=? 44)%nat then
    match StdEncoding_DecodeString hash with
    | Some decoded => StdEncoding_EncodeToString decoded
    | None =>
        match RawStdEncoding_DecodeString hash with
        | Some decoded => StdEncoding_EncodeToString decoded
        | None => []
        end
    end
  else hash.

(** ** Operations *)

Definition rebuildHashSet : F unit :=
  modify (λ w, w <| filter_ ::= λ f, f <| hashSet :=
    foldl (λ set hash, let normalized := normalizeHash hash in
             if bool_decide (normalized = []) then set else {[normalized]} ∪ set)
      ∅ (Hashes (cfg w)) |> |>).

(** A pointer is [None] when nil; then a default configuration is allocated. *)
Definition install (c : option positive) : F unit :=
  modify (λ w,
    match c with
    | Some p => w <| filter_ ::= λ f, f <| config := p |> |>
    | None =>
        let '(p, cs) := alloc DefaultAccessListConfig (configs w) in
        w <| configs := cs |> <| filter_ ::= λ f, f <| config := p |> |>
    end).

Definition SetConfig (c : option positive) : F unit :=
  _ ← install c;
  rebuildHashSet.

(** The new filter, in a world that has the configuration objects [cs]. *)
Definition newAccessFilter (c : option positive) (cs : gmap positive AccessListConfig) : FilterWorld :=
  snd ((_ ← install c; rebuildHashSet) (MkFilterWorld cs (MkFilter 1 ∅))).

(** A fresh copy. *)
Definition GetConfig : F AccessListConfig := gets cfg.

Section Filter.
Context {I : I2CP}.

Definition hashDestinationForAccessList (dest : option Destination) : bytes :=
  match dest with
  | None => []
  | Some dest =>
      match WriteToStream dest with
      | None => []
      | Some bs => StdEncoding_EncodeToString (Sum256 bs)
      end
  end.

Definition IsAllowed (dest : option Destination) : F bool :=
  c ← gets cfg;
  set ← gets (λ w, hashSet (filter_ w));
  mret
    (if Mode c =? AccessListModeDisabled then true
     else match dest with
          | None => true
          | Some _ =>
              let destHash := hashDestinationForAccessList dest in
              if bool_decide (destHash = []) then true
              else
                let inList := bool_decide (destHash ∈ set) in
                if Mode c =? AccessListModeWhitelist then inList
                else if Mode c =? AccessListModeBlacklist then negb inList
                else true
          end).

(** Rejections are also logged unless [DisableRejectLogging]. *)
Definition CheckAndLog (dest : option Destination) : F (option AccessError) :=
  allowed ← IsAllowed dest;
  if allowed : bool then mret None
  else
    c ← gets cfg;
    mret (Some (if Mode c =? AccessListModeWhitelist then ENotWhitelisted else EBlacklisted)).
End Filter.

Definition AddHash (hash : bytes) : F unit :=
  let normalized := normalizeHash hash in
  if bool_decide (normalized = []) then mret tt
  else
    _ ← modify (write_cfg (λ c, c <| Hashes ::= λ l, l ++ [hash] |>));
    modify (λ w, w <| filter_ ::= λ f, f <| hashSet ::= λ s, {[normalized]} ∪ s |> |>).

Definition RemoveHash (hash : bytes) : F unit :=
  let normalized := normalizeHash hash in
  if bool_decide (normalized = []) then mret tt
  else
    _ ← modify (λ w, w <| filter_ ::= λ f, f <| hashSet ::= λ s, s ∖ {[normalized]} |> |>);
    modify (write_cfg (λ c, c <| Hashes ::= filter (λ h, normalizeHash h ≠ normalized) |>)).

Definition Clear : F unit :=
  _ ← modify (write_cfg (λ c, c <| Hashes := [] |>));
  modify (λ w, w <| filter_ ::= λ f, f <| hashSet := ∅ |> |>).

Definition Count : F nat := gets (λ w, size (hashSet (filter_ w))).

Definition ParseHashList (lst : bytes) : list bytes :=
  if bool_decide (lst = []) then []
  else
    let parts := Fields (ReplaceAll lst x2c x20) in
    filter (λ part, part ≠ []) (TrimSpace <$> parts).

(** ** What a list denotes

    A text denotes a digest when, trimmed, it has the length of a Base64
    digest and decodes to it, padded or else unpadded; these are the texts the
    code understands, and not all the ones its comments promise (see
    [short_denotes_nothing] and [url_safe_denotes_nothing]). *)

Definition denotes (h x : bytes) : Prop :=
  let t := TrimSpace h in
  (43 ≤ length t ≤ 44)%nat ∧
  (StdEncoding_DecodeString t = Some x ∨
   StdEncoding_DecodeString t = None ∧ RawStdEncoding_DecodeString t = Some x).

Definition listed (c : AccessListConfig) (x : bytes) : Prop := ∃ h, h ∈ Hashes c ∧ denotes h x.

Lemma length_encode32 x : length x = 32%nat → length (encode x) = 44%nat.
Proof. intros H. by rewrite length_encode, H. Qed.

(** The normal form of a text is a digest's encoding exactly when the text
    denotes the digest. *)
Lemma normalize_denotes h x : length x = 32%nat → normalizeHash h = encode x ↔ denotes h x.
Proof.
  intros Hx. pose proof (length_encode32 x Hx) as Hl. unfold normalizeHash, denotes. cbv zeta.
  set (t := TrimSpace h). case_bool_decide as Ht.
  { rewrite Ht. cbn. split; [|lia]. intros E. by rewrite <- E in Hl. }
  destruct ((43 <=? length t)%nat && (length t <=? 44)%nat) eqn:Hr.
  - zbool. destruct (StdEncoding_DecodeString t) as [d|] eqn:Hd.
    { unfold StdEncoding_EncodeToString. split.
      - intros ->%encode_inj. split; [lia|by left].
      - intros [_ [[= ->]|[? _]]]; done. }
    destruct (RawStdEncoding_DecodeString t) as [d|] eqn:Hd'.
    { unfold StdEncoding_EncodeToString. split.
      - intros ->%encode_inj. split; [lia|by right].
      - intros [_ [?|[_ [= ->]]]]; done. }
    split; [|by intros [_ [?|[_ ?]]]]. intros E. by rewrite <- E in Hl.
  - split; [intros E|intros [? _]; exfalso].
    + rewrite <- E in Hl. apply andb_false_iff in Hr as [Hr|Hr]; zbool; lia.
    + apply andb_false_iff in Hr as [Hr|Hr]; zbool; lia.
Qed.

(** The two texts of a digest: its encoding, and that without the padding. *)
Definition digest_text (h x : bytes) : Prop :=
  length x = 32%nat ∧ (h = encode x ∨ h ++ [padChar] = encode x).

Lemma digest_text_denotes h x y : digest_text h x → Forall (λ c, printable c = true) h →
  denotes h y ↔ y = x.
Proof.
  intros [Hx Hh] Hp. pose proof (length_encode32 x Hx) as Hl.
  pose proof (TrimSpace_around [] h []) as Ht. rewrite app_nil_r in Ht. cbn [app] in Ht.
  unfold denotes. rewrite Ht by done. destruct Hh as [->|Hh].
  - rewrite decode_encode. split; [|intros ->; split; [lia|by left]]. intros [_ [[= ->]|[? _]]]; done.
  - destruct (decode_raw x h) as [Hr Hs]; [by rewrite Hx|done|]. rewrite Hr, Hs.
    rewrite <- Hh, length_app in Hl. cbn in Hl.
    split; [|intros ->; split; [lia|by right]]. intros [_ [?|[_ [= ->]]]]; done.
Qed.

Lemma enc_printable d : 0 <= d < 64 → printable (enc_char d) = true.
Proof.
  intros H. assert (Forall (λ d, printable (enc_char d) = true) (Z.of_nat <$> seq 0 64)) as Hall
    by (apply (bool_decide_unpack _); vm_compute; exact I).
  rewrite Forall_forall in Hall. apply Hall. apply list_elem_of_fmap.
  exists (Z.to_nat d). rewrite elem_of_seq. lia.
Qed.

Lemma encode_printable bs : Forall (λ c, printable c = true) (encode bs).
Proof.
  assert (∀ v n, 0 <= v < 16777216 → Forall (λ c, printable c = true) (enc_char <$> take n (digits v)))
    as Hd.
  { intros v n H. apply Forall_fmap, Forall_take, Forall_forall. intros d Hd.
    by eapply enc_printable, digits_range. }
  induction bs as [|a|a b|a b c bs IH] using list_ind3; [done|..]; cbn [encode].
  - apply Forall_app. split; [apply Hd, be_get3|]. by repeat constructor.
  - apply Forall_app. split; [apply Hd, be_get3|]. by repeat constructor.
  - apply Forall_app. split; [apply (Hd _ 4%nat), be_get3|done].
Qed.

Lemma digest_text_printable h x : digest_text h x → Forall (λ c, printable c = true) h.
Proof.
  intros [_ H]. pose proof (encode_printable x) as Hp. destruct H as [->|H]; [done|].
  rewrite <- H in Hp. by apply Forall_app in Hp as [? _].
Qed.

(** The forms the comments of the code also promise denote no digest: the 32
    raw bytes are too short, and the URL-safe and the I2P alphabet have
    characters the standard one does not. *)
Lemma short_denotes_nothing h x : (length h < 43)%nat → ¬ denotes h x.
Proof. intros Hl [Hr _]. pose proof (length_TrimSpace h). lia. Qed.

Definition url_safe (c : byte) : Prop := c = x2d ∨ c = x5f ∨ c = x7e.

Lemma url_safe_denotes_nothing h c x :
  Forall (λ c, printable c = true) h → c ∈ h → url_safe c → ¬ denotes h x.
Proof.
  intros Hp Hc Hu [_ Hd]. pose proof (TrimSpace_around [] h []) as Ht.
  rewrite app_nil_r in Ht. cbn [app] in Ht. rewrite Ht in Hd by done.
  assert (foreign c) as Hf by (by destruct Hu as [->|[->| ->]]).
  unfold StdEncoding_DecodeString, RawStdEncoding_DecodeString in Hd.
  rewrite !(decode_foreign _ c h Hf Hc) in Hd. by destruct Hd as [|[_ ?]].
Qed.

(** ** The set agrees with the list *)

Definition in_sync (w : FilterWorld) : Prop :=
  is_Some (configs w !! config (filter_ w)) ∧
  ∀ n, n ∈ hashSet (filter_ w) ↔ n ≠ [] ∧ ∃ h, h ∈ Hashes (cfg w) ∧ normalizeHash h = n.

Lemma rebuild_elem (l : list bytes) (n : bytes) (acc : gset bytes) :
  n ∈ foldl (λ set hash, let normalized := normalizeHash hash in
         if bool_decide (normalized = []) then set else {[normalized]} ∪ set) acc l ↔
  n ∈ acc ∨ n ≠ [] ∧ ∃ h, h ∈ l ∧ normalizeHash h = n.
Proof.
  revert acc. induction l as [|h l IH]; intros acc; cbn [foldl].
  - set_solver.
  - rewrite IH. cbv zeta. case_bool_decide as Hn; set_solver.
Qed.

Lemma cfg_write f w : cfg (write_cfg f w) = f (cfg w).
Proof. unfold cfg at 1, write_cfg. cbn. by rewrite lookup_insert_eq. Qed.

Lemma cfg_filter g w : config (g (filter_ w)) = config (filter_ w) → cfg (w <| filter_ ::= g |>) = cfg w.
Proof. intros H. unfold cfg. cbn. by rewrite H. Qed.

Lemma in_sync_rebuild w :
  is_Some (configs w !! config (filter_ w)) → in_sync (snd (rebuildHashSet w)).
Proof.
  intros Hc. unfold rebuildHashSet, modify. cbn [snd]. split; [done|]. intros n.
  rewrite cfg_filter by done. cbn [filter_ hashSet upd set_filter_ set_hashSet].
  rewrite rebuild_elem. set_solver.
Qed.

Lemma in_sync_AddHash h w : in_sync w → in_sync (snd (AddHash h w)).
Proof.
  intros [Hl Hs]. unfold AddHash. cbv zeta. case_bool_decide as Hn; [done|].
  unfold mbind, st_bind, modify. cbn [snd]. split; [cbn; rewrite lookup_insert_eq; by eexists|].
  intros n. rewrite cfg_filter by done. rewrite cfg_write. cbn. rewrite elem_of_union, Hs. set_solver.
Qed.

Lemma in_sync_RemoveHash h w : in_sync w → in_sync (snd (RemoveHash h w)).
Proof.
  intros [Hl Hs]. unfold RemoveHash. cbv zeta. case_bool_decide as Hn; [done|].
  unfold mbind, st_bind, modify. cbn [snd]. split; [cbn; rewrite lookup_insert_eq; by eexists|].
  intros n. rewrite cfg_write, cfg_filter by done. cbn. rewrite elem_of_difference, Hs.
  setoid_rewrite list_elem_of_filter. set_solver.
Qed.

Lemma in_sync_Clear w : in_sync w → in_sync (snd (Clear w)).
Proof.
  intros [Hl Hs]. unfold Clear, mbind, st_bind, modify. cbn [snd].
  split; [cbn; rewrite lookup_insert_eq; by eexists|].
  intros n. rewrite cfg_filter, cfg_write by done. cbn. set_solver.
Qed.

Lemma alloc_live c cs : snd (alloc c cs) !! fst (alloc c cs) = Some c.
Proof. unfold alloc. cbn. apply lookup_insert_eq. Qed.

Lemma in_sync_SetConfig c w :
  match c with Some p => is_Some (configs w !! p) | None => True end →
  in_sync (snd (SetConfig c w)).
Proof.
  intros Hc. unfold SetConfig, mbind, st_bind, install, modify.
  destruct c as [p|]; apply in_sync_rebuild; [done|]. unfold alloc. cbn.
  rewrite lookup_insert_eq. by eexists.
Qed.

(** ** Runs *)

(** What happens to a filter: its operations, and its user building new
    configuration objects.  A user who keeps writing to an object he has
    installed bypasses the filter's set, and is not considered. *)
Inductive filter_op :=
| OpNewConfig (c : AccessListConfig)
| OpSetConfig (c : option positive)
| OpAddHash (h : bytes)
| OpRemoveHash (h : bytes)
| OpClear.

Definition filter_step (w : FilterWorld) (op : filter_op) : FilterWorld :=
  match op with
  | OpNewConfig c => w <| configs := snd (alloc c (configs w)) |>
  | OpSetConfig (Some p) => match configs w !! p with Some _ => snd (SetConfig (Some p) w) | None => w end
  | OpSetConfig None => snd (SetConfig None w)
  | OpAddHash h => snd (AddHash h w)
  | OpRemoveHash h => snd (RemoveHash h w)
  | OpClear => snd (Clear w)
  end.

Definition filter_run (c : AccessListConfig) (ops : list filter_op) : FilterWorld :=
  foldl filter_step (newAccessFilter (Some 1%positive) {[1%positive := c]}) ops.

Lemma in_sync_new c p cs : cs !! p = Some c → in_sync (newAccessFilter (Some p) cs).
Proof.
  intros H. unfold newAccessFilter, mbind, st_bind, install, modify. apply in_sync_rebuild.
  cbn. by eexists.
Qed.

Lemma in_sync_alloc c w : in_sync w → in_sync (w <| configs := snd (alloc c (configs w)) |>).
Proof.
  intros [[c0 Hl] Hs]. assert (fresh (dom (configs w)) ≠ config (filter_ w)) as Hne.
  { intros E. apply (is_fresh (dom (configs w))). rewrite E. by apply elem_of_dom. }
  assert (cfg (w <| configs := snd (alloc c (configs w)) |>) = cfg w) as Hc
    by (unfold cfg, alloc; cbn; by rewrite lookup_insert_ne).
  split; [unfold alloc; cbn; rewrite lookup_insert_ne by done; by eexists|].
  intros n. by rewrite Hc.
Qed.

Lemma in_sync_step w op : in_sync w → in_sync (filter_step w op).
Proof.
  intros H. destruct op as [c|[p|]|h|h|]; cbn [filter_step].
  - by apply in_sync_alloc.
  - destruct (configs w !! p) eqn:E; [|done]. apply in_sync_SetConfig. by rewrite E.
  - by apply in_sync_SetConfig.
  - by apply in_sync_AddHash.
  - by apply in_sync_RemoveHash.
  - by apply in_sync_Clear.
Qed.

Lemma in_sync_run c ops : in_sync (filter_run c ops).
Proof.
  unfold filter_run. assert (in_sync (newAccessFilter (Some 1%positive) {[1%positive := c]})) as H
    by (eapply in_sync_new, lookup_singleton_eq).
  revert H. generalize (newAccessFilter (Some 1%positive) {[1%positive := c]}).
  induction ops as [|op ops IH]; intros w H; [done|]. cbn. by apply IH, in_sync_step.
Qed.

(** ** Decisions *)

Section Decisions.
Context {I : I2CP}.

Lemma Sum256_nonempty bs : Sum256 bs ≠ [].
Proof. intros H. pose proof (length_Sum256 bs) as Hl. by rewrite H in Hl. Qed.

Lemma in_sync_listed w x : in_sync w → length x = 32%nat →
  encode x ∈ hashSet (filter_ w) ↔ listed (cfg w) x.
Proof.
  intros [_ Hs] Hx. rewrite Hs. unfold listed. split.
  - intros (_ & h & Hh & Hn). exists h. by rewrite <- normalize_denotes.
  - intros (h & Hh & Hd). split; [|exists h; by rewrite normalize_denotes].
    intros E. by pose proof (length_encode32 x Hx) as Hl; rewrite E in Hl.
Qed.

(** The decision from a filter whose set is in order. *)
Lemma IsAllowed_sync dest w : in_sync w →
  fst (IsAllowed dest w) = false ↔
  ∃ d bs, dest = Some d ∧ WriteToStream d = Some bs ∧
    (Mode (cfg w) = AccessListModeWhitelist ∧ ¬ listed (cfg w) (Sum256 bs) ∨
     Mode (cfg w) = AccessListModeBlacklist ∧ listed (cfg w) (Sum256 bs)).
Proof.
  intros Hs. unfold IsAllowed, mbind, st_bind, gets, mret, st_ret. cbn [fst].
  unfold AccessListModeDisabled, AccessListModeWhitelist, AccessListModeBlacklist.
  destruct (Mode (cfg w) =? 0) eqn:E0; zbool.
  { split; [done|]. intros (d & bs & _ & _ & [[? _]|[? _]]); lia. }
  destruct dest as [d|]; [|split; [done|by intros (? & ? & ? & _)]].
  unfold hashDestinationForAccessList. destruct (WriteToStream d) as [bs|] eqn:Ed.
  2: { rewrite bool_decide_true by done. split; [done|]. intros (d' & bs & [= <-] & ? & _). congruence. }
  assert (encode (Sum256 bs) ≠ []) as Hne.
  { intros E. pose proof (length_encode32 _ (length_Sum256 bs)) as Hl. by rewrite E in Hl. }
  unfold StdEncoding_EncodeToString. rewrite bool_decide_false by done.
  pose proof (in_sync_listed w _ Hs (length_Sum256 bs)) as Hin. split.
  - intros H. exists d, bs. split; [done|]. split; [done|].
    destruct (Mode (cfg w) =? 1) eqn:E1; zbool.
    { left. split; [done|]. apply bool_decide_eq_false in H. tauto. }
    destruct (Mode (cfg w) =? 2) eqn:E2; zbool; [|done].
    right. split; [done|]. apply bool_decide_eq_true in H. tauto.
  - intros (d' & bs' & [= <-] & Hb & H). rewrite Ed in Hb. injection Hb as <-.
    destruct H as [[-> H]|[-> H]]; cbn.
    + apply bool_decide_eq_false. tauto.
    + rewrite bool_decide_true; [done|]. tauto.
Qed.

(** C23.  The access list decides exactly.  However its configuration was
    installed and edited, a filter rejects a destination if and only if the
    whitelist does not denote the SHA-256 digest of its serialised form, or
    the blacklist does; a disabled filter, a missing destination and one that
    cannot be serialised are let through; and [CheckAndLog] reports the
    rejection by its reason.  A text denotes a digest when it is its standard
    Base64 encoding, with or without the padding; the other forms the comments
    of the code speak of denote nothing, so that an entry of the 32 raw bytes
    (or anything shorter than 43 characters), or with a character of the
    URL-safe or the I2P alphabet, lists nobody. *)
Theorem access_filter_exact (c : AccessListConfig) (ops : list filter_op) (dest : option Destination) :
  let w := filter_run c ops in
  (fst (IsAllowed dest w) = false ↔
   ∃ d bs, dest = Some d ∧ WriteToStream d = Some bs ∧
     (Mode (cfg w) = AccessListModeWhitelist ∧ ¬ listed (cfg w) (Sum256 bs) ∨
      Mode (cfg w) = AccessListModeBlacklist ∧ listed (cfg w) (Sum256 bs))) ∧
  CheckAndLog dest w =
    (if fst (IsAllowed dest w) then None
     else Some (if Mode (cfg w) =? AccessListModeWhitelist then ENotWhitelisted else EBlacklisted), w) ∧
  (∀ h x y, digest_text h x → denotes h y ↔ y = x) ∧
  (∀ h x, (length h < 43)%nat → ¬ denotes h x) ∧
  (∀ h d x, Forall (λ c, printable c = true) h → d ∈ h → url_safe d → ¬ denotes h x).
Proof.
  cbv zeta. split_and!.
  - by apply IsAllowed_sync, in_sync_run.
  - unfold CheckAndLog, IsAllowed, mbind, st_bind, gets, mret, st_ret. cbn [fst].
    by destruct (if Mode _ =? _ then true else _).
  - intros h x y H. by eapply digest_text_denotes, digest_text_printable.
  - apply short_denotes_nothing.
  - apply url_safe_denotes_nothing.
Qed.

(** Editing the list.  After [AddHash] exactly the digests the new text
    denotes are listed besides those that were; after [RemoveHash] exactly
    they are gone, under whatever form they had been listed; [Clear] leaves
    none; the mode stays, and [Count] is the number of normal forms left. *)
Theorem access_list_edits (c : AccessListConfig) (ops : list filter_op) (h x : bytes) :
  length x = 32%nat →
  let w := filter_run c ops in
  (listed (cfg (snd (AddHash h w))) x ↔ listed (cfg w) x ∨ denotes h x) ∧
  (listed (cfg (snd (RemoveHash h w))) x ↔ listed (cfg w) x ∧ ¬ denotes h x) ∧
  ¬ listed (cfg (snd (Clear w))) x ∧
  Mode (cfg (snd (AddHash h w))) = Mode (cfg w) ∧ Mode (cfg (snd (RemoveHash h w))) = Mode (cfg w) ∧
  Mode (cfg (snd (Clear w))) = Mode (cfg w) ∧ fst (Count (snd (Clear w))) = 0%nat.
Proof.
  intros Hx w. unfold listed. setoid_rewrite <- (normalize_denotes _ x Hx).
  assert (encode x ≠ []) as Hne
    by (intros E; pose proof (length_encode32 _ Hx) as Hl; by rewrite E in Hl).
  unfold AddHash, RemoveHash, Clear, Count. cbv zeta.
  case_bool_decide as Hn; unfold mbind, st_bind, modify, gets, mret, st_ret; cbn [fst snd].
  - rewrite Hn, cfg_filter, cfg_write by done. cbn.
    assert ([] ≠ encode x) by done.
    split; [naive_solver|]. split; [naive_solver|]. split; [|done]. intros (? & H0%elem_of_nil & _). done.
  - rewrite !cfg_write, !cfg_filter, !cfg_write by done. cbn.
    setoid_rewrite list_elem_of_filter. setoid_rewrite elem_of_app.
    split; [setoid_rewrite list_elem_of_singleton; naive_solver|].
    split; [split|split; [intros (? & H0%elem_of_nil & _); done|done]].
    + intros (h' & [Hne' Hh'] & He). split; [by exists h'|]. congruence.
    + intros [(h' & Hh' & He) Hd]. exists h'. split; [|done]. split; [|done]. congruence.
Qed.

(** ** Lists as written in an option *)

(** The separators of a list: white space and commas. *)
Definition list_sep (c : byte) : Prop := blank c = true ∨ c = x2c.

Lemma separated_replace s hs : separated list_sep s hs →
  separated (λ c, blank c = true) (ReplaceAll s x2c x20) hs.
Proof.
  assert (∀ h, Forall (λ c, printable c = true ∧ ¬ list_sep c) h →
    ReplaceAll h x2c x20 = h ∧ Forall (λ c, printable c = true ∧ ¬ blank c = true) h) as Hw.
  { intros h. unfold ReplaceAll, list_sep. induction 1 as [|c h [Hp Hc] Hh [IH1 IH2]]; [by split|]. cbn.
    rewrite bool_decide_false by tauto. rewrite IH1. split; [done|]. constructor; tauto. }
  assert (∀ c, list_sep c → blank (if bool_decide (c = x2c) then x20 else c) = true) as Hs.
  { intros c. unfold list_sep. case_bool_decide; [done|tauto]. }
  unfold ReplaceAll in *. induction 1 as [|c s hs Hc _ IH|h Hne Hh|h c s hs Hne Hh Hc _ IH].
  - constructor.
  - cbn. apply separated_lead; [by apply Hs|done].
  - destruct (Hw h Hh) as [-> ?]. by apply separated_last.
  - rewrite fmap_app. destruct (Hw h Hh) as [-> ?]. cbn. apply separated_cons; auto.
Qed.

Lemma separated_words sep s hs : separated sep s hs →
  Forall (λ h, h ≠ [] ∧ Forall (λ c, printable c = true) h) hs.
Proof.
  induction 1 as [|c s hs Hc _ IH|h Hne Hh|h c s hs Hne Hh Hc _ IH]; [constructor|done|..];
    repeat constructor; try done; (eapply Forall_impl; [exact Hh|by intros ? []]).
Qed.

Lemma ParseHashList_separated s hs : separated list_sep s hs → ParseHashList s = hs.
Proof.
  intros H. unfold ParseHashList. case_bool_decide as Hs.
  - subst. inversion H as [|c s' hs' | |]; [done..|]. by destruct h.
  - rewrite (Fields_separated _ hs) by (by apply separated_replace).
    pose proof (separated_words _ _ _ H) as Hw.
    assert (TrimSpace <$> hs = hs) as ->.
    { clear -Hw. induction Hw as [|h hs [_ Hh] _ IH]; [done|]. cbn. f_equal; [|done].
      pose proof (TrimSpace_around [] h []) as Ht. rewrite app_nil_r in Ht. by apply Ht. }
    apply filter_all. intros h Hh. rewrite Forall_forall in Hw. by apply Hw.
Qed.

(** A list written in an option is enforced as written.  Digests in
    Base64, padded or not, separated by any mixture of commas and white space,
    are read by [ParseHashList] one by one; as a whitelist they let through
    exactly the destinations with one of these digests, as a blacklist exactly
    the others. *)
Theorem parsed_list_enforced (s : bytes) (hs xs : list bytes) (mode : Z) (quiet : bool)
    (d : Destination) (bs : bytes) :
  separated list_sep s hs → Forall2 digest_text hs xs → WriteToStream d = Some bs →
  let w := newAccessFilter (Some 1%positive) {[1%positive := MkAccessConfig mode (ParseHashList s) quiet]} in
  ParseHashList s = hs ∧
  (mode = AccessListModeWhitelist → (fst (IsAllowed (Some d) w) = true ↔ Sum256 bs ∈ xs)) ∧
  (mode = AccessListModeBlacklist → (fst (IsAllowed (Some d) w) = true ↔ Sum256 bs ∉ xs)).
Proof.
  intros Hs Hx Hd w. pose proof (ParseHashList_separated s hs Hs) as Hp. split; [done|].
  pose proof (in_sync_run (MkAccessConfig mode (ParseHashList s) quiet) []) as Hw.
  change (in_sync w) in Hw. pose proof (IsAllowed_sync (Some d) w Hw) as Ha.
  change (cfg w) with (MkAccessConfig mode (ParseHashList s) quiet) in Ha. cbn [Mode] in Ha.
  assert (listed (MkAccessConfig mode (ParseHashList s) quiet) (Sum256 bs) ↔ Sum256 bs ∈ xs) as Hl.
  { unfold listed. cbn [Hashes]. rewrite Hp. pose proof (separated_words _ _ _ Hs) as Hwd.
    clear -Hx Hwd. induction Hx as [|h x hs xs Hh _ IH]; [set_solver|].
    apply Forall_cons in Hwd as [[_ Hc] Hwd]. rewrite elem_of_cons, <- (IH Hwd).
    rewrite <- (digest_text_denotes h x _ Hh Hc). set_solver. }
  assert (∀ b : bool, b = true ↔ ¬ b = false) as Hb by (intros []; naive_solver).
  unfold AccessListModeWhitelist, AccessListModeBlacklist in *.
  split; intros ->; rewrite Hb, Ha.
  - split; [|naive_solver lia]. intros Hn. destruct (decide (Sum256 bs ∈ xs)); [done|].
    destruct Hn. exists d, bs. tauto.
  - split; [|naive_solver lia]. intros Hn Hin. apply Hn. exists d, bs. tauto.
Qed.
End Decisions.

(** ** Evaluations *)

Definition peer_ex : bytes := replicate 391 x02.

(** The digest of a destination as text, and a list with it in both forms. *)
Definition text_ex : bytes := encode (Sum256 peer_ex).
Definition option_ex : bytes := [x20] ++ text_ex ++ [x2c; x20] ++ take 43 (encode (Sum256 (x03 :: peer_ex))) ++ [x0a].

Lemma option_ex_separated : separated list_sep option_ex [text_ex; take 43 (encode (Sum256 (x03 :: peer_ex)))].
Proof.
  assert (∀ h, bool_decide (h ≠ []) && forallb (λ c, printable c && negb (blank c) && negb (bool_decide (c = x2c))) h = true →
    h ≠ [] ∧ Forall (λ c, printable c = true ∧ ¬ list_sep c) h) as Hw.
  { intros h [Hne Hh]%andb_true_iff. apply bool_decide_eq_true in Hne. split; [done|].
    apply Forall_forall. intros c Hc%list_elem_of_In. rewrite forallb_forall in Hh. specialize (Hh c Hc).
    zbool. split; [done|]. unfold list_sep. intros [?| ->]; [congruence|discriminate]. }
  destruct (Hw text_ex) as [Hn1 Hp1]; [vm_compute; reflexivity|].
  destruct (Hw (take 43 (encode (Sum256 (x03 :: peer_ex))))) as [Hn2 Hp2]; [vm_compute; reflexivity|].
  unfold option_ex. apply separated_lead; [by left|]. apply (separated_cons list_sep); [done..|by right|].
  apply separated_lead; [by left|]. apply (separated_cons list_sep); [done..|by left|]. constructor.
Qed.

Lemma access_list_edits_witness :
  let w := filter_run (MkAccessConfig 1 [] false) [] in
  length (Sum256 peer_ex) = 32%nat ∧ listed (cfg (snd (AddHash text_ex w))) (Sum256 peer_ex).
Proof.
  split; [vm_compute; reflexivity|].
  refine (proj2 (proj1 (access_list_edits (MkAccessConfig 1 [] false) [] text_ex (Sum256 peer_ex) _)) _);
    [vm_compute; reflexivity|].
  right. apply normalize_denotes; [vm_compute; reflexivity|]. vm_compute. reflexivity.
Defined.

Lemma parsed_list_enforced_witness :
  let w := newAccessFilter (Some 1%positive) {[1%positive := MkAccessConfig 1 (ParseHashList option_ex) false]} in
  fst (@IsAllowed ConcreteI2CP (Some peer_ex) w) = true.
Proof.
  refine (proj2 (proj1 (proj2 (@parsed_list_enforced ConcreteI2CP option_ex _
    [Sum256 peer_ex; Sum256 (x03 :: peer_ex)] 1 false peer_ex peer_ex option_ex_separated _ _)) eq_refl) _).
  - apply Forall2_cons. split; [split; [|left]; vm_compute; reflexivity|].
    apply Forall2_cons. split; [split; [|right]; vm_compute; reflexivity|]. constructor.
  - vm_compute. reflexivity.
  - left.
Defined.

Definition other_ex : bytes := x03 :: replicate 390 x02.

(** A whitelist with the peer's digest in the I2P alphabet does not let the
    peer in. *)
Definition i2p_text (h : bytes) : bytes :=
  (λ c, if bool_decide (c = x2b) then x2d else if bool_decide (c = x2f) then x7e else c) <$> h.
Lemma access_filter_exact_witness :
  let w := filter_run (MkAccessConfig 1 [i2p_text (encode (Sum256 other_ex))] false) [] in
  fst (@IsAllowed ConcreteI2CP (Some other_ex) w) = false.
Proof.
  set (w := filter_run (MkAccessConfig 1 [i2p_text (encode (Sum256 other_ex))] false) []).
  refine (proj2 (proj1 (@access_filter_exact ConcreteI2CP (MkAccessConfig 1 [i2p_text (encode (Sum256 other_ex))] false) []
    (Some other_ex))) _).
  exists other_ex, other_ex. split_and!; [done..|]. left. split; [done|].
  intros (h & Hh & Hd). apply list_elem_of_singleton in Hh as ->. revert Hd.
  refine (proj2 (proj2 (proj2 (proj2 (@access_filter_exact ConcreteI2CP
    (MkAccessConfig 1 [i2p_text (encode (Sum256 other_ex))] false) [] (Some other_ex))))) _ x7e _ _ _ _).
  - apply (bool_decide_unpack _). vm_compute. exact I.
  - apply (bool_decide_unpack _). vm_compute. exact I.
  - right. by right.
Defined.
