(* ===== verification/TCBCache.v ===== *)
(** * TCB cache (tcb_cache.go)

    Control-block sharing between connections to one peer: when a connection
    closes its smoothed RTT, variance and window are stored under the hash of
    the destination, averaged with what was there; a new connection gets them
    back multiplied by dampening factors, while the entry is fresh. *)

From S2P Require Import Prelude GoInt I2CP Floats Sha256.
From Stdlib Require Import Strings.Byte.

Record TCBCacheConfig := MkTCBCacheConfig {
  RTTDampening : float;
  RTTDevDampening : float;
  WindowDampening : float;
  EntryTTL : Z;
  Enabled : bool;
}.

#[export] Instance eta_TCBCacheConfig : Eta TCBCacheConfig := λ c,
  MkTCBCacheConfig (RTTDampening c) (RTTDevDampening c) (WindowDampening c) (EntryTTL c) (Enabled c).
#[export] Instance set_Enabled : Setter Enabled := ltac:(derive_setter).

Definition DefaultTCBCacheConfig : TCBCacheConfig :=
  MkTCBCacheConfig c0_75 c0_75 c0_75 (5 * Minute) true.

Record tcbEntry := MkEntry {
  e_rtt : Z;
  e_rttVariance : Z;
  e_windowSize : Z;
  lastUpdate : Z;
  sampleCount : Z;
}.

Record tcbCache := MkCache {
  config : TCBCacheConfig;
  entries : gmap bytes tcbEntry;
}.
#[export] Instance eta_tcbCache : Eta tcbCache := λ c, MkCache (config c) (entries c).
#[export] Instance set_config : Setter config := ltac:(derive_setter).
#[export] Instance set_entries : Setter entries := ltac:(derive_setter).

Record TCBData := MkTCBData {
  RTT : Z;
  RTTVariance : Z;
  WindowSize : Z;
  FromCache : bool;
}.

Section TCBCache.
Context {I : I2CP}.

(** stream.go; [None] is an error. *)
Definition hashDestination (dest : option Destination) : option bytes :=
  match dest with
  | None => None
  | Some d => match WriteToStream d with None => None | Some bs => Some (Sum256 bs) end
  end.

(** [hex.EncodeToString] *)
Definition hex_digit (n : Z) : byte := byte_of_Z (if n <? 10 then 48 + n else 87 + n).
Definition EncodeToString (bs : bytes) : bytes :=
  concat ((λ b, [hex_digit (Z_of_byte b / 16); hex_digit (Z_of_byte b mod 16)]) <$> bs).

Definition getDestKey (dest : option Destination) : bytes :=
  match dest with
  | None => []
  | Some _ => match hashDestination dest with
              | None => []
              | Some hash => EncodeToString (take 8 hash)
              end
  end.

Definition newTCBCache (config : TCBCacheConfig) : tcbCache := MkCache config ∅.

(** uint32 of a float64 *)
Definition uint32_of (f : float) : Z := u32 (trunc f).

Definition Get (now : Z) (dest : option Destination) : ST tcbCache (Z * Z * Z * bool) :=
  c ← gets config;
  if negb (Enabled c) then mret (0, 0, 0, false)
  else
    let key := getDestKey dest in
    if bool_decide (key = []) then mret (0, 0, 0, false)
    else
      m ← gets entries;
      match m !! key with
      | None => mret (0, 0, 0, false)
      | Some entry =>
          if EntryTTL c <? time_Sub now (lastUpdate entry) then
            _ ← modify (λ t, t <| entries ::= delete key |>);
            mret (0, 0, 0, false)
          else
            let dampedRTT := trunc (fmul (of_int (e_rtt entry)) (RTTDampening c)) in
            let dampedRTTVar := trunc (fmul (of_int (e_rttVariance entry)) (RTTDevDampening c)) in
            let dampedWindow := uint32_of (fmul (of_int (e_windowSize entry)) (WindowDampening c)) in
            let dampedWindow := if dampedWindow <? 1 then 1 else dampedWindow in
            mret (dampedRTT, dampedRTTVar, dampedWindow, true)
      end.

(** [float64(old)*weight + float64(new)*(1-weight)], [weight = 0.5] *)
Definition mix (old new : Z) : float :=
  fadd (fmul (of_int old) c0_5) (fmul (of_int new) c0_5).

Definition Put (now : Z) (dest : option Destination) (rtt rttVariance windowSize : Z)
    : ST tcbCache unit :=
  c ← gets config;
  if negb (Enabled c) then mret ()
  else
    let key := getDestKey dest in
    if bool_decide (key = []) then mret ()
    else if (rtt =? 0) && (rttVariance =? 0) then mret ()
    else
      m ← gets entries;
      match m !! key with
      | Some entry =>
          let entry := MkEntry (trunc (mix (e_rtt entry) rtt))
            (trunc (mix (e_rttVariance entry) rttVariance))
            (uint32_of (mix (e_windowSize entry) windowSize)) now (sampleCount entry + 1) in
          modify (λ t, t <| entries ::= <[key := entry]> |>)
      | None =>
          modify (λ t, t <| entries ::= <[key := MkEntry rtt rttVariance windowSize now 1]> |>)
      end.

Definition Size : ST tcbCache nat := gets (λ t, size (entries t)).

Definition Clear : ST tcbCache unit := modify (λ t, t <| entries := ∅ |>).

(** The loop deletes only the key it is visiting. *)
Definition fresh (c : TCBCacheConfig) (now : Z) (entry : tcbEntry) : bool :=
  negb (EntryTTL c <? time_Sub now (lastUpdate entry)).

Definition CleanupExpired (now : Z) : ST tcbCache Z :=
  before ← gets (λ t, size (entries t));
  _ ← modify (λ t, t <| entries ::= filter (λ ke, fresh (config t) now ke.2 = true) |>);
  after ← gets (λ t, size (entries t));
  mret (Z.of_nat before - Z.of_nat after).

Definition GetConfig : ST tcbCache TCBCacheConfig := gets config.
Definition SetConfig (c : TCBCacheConfig) : ST tcbCache unit := modify (λ t, t <| config := c |>).

Definition getDestKeyFromHash (hash : bytes) : bytes :=
  if (length hash <? 8)%nat then [] else EncodeToString (take 8 hash).

(** A nil destination hashes to nil without an error. *)
Definition hashDestinationForCache (dest : option Destination) : option bytes :=
  match dest with
  | None => Some []
  | Some d => match WriteToStream d with None => None | Some bs => Some (Sum256 bs) end
  end.
End TCBCache.

(** ** Lemmas *)

Lemma trunc_075 x : 0 <= x < 2 ^ 50 → trunc (fmul (of_int x) c0_75) = x * 3 / 4.
Proof.
  intros Hx. apply (scaled_exact x 3 2); try lia; unfold fits; lia.
Qed.

Lemma trunc_mix x y : 0 <= x < 2 ^ 50 → 0 <= y < 2 ^ 50 → trunc (mix x y) = (x + y) / 2.
Proof.
  intros Hx Hy. unfold mix.
  rewrite !of_int_exact by (unfold fits; lia).
  rewrite !fmul_exact by (unfold fits; cbn; lia). unfold fadd. cbn [man exp c0_5].
  change (0 + -1) with (-1).
  rewrite Z.min_id, Z.sub_diag, !Z.mul_1_r. rewrite round53_exact by (unfold fits; lia).
  unfold trunc. cbn [man exp]. change (0 <=? -1) with false. cbv iota. change (2 ^ (- (-1))) with 2.
  rewrite Z.quot_div_nonneg; lia.
Qed.

Section Lemmas.
Context {I : I2CP}.

Lemma Put_eq t dest rtt var win c :
  Enabled (config c) = true → getDestKey dest ≠ [] → ¬ (rtt = 0 ∧ var = 0) →
  Put t dest rtt var win c = ((), c <| entries ::= <[getDestKey dest :=
    match entries c !! getDestKey dest with
    | Some e => MkEntry (trunc (mix (e_rtt e) rtt)) (trunc (mix (e_rttVariance e) var))
                  (uint32_of (mix (e_windowSize e) win)) t (sampleCount e + 1)
    | None => MkEntry rtt var win t 1
    end]> |>).
Proof.
  intros He Hk Hnz. unfold Put, mbind, st_bind, gets. rewrite He. cbn [negb].
  rewrite bool_decide_false by done.
  assert ((rtt =? 0) && (var =? 0) = false) as ->.
  { apply andb_false_iff. rewrite !Z.eqb_neq. lia. }
  cbv beta zeta iota. by destruct (entries c !! getDestKey dest).
Qed.

Lemma Get_eq t dest c e :
  Enabled (config c) = true → getDestKey dest ≠ [] → entries c !! getDestKey dest = Some e →
  Get t dest c =
    if EntryTTL (config c) <? time_Sub t (lastUpdate e)
    then ((0, 0, 0, false), c <| entries ::= delete (getDestKey dest) |>)
    else ((trunc (fmul (of_int (e_rtt e)) (RTTDampening (config c))),
           trunc (fmul (of_int (e_rttVariance e)) (RTTDevDampening (config c))),
           let w := uint32_of (fmul (of_int (e_windowSize e)) (WindowDampening (config c))) in
           if w <? 1 then 1 else w, true), c).
Proof.
  intros He Hk Hl. unfold Get, mbind, st_bind, gets. rewrite He. cbn [negb].
  rewrite bool_decide_false by done. cbv beta zeta iota. rewrite Hl. by case_if.
Qed.
End Lemmas.

Section Properties.
Context {I : I2CP}.

(** The stored values of an entry are sane: times below 13 days, window a word. *)
Definition entry_ok (e : tcbEntry) : Prop :=
  0 <= e_rtt e < 2 ^ 50 ∧ 0 <= e_rttVariance e < 2 ^ 50 ∧ is_u32 (e_windowSize e).

Definition cache_ok (c : tcbCache) : Prop := ∀ k e, entries c !! k = Some e → entry_ok e.

(** C31.  With the default factors, what a new connection gets from the cache
    after a close is, for a peer not cached before, exactly three quarters
    (rounded down) of the RTT, variance and window that were stored, the
    window being at least 1, until the entry is more than five minutes old;
    from then on it is not found and the entry is removed. *)
Theorem cache_put_get (c : tcbCache) (dest : option Destination) (t t' rtt var win : Z) :
  config c = DefaultTCBCacheConfig → getDestKey dest ≠ [] →
  entries c !! getDestKey dest = None →
  0 <= rtt < 2 ^ 50 → 0 <= var < 2 ^ 50 → is_u32 win → ¬ (rtt = 0 ∧ var = 0) →
  t <= t' < t + 2 ^ 62 →
  let c' := snd (Put t dest rtt var win c) in
  if decide (t' - t <= 5 * Minute)
  then Get t' dest c' = ((rtt * 3 / 4, var * 3 / 4, Z.max 1 (win * 3 / 4), true), c')
  else ∃ c'', Get t' dest c' = ((0, 0, 0, false), c'') ∧ entries c'' = entries c.
Proof.
  intros Hc Hk Hn Hr Hv Hw Hnz Ht. rewrite Put_eq by (rewrite ?Hc; done). rewrite Hn. cbn [snd].
  set (e := MkEntry rtt var win t 1). cbv zeta. set (c' := c <| entries ::= _ |>).
  assert (time_Sub t' t = t' - t) as Hsub by (unfold time_Sub, maxDuration, minDuration; lia).
  rewrite (Get_eq t' dest c' e) by (subst c'; cbn; rewrite ?Hc, ?lookup_insert_eq; done).
  change (config c') with (config c). rewrite Hc. subst e.
  cbn [EntryTTL DefaultTCBCacheConfig lastUpdate RTTDampening RTTDevDampening WindowDampening
    e_rtt e_rttVariance e_windowSize]. rewrite Hsub. case_decide as Hd.
  - destruct (Z.ltb_spec (5 * Minute) (t' - t)); [lia|].
    unfold uint32_of. rewrite !trunc_075 by lia. rewrite u32_small by zlia.
    do 2 f_equal. f_equal. cbv zeta. case_if; zbool; lia.
  - destruct (Z.ltb_spec (5 * Minute) (t' - t)); [|lia].
    eexists. split; [done|]. subst c'. cbn. by rewrite delete_insert_id.
Qed.

(** Averaging keeps the cache sane: [Put] stores for the peer the mean of
    the old and the new values (rounded down), so every stored value stays
    between values that were measured, and touches no other peer. *)
Theorem cache_put_averages (c : tcbCache) (dest : option Destination) (t rtt var win : Z) (e : tcbEntry) :
  cache_ok c → Enabled (config c) = true → entries c !! getDestKey dest = Some e →
  getDestKey dest ≠ [] → 0 <= rtt < 2 ^ 50 → 0 <= var < 2 ^ 50 → is_u32 win → ¬ (rtt = 0 ∧ var = 0) →
  let c' := snd (Put t dest rtt var win c) in
  cache_ok c' ∧
  entries c' = <[getDestKey dest := MkEntry ((e_rtt e + rtt) / 2) ((e_rttVariance e + var) / 2)
    ((e_windowSize e + win) / 2) t (sampleCount e + 1)]> (entries c).
Proof.
  intros Hok Hen He Hk Hr Hv Hw Hnz. rewrite Put_eq by done. rewrite He.
  destruct (Hok _ _ He) as (? & ? & ?). cbn [snd entries upd set_entries].
  unfold uint32_of. rewrite !trunc_mix by lia. rewrite (u32_small ((_ + _) / 2)) by zlia.
  split; [|done]. intros k e'. unfold upd, set_entries. cbn [entries].
  destruct (decide (getDestKey dest = k)) as [<-|]; [|rewrite lookup_insert_ne by done; apply Hok].
  rewrite lookup_insert_eq. intros [= <-]. unfold entry_ok. cbn. zlia.
Qed.
End Properties.

Section Examples.
Definition peer_ex : option (@Destination ConcreteI2CP) := Some (replicate 391 x01).
Definition cache_ex : tcbCache := snd (Put 100 peer_ex 1000 200 12 (newTCBCache DefaultTCBCacheConfig)).

Lemma key_ex : getDestKey peer_ex ≠ [].
Proof. intros H. assert (length (getDestKey peer_ex) = 0%nat) by (by rewrite H). by vm_compute in H0. Qed.

Lemma cache_put_get_witness :
  let c' := snd (Put 100 peer_ex 1000 200 12 (newTCBCache DefaultTCBCacheConfig)) in
  if decide (Minute - 100 <= 5 * Minute)
  then Get Minute peer_ex c' = ((1000 * 3 / 4, 200 * 3 / 4, Z.max 1 (12 * 3 / 4), true), c')
  else ∃ c'', Get Minute peer_ex c' = ((0, 0, 0, false), c'') ∧
    entries c'' = entries (newTCBCache DefaultTCBCacheConfig).
Proof.
  apply (cache_put_get (newTCBCache DefaultTCBCacheConfig) peer_ex 100 Minute 1000 200 12);
    [done|apply key_ex|done|lia|lia|lia|lia|unfold Minute, Second; lia].
Defined.

#[local] Opaque getDestKey.

Lemma cache_ex_eq :
  cache_ex = MkCache DefaultTCBCacheConfig {[getDestKey peer_ex := MkEntry 1000 200 12 100 1]}.
Proof. unfold cache_ex. rewrite Put_eq; [done|done|apply key_ex|lia]. Qed.

Lemma cache_put_averages_witness :
  let c' := snd (Put 300 peer_ex 2000 0 20 cache_ex) in
  cache_ok c' ∧
  entries c' = <[getDestKey peer_ex := MkEntry ((1000 + 2000) / 2) ((200 + 0) / 2)
    ((12 + 20) / 2) 300 2]> (entries cache_ex).
Proof.
  apply (cache_put_averages cache_ex peer_ex 300 2000 0 20 (MkEntry 1000 200 12 100 1));
    rewrite ?cache_ex_eq; [|done| |apply key_ex|lia|lia|lia|lia].
  - intros k e He. cbn [entries] in He. apply lookup_singleton_Some in He as [<- <-]. unfold entry_ok. cbn. lia.
  - apply lookup_singleton_eq.
Defined.
End Examples.
