(* ===== verification/Runtime.v ===== *)
(** * What a connection runs on

    The clock, the order in which Go's [range] visits a map and the outcome of
    handing a message to I2CP are not determined by the program: they are the
    fields of a class, read in sequence through counters of the state.  The
    receive buffer is armon/circbuf, third-party code: its operations are a
    class, its documented behaviour a class of laws ("a fixed size, and new
    writes overwrite older data, such that for a buffer of size N, for any
    amount of writes, only the last N bytes are retained"). *)

From S2P Require Import Prelude GoInt I2CP.
From Stdlib Require Import Strings.Byte.

Class GoRuntime := {
  (** The [n]-th reading of the clock, in nanoseconds. *)
  clock : nat → Z;
  (** The [n]-th iteration over a map visits its keys in this order. *)
  range_order : nat → list Z → list Z;
  (** Whether the [n]-th [session.SendMessage] succeeds. *)
  send_ok : nat → bool;
}.

Class GoRuntimeLaws (R : GoRuntime) : Prop := {
  clock_mono : ∀ n m, (n ≤ m)%nat → clock n <= clock m;
  range_order_perm : ∀ n l, range_order n l ≡ₚ l;
}.

(** The last [n] elements of a list. *)
Definition lastn {A} (n : nat) (l : list A) : list A := drop (length l - n) l.

Class CircBuf := {
  Buffer : Type;
  NewBuffer : Z → option Buffer;
  (** The count and whether the error is nil. *)
  buf_Write : Buffer → bytes → Z * bool * Buffer;
  buf_Bytes : Buffer → bytes;
  buf_TotalWritten : Buffer → Z;
  buf_Size : Buffer → Z;
  buf_Reset : Buffer → Buffer;
}.

Class CircBufLaws (B : CircBuf) : Prop := {
  NewBuffer_ok : ∀ n, 0 < n → ∃ b, NewBuffer n = Some b ∧ buf_Size b = n ∧
    buf_Bytes b = [] ∧ buf_TotalWritten b = 0;
  Write_ok : ∀ b p, ∃ b', buf_Write b p = (Z.of_nat (length p), true, b') ∧
    buf_Size b' = buf_Size b ∧
    buf_TotalWritten b' = buf_TotalWritten b + Z.of_nat (length p) ∧
    buf_Bytes b' = lastn (Z.to_nat (buf_Size b)) (buf_Bytes b ++ p);
  Reset_ok : ∀ b, buf_Size (buf_Reset b) = buf_Size b ∧ buf_Bytes (buf_Reset b) = [] ∧
    buf_TotalWritten (buf_Reset b) = 0;
}.

(** ** Concrete instances, for evaluation *)

#[export] Instance ConcreteRuntime : GoRuntime := {|
  clock := λ n, Z.of_nat n * Millisecond + 1;
  range_order := λ _ l, l;
  send_ok := λ _, true;
|}.
#[export] Instance ConcreteRuntime_laws : GoRuntimeLaws ConcreteRuntime.
Proof. split; cbn; [unfold Millisecond; intros; lia|done]. Qed.

Record buffer := MkBuffer { b_size : Z; b_data : bytes; b_written : Z }.

#[export] Instance ConcreteCircBuf : CircBuf := {|
  Buffer := buffer;
  NewBuffer := λ n, if 0 <? n then Some (MkBuffer n [] 0) else None;
  buf_Write := λ b p, (Z.of_nat (length p), true,
    MkBuffer (b_size b) (lastn (Z.to_nat (b_size b)) (b_data b ++ p))
      (b_written b + Z.of_nat (length p)));
  buf_Bytes := b_data;
  buf_TotalWritten := b_written;
  buf_Size := b_size;
  buf_Reset := λ b, MkBuffer (b_size b) [] 0;
|}.
#[export] Instance ConcreteCircBuf_laws : CircBufLaws ConcreteCircBuf.
Proof.
  split; cbn.
  - intros n Hn. apply Z.ltb_lt in Hn. rewrite Hn. by eexists.
  - intros b p. by eexists.
  - done.
Qed.

(** ** Lemmas on [lastn] *)

Lemma lastn_all {A} n (l : list A) : (length l ≤ n)%nat → lastn n l = l.
Proof. intros H. unfold lastn. by replace (length l - n)%nat with 0%nat by lia. Qed.

Lemma length_lastn {A} n (l : list A) : length (lastn n l) = Nat.min n (length l).
Proof. unfold lastn. rewrite length_drop. lia. Qed.
