(* ===== verification/Conn.v ===== *)
(** * A connection: its state, and sending (stream.go)

    [StreamConn] with every field the code reads or writes, the world a method
    runs in (the clock, the I2CP session's outbox, the manager's shared
    components), and the methods that build and send packets. *)

From S2P Require Import Prelude GoInt I2CP Packet Crypto Limits MessageStatus Floats Sha256.
From S2P Require Import TCBCache Runtime.
From Stdlib Require Import Strings.Byte.

(** ** Constants *)

Inductive ConnState :=
| StateInit | StateSynSent | StateSynRcvd | StateEstablished | StateCloseWait | StateClosing
| StateClosed.
#[export] Instance ConnState_eq_dec : EqDecision ConnState.
Proof. solve_decision. Defined.

Definition DefaultMTU : Z := 1730.
Definition ECIESMTU : Z := 1812.
Definition MinMTU : Z := 512.
Definition DefaultWindowSize : Z := 6.
Definition MaxWindowSize : Z := 128.
Definition DefaultConnectTimeout : Z := 60 * Second.
Definition DefaultInactivityTimeout : Z := 90 * Second.
Definition MinRTO : Z := 100 * Millisecond.
Definition MaxRTO : Z := 45 * Second.
Definition FastRetransmitThreshold : Z := 2.
Definition MaxRetransmissions : Z := 8.
Definition PersistProbeInterval : Z := 5 * Second.
Definition MinDelayChoke : Z := 60001.
Definition SendDelayChoke : Z := 61000.
Definition MaxDelayNormal : Z := 60000.
Definition MaxNACKs : Z := 255.

(** *** Profiles (profile.go) *)

Definition ProfileBulk : Z := 1.
Definition ProfileInteractive : Z := 2.
Definition profile_IsValid (p : Z) : bool := (p =? ProfileBulk) || (p =? ProfileInteractive).
Definition DefaultProfileConfig : Z := ProfileBulk.
Definition profileFromFlag (flags : Z) : Z :=
  if has_flag flags FlagProfileInteractive then ProfileInteractive else ProfileBulk.
Definition profileToFlag (profile : Z) : Z :=
  if profile =? ProfileInteractive then FlagProfileInteractive else 0.

(** *** Errors *)

Inductive ConnError :=
| EClosed | ENotEstablished (s : ConnState) | ETimeout | EEOF
| EMarshal (e : PacketError) | ECrypto (e : CryptoError) | ENoSession | ESend | ENoSigningKey
| EMTULow (mtu : Z) | EMTUHigh (mtu : Z) | ENilSession | ENilDest | ERand | ENewBuffer | EHashDest
| ESynAckMismatch (expected got : Z) | EUnexpectedSynAck | EResetByPeer
| EMaxRetransmissions (seq : Z) | EQueueFull | EBufferFull
(** Not an error of the code: the call is still waiting. *)
| EBlocked.

Section Conn.
Context {I : I2CP} {B : CircBuf} {RT : GoRuntime}.

(** ** State *)

(** The I2CP session as a connection uses it: its destination, and the key
    pair [SigningKeyPair] returns ([None] its error). *)
Record Session := MkSession {
  session_Destination : option Destination;
  SigningKeyPair : option Ed25519KeyPair;
}.

Record sentPacket := MkSent {
  data : bytes;
  sentTime : Z;
  retries : Z;
}.

(** The condition variables count their broadcasts; timers and stop channels
    are numbered; the context is its done flag; [self] is the identity of the
    object.  The fields of the code that are never read are left out. *)
Record StreamConn := MkConn {
  self : positive;
  manager : bool;
  session : option Session;
  dest : option Destination;
  localPort : Z;
  remotePort : Z;
  localStreamID : Z;
  remoteStreamID : Z;
  sendSeq : Z;
  recvSeq : Z;
  ackThrough : Z;
  totalBytesSent : Z;
  totalBytesReceived : Z;
  windowSize : Z;
  cwnd : Z;
  ssthresh : Z;
  rtt : Z;
  rto : Z;
  srtt : Z;
  rttVariance : Z;
  choked : bool;
  chokedUntil : Z;
  persistTimer : option nat;
  persistStopChan : option nat;
  sendingChoke : bool;
  lastBufferCheck : Z;
  localMTU : Z;
  remoteMTU : Z;
  outOfOrderPackets : gmap Z Packet;
  nackList : gset Z;
  sentPackets : gmap Z sentPacket;
  nackCounts : gmap Z Z;
  recvBuf : Buffer;
  recvChan : list Packet;
  ctx_done : bool;
  recvCond : nat;
  sendCond : nat;
  readDeadline : Z;
  writeDeadline : Z;
  lastActivity : Z;
  inactivityTimeout : Z;
  profile : Z;
  remoteProfile : Z;
  closed : bool;
  state : ConnState;
}.
#[global] Instance eta_StreamConn : Eta StreamConn := λ r,
  MkConn (self r) (manager r) (session r) (dest r) (localPort r) (remotePort r)
    (localStreamID r) (remoteStreamID r) (sendSeq r) (recvSeq r) (ackThrough r)
    (totalBytesSent r) (totalBytesReceived r) (windowSize r) (cwnd r) (ssthresh r) (rtt r)
    (rto r) (srtt r) (rttVariance r) (choked r) (chokedUntil r) (persistTimer r)
    (persistStopChan r) (sendingChoke r) (lastBufferCheck r) (localMTU r) (remoteMTU r)
    (outOfOrderPackets r) (nackList r) (sentPackets r) (nackCounts r) (recvBuf r)
    (recvChan r) (ctx_done r) (recvCond r) (sendCond r) (readDeadline r) (writeDeadline r)
    (lastActivity r) (inactivityTimeout r) (profile r) (remoteProfile r) (closed r)
    (state r).
#[global] Instance set_self : Setter self := ltac:(derive_setter).
#[global] Instance set_manager : Setter manager := ltac:(derive_setter).
#[global] Instance set_session : Setter session := ltac:(derive_setter).
#[global] Instance set_dest : Setter dest := ltac:(derive_setter).
#[global] Instance set_localPort : Setter localPort := ltac:(derive_setter).
#[global] Instance set_remotePort : Setter remotePort := ltac:(derive_setter).
#[global] Instance set_localStreamID : Setter localStreamID := ltac:(derive_setter).
#[global] Instance set_remoteStreamID : Setter remoteStreamID := ltac:(derive_setter).
#[global] Instance set_sendSeq : Setter sendSeq := ltac:(derive_setter).
#[global] Instance set_recvSeq : Setter recvSeq := ltac:(derive_setter).
#[global] Instance set_ackThrough : Setter ackThrough := ltac:(derive_setter).
#[global] Instance set_totalBytesSent : Setter totalBytesSent := ltac:(derive_setter).
#[global] Instance set_totalBytesReceived : Setter totalBytesReceived := ltac:(derive_setter).
#[global] Instance set_windowSize : Setter windowSize := ltac:(derive_setter).
#[global] Instance set_cwnd : Setter cwnd := ltac:(derive_setter).
#[global] Instance set_ssthresh : Setter ssthresh := ltac:(derive_setter).
#[global] Instance set_rtt : Setter rtt := ltac:(derive_setter).
#[global] Instance set_rto : Setter rto := ltac:(derive_setter).
#[global] Instance set_srtt : Setter srtt := ltac:(derive_setter).
#[global] Instance set_rttVariance : Setter rttVariance := ltac:(derive_setter).
#[global] Instance set_choked : Setter choked := ltac:(derive_setter).
#[global] Instance set_chokedUntil : Setter chokedUntil := ltac:(derive_setter).
#[global] Instance set_persistTimer : Setter persistTimer := ltac:(derive_setter).
#[global] Instance set_persistStopChan : Setter persistStopChan := ltac:(derive_setter).
#[global] Instance set_sendingChoke : Setter sendingChoke := ltac:(derive_setter).
#[global] Instance set_lastBufferCheck : Setter lastBufferCheck := ltac:(derive_setter).
#[global] Instance set_localMTU : Setter localMTU := ltac:(derive_setter).
#[global] Instance set_remoteMTU : Setter remoteMTU := ltac:(derive_setter).
#[global] Instance set_outOfOrderPackets : Setter outOfOrderPackets := ltac:(derive_setter).
#[global] Instance set_nackList : Setter nackList := ltac:(derive_setter).
#[global] Instance set_sentPackets : Setter sentPackets := ltac:(derive_setter).
#[global] Instance set_nackCounts : Setter nackCounts := ltac:(derive_setter).
#[global] Instance set_recvBuf : Setter recvBuf := ltac:(derive_setter).
#[global] Instance set_recvChan : Setter recvChan := ltac:(derive_setter).
#[global] Instance set_ctx_done : Setter ctx_done := ltac:(derive_setter).
#[global] Instance set_recvCond : Setter recvCond := ltac:(derive_setter).
#[global] Instance set_sendCond : Setter sendCond := ltac:(derive_setter).
#[global] Instance set_readDeadline : Setter readDeadline := ltac:(derive_setter).
#[global] Instance set_writeDeadline : Setter writeDeadline := ltac:(derive_setter).
#[global] Instance set_lastActivity : Setter lastActivity := ltac:(derive_setter).
#[global] Instance set_inactivityTimeout : Setter inactivityTimeout := ltac:(derive_setter).
#[global] Instance set_profile : Setter profile := ltac:(derive_setter).
#[global] Instance set_remoteProfile : Setter remoteProfile := ltac:(derive_setter).
#[global] Instance set_closed : Setter closed := ltac:(derive_setter).
#[global] Instance set_state : Setter state := ltac:(derive_setter).

(** A message accepted by [session.SendMessage(dest, 6, local, remote, _, nonce)]. *)
Record Message := MkMessage {
  m_dest : option Destination;
  m_localPort : Z;
  m_remotePort : Z;
  m_data : bytes;
  m_nonce : Z;
}.

Inductive Goroutine :=
| GReceiveLoop | GRetransmitTimer | GInactivityTimer | GPersistTimer (stopChan : nat).

(** The parts of the stream manager a connection touches. *)
Record ManagerView := MkManagerView {
  msgTracker : option messageStatusTracker;
  tcb : option tcbCache;
  limiter : option connectionLimiter;
  connections : gmap (Z * Z) positive;
  profileConfig : Z;
}.
#[global] Instance eta_ManagerView : Eta ManagerView := λ r,
  MkManagerView (msgTracker r) (tcb r) (limiter r) (connections r) (profileConfig r).
#[global] Instance set_msgTracker : Setter msgTracker := ltac:(derive_setter).
#[global] Instance set_tcb : Setter tcb := ltac:(derive_setter).
#[global] Instance set_limiter : Setter limiter := ltac:(derive_setter).
#[global] Instance set_connections : Setter connections := ltac:(derive_setter).
#[global] Instance set_profileConfig : Setter profileConfig := ltac:(derive_setter).

Record World := MkWorld {
  conn : StreamConn;
  mgr : ManagerView;
  ticks : nat;
  ranges : nat;
  sends : nat;
  rands : list (option bytes);
  outbox : list Message;
  spawned : list Goroutine;
}.
#[global] Instance eta_World : Eta World := λ r,
  MkWorld (conn r) (mgr r) (ticks r) (ranges r) (sends r) (rands r) (outbox r) (spawned r).
#[global] Instance set_conn : Setter conn := ltac:(derive_setter).
#[global] Instance set_mgr : Setter mgr := ltac:(derive_setter).
#[global] Instance set_ticks : Setter ticks := ltac:(derive_setter).
#[global] Instance set_ranges : Setter ranges := ltac:(derive_setter).
#[global] Instance set_sends : Setter sends := ltac:(derive_setter).
#[global] Instance set_rands : Setter rands := ltac:(derive_setter).
#[global] Instance set_outbox : Setter outbox := ltac:(derive_setter).
#[global] Instance set_spawned : Setter spawned := ltac:(derive_setter).

(** A method of the connection. *)
Abbreviation M := (STE World ConnError).

Implicit Types c : StreamConn.
Implicit Types w : World.

(** ** Primitives *)

Definition getc {A} (f : StreamConn → A) : M A := egets (λ w, f (conn w)).
Definition setc (f : StreamConn → StreamConn) : M unit := emodify (λ w, w <| conn ::= f |>).

Definition Now : M Z :=
  t ← egets (λ w, clock (ticks w));
  _ ← emodify (λ w, w <| ticks ::= S |>);
  mret t.

(** [for k := range m] over the keys of a map. *)
Definition range_keys (keys : list Z) : M (list Z) :=
  n ← egets ranges;
  _ ← emodify (λ w, w <| ranges ::= S |>);
  mret (range_order n keys).

(** [s.session.SendMessage(s.dest, 6, s.localPort, s.remotePort, stream, nonce)] *)
Definition SendMessage (stream : bytes) (nonce : Z) : M unit :=
  n ← egets sends;
  _ ← emodify (λ w, w <| sends ::= S |>);
  if send_ok n then
    c ← getc id;
    emodify (λ w, w <| outbox ::= λ o, o ++
      [MkMessage (dest c) (localPort c) (remotePort c) stream nonce] |>)
  else fail ESend.

Definition recvBroadcast : M unit := setc (λ c, c <| recvCond ::= S |>).
Definition sendBroadcast : M unit := setc (λ c, c <| sendCond ::= S |>).
Definition go (g : Goroutine) : M unit := emodify (λ w, w <| spawned ::= λ l, l ++ [g] |>).

Definition setState (newState : ConnState) : M unit := setc (λ c, c <| state := newState |>).

Definition getNegotiatedMTULocked : M Z :=
  c ← getc id;
  if remoteMTU c =? 0 then mret (localMTU c)
  else if localMTU c <? remoteMTU c then mret (localMTU c)
  else mret (remoteMTU c).

(** ** Sending *)

(** Only packets with a payload are kept for retransmission. *)
Definition trackPacketForRetransmission (pkt : Packet) (bs : bytes) : M unit :=
  if (length (Payload pkt) =? 0)%nat then mret ()
  else
    now ← Now;
    setc (λ c, c <| sentPackets ::= <[SequenceNum pkt := MkSent bs now 0]> |>).

Definition sendViaI2CP (bs : bytes) : M unit :=
  s ← getc session;
  match s with None => fail ENoSession | Some _ => SendMessage bs 0 end.

(** [msgTracker.TrackMessage(s, seqNum, len(data), isDataPkt)] *)
Definition trackMessage (seqNum size : Z) (isData : bool) : M Z :=
  t ← egets (λ w, msgTracker (mgr w));
  c ← getc id;
  match t with
  | Some t =>
      if manager c then
        now ← Now;
        let '(nonce, t) := TrackMessage now (Some (self c)) seqNum size isData t in
        _ ← emodify (λ w, w <| mgr ::= λ m, m <| msgTracker := Some t |> |>);
        mret nonce
      else mret 0
  | None => mret 0
  end.

Definition sendViaI2CPWithTracking (bs : bytes) (seqNum : Z) (isData : bool) : M unit :=
  s ← getc session;
  match s with
  | None => fail ENoSession
  | Some _ =>
      nonce ← trackMessage seqNum (Z.of_nat (length bs)) isData;
      SendMessage bs nonce
  end.

Definition marshal (pkt : Packet) : M bytes :=
  match Marshal pkt with
  | Ok bs => mret bs
  | Err e => fail (EMarshal e)
  | Panic => lift Panic
  end.

Definition sendPacketLocked (pkt : Packet) : M unit :=
  bs ← marshal pkt;
  _ ← trackPacketForRetransmission pkt bs;
  _ ← sendViaI2CPWithTracking bs (SequenceNum pkt) (negb (length (Payload pkt) =? 0)%nat);
  now ← Now;
  setc (λ c, c <| lastActivity := now |>).

(** [&Packet{...}] with the four words, the flags and the rest zero. *)
Definition base_Packet (send recv seq ack flags : Z) : Packet :=
  empty_Packet <| SendStreamID := send |> <| RecvStreamID := recv |> <| SequenceNum := seq |>
    <| AckThrough := ack |> <| Flags := flags |>.

(** The range loop appends a key, then stops once it has [count]. *)
Definition getNACKListSliceLocked (maxNacks : Z) : M (list Z) :=
  l ← getc (λ c, elements (nackList c));
  if (length l =? 0)%nat then mret []
  else
    let count := Z.min (Z.of_nat (length l)) maxNacks in
    keys ← range_keys l;
    mret (take (Z.to_nat (Z.max 1 count)) keys).

(** The NACKs of an acknowledgement: none when nothing is missing. *)
Definition packetNACKs : M (list Z) :=
  l ← getc nackList;
  if (0 <? size l)%nat then getNACKListSliceLocked MaxNACKs else mret [].

Definition sendAckLocked : M unit :=
  c ← getc id;
  let pkt := base_Packet (localStreamID c) (remoteStreamID c) 0 (recvSeq c -% 1) 0 in
  nacks ← packetNACKs;
  sendPacketLocked (pkt <| NACKs := nacks |>).

Definition sendChokeSignalLocked : M unit :=
  c ← getc id;
  let pkt := base_Packet (localStreamID c) (remoteStreamID c) 0 (recvSeq c -% 1) FlagDelayRequested in
  let pkt := pkt <| OptionalDelay := SendDelayChoke |> in
  nacks ← packetNACKs;
  _ ← setc (λ c, c <| sendingChoke := true |>);
  sendPacketLocked (pkt <| NACKs := nacks |>).

Definition sendUnchokeSignalLocked : M unit :=
  c ← getc id;
  let pkt := base_Packet (localStreamID c) (remoteStreamID c) 0 (recvSeq c -% 1) FlagDelayRequested in
  let pkt := pkt <| OptionalDelay := 0 |> in
  nacks ← packetNACKs;
  _ ← setc (λ c, c <| sendingChoke := false |>);
  sendPacketLocked (pkt <| NACKs := nacks |>).

(** [SignPacket(pkt, keyPair)]: the packet afterwards, and the error. *)
Definition sign (pkt : Packet) (kp : Ed25519KeyPair) : M (Packet * option CryptoError) :=
  match SignPacket kp pkt with
  | (Ok _, p) => mret (p, None)
  | (Err e, p) => mret (p, Some e)
  | (Panic, _) => lift Panic
  end.

(** Signing a CLOSE is best effort: its errors are only logged. *)
Definition sendCloseLocked : M unit :=
  c ← getc id;
  let pkt := base_Packet (localStreamID c) (remoteStreamID c) (sendSeq c) (recvSeq c -% 1) FlagCLOSE in
  pkt ← match session c with
        | None => mret pkt
        | Some s =>
            let pkt :=
              pkt <| Flags ::= λ f, Z.lor f (Z.lor FlagSignatureIncluded FlagFromIncluded) |> in
            let pkt := pkt <| FromDestination := session_Destination s |> in
            match SigningKeyPair s with
            | None => mret pkt
            | Some kp => '(pkt, _) ← sign pkt kp; mret pkt
            end
        end;
  sendPacketLocked pkt.
End Conn.
