(* ===== verification/ConnRecv.v ===== *)
(** * Receiving (stream.go)

    The receive side of a connection: in-sequence, duplicate and out-of-order
    data packets, the list of missing sequence numbers, choke signals by
    buffer usage, and [Read]. *)

From S2P Require Import Prelude GoInt SeqNum I2CP Packet Floats Runtime Conn.

Section Recv.
Context {I : I2CP} {B : CircBuf} {RT : GoRuntime}.
Abbreviation M := (STE World ConnError).
Implicit Types pkt : Packet.

(** ** The NACK list *)

Definition removeFromNACKListLocked (seq : Z) : M unit :=
  l ← getc nackList;
  if bool_decide (seq ∈ l) then setc (λ c, c <| nackList ::= λ l, l ∖ {[seq]} |>) else mret ().

Definition shouldAddToNACKListLocked (seq : Z) : M bool :=
  c ← getc id;
  match outOfOrderPackets c !! seq with
  | Some _ => mret false
  | None => mret (negb (bool_decide (seq ∈ nackList c)))
  end.

(** [for i := ...; i < gap; i++], breaking at capacity; [n] iterations are
    left and [i] is the counter. *)
Fixpoint addMissingSequencesFrom (i : Z) (n : nat) : M unit :=
  match n with
  | O => mret ()
  | S n =>
      c ← getc id;
      let seq := recvSeq c +% i in
      if MaxNACKs <=? Z.of_nat (size (nackList c)) then mret ()
      else
        b ← shouldAddToNACKListLocked seq;
        _ ← ewhen b (setc (λ c, c <| nackList ::= λ l, l ∪ {[seq]} |>));
        addMissingSequencesFrom (i + 1) n
  end.

Definition addMissingSequencesToNACKListLocked (gap : Z) : M unit :=
  addMissingSequencesFrom 0 (Z.to_nat gap).

Definition calculateSequenceGapLocked (receivedSeq : Z) : M Z :=
  c ← getc id;
  let gap := receivedSeq -% recvSeq c in
  let maxIterations := MaxNACKs in
  if maxIterations <? gap then mret maxIterations else mret gap.

Definition updateNACKListLocked (receivedSeq : Z) : M unit :=
  gap ← calculateSequenceGapLocked receivedSeq;
  addMissingSequencesToNACKListLocked gap.

(** ** Choke signals *)

Definition calculateBufferUsage (currentBufferUsed : Z) : M float :=
  b ← getc recvBuf;
  mret (fdiv (of_int currentBufferUsed) (of_int (buf_Size b))).

Definition updateChokeStateForUsage (bufferUsage : float) : M unit :=
  c ← getc id;
  if fltb c0_8 bufferUsage && negb (sendingChoke c) then
    _ ← try sendChokeSignalLocked; mret ()
  else if fltb bufferUsage c0_3 && sendingChoke c then
    _ ← try sendUnchokeSignalLocked; mret ()
  else mret ().

Definition manageChokeStateLocked : M unit :=
  c ← getc id;
  let currentBufferUsed := buf_TotalWritten (recvBuf c) in
  if currentBufferUsed =? lastBufferCheck c then mret ()
  else
    _ ← setc (λ c, c <| lastBufferCheck := currentBufferUsed |>);
    bufferUsage ← calculateBufferUsage currentBufferUsed;
    updateChokeStateForUsage bufferUsage.

(** ** Data packets *)

(** [n, err := s.recvBuf.Write(p)]; [None] when [err] is not nil. *)
Definition writeRecvBuf (p : bytes) : M (option Z) :=
  b ← getc recvBuf;
  let '(n, ok, b') := buf_Write b p in
  _ ← setc (λ c, c <| recvBuf := b' |>);
  mret (if ok : bool then Some n else None).

Definition handleBufferFullLocked (pkt : Packet) (seq : Z) : M unit :=
  _ ← setc (λ c, c <| outOfOrderPackets ::= <[seq := pkt]> |>);
  c ← getc sendingChoke;
  _ ← ewhen (negb c) (_ ← try sendChokeSignalLocked; mret ());
  _ ← try sendAckLocked;
  mret ().

(** The loop runs once per contiguous buffered packet, so the number of
    buffered packets bounds it. *)
Fixpoint deliverBufferedPackets (fuel : nat) : M unit :=
  match fuel with
  | O => fail EBlocked
  | S fuel =>
      c ← getc id;
      match outOfOrderPackets c !! recvSeq c with
      | None => mret ()
      | Some pkt =>
          n ← writeRecvBuf (Payload pkt);
          match n with
          | None => mret ()
          | Some n =>
              _ ← setc (λ c, c <| recvSeq ::= λ s, s +% 1 |>);
              _ ← setc (λ c, c <| totalBytesReceived ::= λ t, u64 (t + n) |>);
              _ ← setc (λ c, c <| outOfOrderPackets ::= delete (SequenceNum pkt) |>);
              _ ← removeFromNACKListLocked (SequenceNum pkt);
              deliverBufferedPackets fuel
          end
      end
  end.

Definition deliverBufferedPacketsLocked : M unit :=
  n ← getc (λ c, size (outOfOrderPackets c));
  deliverBufferedPackets (S n).

Definition processInSequencePacketLocked (pkt : Packet) (seq : Z) : M unit :=
  n ← writeRecvBuf (Payload pkt);
  match n with
  | None => handleBufferFullLocked pkt seq
  | Some n =>
      _ ← setc (λ c, c <| recvSeq ::= λ s, s +% 1 |>);
      _ ← setc (λ c, c <| totalBytesReceived ::= λ t, u64 (t + n) |>);
      _ ← removeFromNACKListLocked seq;
      _ ← deliverBufferedPacketsLocked;
      a ← getc ackThrough;
      _ ← ewhen (negb (has_flag (Flags pkt) FlagNoACK) && seqGreaterThan (AckThrough pkt) a)
            (setc (λ c, c <| ackThrough := AckThrough pkt |>));
      _ ← manageChokeStateLocked;
      _ ← recvBroadcast;
      c ← getc id;
      ewhen (negb (sendingChoke c) || (0 <? size (nackList c))%nat)
        (_ ← try sendAckLocked; mret ())
  end.

Definition handleOutOfOrderPacketLocked (pkt : Packet) (seq : Z) : M unit :=
  _ ← setc (λ c, c <| outOfOrderPackets ::= <[seq := pkt]> |>);
  _ ← removeFromNACKListLocked seq;
  _ ← updateNACKListLocked seq;
  _ ← try sendAckLocked;
  mret ().

Definition handleDataLocked (pkt : Packet) : M unit :=
  let seq := SequenceNum pkt in
  r ← getc recvSeq;
  if seq =? r then processInSequencePacketLocked pkt seq
  else if seqLessThan seq r then mret ()
  else handleOutOfOrderPacketLocked pkt seq.

(** ** Read

    [cond.Wait] releases the lock: what the other goroutines do meanwhile is a
    function of the world, one for each wait in [waits]; when the list is
    exhausted the caller is still blocked. *)

Definition checkReadDeadlineLocked : M unit :=
  c ← getc id;
  if time_IsZero (readDeadline c) then mret ()
  else
    now ← Now;
    if time_After now (readDeadline c) then fail ETimeout else mret ().

Definition validateReadStateLocked : M unit :=
  c ← getc id;
  if closed c && (buf_TotalWritten (recvBuf c) =? 0) then fail EEOF else mret ().

(** Whether a timer is returned; it wakes the reader at the deadline. *)
Definition setupReadTimer : M bool :=
  c ← getc id;
  if time_IsZero (readDeadline c) then mret false
  else
    now ← Now;
    let timeout := time_Sub (readDeadline c) now in
    mret (negb (timeout <=? 0)).

Fixpoint waitForReadDataLocked (waits : list (World → World)) : M unit :=
  c ← getc id;
  if (buf_TotalWritten (recvBuf c) =? 0) && negb (closed c) then
    _ ← checkReadDeadlineLocked;
    timer ← setupReadTimer;
    d ← getc readDeadline;
    if negb timer && negb (time_IsZero d) then fail ETimeout
    else
      match waits with
      | [] => fail EBlocked
      | f :: waits =>
          _ ← emodify f;
          _ ← checkReadDeadlineLocked;
          waitForReadDataLocked waits
      end
  else mret ().

(** [buf] has length [buflen]; the bytes copied into it are returned. *)
Definition consumeBufferDataLocked (buflen : nat) : M (bytes * option ConnError) :=
  b ← getc recvBuf;
  let data := buf_Bytes b in
  let n := Nat.min buflen (length data) in
  _ ← setc (λ c, c <| recvBuf := buf_Reset b |>);
  if (n <? length data)%nat then
    r ← writeRecvBuf (drop n data);
    match r with
    | None => mret (take n data, Some EBufferFull)
    | Some _ => mret (take n data, None)
    end
  else mret (take n data, None).

Definition handlePostReadActionsLocked : M unit :=
  c ← getc id;
  _ ← ewhen (0 <? size (outOfOrderPackets c))%nat deliverBufferedPacketsLocked;
  c ← getc id;
  if sendingChoke c then
    bufferUsage ← calculateBufferUsage (buf_TotalWritten (recvBuf c));
    if fltb bufferUsage c0_3 then _ ← try sendUnchokeSignalLocked; mret () else mret ()
  else mret ().

Definition Read (waits : list (World → World)) (buflen : nat) : M (bytes * option ConnError) :=
  e ← try (_ ← validateReadStateLocked;
           _ ← waitForReadDataLocked waits;
           validateReadStateLocked);
  match e with
  | Some e => mret ([], Some e)
  | None =>
      '(bs, e) ← consumeBufferDataLocked buflen;
      match e with
      | Some e => mret (bs, Some e)
      | None => _ ← handlePostReadActionsLocked; mret (bs, None)
      end
  end.
End Recv.
