(* ===== verification/ConnAck.v ===== *)
(** * Acknowledgements, timers and congestion control (stream.go)

    RTT estimation and the retransmission timeout, the congestion window, the
    handling of ackThrough and NACKs, retransmission on NACK and on timeout,
    choking by the peer with its persist timer, and the keepalive. *)

From S2P Require Import Prelude GoInt SeqNum I2CP Packet Floats Runtime Conn.
From Stdlib Require Import Strings.Byte.

Section Ack.
Context {I : I2CP} {B : CircBuf} {RT : GoRuntime}.
Abbreviation M := (STE World ConnError).
Implicit Types pkt : Packet.

(** ** Round-trip time *)

Definition updateRTTEstimate (rtt' : Z) : M unit :=
  _ ← setc (λ c, c <| rtt := rtt' |>);
  c ← getc id;
  if srtt c =? 0 then
    _ ← setc (λ c, c <| srtt := rtt' |>);
    setc (λ c, c <| rttVariance := Z.quot rtt' 2 |>)
  else
    let diff := if rtt' <? srtt c then i64 (srtt c - rtt') else i64 (rtt' - srtt c) in
    _ ← setc (λ c, c <| rttVariance ::= λ v,
          trunc (fadd (fmul (of_int v) c0_75) (fmul c0_25 (of_int diff))) |>);
    setc (λ c, c <| srtt ::= λ v,
          trunc (fadd (fmul (of_int v) c0_875) (fmul c0_125 (of_int rtt'))) |>).

Definition calculateRTO : M unit :=
  _ ← setc (λ c, c <| rto := i64 (srtt c + i64 (4 * rttVariance c)) |>);
  c ← getc id;
  _ ← ewhen (rto c <? MinRTO) (setc (λ c, c <| rto := MinRTO |>));
  c ← getc id;
  ewhen (MaxRTO <? rto c) (setc (λ c, c <| rto := MaxRTO |>)).

Definition getResendDelaySeconds : M Z :=
  c ← getc id;
  let rtoSeconds := Z.quot (rto c) Second in
  if rtoSeconds <=? 0 then mret 1
  else if 255 <? rtoSeconds then mret 255
  else mret (u8 rtoSeconds).

Definition measureRTTFromAck (ackThrough : Z) : M unit :=
  m ← getc sentPackets;
  match m !! ackThrough with
  | None => mret ()
  | Some info =>
      now ← Now;
      let rtt := time_Sub now (sentTime info) in
      _ ← updateRTTEstimate rtt;
      calculateRTO
  end.

(** ** The congestion window *)

Definition updateCongestionWindow : M unit :=
  c ← getc id;
  if cwnd c <? ssthresh c then
    _ ← setc (λ c, c <| cwnd := Z.min (u32 (cwnd c * 2)) (ssthresh c) |>);
    setc (λ c, c <| windowSize := cwnd c |>)
  else
    _ ← setc (λ c, c <| cwnd := Z.min (cwnd c +% 1) MaxWindowSize |>);
    setc (λ c, c <| windowSize := cwnd c |>).

Definition reduceCongestionWindowLocked : M unit :=
  _ ← setc (λ c, c <| ssthresh := Z.max (cwnd c / 2) 2 |>);
  _ ← setc (λ c, c <| cwnd := ssthresh c |>);
  setc (λ c, c <| windowSize := cwnd c |>).

(** ** Retransmission *)

Definition retransmitPacketLocked (seq : Z) : M unit :=
  m ← getc sentPackets;
  match m !! seq with
  | None => mret ()
  | Some info =>
      s ← getc session;
      _ ← ewhen (bool_decide (is_Some s)) (SendMessage (data info) 0);
      now ← Now;
      setc (λ c, c <| sentPackets ::= <[seq := MkSent (data info) now (retries info + 1)]> |>)
  end.

(** The loop of [handleNACKsLocked]; [triggered] is [retransmitTriggered]. *)
Fixpoint handleNACKs (nacks : list Z) (triggered : bool) : M unit :=
  match nacks with
  | [] => mret ()
  | nackSeq :: nacks =>
      _ ← setc (λ c, c <| nackCounts ::= λ m, <[nackSeq := default 0 (m !! nackSeq) + 1]> m |>);
      count ← getc (λ c, default 0 (nackCounts c !! nackSeq));
      if FastRetransmitThreshold <=? count then
        _ ← ewhen (negb triggered) reduceCongestionWindowLocked;
        _ ← try (retransmitPacketLocked nackSeq);
        _ ← setc (λ c, c <| nackCounts ::= delete nackSeq |>);
        handleNACKs nacks true
      else handleNACKs nacks triggered
  end.

Definition handleNACKsLocked (nacks : list Z) : M unit :=
  if (length nacks =? 0)%nat then mret () else handleNACKs nacks false.

Definition cleanupAckedPacketsLocked (oldAck newAck : Z) (currentNACKs : list Z) : M unit :=
  let nackSet : gset Z := list_to_set currentNACKs in
  before ← getc id;
  _ ← setc (λ c, c <| sentPackets ::=
        filter (λ kv, seqLessThanOrEqual kv.1 newAck = false) |>);
  _ ← setc (λ c, c <| nackCounts ::=
        filter (λ kv, kv.1 ∈ nackSet ∨ seqLessThanOrEqual kv.1 newAck = false) |>);
  after ← getc id;
  let cleaned := (size (sentPackets before) - size (sentPackets after))%nat in
  let nackCountsCleaned := (size (nackCounts before) - size (nackCounts after))%nat in
  ewhen ((0 <? cleaned)%nat || (0 <? nackCountsCleaned)%nat) sendBroadcast.

(** ** Choked by the peer *)

Definition startPersistTimerLocked : M unit :=
  c ← getc id;
  if bool_decide (is_Some (persistTimer c)) || bool_decide (session c = None) then mret ()
  else
    n ← egets (λ w, length (spawned w));
    _ ← setc (λ c, c <| persistStopChan := Some n |>);
    _ ← setc (λ c, c <| persistTimer := Some n |>);
    go (GPersistTimer n).

Definition stopPersistTimerLocked : M unit :=
  c ← getc id;
  _ ← ewhen (bool_decide (is_Some (persistTimer c))) (setc (λ c, c <| persistTimer := None |>));
  ewhen (bool_decide (is_Some (persistStopChan c))) (setc (λ c, c <| persistStopChan := None |>)).

(** The probe consumes a sequence number and is not kept for retransmission. *)
Definition sendProbePacketLocked : M unit :=
  c ← getc id;
  if bool_decide (session c = None) || closed c then mret ()
  else
    let pkt := base_Packet (remoteStreamID c) (localStreamID c) (sendSeq c) (recvSeq c -% 1) 0 in
    match Marshal (pkt <| Payload := [x00] |>) with
    | Ok bs =>
        _ ← setc (λ c, c <| sendSeq ::= λ s, s +% 1 |>);
        _ ← try (SendMessage bs 0);
        mret ()
    | Err _ => mret ()
    | Panic => lift Panic
    end.

(** One firing of the persist timer; whether its goroutine goes on. *)
Definition persistTimerFired : M bool :=
  c ← getc id;
  if negb (choked c) || closed c || bool_decide (persistTimer c = None) then mret false
  else
    _ ← sendProbePacketLocked;
    mret true.

Definition handleOptionalDelayLocked (pkt : Packet) : M unit :=
  if negb (has_flag (Flags pkt) FlagDelayRequested) then mret ()
  else
    wasChoked ← getc choked;
    if MinDelayChoke <=? OptionalDelay pkt then
      _ ← setc (λ c, c <| choked := true |>);
      now ← Now;
      _ ← setc (λ c, c <| chokedUntil := time_Add now Second |>);
      ewhen (negb wasChoked) startPersistTimerLocked
    else
      _ ← setc (λ c, c <| choked := false |>);
      _ ← setc (λ c, c <| chokedUntil := 0 |>);
      ewhen wasChoked
        (_ ← stopPersistTimerLocked;
         sendBroadcast).

(** ** Acknowledgements *)

Definition handleAckLocked (pkt : Packet) : M unit :=
  c ← getc id;
  _ ← (if has_flag (Flags pkt) FlagNoACK then mret ()
       else if seqGreaterThan (AckThrough pkt) (ackThrough c) then
         let oldAck := ackThrough c in
         _ ← setc (λ c, c <| ackThrough := AckThrough pkt |>);
         _ ← measureRTTFromAck (AckThrough pkt);
         _ ← cleanupAckedPacketsLocked oldAck (AckThrough pkt) (NACKs pkt);
         updateCongestionWindow
       else mret ());
  _ ← handleNACKsLocked (NACKs pkt);
  handleOptionalDelayLocked pkt.

(** ** The retransmission timer *)

Definition findTimedOutPacketsLocked : M (list Z) :=
  now ← Now;
  c ← getc id;
  keys ← range_keys (map_to_list (sentPackets c)).*1;
  mret (filter (λ seq, match sentPackets c !! seq with
                       | Some info => rto c <? time_Sub now (sentTime info)
                       | None => false
                       end = true) keys).

Definition applyExponentialBackoffLocked : M unit :=
  _ ← setc (λ c, c <| rto ::= λ r, i64 (r * 2) |>);
  c ← getc id;
  ewhen (MaxRTO <? rto c) (setc (λ c, c <| rto := MaxRTO |>)).

Fixpoint retransmitTimedOutPacketsLocked (timedOutSeqs : list Z) : M unit :=
  match timedOutSeqs with
  | [] => mret ()
  | seq :: seqs =>
      m ← getc sentPackets;
      match m !! seq with
      | None => lift Panic
      | Some info =>
          if MaxRetransmissions <=? retries info then fail (EMaxRetransmissions seq)
          else
            _ ← try (retransmitPacketLocked seq);
            retransmitTimedOutPacketsLocked seqs
      end
  end.

Definition checkRetransmissions : M unit :=
  c ← getc id;
  if rto c =? 0 then mret ()
  else
    timedOutSeqs ← findTimedOutPacketsLocked;
    if (length timedOutSeqs =? 0)%nat then mret ()
    else
      _ ← applyExponentialBackoffLocked;
      retransmitTimedOutPacketsLocked timedOutSeqs.

(** ** Keepalive *)

Definition checkInactivity : M unit :=
  c ← getc id;
  if (inactivityTimeout c =? 0) || negb (bool_decide (state c = StateEstablished)) || closed c
  then mret ()
  else
    now ← Now;
    let inactiveDuration := time_Sub now (lastActivity c) in
    if inactiveDuration <? inactivityTimeout c then mret ()
    else
      e ← try sendAckLocked;
      match e with
      | Some _ => mret ()
      | None => now ← Now; setc (λ c, c <| lastActivity := now |>)
      end.

(** ** Delivery reports of I2CP (through the message tracker) *)

Definition handleMessageDelivered (seqNum : Z) : M unit :=
  m ← getc sentPackets;
  ewhen (bool_decide (is_Some (m !! seqNum))) (setc (λ c, c <| sentPackets ::= delete seqNum |>)).

Definition handleMessageFailed (seqNum : Z) (retriable : bool) : M unit :=
  c ← getc id;
  if closed c then mret ()
  else if negb retriable then mret ()
  else
    match sentPackets c !! seqNum with
    | None => mret ()
    | Some info =>
        let retryCount := retries info + 1 in
        _ ← setc (λ c, c <| sentPackets ::= <[seqNum := MkSent (data info) (sentTime info) retryCount]> |>);
        if retryCount <=? MaxRetransmissions then _ ← try (sendViaI2CP (data info)); mret () else mret ()
    end.
End Ack.
