(* ===== verification/ConnLife.v ===== *)
(** * The life of a connection (stream.go)

    Creation, the client's and the server's half of the handshake, the
    dispatch of incoming packets on state and flags, closing and reset, and
    the deadlines. *)

From S2P Require Import Prelude GoInt SeqNum I2CP Packet Crypto Limits Floats Sha256 TCBCache.
From S2P Require Import Runtime Conn ConnRecv ConnAck.
From Stdlib Require Import Strings.Byte.

Section Life.
Context {I : I2CP} {B : CircBuf} {RT : GoRuntime}.
Abbreviation M := (STE World ConnError).
Implicit Types pkt : Packet.

(** ** Creation *)

Definition validateConnectionParams (session : option Session) (dest : option Destination) (mtu : Z)
    : M unit :=
  if mtu <? MinMTU then fail (EMTULow mtu)
  else if (DefaultMTU <? mtu) && negb (mtu =? ECIESMTU) then fail (EMTUHigh mtu)
  else match session with
       | None => fail ENilSession
       | Some _ => match dest with None => fail ENilDest | Some _ => mret () end
       end.

Definition drawISN : M Z :=
  rs ← egets rands;
  let '(r, rs) := generateISN rs in
  _ ← emodify (λ w, w <| rands := rs |>);
  match r with Ok v => mret v | Err _ => fail ERand | Panic => lift Panic end.

Definition drawStreamID : M Z :=
  rs ← egets rands;
  let '(r, rs) := generateStreamID rs in
  _ ← emodify (λ w, w <| rands := rs |>);
  match r with Ok v => mret v | Err _ => fail ERand | Panic => lift Panic end.

(** Both are drawn as initial sequence numbers. *)
Definition generateConnectionIdentifiers : M (Z * Z) :=
  isn ← drawISN;
  localStreamID ← drawISN;
  mret (isn, localStreamID).

Definition initializeStreamConn (self : positive) (session : option Session) (manager : bool)
    (dest : option Destination) (localPort remotePort mtu isn localStreamID : Z) (recvBuf : Buffer)
    (now : Z) : StreamConn :=
  MkConn self manager session dest localPort remotePort localStreamID 0
    isn 0 0 0 0
    DefaultWindowSize DefaultWindowSize MaxWindowSize (8 * Second) (9 * Second) 0 0
    false 0 None None false 0
    (u16 mtu) 0
    ∅ ∅ ∅ ∅
    recvBuf [] false 0 0
    0 0 now DefaultInactivityTimeout
    0 0 false StateInit.

(** tcb_cache.go *)
Definition calculateRTOFromValues (srtt rttVariance : Z) : Z :=
  let granularity := Millisecond in
  let k := i64 (rttVariance * 4) in
  let k := if k <? granularity then granularity else k in
  let rto := i64 (srtt + k) in
  let rto := if rto <? MinRTO then MinRTO else rto in
  if MaxRTO <? rto then MaxRTO else rto.

(** tcb_cache.go *)
Definition applyTCBDataToConnection (data : TCBData) : M unit :=
  if negb (FromCache data) then mret ()
  else
    _ ← ewhen (0 <? RTT data) (setc (λ c, c <| srtt := RTT data |> <| rtt := RTT data |>));
    _ ← ewhen (0 <? RTTVariance data) (setc (λ c, c <| rttVariance := RTTVariance data |>));
    c ← getc id;
    _ ← ewhen ((0 <? WindowSize data) && (cwnd c <? WindowSize data))
          (_ ← setc (λ c, c <| cwnd := WindowSize data |>);
           _ ← setc (λ c, c <| ssthresh := u32 (WindowSize data * 2) |>);
           c ← getc id;
           ewhen (MaxWindowSize <? ssthresh c) (setc (λ c, c <| ssthresh := MaxWindowSize |>)));
    ewhen ((0 <? RTT data) || (0 <? RTTVariance data))
      (setc (λ c, c <| rto := calculateRTOFromValues (srtt c) (rttVariance c) |>)).

(** tcb_cache.go *)
Definition saveTCBDataFromConnection : M TCBData :=
  c ← getc id;
  mret (MkTCBData (srtt c) (rttVariance c) (cwnd c) true).

Definition applyCachedTCB (dest : option Destination) : M unit :=
  c ← getc id;
  t ← egets (λ w, tcb (mgr w));
  match t with
  | Some t =>
      if manager c then
        now ← Now;
        let '((rtt, rttVar, windowSize, found), t) := Get now dest t in
        _ ← emodify (λ w, w <| mgr ::= λ m, m <| tcb := Some t |> |>);
        ewhen found (applyTCBDataToConnection (MkTCBData rtt rttVar windowSize true))
      else mret ()
  | None => mret ()
  end.

(** The new connection takes its place in the world. *)
Definition createConnectionStruct (self : positive) (session : option Session) (manager : bool)
    (dest : option Destination) (localPort remotePort mtu : Z) : M unit :=
  _ ← validateConnectionParams session dest mtu;
  '(isn, localStreamID) ← generateConnectionIdentifiers;
  match NewBuffer (64 * 1024) with
  | None => fail ENewBuffer
  | Some recvBuf =>
      now ← Now;
      _ ← setc (λ _, initializeStreamConn self session manager dest localPort remotePort mtu isn
            localStreamID recvBuf now);
      _ ← applyCachedTCB dest;
      p ← egets (λ w, profileConfig (mgr w));
      setc (λ c, c <| profile := if manager : bool then p else ProfileBulk |>)
  end.

(** ** The client's handshake *)

Definition sessionOf : M Session :=
  s ← getc session;
  match s with Some s => mret s | None => lift Panic end.

(** Eight big-endian words of the hash of the peer's destination. *)
Definition hash_words (h : bytes) : list Z :=
  (λ i, be_get (take 4 (drop (i * 4) h))) <$> seq 0 8.

Definition generateReplayPreventionNACKs : M (list Z) :=
  d ← getc dest;
  match hashDestination d with
  | None => fail EHashDest
  | Some destHash => mret (hash_words destHash)
  end.

Definition buildSYNPacket (nacks : list Z) : M Packet :=
  c ← getc id;
  s ← sessionOf;
  let flags := Z.lor (Z.lor (Z.lor (Z.lor FlagSYN FlagNoACK) FlagMaxPacketSizeIncluded)
                 FlagSignatureIncluded) FlagFromIncluded in
  let flags := Z.lor flags (profileToFlag (profile c)) in
  let pkt := base_Packet 0 (localStreamID c) (sendSeq c) 0 flags in
  mret (pkt <| MaxPacketSize := localMTU c |> <| NACKs := nacks |>
          <| FromDestination := session_Destination s |>).

(** [SignPacket] with its error returned. *)
Definition signOrFail (pkt : Packet) : M Packet :=
  s ← sessionOf;
  match SigningKeyPair s with
  | None => fail ENoSigningKey
  | Some keyPair =>
      '(pkt, e) ← sign pkt keyPair;
      match e with Some e => fail (ECrypto e) | None => mret pkt end
  end.

Definition signAndSendPacket (pkt : Packet) : M unit :=
  pkt ← signOrFail pkt;
  data ← marshal pkt;
  SendMessage data 0.

Definition sendSYN : M unit :=
  nacks ← generateReplayPreventionNACKs;
  pkt ← buildSYNPacket nacks;
  _ ← signAndSendPacket pkt;
  setc (λ c, c <| sendSeq ::= λ s, s +% 1 |>).

Definition isSynAckPacket (pkt : Packet) : bool :=
  has_flag (Flags pkt) FlagSYN && (0 <? SendStreamID pkt).

(** What the select of [waitForSynAck] receives: the packets taken from
    [recvChan] in order, [None] when the context times out. *)
Fixpoint waitForSynAck (events : list (option Packet)) : M Packet :=
  match events with
  | [] => fail EBlocked
  | None :: _ => fail ETimeout
  | Some pkt :: events => if isSynAckPacket pkt then mret pkt else waitForSynAck events
  end.

Definition validateSynAckAckThrough (pkt : Packet) : M unit :=
  c ← getc id;
  let expectedAck := sendSeq c -% 1 in
  if negb (AckThrough pkt =? expectedAck) then fail (ESynAckMismatch expectedAck (AckThrough pkt))
  else mret ().

Definition extractRemoteMTUFromSynAck (pkt : Packet) : M unit :=
  if has_flag (Flags pkt) FlagMaxPacketSizeIncluded && (0 <? MaxPacketSize pkt)
  then setc (λ c, c <| remoteMTU := MaxPacketSize pkt |>)
  else setc (λ c, c <| remoteMTU := DefaultMTU |>).

Definition extractRemoteProfileFromSynAck (pkt : Packet) : M unit :=
  setc (λ c, c <| remoteProfile := profileFromFlag (Flags pkt) |>).

Definition processSynAck (pkt : Packet) : M unit :=
  _ ← validateSynAckAckThrough pkt;
  _ ← setc (λ c, c <| recvSeq := SequenceNum pkt +% 1 |>);
  _ ← setc (λ c, c <| remoteStreamID := SendStreamID pkt |>);
  _ ← setc (λ c, c <| ackThrough := AckThrough pkt |>);
  _ ← extractRemoteMTUFromSynAck pkt;
  extractRemoteProfileFromSynAck pkt.

Definition sendACK : M unit :=
  c ← getc id;
  let pkt := base_Packet (localStreamID c) (remoteStreamID c) 0 (recvSeq c -% 1) 0 in
  data ← marshal pkt;
  _ ← sessionOf;
  SendMessage data 0.

Definition completeHandshake (events : list (option Packet)) : M unit :=
  synAck ← waitForSynAck events;
  _ ← processSynAck synAck;
  sendACK.

Definition startConnectionGoroutines : M unit :=
  _ ← go GReceiveLoop;
  _ ← go GRetransmitTimer;
  go GInactivityTimer.

Definition performHandshake (events : list (option Packet)) : M unit :=
  _ ← sendSYN;
  _ ← setState StateSynSent;
  _ ← completeHandshake events;
  _ ← setState StateEstablished;
  startConnectionGoroutines.

(** manager.go *)
Definition RegisterConnection : M unit :=
  c ← getc id;
  emodify (λ w, w <| mgr ::= λ m,
    m <| connections ::= <[(localPort c, remotePort c) := self c]> |> |>).
Definition UnregisterConnection : M unit :=
  c ← getc id;
  emodify (λ w, w <| mgr ::= λ m, m <| connections ::= delete (localPort c, remotePort c) |> |>).

Definition DialWithManager (self : positive) (session : option Session) (dest : option Destination)
    (localPort remotePort : Z) (events : list (option Packet)) : M unit :=
  _ ← createConnectionStruct self session true dest localPort remotePort DefaultMTU;
  _ ← RegisterConnection;
  e ← try (performHandshake events);
  match e with
  | Some EBlocked => fail EBlocked
  | Some e => _ ← UnregisterConnection; fail e
  | None => mret ()
  end.

Definition DialWithMTU (self : positive) (session : option Session) (dest : option Destination)
    (localPort remotePort mtu : Z) (events : list (option Packet)) : M unit :=
  _ ← createConnectionStruct self session false dest localPort remotePort mtu;
  performHandshake events.

Definition Dial (self : positive) (session : option Session) (dest : option Destination)
    (localPort remotePort : Z) (events : list (option Packet)) : M unit :=
  DialWithMTU self session dest localPort remotePort DefaultMTU events.

(** ** The server's half *)

Definition buildSynAckPacket : M Packet :=
  c ← getc id;
  s ← sessionOf;
  let flags := Z.lor (Z.lor (Z.lor FlagSYN FlagMaxPacketSizeIncluded) FlagSignatureIncluded)
                 FlagFromIncluded in
  let flags := if profile c =? ProfileInteractive then Z.lor flags FlagProfileInteractive else flags in
  let pkt := base_Packet (localStreamID c) (remoteStreamID c) (sendSeq c) (recvSeq c -% 1) flags in
  mret (pkt <| MaxPacketSize := localMTU c |> <| FromDestination := session_Destination s |>).

Definition transmitSynAckPacket (pkt : Packet) : M unit :=
  data ← marshal pkt;
  SendMessage data 0.

Definition sendSynAck : M unit :=
  pkt ← buildSynAckPacket;
  pkt ← signOrFail pkt;
  _ ← transmitSynAckPacket pkt;
  setc (λ c, c <| sendSeq ::= λ s, s +% 1 |>).

Definition handleFinalAckLocked (pkt : Packet) : M unit :=
  _ ← setc (λ c, c <| ackThrough := AckThrough pkt |>);
  _ ← setState StateEstablished;
  _ ← go GRetransmitTimer;
  go GInactivityTimer.

Definition handleSynAckLocked (pkt : Packet) : M unit :=
  c ← getc id;
  if negb (bool_decide (state c = StateSynSent)) then fail EUnexpectedSynAck
  else
    _ ← setc (λ c, c <| recvSeq := SequenceNum pkt +% 1 |>);
    _ ← extractRemoteMTUFromSynAck pkt;
    _ ← sendAckLocked;
    setState StateEstablished.

(** ** Close and reset *)

Definition verifyIfSigned (pkt : Packet) : M unit :=
  if has_flag (Flags pkt) FlagSignatureIncluded then
    match VerifyPacketSignature pkt with
    | (Ok _, _) => mret ()
    | (Err e, _) => fail (ECrypto e)
    | (Panic, _) => lift Panic
    end
  else mret ().

Definition handleCloseLocked (pkt : Packet) : M unit :=
  _ ← verifyIfSigned pkt;
  c ← getc id;
  match state c with
  | StateEstablished =>
      _ ← try sendCloseLocked;
      _ ← setState StateClosed;
      _ ← setc (λ c, c <| closed := true |>);
      recvBroadcast
  | StateClosing =>
      _ ← setState StateClosed;
      _ ← setc (λ c, c <| closed := true |>);
      recvBroadcast
  | _ => mret ()
  end.

Definition handleResetLocked (pkt : Packet) : M unit :=
  _ ← verifyIfSigned pkt;
  _ ← setState StateClosed;
  _ ← setc (λ c, c <| closed := true |>);
  _ ← recvBroadcast;
  fail EResetByPeer.

Definition sendCloseIfEstablished : M unit :=
  c ← getc id;
  if negb (bool_decide (state c = StateEstablished)) then mret ()
  else
    _ ← try sendCloseLocked;
    setState StateClosing.

Definition wakeBlockedGoroutines : M unit := _ ← recvBroadcast; sendBroadcast.

(** [s.manager.tcbCache.Put(...)] *)
Definition cacheTCB : M unit :=
  c ← getc id;
  t ← egets (λ w, tcb (mgr w));
  match t with
  | Some t =>
      if manager c && bool_decide (is_Some (dest c)) && ((0 <? srtt c) || (0 <? rttVariance c)) then
        now ← Now;
        let t := snd (Put now (dest c) (srtt c) (rttVariance c) (cwnd c) t) in
        emodify (λ w, w <| mgr ::= λ m, m <| tcb := Some t |> |>)
      else mret ()
  | None => mret ()
  end.

(** [s.manager.limiter.ConnectionClosed()] *)
Definition limiterClosed : M unit :=
  emodify (λ w, w <| mgr ::= λ m, m <| limiter ::= fmap (λ l, snd (ConnectionClosed l)) |> |>).

Definition cleanupConnectionLocked : M unit :=
  _ ← cacheTCB;
  c ← getc id;
  _ ← ewhen (manager c) (_ ← UnregisterConnection; limiterClosed);
  _ ← stopPersistTimerLocked;
  _ ← setc (λ c, c <| ctx_done := true |>);
  _ ← setc (λ c, c <| closed := true |>);
  wakeBlockedGoroutines.

Definition Close : M unit :=
  c ← getc id;
  if closed c then mret ()
  else
    _ ← sendCloseIfEstablished;
    cleanupConnectionLocked.

(** One tick of the retransmission timer's goroutine: whether it goes on. *)
Definition retransmitTimerTick : M bool :=
  e ← try checkRetransmissions;
  match e with
  | Some _ => _ ← Close; mret false
  | None => mret true
  end.

(** ** Dispatch *)

Definition dispatchPacketByFlags (pkt : Packet) : M unit :=
  c ← getc id;
  let f := has_flag (Flags pkt) in
  if f FlagSYN && (0 <? SendStreamID pkt) then handleSynAckLocked pkt
  else if bool_decide (state c = StateSynRcvd) && negb (f FlagSYN) && negb (f FlagCLOSE)
            && negb (f FlagRESET) then handleFinalAckLocked pkt
  else if f FlagCLOSE then handleCloseLocked pkt
  else if f FlagRESET then handleResetLocked pkt
  else if (SequenceNum pkt =? 0) && negb (f FlagSYN) then handleAckLocked pkt
  else if (0 <? length (Payload pkt))%nat then handleDataLocked pkt
  else mret ().

Definition processPacket (pkt : Packet) : M unit :=
  now ← Now;
  _ ← setc (λ c, c <| lastActivity := now |>);
  dispatchPacketByFlags pkt.

(** The select has a default, so it never blocks; when the queue has room and
    the context is done, Go picks either ([pick]). *)
Definition handleIncomingPacket (pick : bool) (pkt : Packet) : M unit :=
  c ← getc id;
  let room := (length (recvChan c) <? 32)%nat in
  if room && (pick || negb (ctx_done c)) then setc (λ c, c <| recvChan ::= λ q, q ++ [pkt] |>)
  else if ctx_done c then fail EClosed
  else fail EQueueFull.

(** One turn of [receiveLoop]: the next packet is processed, its error logged. *)
Definition receiveLoopStep : M bool :=
  c ← getc id;
  match recvChan c with
  | [] => mret (negb (ctx_done c))
  | pkt :: q =>
      _ ← setc (λ c, c <| recvChan := q |>);
      _ ← try (processPacket pkt);
      mret true
  end.

(** ** Deadlines *)

Definition SetDeadline (t : Z) : M unit :=
  _ ← setc (λ c, c <| readDeadline := t |>);
  _ ← setc (λ c, c <| writeDeadline := t |>);
  recvBroadcast.
Definition SetReadDeadline (t : Z) : M unit :=
  _ ← setc (λ c, c <| readDeadline := t |>);
  recvBroadcast.
Definition SetWriteDeadline (t : Z) : M unit :=
  _ ← setc (λ c, c <| writeDeadline := t |>);
  sendBroadcast.

Definition SetInactivityTimeout (timeout : Z) : M unit :=
  setc (λ c, c <| inactivityTimeout := timeout |>).
Definition GetInactivityTimeout : M Z := getc inactivityTimeout.
End Life.
