(* ===== verification/ConnWrite.v ===== *)
(** * Write (stream.go)

    [Write] splits the data into packets of at most the negotiated MTU; before
    each it waits while the peer chokes us or the congestion window is full. *)

From S2P Require Import Prelude GoInt SeqNum I2CP Packet Runtime Conn ConnAck.

Section Write.
Context {I : I2CP} {B : CircBuf} {RT : GoRuntime}.
Abbreviation M := (STE World ConnError).

Definition checkWriteDeadlineLocked : M unit :=
  c ← getc id;
  if time_IsZero (writeDeadline c) then mret ()
  else
    now ← Now;
    if time_After now (writeDeadline c) then fail ETimeout else mret ().

Definition validateWriteStateLocked : M unit :=
  c ← getc id;
  if closed c then fail EClosed
  else if negb (bool_decide (state c = StateEstablished)) then fail (ENotEstablished (state c))
  else checkWriteDeadlineLocked.

(** A timer for the deadline, or else for the end of the choke, is started
    before the wait; it only broadcasts, so it is one of the things the other
    goroutines do. *)
Definition createChokeTimer : M Z :=
  c ← getc id;
  now ← Now;
  let timeout := time_Sub (if time_IsZero (writeDeadline c) then chokedUntil c else writeDeadline c) now in
  mret (if timeout <=? 0 then Nanosecond else timeout).

(** As for [Read], [waits] is what the other goroutines do during each wait;
    the waits left over are returned. *)
Fixpoint waitForChokeCondVar (waits : list (World → World)) : M (list (World → World)) :=
  c ← getc id;
  if choked c then
    now ← Now;
    if time_Before now (chokedUntil c) && negb (closed c) then
      _ ← checkWriteDeadlineLocked;
      _ ← createChokeTimer;
      match waits with
      | [] => fail EBlocked
      | f :: waits =>
          _ ← emodify f;
          _ ← checkWriteDeadlineLocked;
          _ ← validateWriteStateLocked;
          waitForChokeCondVar waits
      end
    else mret waits
  else mret waits.

Definition handleChokeWaitLocked (waits : list (World → World)) : M (list (World → World)) :=
  c ← getc id;
  if negb (choked c) then mret waits
  else
    now ← Now;
    if negb (time_Before now (chokedUntil c)) || closed c then mret waits
    else waitForChokeCondVar waits.

Definition setupWindowWaitTimer : M unit :=
  c ← getc id;
  if time_IsZero (writeDeadline c) then mret ()
  else _ ← Now; mret ().

Fixpoint waitForWindowSpace (waits : list (World → World)) : M (list (World → World)) :=
  c ← getc id;
  if (cwnd c <=? u32 (Z.of_nat (size (sentPackets c)))) && negb (closed c) then
    _ ← checkWriteDeadlineLocked;
    _ ← setupWindowWaitTimer;
    match waits with
    | [] => fail EBlocked
    | f :: waits =>
        _ ← emodify f;
        _ ← checkWriteDeadlineLocked;
        _ ← validateWriteStateLocked;
        waitForWindowSpace waits
    end
  else mret waits.

Definition sendDataChunk (chunk : bytes) : M unit :=
  c ← getc id;
  resend ← getResendDelaySeconds;
  let pkt := base_Packet (localStreamID c) (remoteStreamID c) (sendSeq c) (recvSeq c -% 1) 0 in
  _ ← sendPacketLocked (pkt <| ResendDelay := resend |> <| Payload := chunk |>);
  _ ← setc (λ c, c <| sendSeq ::= λ s, s +% 1 |>);
  setc (λ c, c <| totalBytesSent ::= λ t, u64 (t + Z.of_nat (length chunk)) |>).

(** [data] is what is left, [total] the length of the whole; with an MTU of
    zero the chunks are empty and the loop does not end. *)
Fixpoint writeChunksLocked (fuel : nat) (waits : list (World → World)) (data : bytes)
    (total : nat) (mtu : nat) : M (nat * option ConnError) :=
  match fuel with
  | O => fail EBlocked
  | S fuel =>
      if (length data =? 0)%nat then mret (total, None)
      else
        r ← catch (waitForWindowSpace waits);
        match r with
        | inr e => mret ((total - length data)%nat, Some e)
        | inl waits =>
            let chunk := if (mtu <? length data)%nat then take mtu data else data in
            e ← try (sendDataChunk chunk);
            match e with
            | Some e => mret ((total - length data)%nat, Some e)
            | None => writeChunksLocked fuel waits (drop (length chunk) data) total mtu
            end
        end
  end.

Definition writeDataLocked (waits : list (World → World)) (data : bytes) : M (nat * option ConnError) :=
  mtu ← getNegotiatedMTULocked;
  writeChunksLocked (S (length data)) waits data (length data) (Z.to_nat mtu).

Definition Write (waits : list (World → World)) (data : bytes) : M (nat * option ConnError) :=
  r ← catch (_ ← validateWriteStateLocked; handleChokeWaitLocked waits);
  match r with
  | inr e => mret (0%nat, Some e)
  | inl waits => writeDataLocked waits data
  end.
End Write.
