(* ===== verification/Delivery.v ===== *)
(** * A packet from one side to the other

    What a session signs, marshals and sends is, at the receiver, a packet with
    the same fields whose signature verifies.  The facts about single packets
    are put together here for the theorems about two managers. *)

From S2P Require Import Prelude GoInt I2CP Packet PacketProps Crypto Runtime Conn.
From Stdlib Require Import Strings.Byte.

Section Delivery.
Context {I : I2CP} {B : CircBuf} `{!I2CPLaws I}.
Implicit Types p : Packet.

(** The session of a client: its destination has a wire form, and its key
    makes signatures of the right length that the destination verifies. *)
Record session_ok (x : Session) (d : Destination) : Prop := {
  so_dest : session_Destination x = Some d;
  so_key : ∃ kp, SigningKeyPair x = Some kp ∧ key_of kp d ∧
    ∀ data, ∃ sig, Sign kp data = Some sig ∧ length sig = getSignatureLength (Some d);
  so_wire : ∃ bs, WriteToMessage d = Some bs ∧ Z.of_nat (length bs) < 60000;
}.

Lemma SignPacket_run kp p d sig :
  marshal_ok p → FromDestination p = Some d → has_flag (Flags p) FlagSignatureIncluded = true →
  Sign kp (wire (unsigned p)) = Some sig → length sig = getSignatureLength (Some d) →
  SignPacket kp p = (Ok (), p <| Signature := sig |>).
Proof.
  intros Hok Hd Hf Hs Hl. unfold SignPacket. rewrite (ste_step _ _ _ p p) by done.
  unfold validateSignPacketPrereqs. rewrite Hd, Hf. cbn [negb].
  rewrite (ste_step _ _ _ () p) by done.
  rewrite (ste_step _ _ _ (wire (unsigned p), getSignatureLength (FromDestination p)) p)
    by (unfold lift; by rewrite prepareDataForSigning_spec).
  unfold signAndValidate. rewrite Hs, Hd, Hl, Nat.eqb_refl. done.
Qed.

(** A packet with FROM and an offline-free signature block. *)
Record signable p d : Prop := {
  sg_from : FromDestination p = Some d;
  sg_flag_from : has_flag (Flags p) FlagFromIncluded = true;
  sg_flag_sig : has_flag (Flags p) FlagSignatureIncluded = true;
  sg_offline : has_flag (Flags p) FlagOfflineSignature = false;
  sg_sig : Signature p = [];
  sg_nacks : (length (NACKs p) ≤ 255)%nat;
  sg_wf : packet_wf p;
}.

Lemma signable_ok p d x : signable p d → session_ok x d → marshal_ok p.
Proof.
  intros Hp Hx. split; [apply Hp|..].
  - intros _. destruct (so_wire _ _ Hx) as (bs & ? & _). pose proof (sg_from _ _ Hp). eauto.
  - intros _. rewrite (sg_from _ _ Hp). pose proof (getSignatureLength_pos d). split; [lia|left; apply Hp].
  - rewrite (sg_offline _ _ Hp). done.
Qed.

Lemma opt_delay_le p : (length (opt_delay p) ≤ 2)%nat.
Proof. unfold opt_delay. case_if; [by rewrite length_PutUint16|cbn; lia]. Qed.
Lemma opt_mps_le p : (length (opt_mps p) ≤ 2)%nat.
Proof. unfold opt_mps. case_if; [by rewrite length_PutUint16|cbn; lia]. Qed.

Lemma signed_sendable p d x sig :
  signable p d → session_ok x d → length sig = getSignatureLength (Some d) →
  sendable (p <| Signature := sig |>).
Proof.
  intros Hp Hx Hl. destruct (so_wire _ _ Hx) as (bs & Hbs & Hlen). destruct Hp as [Hd Hff Hfs Hfo Hsig Hn Hwf].
  split; [intros _; exact Hff|cbn; by rewrite Hfo|].
  unfold options. rewrite !length_app.
  pose proof (opt_delay_le (p <| Signature := sig |>)). pose proof (opt_mps_le (p <| Signature := sig |>)).
  assert (length (opt_from (p <| Signature := sig |>)) = length bs) as ->.
  { unfold opt_from. cbn. rewrite Hff, Hd. cbn. by rewrite Hbs. }
  assert (length (opt_offline (p <| Signature := sig |>)) = 0%nat) as ->
    by (unfold opt_offline; cbn; by rewrite Hfo).
  assert (length (wire_signature (p <| Signature := sig |>)) ≤ 512)%nat.
  { unfold wire_signature. cbn. rewrite Hfs. pose proof (getSignatureLength_le (Some d)).
    case_if; [lia|]. rewrite length_replicate, Hd. done. }
  lia.
Qed.

(** The signed packet, and what the receiver makes of it. *)
Lemma signed_arrives p d x kp :
  signable p d → session_ok x d → SigningKeyPair x = Some kp →
  ∃ sig, let p' := p <| Signature := sig |> in
    SignPacket kp p = (Ok (), p') ∧ Marshal p' = Ok (wire p') ∧
    Unmarshal (wire p') empty_Packet = (Ok (), wire_view p') ∧
    VerifyPacketSignature (wire_view p') = (Ok (), wire_view p').
Proof.
  intros Hp Hx Hkp. destruct (so_key _ _ Hx) as (kp' & Hkp' & Hk & Hsign).
  rewrite Hkp in Hkp'. injection Hkp' as <-.
  destruct (Hsign (wire (unsigned p))) as (sig & Hs & Hl).
  pose proof (SignPacket_run kp p d sig (signable_ok p d x Hp Hx) (sg_from _ _ Hp) (sg_flag_sig _ _ Hp) Hs Hl) as Hr.
  destruct (signed_delivery p _ kp d Hr (sg_from _ _ Hp) Hk (sg_wf _ _ Hp) (signed_sendable p d x sig Hp Hx Hl))
    as (H1 & H2 & H3).
  exists sig. cbv zeta. split; [done|]. split; [done|]. split; [|done].
  unfold unmarshal_fresh in H2. by destruct (Unmarshal _ empty_Packet) as [[[]|e|] q]; simplify_eq.
Qed.

(** [data] is the wire form of [p] under the session's key. *)
Definition signed (x : Session) p (data : bytes) : Prop :=
  ∃ kp p', SigningKeyPair x = Some kp ∧ SignPacket kp p = (Ok (), p') ∧ Marshal p' = Ok data.

(** What the receiver of a signed packet reads. *)
Definition parsed_signed p q : Prop :=
  ∃ sig, q = wire_view (p <| Signature := sig |>) ∧ fst (VerifyPacketSignature q) = Ok ().

Lemma signed_delivered p d x :
  signable p d → session_ok x d →
  (∃ data, signed x p data) ∧
  ∀ data, signed x p data → ∃ q, Unmarshal data empty_Packet = (Ok (), q) ∧ parsed_signed p q.
Proof.
  intros Hp Hx. destruct (so_key _ _ Hx) as (kp & Hkp & _).
  destruct (signed_arrives p d x kp Hp Hx Hkp) as (sig & H1 & H2 & H3 & H4). cbv zeta in *.
  split; [by eexists _, kp, _|]. intros data (kp' & p' & G1 & G2 & G3).
  rewrite Hkp in G1. injection G1 as <-. assert (p' = p <| Signature := sig |>) as -> by congruence.
  assert (data = wire (p <| Signature := sig |>)) as -> by congruence.
  eexists. split; [exact H3|]. exists sig. by rewrite H4.
Qed.

(** A packet without FROM and signatures. *)
Record plain p : Prop := {
  pl_from : has_flag (Flags p) FlagFromIncluded = false;
  pl_sig : has_flag (Flags p) FlagSignatureIncluded = false;
  pl_offline : has_flag (Flags p) FlagOfflineSignature = false;
  pl_nacks : (length (NACKs p) ≤ 255)%nat;
  pl_wf : packet_wf p;
}.

Lemma plain_arrives p : plain p →
  Marshal p = Ok (wire p) ∧ Unmarshal (wire p) empty_Packet = (Ok (), wire_view p).
Proof.
  intros []. assert (Hok : marshal_ok p) by (split; [done|congruence..]).
  split; [by apply Marshal_wire|].
  assert (Hs : sendable p).
  { split; [congruence..|]. unfold options, opt_from, opt_offline, wire_signature.
    rewrite pl_from0, pl_sig0, pl_offline0, !length_app. cbn [length].
    pose proof (opt_delay_le p). pose proof (opt_mps_le p). lia. }
  pose proof (Unmarshal_wire p pl_wf0 Hok Hs) as H. unfold unmarshal_fresh in H.
  by destruct (Unmarshal _ empty_Packet) as [[[]|e|] q]; simplify_eq.
Qed.
End Delivery.
