(* ===== verification/ConnFrames.v ===== *)
(** * Reasoning about the connection's methods

    What the proofs about a connection share: unfolding the methods that send
    down to primitive steps, that sending does not panic, and how an invariant
    of one part of the state is carried through the methods that do not touch
    that part. *)

From S2P Require Import Prelude GoInt SeqNum I2CP Packet PacketProps Floats Crypto Runtime Conn.
From S2P Require Import ConnRecv ConnAck ConnLife ConnWrite.

(** Unfold the methods that send, down to their primitive steps. *)
Ltac unfold_send :=
  unfold sendAckLocked, sendChokeSignalLocked, sendUnchokeSignalLocked, packetNACKs,
    getNACKListSliceLocked, sendCloseLocked, sign, sendPacketLocked, sendViaI2CPWithTracking,
    trackMessage, trackPacketForRetransmission, sendViaI2CP, marshal, range_keys, SendMessage,
    setState, recvBroadcast, sendBroadcast, Now, go, getc, setc.

(** The methods are constants for instance search, so that it does not unfold
    one to look for another's instance. *)
#[global] Typeclasses Opaque getc setc Now range_keys SendMessage recvBroadcast sendBroadcast go
  setState getNegotiatedMTULocked trackPacketForRetransmission sendViaI2CP trackMessage
  sendViaI2CPWithTracking marshal sendPacketLocked getNACKListSliceLocked packetNACKs
  sendAckLocked sendChokeSignalLocked sendUnchokeSignalLocked sign sendCloseLocked
  removeFromNACKListLocked shouldAddToNACKListLocked addMissingSequencesFrom
  addMissingSequencesToNACKListLocked calculateSequenceGapLocked updateNACKListLocked
  calculateBufferUsage updateChokeStateForUsage manageChokeStateLocked writeRecvBuf
  handleBufferFullLocked deliverBufferedPackets deliverBufferedPacketsLocked
  processInSequencePacketLocked handleOutOfOrderPacketLocked handleDataLocked
  checkReadDeadlineLocked validateReadStateLocked setupReadTimer waitForReadDataLocked
  consumeBufferDataLocked handlePostReadActionsLocked Read updateRTTEstimate calculateRTO
  getResendDelaySeconds measureRTTFromAck updateCongestionWindow reduceCongestionWindowLocked
  retransmitPacketLocked handleNACKs handleNACKsLocked cleanupAckedPacketsLocked
  startPersistTimerLocked stopPersistTimerLocked sendProbePacketLocked persistTimerFired
  handleOptionalDelayLocked handleAckLocked findTimedOutPacketsLocked
  applyExponentialBackoffLocked retransmitTimedOutPacketsLocked checkRetransmissions
  checkInactivity handleMessageDelivered handleMessageFailed validateConnectionParams drawISN
  drawStreamID generateConnectionIdentifiers applyTCBDataToConnection saveTCBDataFromConnection
  applyCachedTCB createConnectionStruct sessionOf generateReplayPreventionNACKs buildSYNPacket
  signOrFail signAndSendPacket sendSYN waitForSynAck validateSynAckAckThrough
  extractRemoteMTUFromSynAck extractRemoteProfileFromSynAck processSynAck sendACK
  completeHandshake startConnectionGoroutines performHandshake RegisterConnection
  UnregisterConnection DialWithManager DialWithMTU buildSynAckPacket transmitSynAckPacket sendSynAck
  handleFinalAckLocked handleSynAckLocked verifyIfSigned handleCloseLocked handleResetLocked
  sendCloseIfEstablished wakeBlockedGoroutines cacheTCB limiterClosed cleanupConnectionLocked
  Close retransmitTimerTick dispatchPacketByFlags processPacket handleIncomingPacket
  receiveLoopStep SetDeadline SetReadDeadline SetWriteDeadline SetInactivityTimeout
  GetInactivityTimeout checkWriteDeadlineLocked validateWriteStateLocked createChokeTimer
  waitForChokeCondVar handleChokeWaitLocked setupWindowWaitTimer waitForWindowSpace
  sendDataChunk writeChunksLocked writeDataLocked Write.

(** A state-and-error method that only reads. *)
Lemma run_same {S E A} {T} (f : S → T) (m : STE S E A) s :
  Pres (same f) m → f (snd (m s)) = f s.
Proof. intros H. apply H. Qed.

Section Frames.
Context {I : I2CP} {B : CircBuf} {RT : GoRuntime}.

#[global] Instance marshal_safe (pkt : Packet) : Safe (marshal pkt).
Proof.
  intros s. unfold marshal. pose proof (Marshal_inv pkt) as H. by destruct (Marshal pkt).
Qed.
#[global] Instance sendPacket_safe (pkt : Packet) : Safe (sendPacketLocked pkt).
Proof.
  unfold sendPacketLocked, sendViaI2CPWithTracking, trackMessage, trackPacketForRetransmission,
    SendMessage, Now, getc, setc. apply _.
Qed.
#[global] Instance packetNACKs_safe : Safe packetNACKs.
Proof. unfold packetNACKs, getNACKListSliceLocked, range_keys, getc. apply _. Qed.
#[global] Instance sendAck_safe : Safe sendAckLocked.
Proof. unfold sendAckLocked, getc. apply _. Qed.
#[global] Instance sendChoke_safe : Safe sendChokeSignalLocked.
Proof. unfold sendChokeSignalLocked, getc, setc. apply _. Qed.
#[global] Instance sendUnchoke_safe : Safe sendUnchokeSignalLocked.
Proof. unfold sendUnchokeSignalLocked, getc, setc. apply _. Qed.
#[global] Instance sign_safe (pkt : Packet) kp : Safe (sign pkt kp : STE World ConnError _).
Proof.
  intros w. unfold sign, SignPacket, prepareDataForSigning. unfold mbind, ste_bind, lift, egets, emodify. cbn [id].
  pose proof (Marshal_inv pkt) as Hm.
  destruct (validateSignPacketPrereqs pkt) eqn:Ev; [|done|].
  - destruct (Marshal pkt); [|done|done]. cbn. case_if; [done|].
    unfold signAndValidate. destruct (Sign kp _); [|done]. case_if; done.
  - exfalso. revert Ev. unfold validateSignPacketPrereqs. by repeat case_match.
Qed.
#[global] Instance sendClose_safe : Safe (sendCloseLocked : STE World ConnError ()).
Proof. unfold sendCloseLocked, getc. apply _. Qed.

(** Verifying a signature only reads. *)
#[global] Instance verifyIfSigned_pres R `{!PreOrder R} (pkt : Packet) :
  Pres R (verifyIfSigned pkt : STE World ConnError ()).
Proof.
  intros w. unfold verifyIfSigned. case_if; [|reflexivity].
  destruct (VerifyPacketSignature pkt) as [[] ?]; reflexivity.
Qed.

#[global] Instance pres_state R {A} (s : ConnState) (m1 m2 m3 m4 m5 m6 m7 : STE World ConnError A) :
  Pres R m1 → Pres R m2 → Pres R m3 → Pres R m4 → Pres R m5 → Pres R m6 → Pres R m7 →
  Pres R (match s with
          | StateInit => m1 | StateSynSent => m2 | StateSynRcvd => m3 | StateEstablished => m4
          | StateCloseWait => m5 | StateClosing => m6 | StateClosed => m7
          end).
Proof. by destruct s. Qed.

(** A change of the connection only. *)
Definition updc (f : StreamConn → StreamConn) (w : World) : World := w <| conn ::= f |>.

Lemma updc_id f w : f (conn w) = conn w → updc f w = w.
Proof. intros H. unfold updc, upd, set_conn. rewrite H. by destruct w. Qed.

Lemma updc_ext f g w : f (conn w) = g (conn w) → updc f w = updc g w.
Proof. intros H. unfold updc, upd, set_conn. by rewrite H. Qed.

Lemma updc_updc f g w : updc f (updc g w) = updc (λ c, f (g c)) w.
Proof. done. Qed.

Lemma setc_eq f w : setc f w = (Ok (), updc f w).
Proof. done. Qed.

Lemma getc_step {A X} (f : StreamConn → A) (k : A → STE World ConnError X) w :
  (getc f ≫= k) w = k (f (conn w)) w.
Proof. done. Qed.

Lemma setc_step {X} f (k : () → STE World ConnError X) w : (setc f ≫= k) w = k () (updc f w).
Proof. done. Qed.

Lemma Now_step {X} (k : Z → STE World ConnError X) w :
  (Now ≫= k) w = k (clock (ticks w)) (w <| ticks ::= S |>).
Proof. done. Qed.

(** [m] returns, and leaves the component [f] alone. *)
#[global] Instance trackMessage_total s n b : Total (trackMessage s n b : STE World ConnError Z).
Proof. unfold trackMessage, Now, getc. apply _. Qed.

Lemma total_run {A T} (f : World → T) (m : STE World ConnError A) w :
  Total m → Pres (same f) m → ∃ a w', m w = (Ok a, w') ∧ f w' = f w.
Proof.
  intros Ht Hp. specialize (Ht w) as [a Ha]. specialize (Hp w).
  destruct (m w) as [r w']. cbn in *. subst. by exists a, w'.
Qed.
End Frames.
