(* ===== verification/ConnOps.v ===== *)
(** * Everything that can happen to a connection

    The operations of a connection as one inductive type: the user's calls,
    the packets handed over by the stream manager, the turns of its goroutines
    and the reports of I2CP.  A [Read] or [Write] that waits on a condition
    variable releases the lock: what the others do during each of its waits is
    a list of operations inside it.  A relation kept by every method is kept
    by every run. *)

From S2P Require Import Prelude GoInt SeqNum I2CP Packet Floats Runtime Conn ConnRecv ConnAck.
From S2P Require Import ConnLife ConnWrite ConnFrames.

Section Ops.
Context {I : I2CP} {B : CircBuf} {RT : GoRuntime}.
Implicit Types w : World.

#[warnings="-register-all"]
Inductive conn_op :=
| OpIncoming (pick : bool) (pkt : Packet)
| OpReceive
| OpRead (waits : list (list conn_op)) (k : nat)
| OpWrite (waits : list (list conn_op)) (data : bytes)
| OpClose
| OpRetransmitTick
| OpInactivityTick
| OpPersistTick
| OpDelivered (seqNum : Z)
| OpFailed (seqNum : Z) (retriable : bool)
| OpSetDeadline (t : Z)
| OpSetReadDeadline (t : Z)
| OpSetWriteDeadline (t : Z)
| OpSetInactivityTimeout (t : Z).

(** Induction that reaches the operations inside the waits. *)
Lemma conn_op_nested (P : conn_op → Prop) :
  (∀ waits k, Forall (Forall P) waits → P (OpRead waits k)) →
  (∀ waits data, Forall (Forall P) waits → P (OpWrite waits data)) →
  (∀ op, match op with OpRead _ _ | OpWrite _ _ => True | _ => P op end) →
  ∀ op, P op.
Proof.
  intros HR HW HO. fix IH 1. intros [| |waits k|waits d| | | | | | | | | |];
    try (match goal with |- P ?o => exact (HO o) end).
  - apply HR. induction waits as [|ops waits IHw]; constructor; [|exact IHw].
    induction ops as [|op ops IHo]; constructor; [apply IH|exact IHo].
  - apply HW. induction waits as [|ops waits IHw]; constructor; [|exact IHw].
    induction ops as [|op ops IHo]; constructor; [apply IH|exact IHo].
Qed.

Fixpoint conn_step (op : conn_op) (w : World) : World :=
  let env := map (λ ops w, fold_left (λ w op, conn_step op w) ops w) in
  match op with
  | OpIncoming pick pkt => snd (handleIncomingPacket pick pkt w)
  | OpReceive => snd (receiveLoopStep w)
  | OpRead waits k => snd (Read (env waits) k w)
  | OpWrite waits data => snd (Write (env waits) data w)
  | OpClose => snd (Close w)
  | OpRetransmitTick => snd (retransmitTimerTick w)
  | OpInactivityTick => snd (checkInactivity w)
  | OpPersistTick => snd (persistTimerFired w)
  | OpDelivered s => snd (handleMessageDelivered s w)
  | OpFailed s r => snd (handleMessageFailed s r w)
  | OpSetDeadline t => snd (SetDeadline t w)
  | OpSetReadDeadline t => snd (SetReadDeadline t w)
  | OpSetWriteDeadline t => snd (SetWriteDeadline t w)
  | OpSetInactivityTimeout t => snd (SetInactivityTimeout t w)
  end.

Definition conn_run (ops : list conn_op) (w : World) : World :=
  fold_left (λ w op, conn_step op w) ops w.

(** ** Waiting

    What [Read] and [Write] leave behind when the environment's steps are
    related by [R]. *)

#[local] Abbreviation M := (STE World ConnError).

(** Neither closed nor out of the established state: what [Write] checks. *)
Definition ready w : Prop := closed (conn w) = false ∧ state (conn w) = StateEstablished.
(** The congestion window has room for one more packet. *)
Definition window_open w : Prop :=
  u32 (Z.of_nat (size (sentPackets (conn w)))) < cwnd (conn w).

Definition standing w := (closed (conn w), state (conn w)).
Lemma ready_standing w w' : standing w' = standing w → ready w → ready w'.
Proof. unfold standing, ready. intros [= -> ->]. done. Qed.

#[export] Instance checkWriteDeadline_pres R `{!PreOrder R} :
  Pres R Now → Pres R checkWriteDeadlineLocked.
Proof. intros. unfold checkWriteDeadlineLocked, getc. apply _. Qed.
#[export] Instance validateWriteState_pres R `{!PreOrder R} :
  Pres R Now → Pres R validateWriteStateLocked.
Proof. intros. unfold validateWriteStateLocked, getc. apply _. Qed.
#[export] Instance Now_standing : Pres (same standing) Now.
Proof. unfold Now. apply _. Qed.
#[export] Instance Now_id : Pres (same conn) Now.
Proof. unfold Now. apply _. Qed.

#[export] Instance sendPacket_standing (pkt : Packet) : Pres (same standing) (sendPacketLocked pkt).
Proof. unfold_send. apply _. Qed.
#[export] Instance sendDataChunk_standing chunk : Pres (same standing) (sendDataChunk chunk).
Proof. unfold sendDataChunk, getResendDelaySeconds, getc, setc. cbv zeta. apply _. Qed.

Lemma validate_returns w : returns validateWriteStateLocked w (λ _ w', ready w').
Proof.
  intros a w' E. pose proof (returns_pres (same standing) validateWriteStateLocked w _ a w' E) as Hs.
  eapply ready_standing; [exact Hs|]. revert E. unfold validateWriteStateLocked.
  rewrite getc_step. cbn [id]. unfold ready.
  destruct (closed (conn w)); [done|]. case_bool_decide; done.
Qed.

Section Waiting.
Context (R : World → World → Prop) `{!PreOrder R} (HNow : Pres R Now).

(** Steps of the environment that [R] allows. *)
Definition env_ok (waits : list (World → World)) : Prop := Forall (λ f, ∀ w, R w (f w)) waits.

Lemma emodify_env f : (∀ w, R w (f w)) → Pres R (emodify f : M ()).
Proof. intros H. by apply pres_emodify. Qed.

Lemma waitForReadData_env waits : env_ok waits → Pres R (waitForReadDataLocked waits).
Proof.
  induction 1 as [|f waits Hf _ IH]; cbn [waitForReadDataLocked];
    unfold checkReadDeadlineLocked, setupReadTimer, getc; [apply _|].
  pose proof (emodify_env f Hf). apply _.
Qed.

Lemma Read_env waits k :
  (∀ n, Pres R (consumeBufferDataLocked n)) → Pres R handlePostReadActionsLocked →
  env_ok waits → Pres R (Read waits k).
Proof.
  intros Hc Hp He. pose proof (waitForReadData_env waits He).
  unfold Read, validateReadStateLocked, getc. apply _.
Qed.

Lemma waitForChoke_env waits :
  env_ok waits → Pres R (waitForChokeCondVar waits).
Proof.
  induction 1 as [|f waits Hf _ IH]; cbn [waitForChokeCondVar];
    unfold createChokeTimer, getc; [apply _|].
  pose proof (emodify_env f Hf). apply _.
Qed.

Lemma waitForWindow_env waits : env_ok waits → Pres R (waitForWindowSpace waits).
Proof.
  induction 1 as [|f waits Hf _ IH]; cbn [waitForWindowSpace];
    unfold setupWindowWaitTimer, getc; [apply _|].
  pose proof (emodify_env f Hf). apply _.
Qed.

(** After the wait for the peer's choke to end the connection is ready. *)
Lemma waitForChoke_returns waits : env_ok waits → ∀ w, ready w →
  returns (waitForChokeCondVar waits) w (λ ws w', env_ok ws ∧ ready w').
Proof.
  induction 1 as [|f waits Hf Hw IH]; intros w Hr; cbn [waitForChokeCondVar];
    apply returns_bind; intros c w1 [= <- <-]; cbn [id];
    (destruct (choked (conn w)); [|apply returns_ret; split; [constructor|]; done]);
    apply returns_bind; intros now w1 Hn;
    pose proof (returns_pres (same standing) Now w _ _ _ Hn) as Hs1;
    apply (ready_standing _ _ Hs1) in Hr;
    (case_if; [|apply returns_ret; split; [by constructor|done]]);
    apply returns_bind; intros [] w2 Hn2; clear Hn2;
    apply returns_bind; intros t w3 Hn3; clear Hn3.
  - apply returns_fail.
  - do 2 (apply returns_bind; intros [] ? _).
    apply returns_bind. eapply returns_impl; [apply validate_returns|].
    intros [] w5 Hr5. by apply IH.
Qed.

(** After the wait for the window it has room, or the connection is closed. *)
Lemma waitForWindow_returns waits : env_ok waits → ∀ w, ready w →
  returns (waitForWindowSpace waits) w (λ ws w', env_ok ws ∧ ready w' ∧ window_open w').
Proof.
  induction 1 as [|f waits Hf Hw IH]; intros w Hr; cbn [waitForWindowSpace];
    apply returns_bind; intros c w1 [= <- <-]; cbn [id];
    rewrite (proj1 Hr), andb_true_r;
    (case_if; zbool;
      [|apply returns_ret; split_and!; [by constructor|done|done]]);
    do 2 (apply returns_bind; intros [] ? _).
  - apply returns_fail.
  - do 2 (apply returns_bind; intros [] ? _).
    apply returns_bind. eapply returns_impl; [apply validate_returns|].
    intros [] w5 Hr5. by apply IH.
Qed.

(** What [Write] has established when it starts to send. *)
Lemma write_prefix_returns waits w : env_ok waits →
  returns (_ ← validateWriteStateLocked; handleChokeWaitLocked waits) w (λ ws w', env_ok ws ∧ ready w').
Proof.
  intros He. apply returns_bind. eapply returns_impl; [apply validate_returns|]. intros [] w1 Hr.
  unfold handleChokeWaitLocked. apply returns_bind. intros c w2 [= <- <-]. cbn [id].
  destruct (choked (conn w1)); [|by apply returns_ret]. cbn [negb].
  apply returns_bind. intros now w2 Hn.
  apply (ready_standing w1 w2) in Hr; [|by apply (returns_pres (same standing) Now w1 _ _ _ Hn)].
  case_if; [by apply returns_ret|]. by apply waitForChoke_returns.
Qed.

(** Chunks are sent only while ready and with room in the window. *)
Context (Hchunk : ∀ chunk w, ready w → window_open w → R w (snd (sendDataChunk chunk w))).

Lemma writeChunks_env fuel waits data total mtu w :
  env_ok waits → ready w → R w (snd (writeChunksLocked fuel waits data total mtu w)).
Proof.
  revert waits data w. induction fuel as [|fuel IH]; intros waits data w He Hr;
    cbn [writeChunksLocked]; [reflexivity|]. case_if; [reflexivity|].
  unfold catch. unfold mbind at 1, ste_bind at 1.
  pose proof (waitForWindow_env waits He w) as H1.
  pose proof (waitForWindow_returns waits He w Hr) as H2.
  destruct (waitForWindowSpace waits w) as [[ws|e|] w1] eqn:Ew; [|exact H1|exact H1].
  destruct (H2 _ _ Ew) as (He1 & Hr1 & Hw1). cbn [snd] in H1.
  etransitivity; [exact H1|]. unfold try. set (chunk := if (mtu <? length data)%nat then _ else _).
  unfold mbind, ste_bind. pose proof (Hchunk chunk w1 Hr1 Hw1) as H3.
  pose proof (sendDataChunk_standing chunk w1) as H4.
  destruct (sendDataChunk chunk w1) as [[[]|e|] w2]; [|exact H3|exact H3]. cbn [snd] in *.
  etransitivity; [exact H3|]. apply IH; [done|]. eapply ready_standing; [exact H4|done].
Qed.

Lemma Write_env waits data : env_ok waits → Pres R (Write waits data).
Proof.
  intros He w. unfold Write, catch. unfold mbind at 1, ste_bind at 1.
  set (pre := _ ← validateWriteStateLocked; handleChokeWaitLocked waits).
  assert (H1 : Pres R pre).
  { subst pre. unfold handleChokeWaitLocked, getc. pose proof (waitForChoke_env waits He). apply _. }
  pose proof (write_prefix_returns waits w He) as H2. fold pre in H2.
  specialize (H1 w). destruct (pre w) as [[ws|e|] w1] eqn:Ew; [|exact H1|exact H1].
  destruct (H2 _ _ Ew) as [He1 Hr1]. etransitivity; [exact H1|]. cbn [snd].
  unfold writeDataLocked.
  assert (Hm : ∃ m, getNegotiatedMTULocked w1 = (Ok m, w1)).
  { unfold getNegotiatedMTULocked. rewrite getc_step. cbn [id]. repeat case_if; by eexists. }
  destruct Hm as [m Hm]. rewrite (ste_step _ _ _ _ _ Hm). by apply writeChunks_env.
Qed.
End Waiting.

Section Kept.
Context (R : World → World → Prop) `{!PreOrder R}.

Lemma run_kept ops :
  Forall (λ op, ∀ w, R w (conn_step op w)) ops → ∀ w, R w (conn_run ops w).
Proof.
  unfold conn_run. induction 1 as [|op ops Hop _ IH]; intros w; cbn [fold_left]; [reflexivity|].
  etransitivity; [apply Hop|apply IH].
Qed.

Context (HRead : ∀ waits k, env_ok R waits → Pres R (Read waits k))
  (HWrite : ∀ waits data, env_ok R waits → Pres R (Write waits data))
  (HIn : ∀ pick pkt, Pres R (handleIncomingPacket pick pkt)) (HRecv : Pres R receiveLoopStep)
  (HClose : Pres R Close) (HTick : Pres R retransmitTimerTick) (HInact : Pres R checkInactivity)
  (HPersist : Pres R persistTimerFired) (HDel : ∀ s, Pres R (handleMessageDelivered s))
  (HFail : ∀ s r, Pres R (handleMessageFailed s r)) (HD : ∀ t, Pres R (SetDeadline t))
  (HRD : ∀ t, Pres R (SetReadDeadline t)) (HWD : ∀ t, Pres R (SetWriteDeadline t))
  (HIT : ∀ t, Pres R (SetInactivityTimeout t)).

Lemma conn_step_kept op w : R w (conn_step op w).
Proof.
  revert w. revert op. apply (conn_op_nested (λ op, ∀ w, R w (conn_step op w))); [intros waits k IH|intros waits d IH|intros op].
  - assert (env_ok R (map (λ ops, conn_run ops) waits)) as He.
    { apply Forall_map. eapply Forall_impl; [done|]. intros ops. apply run_kept. }
    intros w. apply (HRead _ k He).
  - assert (env_ok R (map (λ ops, conn_run ops) waits)) as He.
    { apply Forall_map. eapply Forall_impl; [done|]. intros ops. apply run_kept. }
    intros w. apply (HWrite _ d He).
  - destruct op; [| |exact Logic.I|exact Logic.I|..]; intros w.
    + apply (HIn pick pkt).
    + apply HRecv.
    + apply HClose.
    + apply HTick.
    + apply HInact.
    + apply HPersist.
    + apply (HDel seqNum).
    + apply (HFail seqNum retriable).
    + apply (HD t).
    + apply (HRD t).
    + apply (HWD t).
    + apply (HIT t).
Qed.

Lemma conn_run_kept ops w : R w (conn_run ops w).
Proof. apply run_kept. apply Forall_true. intros op. apply conn_step_kept. Qed.
End Kept.
End Ops.
