(* ===== verification/ConnExamples.v ===== *)
(** * A concrete connection

    An established connection over the concrete instances of the third-party
    interfaces, on which the theorems about connections are evaluated. *)

From S2P Require Import Prelude GoInt I2CP Packet Crypto Runtime Conn Delivery ConnRecv ConnAck ConnLife.
From Stdlib Require Import Strings.Byte.

Definition dest_A : @Destination ConcreteI2CP := replicate 384 x01 ++ [x05; x00; x04; x00; x07; x00; x04].
Definition session_A : @Session ConcreteI2CP := MkSession (Some dest_A) (Some (toy_key dest_A)).
Definition manager_A : ManagerView := MkManagerView None None None ∅ ProfileBulk.

(** An established connection with a 16-byte receive buffer. *)
Definition conn_ex : StreamConn :=
  (initializeStreamConn 1 (Some session_A) false (Some dest_A) 10 20 1730 500 7 (MkBuffer 16 [] 0) 0)
    <| state := StateEstablished |> <| recvSeq := 100 |> <| remoteStreamID := 9 |>.
Definition world_ex : World := MkWorld conn_ex manager_A 0 0 0 [] [] [].

(** A second destination, and a session of its own. *)
Definition dest_B : @Destination ConcreteI2CP := replicate 384 x02 ++ [x05; x00; x04; x00; x07; x00; x04].
Definition session_B : @Session ConcreteI2CP := MkSession (Some dest_B) (Some (toy_key dest_B)).

(** The sessions work. *)
Lemma session_A_ok : session_ok session_A dest_A.
Proof.
  split; [done| |].
  - exists (toy_key dest_A). split; [done|]. split; [apply toy_key_of|]. intros data.
    exists (toy_sum (toy_key dest_A) data). split; [done|]. by rewrite toy_sum_length.
  - exists dest_A. by vm_compute.
Qed.
Lemma session_B_ok : session_ok session_B dest_B.
Proof.
  split; [done| |].
  - exists (toy_key dest_B). split; [done|]. split; [apply toy_key_of|]. intros data.
    exists (toy_sum (toy_key dest_B) data). split; [done|]. by rewrite toy_sum_length.
  - exists dest_B. by vm_compute.
Qed.

(** A connection of [session_A] that is about to send its SYN to [dest_B]. *)
Definition dialing_ex : StreamConn :=
  initializeStreamConn 1 (Some session_A) true (Some dest_B) 10 443 1730 500 7 (MkBuffer 65536 [] 0) 0.
Definition dialing_world : World := MkWorld dialing_ex manager_A 0 0 0 [] [] [].
