(* ===== verification/ConnRecvProps.v ===== *)
(** * Properties of the receive side

    In-order delivery: whatever the network does to the packets of a stream
    (order, duplication, loss), what [Read] returns is a prefix of the stream,
    as long as the receive buffer does not overflow; the NACK list is bounded
    and names only holes in what has arrived. *)

From S2P Require Import Prelude GoInt SeqNum I2CP Packet PacketProps Floats Runtime Conn ConnRecv.
From S2P Require Import ConnAck ConnLife ConnWrite ConnFrames ConnExamples.
From Stdlib Require Import Strings.Byte.

Section Frames.
Context {I : I2CP} {B : CircBuf} {RT : GoRuntime}.

(** What the receive side reads and writes, apart from the choke state. *)
Definition rx (w : World) :=
  (recvSeq (conn w), outOfOrderPackets (conn w), recvBuf (conn w), nackList (conn w),
   state (conn w), closed (conn w)).

#[global] Instance sendAck_rx : Pres (same rx) sendAckLocked.
Proof. unfold_send. apply _. Qed.
#[global] Instance sendChoke_rx : Pres (same rx) sendChokeSignalLocked.
Proof. unfold_send. apply _. Qed.
#[global] Instance sendUnchoke_rx : Pres (same rx) sendUnchokeSignalLocked.
Proof. unfold_send. apply _. Qed.
#[global] Instance manageChoke_rx : Pres (same rx) manageChokeStateLocked.
Proof.
  unfold manageChokeStateLocked, updateChokeStateForUsage, calculateBufferUsage, getc, setc. apply _.
Qed.
#[global] Instance recvBroadcast_rx : Pres (same rx) recvBroadcast.
Proof. unfold recvBroadcast, setc. apply _. Qed.

#[global] Instance manageChoke_total : Total manageChokeStateLocked.
Proof.
  unfold manageChokeStateLocked, updateChokeStateForUsage, calculateBufferUsage, getc, setc. apply _.
Qed.
End Frames.

(** ** Packets of a stream *)

Section Reassembly.
Context {I : I2CP} {B : CircBuf} `{!CircBufLaws B} {RT : GoRuntime}.
(** The sequence number of the stream's first packet, and the payload of the
    packet of each index. *)
Context (base : Z) (payload : nat → bytes).
Implicit Types w : World.

Definition seqn (i : nat) : Z := base +% Z.of_nat i.

(** Streams shorter than 2^31 packets. *)
Definition LIM : Z := 2147483647.

Definition stream_packet (i : nat) (pkt : Packet) : Prop :=
  SequenceNum pkt = seqn i ∧ Payload pkt = payload i.

(** [n] packets have been delivered and those of [arr] have arrived. *)
Record RxInv (w : World) (n : nat) (arr : gset nat) : Prop := {
  ri_seq : recvSeq (conn w) = seqn n;
  ri_ooo : ∀ s pkt, outOfOrderPackets (conn w) !! s = Some pkt →
    ∃ i, i ∈ arr ∧ (n ≤ i)%nat ∧ s = seqn i ∧ stream_packet i pkt;
  ri_have : ∀ i, i ∈ arr → (n ≤ i)%nat → is_Some (outOfOrderPackets (conn w) !! seqn i);
  ri_prefix : ∀ i, (i < n)%nat → i ∈ arr;
  ri_bound : ∀ i, i ∈ arr → Z.of_nat i < LIM;
  ri_nack : ∀ s, s ∈ nackList (conn w) → ∃ j i, s = seqn j ∧ (j ∉ arr) ∧ (j < i)%nat ∧ i ∈ arr;
  ri_nacks : (size (nackList (conn w)) ≤ 255)%nat;
}.

Lemma RxInv_rx w w' n arr : rx w' = rx w → RxInv w n arr → RxInv w' n arr.
Proof.
  unfold rx. intros [=E1 E2 E3 E4 E5 E6] []. split; rewrite ?E1, ?E2, ?E3, ?E4; done.
Qed.

Lemma seqn_inj i j : Z.of_nat i <= LIM + 255 → Z.of_nat j <= LIM + 255 → seqn i = seqn j → i = j.
Proof.
  unfold LIM, seqn. intros Hi Hj H. apply seq_unwrap_inj in H; lia.
Qed.

Lemma seqn_S n : seqn n +% 1 = seqn (S n).
Proof. unfold seqn. rewrite u32_add_l. f_equal. lia. Qed.

Lemma RxInv_n w n arr : RxInv w n arr → Z.of_nat n <= LIM.
Proof.
  intros H. destruct n as [|n]; [unfold LIM; lia|].
  assert (n ∈ arr) by (apply (ri_prefix _ _ _ H); lia). apply (ri_bound _ _ _ H) in H0. lia.
Qed.

(** ** The buffer *)

Definition write_buf (b : Buffer) (p : bytes) : Buffer := snd (buf_Write b p).
Definition writes (b : Buffer) (ps : list bytes) : Buffer := foldl write_buf b ps.

Lemma writeRecvBuf_eq p w :
  writeRecvBuf p w = (Ok (Some (Z.of_nat (length p))),
    w <| conn ::= λ c, c <| recvBuf := write_buf (recvBuf (conn w)) p |> |>).
Proof.
  unfold writeRecvBuf, write_buf. unfold getc. erewrite ste_step by done.
  destruct (Write_ok (recvBuf (conn w)) p) as (b' & E & _). by rewrite E.
Qed.

Lemma removeFromNACKList_eq s w :
  removeFromNACKListLocked s w =
    (Ok (), w <| conn ::= λ c, c <| nackList := nackList c ∖ {[s]} |> |>).
Proof.
  unfold removeFromNACKListLocked, getc. erewrite ste_step by done. case_bool_decide as H; [done|].
  assert (nackList (conn w) ∖ {[s]} = nackList (conn w)) as E by set_solver.
  unfold mret, ste_ret. f_equal. unfold upd, set_conn, set_nackList. rewrite E.
  by destruct w as [[]].
Qed.

(** ** Delivering buffered packets *)

(** The world after packet [n], taken from the buffered ones or not, has been
    written to the receive buffer. *)
Definition delivered (w : World) (p : bytes) (s : Z) : World :=
  updc (λ c, c <| nackList := nackList c ∖ {[s]} |>)
    (updc (λ c, c <| outOfOrderPackets ::= delete s |>)
      (updc (λ c, c <| totalBytesReceived ::= λ t, u64 (t + Z.of_nat (length p)) |>)
        (updc (λ c, c <| recvSeq ::= λ s, s +% 1 |>)
          (updc (λ c, c <| recvBuf := write_buf (recvBuf (conn w)) p |>) w)))).

Lemma size_remove (X : gset Z) s : (size (X ∖ {[s]}) ≤ size X)%nat.
Proof. apply subseteq_size. set_solver. Qed.

Lemma RxInv_delivered w n arr :
  RxInv w n arr → n ∈ arr → RxInv (delivered w (payload n) (seqn n)) (S n) arr.
Proof.
  intros [Hs Ho Hh Hp Hb Hn Hns] Hin. pose proof (Hb n Hin).
  split; cbn; try done.
  - by rewrite Hs, seqn_S.
  - intros s pkt [Hne Hl]%lookup_delete_Some. destruct (Ho _ _ Hl) as (i & ? & ? & -> & ?).
    exists i. split_and!; try done. assert (i ≠ n) by (by intros ->). lia.
  - intros i Hi Hni. rewrite lookup_delete_ne; [apply Hh; [done|lia]|].
    intros E. specialize (Hb i Hi). apply seqn_inj in E; unfold LIM in *; lia.
  - intros i Hi. destruct (decide (i = n)) as [->|]; [done|]. apply Hp. lia.
  - intros s [Hs' _]%elem_of_difference. by apply Hn.
  - pose proof (size_remove (nackList (conn w)) (seqn n)). lia.
Qed.

(** A packet with the expected number joins those that have arrived. *)
Lemma RxInv_arrive_next w n arr :
  RxInv w n arr → n ∉ arr → Z.of_nat n < LIM →
  RxInv (delivered w (payload n) (seqn n)) (S n) ({[n]} ∪ arr).
Proof.
  intros [Hs Ho Hh Hp Hb Hn Hns] Hin Hlim. split; cbn.
  - by rewrite Hs, seqn_S.
  - intros s pkt [Hne Hl]%lookup_delete_Some. destruct (Ho _ _ Hl) as (i & ? & ? & -> & ?).
    exists i. split_and!; try done; [set_solver|]. assert (i ≠ n) by (by intros ->). lia.
  - intros i Hi Hni. assert (i ∈ arr) as Hi' by (apply elem_of_union in Hi as [?%elem_of_singleton|?]; [lia|done]).
    rewrite lookup_delete_ne; [apply Hh; [done|lia]|].
    intros E. specialize (Hb i Hi'). apply seqn_inj in E; unfold LIM in *; lia.
  - intros i Hi. destruct (decide (i = n)) as [->|]; [set_solver|]. apply elem_of_union_r, Hp. lia.
  - intros i [->%elem_of_singleton|Hi]%elem_of_union; [lia|auto].
  - intros s [Hs' Hne]%elem_of_difference. destruct (Hn s Hs') as (j & i & -> & Hj & ? & ?).
    exists j, i. split_and!; try done; [|set_solver]. intros [->%elem_of_singleton|]%elem_of_union; [|done]. set_solver.
  - pose proof (size_remove (nackList (conn w)) (seqn n)). lia.
Qed.

Lemma deliver_stop fuel w n arr :
  RxInv w n arr → n ∉ arr → deliverBufferedPackets (S fuel) w = (Ok (), w).
Proof.
  intros [Hs Ho _ _ Hb _ _] Hin. cbn [deliverBufferedPackets]. unfold getc.
  erewrite ste_step by done. cbn [id]. rewrite Hs.
  destruct (outOfOrderPackets (conn w) !! seqn n) as [pkt|] eqn:E; [|done].
  destruct (Ho _ _ E) as (i & Hi & Hni & Heq & _). specialize (Hb i Hi).
  apply seqn_inj in Heq; [by subst|unfold LIM in *; lia..].
Qed.

Lemma deliver_step fuel w n arr :
  RxInv w n arr → n ∈ arr →
  deliverBufferedPackets (S fuel) w = deliverBufferedPackets fuel (delivered w (payload n) (seqn n)).
Proof.
  intros [Hs Ho Hh _ Hb _ _] Hin. cbn [deliverBufferedPackets]. unfold getc.
  erewrite ste_step by done. cbn [id]. rewrite Hs.
  destruct (Hh n Hin ltac:(lia)) as [pkt E]. rewrite E.
  destruct (Ho _ _ E) as (i & Hi & Hni & Heq & Hseq & Hpay).
  pose proof (Hb i Hi). pose proof (Hb n Hin).
  apply seqn_inj in Heq; [subst i|unfold LIM in *; lia..]. rewrite Hseq, Hpay.
  erewrite ste_step by apply writeRecvBuf_eq. cbv iota.
  do 3 erewrite ste_step by (unfold setc, emodify; reflexivity).
  erewrite ste_step by apply removeFromNACKList_eq. unfold delivered, updc. reflexivity.
Qed.

Lemma RxInv_ooo_size w n arr :
  RxInv w n arr → n ∈ arr →
  (size (outOfOrderPackets (conn (delivered w (payload n) (seqn n)))) < size (outOfOrderPackets (conn w)))%nat.
Proof.
  intros H Hin. cbn. destruct (ri_have _ _ _ H n Hin ltac:(lia)) as [pkt E].
  rewrite map_size_delete, E. cbn.
  assert (size (outOfOrderPackets (conn w)) ≠ 0%nat) by (rewrite map_size_ne_0_lookup; eauto). lia.
Qed.

Definition rest (w : World) := (state (conn w), closed (conn w)).

(** With fuel for every buffered packet the loop ends: it has delivered the
    packets up to the first one that has not arrived, in order. *)
Lemma deliver_spec fuel w n arr :
  RxInv w n arr → (size (outOfOrderPackets (conn w)) < fuel)%nat →
  ∃ n' w', deliverBufferedPackets fuel w = (Ok (), w') ∧ (n ≤ n')%nat ∧
    RxInv w' n' arr ∧ (n' ∉ arr) ∧ rest w' = rest w ∧
    recvBuf (conn w') = writes (recvBuf (conn w)) (payload <$> seq n (n' - n)).
Proof.
  revert w n. induction fuel as [|fuel IH]; intros w n Hi Hf; [lia|].
  destruct (decide (n ∈ arr)) as [Hin|Hin].
  - rewrite (deliver_step _ _ _ _ Hi Hin).
    pose proof (RxInv_ooo_size _ _ _ Hi Hin).
    destruct (IH (delivered w (payload n) (seqn n)) (S n)) as (n' & w' & E & Hle & Hi' & Hn' & Hr & Hb);
      [by apply RxInv_delivered|lia|].
    exists n', w'. split_and!; try done; [lia|]. rewrite Hb.
    replace (n' - n)%nat with (S (n' - S n)) by lia. done.
  - rewrite (deliver_stop _ _ _ _ Hi Hin). exists n, w. split_and!; try done.
    by rewrite Nat.sub_diag.
Qed.

Lemma rx_rest w w' : rx w' = rx w → rest w' = rest w ∧ recvBuf (conn w') = recvBuf (conn w).
Proof. unfold rx, rest. intros [=]. split; congruence. Qed.

(** After the delivery, [processInSequencePacketLocked] only updates
    ackThrough, the choke state and sends an acknowledgement. *)
Definition inseq_tail (pkt : Packet) : STE World ConnError unit :=
  a ← getc ackThrough;
  _ ← ewhen (negb (has_flag (Flags pkt) FlagNoACK) && seqGreaterThan (AckThrough pkt) a)
        (setc (λ c, c <| ackThrough := AckThrough pkt |>));
  _ ← manageChokeStateLocked;
  _ ← recvBroadcast;
  c ← getc id;
  ewhen (negb (sendingChoke c) || (0 <? size (nackList c))%nat)
    (_ ← try sendAckLocked; mret ()).

#[export] Instance inseq_tail_rx pkt : Pres (same rx) (inseq_tail pkt).
Proof. unfold inseq_tail, getc, setc. apply _. Qed.
#[export] Instance inseq_tail_total pkt : Total (inseq_tail pkt).
Proof. unfold inseq_tail, recvBroadcast, getc, setc. apply _. Qed.

(** What the delivery itself leaves alone: the send side, and what the
    acknowledgements are addressed with. *)
Definition send_view (w : World) :=
  (outbox w, sends w, sentPackets (conn w), ackThrough (conn w), sendingChoke (conn w),
   (session (conn w), dest (conn w), localPort (conn w), remotePort (conn w),
    localStreamID (conn w), remoteStreamID (conn w))).

#[local] Instance deliver_send_view fuel : Pres (same send_view) (deliverBufferedPackets fuel).
Proof.
  induction fuel as [|fuel IH]; cbn [deliverBufferedPackets];
    unfold writeRecvBuf, removeFromNACKListLocked, getc, setc; apply _.
Qed.

Lemma processInSequence_head w n arr pkt :
  RxInv w n arr → n ∉ arr → Z.of_nat n < LIM → stream_packet n pkt →
  ∃ n' w', processInSequencePacketLocked pkt (seqn n) w = inseq_tail pkt w' ∧ (n < n')%nat ∧
    RxInv w' n' ({[n]} ∪ arr) ∧ (n' ∉ {[n]} ∪ arr) ∧ rest w' = rest w ∧ send_view w' = send_view w ∧
    recvBuf (conn w') = writes (recvBuf (conn w)) (payload <$> seq n (n' - n)).
Proof.
  intros Hi Hin Hlim [Hseq Hpay]. unfold processInSequencePacketLocked. rewrite Hpay.
  erewrite ste_step by apply writeRecvBuf_eq. cbv iota.
  do 2 erewrite ste_step by (unfold setc, emodify; reflexivity).
  erewrite ste_step by apply removeFromNACKList_eq.
  lazymatch goal with |- context [(deliverBufferedPacketsLocked ≫= _) ?x] => set (w2 := x) end.
  assert (Hi2 : RxInv w2 (S n) ({[n]} ∪ arr)).
  { pose proof (RxInv_arrive_next w n arr Hi Hin Hlim) as [Hs Ho Hh Hp Hb Hn Hns].
    assert (outOfOrderPackets (conn w) !! seqn n = None) as Hnone.
    { destruct (outOfOrderPackets (conn w) !! seqn n) as [pkt'|] eqn:E; [|done].
      destruct (ri_ooo _ _ _ Hi _ _ E) as (i & Hi' & Hni & Heq & _).
      pose proof (ri_bound _ _ _ Hi i Hi'). apply seqn_inj in Heq; [by subst|unfold LIM in *; lia..]. }
    assert (delete (seqn n) (outOfOrderPackets (conn w)) = outOfOrderPackets (conn w)) as Hdel
      by (by rewrite delete_id).
    cbn in Ho, Hh. rewrite Hdel in Ho, Hh. by split. }
  destruct (deliver_spec (S (size (outOfOrderPackets (conn w2)))) w2 (S n) _ Hi2 ltac:(lia))
    as (n' & w' & E & Hle & Hi' & Hn' & Hr & Hb).
  pose proof (deliver_send_view (S (size (outOfOrderPackets (conn w2)))) w2) as Hq. rewrite E in Hq.
  exists n', w'. split.
  { erewrite ste_step; [reflexivity|]. unfold deliverBufferedPacketsLocked, getc. erewrite ste_step by done. exact E. }
  split_and!; try done. rewrite Hb. replace (n' - n)%nat with (S (n' - S n)) by lia. done.
Qed.

Lemma processInSequence_spec w n arr pkt :
  RxInv w n arr → n ∉ arr → Z.of_nat n < LIM → stream_packet n pkt →
  ∃ n' w', processInSequencePacketLocked pkt (seqn n) w = (Ok (), w') ∧ (n < n')%nat ∧
    RxInv w' n' ({[n]} ∪ arr) ∧ (n' ∉ {[n]} ∪ arr) ∧ rest w' = rest w ∧
    recvBuf (conn w') = writes (recvBuf (conn w)) (payload <$> seq n (n' - n)).
Proof.
  intros Hi Hin Hlim Hpkt.
  destruct (processInSequence_head w n arr pkt Hi Hin Hlim Hpkt) as (n' & w1 & -> & Hle & Hi' & Hn' & Hr & _ & Hb).
  destruct (total_run rx (inseq_tail pkt) w1 _ _) as ([] & w2 & -> & Hrx).
  apply rx_rest in Hrx as Hrest. destruct Hrest as [Hr1 Hr2].
  exists n', w2. split_and!; try done; [by eapply RxInv_rx|by rewrite Hr1|by rewrite Hr2].
Qed.

(** The packet with the expected number. *)
Lemma handleData_next w n arr pkt :
  RxInv w n arr → stream_packet n pkt →
  handleDataLocked pkt w = processInSequencePacketLocked pkt (seqn n) w.
Proof.
  intros Hi [Hseq _]. unfold handleDataLocked, getc. cbv zeta. erewrite ste_step by done.
  by rewrite (ri_seq _ _ _ Hi), Hseq, Z.eqb_refl.
Qed.

(** ** Out-of-order packets and the NACK list *)

Lemma RxInv_missing w n arr j :
  RxInv w n arr → (n ≤ j)%nat → outOfOrderPackets (conn w) !! seqn j = None → j ∉ arr.
Proof. intros H Hj Hn Hin. destruct (ri_have _ _ _ H j Hin Hj) as [? ?]. congruence. Qed.

(** Adding a missing number to the NACK list. *)
Lemma RxInv_nack w n arr j i :
  RxInv w n arr → (n ≤ j)%nat → (j < i)%nat → i ∈ arr →
  outOfOrderPackets (conn w) !! seqn j = None → (size (nackList (conn w)) < 255)%nat →
  RxInv (updc (λ c, c <| nackList ::= λ l, l ∪ {[seqn j]} |>) w) n arr.
Proof.
  intros H Hj Hlt Hi Hn Hsz. pose proof (RxInv_missing _ _ _ _ H Hj Hn) as Hm.
  destruct H as [Hs Ho Hh Hp Hb Hnk Hns]. split; cbn; try done.
  - intros s [Hs'| ->%elem_of_singleton]%elem_of_union; [auto|]. by exists j, i.
  - pose proof (size_union_alt (nackList (conn w)) {[seqn j]}) as Hu.
    pose proof (subseteq_size ({[seqn j]} ∖ nackList (conn w)) {[seqn j]} ltac:(set_solver)) as Hl.
    rewrite size_singleton in Hl. lia.
Qed.

Definition should_add w (seq : Z) : bool :=
  match outOfOrderPackets (conn w) !! seq with
  | Some _ => false
  | None => negb (bool_decide (seq ∈ nackList (conn w)))
  end.

Lemma shouldAdd_eq seq w : shouldAddToNACKListLocked seq w = (Ok (should_add w seq), w).
Proof.
  unfold shouldAddToNACKListLocked, should_add, getc. erewrite ste_step by done. cbn [id].
  by destruct (outOfOrderPackets (conn w) !! seq).
Qed.

Lemma addMissing_cons i m w :
  addMissingSequencesFrom i (S m) w =
    if MaxNACKs <=? Z.of_nat (size (nackList (conn w))) then (Ok (), w)
    else
      let seq := recvSeq (conn w) +% i in
      addMissingSequencesFrom (i + 1) m
        (if should_add w seq then updc (λ c, c <| nackList ::= λ l, l ∪ {[seq]} |>) w else w).
Proof.
  cbn [addMissingSequencesFrom]. unfold getc. erewrite ste_step by done. cbn [id]. case_if; [done|].
  cbv zeta. erewrite ste_step by apply shouldAdd_eq. by destruct (should_add w _).
Qed.

Lemma addMissing_spec m k w n arr last :
  RxInv w n arr → (k + m ≤ 255)%nat → (n + k + m ≤ last)%nat → last ∈ arr →
  ∃ w', addMissingSequencesFrom (Z.of_nat k) m w = (Ok (), w') ∧ RxInv w' n arr ∧
    rest w' = rest w ∧ recvBuf (conn w') = recvBuf (conn w) ∧
    nackList (conn w) ⊆ nackList (conn w') ∧
    (∀ j, (k ≤ j < k + m)%nat → n + j ∉ arr →
      seqn (n + j) ∈ nackList (conn w') ∨ size (nackList (conn w')) = 255%nat)%nat.
Proof.
  intros Hi Hk Hlast Hin. revert k w Hi Hk Hlast. induction m as [|m IH]; intros k w Hi Hk Hlast.
  { exists w. split_and!; try done. intros; lia. }
  rewrite addMissing_cons. pose proof (ri_nacks _ _ _ Hi) as Hsz. case_if; zbool.
  { exists w. split_and!; try done. intros j _ _. right. unfold MaxNACKs in *. lia. }
  unfold MaxNACKs in Hif. cbv zeta. rewrite (ri_seq _ _ _ Hi).
  assert (Hseq : seqn n +% Z.of_nat k = seqn (n + k)) by (unfold seqn; rewrite u32_add_l; f_equal; lia).
  rewrite Hseq. pose proof (RxInv_n _ _ _ Hi) as Hn.
  lazymatch goal with |- context [addMissingSequencesFrom _ m ?x] => set (w1 := x) end.
  assert (Hw1 : RxInv w1 n arr ∧ rest w1 = rest w ∧ recvBuf (conn w1) = recvBuf (conn w) ∧
    nackList (conn w) ⊆ nackList (conn w1) ∧
    ((n + k)%nat ∉ arr → seqn (n + k) ∈ nackList (conn w1))).
  { subst w1. unfold should_add.
    destruct (outOfOrderPackets (conn w) !! seqn (n + k)) as [pkt|] eqn:E.
    - split_and!; try done. intros Hm.
      destruct (ri_ooo _ _ _ Hi _ _ E) as (i & Hi' & Hni & Heq & _). pose proof (ri_bound _ _ _ Hi last Hin).
      pose proof (ri_bound _ _ _ Hi i Hi'). apply seqn_inj in Heq; [by subst|unfold LIM in *; lia..].
    - case_bool_decide as Hd; cbn [negb]; [by split_and!|].
      split_and!; try done; [|cbn; set_solver|cbn; set_solver].
      by apply (RxInv_nack _ _ _ _ last); [..|lia]; try lia. }
  destruct Hw1 as (Hi1 & Hr1 & Hb1 & Hs1 & Hm1).
  replace (Z.of_nat k + 1) with (Z.of_nat (S k)) by lia.
  destruct (IH (S k) w1 Hi1 ltac:(lia) ltac:(lia)) as (w' & E & Hi' & Hr & Hb & Hs & Hm).
  exists w'. split_and!; try done; [congruence|congruence|set_solver|].
  intros j Hj Hjm. destruct (decide (j = k)) as [->|]; [left; set_solver|]. apply Hm; [lia|done].
Qed.

Lemma gap_seqn i n : (n < i)%nat → Z.of_nat i < LIM → seqn i -% seqn n = Z.of_nat i - Z.of_nat n.
Proof. unfold seqn, LIM, u32. intros. zlia. Qed.

(** A packet ahead of the expected one is kept, its number leaves the NACK
    list, and the missing numbers before it (within 255) are on the list unless
    the list is full. *)
Lemma handleOutOfOrder_spec w n arr pkt i :
  RxInv w n arr → (n < i)%nat → Z.of_nat i < LIM → stream_packet i pkt →
  ∃ w', handleOutOfOrderPacketLocked pkt (seqn i) w = (Ok (), w') ∧
    RxInv w' n ({[i]} ∪ arr) ∧ rest w' = rest w ∧ recvBuf (conn w') = recvBuf (conn w) ∧
    (∀ j, (n ≤ j < i)%nat → (j < n + 255)%nat → (j ∉ {[i]} ∪ arr) →
      seqn j ∈ nackList (conn w') ∨ size (nackList (conn w')) = 255%nat).
Proof.
  intros Hi Hni Hlim Hpkt. unfold handleOutOfOrderPacketLocked.
  erewrite ste_step by (unfold setc, emodify; reflexivity).
  erewrite ste_step by apply removeFromNACKList_eq.
  lazymatch goal with |- context [(updateNACKListLocked _ ≫= _) ?x] => set (w1 := x) end.
  assert (Hi1 : RxInv w1 n ({[i]} ∪ arr)).
  { destruct Hi as [Hs Ho Hh Hp Hb Hnk Hns]. subst w1. split; cbn; try done.
    - intros s pkt' [[<- <-]|[Hne Hl]]%lookup_insert_Some.
      + exists i. split_and!; try done; [set_solver|lia].
      + destruct (Ho _ _ Hl) as (i' & ? & ? & ? & ?). exists i'. split_and!; try done. set_solver.
    - intros i' [->%elem_of_singleton|Hi']%elem_of_union Hle; [by rewrite lookup_insert_eq|].
      destruct (decide (seqn i = seqn i')) as [<-|]; [by rewrite lookup_insert_eq|].
      rewrite lookup_insert_ne by done. auto.
    - intros j Hj. apply elem_of_union_r. auto.
    - intros j [->%elem_of_singleton|Hj]%elem_of_union; [done|auto].
    - intros s [Hs' Hne]%elem_of_difference. destruct (Hnk s Hs') as (j & k & -> & Hj & ? & ?).
      exists j, k. split_and!; try done; [|set_solver]. intros [->%elem_of_singleton|]%elem_of_union; [|done]. set_solver.
    - pose proof (size_remove (nackList (conn w)) (seqn i)). lia. }
  unfold updateNACKListLocked, calculateSequenceGapLocked, getc.
  set (gap := Nat.min 255 (i - n)).
  destruct (addMissing_spec gap 0 w1 n _ i Hi1 ltac:(lia) ltac:(lia) ltac:(set_solver)) as (w2 & E2 & Hi2 & Hr2 & Hb2 & _ & Hm2).
  erewrite ste_step.
  2: { rewrite (ste_step _ _ _ (Z.of_nat gap) w1); [|].
       - unfold addMissingSequencesToNACKListLocked. rewrite Nat2Z.id. exact E2.
       - erewrite ste_step by done. cbn [id]. rewrite (ri_seq _ _ _ Hi1), gap_seqn by done.
         unfold MaxNACKs. cbv zeta. case_if; zbool; unfold mret, ste_ret; do 2 f_equal; lia. }
  destruct (total_run rx (_ ← try sendAckLocked; mret ()) w2 _ _) as ([] & w3 & E3 & Hrx).
  apply rx_rest in Hrx as Hrest. destruct Hrest as [Hr3 Hb3].
  exists w3. split_and!.
  - exact E3.
  - by eapply RxInv_rx.
  - by rewrite Hr3, Hr2.
  - by rewrite Hb3, Hb2.
  - intros j Hj Hj' Hm. assert (nackList (conn w3) = nackList (conn w2)) as -> by (unfold rx in Hrx; congruence).
    specialize (Hm2 (j - n)%nat). replace (n + (j - n))%nat with j in Hm2 by lia. apply Hm2; [lia|done].
Qed.

(** ** One data packet *)

Lemma handleData_spec w n arr pkt i :
  RxInv w n arr → n ∉ arr → Z.of_nat i < LIM → stream_packet i pkt →
  ∃ n' w', handleDataLocked pkt w = (Ok (), w') ∧ (n ≤ n')%nat ∧
    RxInv w' n' ({[i]} ∪ arr) ∧ (n' ∉ {[i]} ∪ arr) ∧ rest w' = rest w ∧
    recvBuf (conn w') = writes (recvBuf (conn w)) (payload <$> seq n (n' - n)).
Proof.
  intros Hi Hn Hlim Hpkt. unfold handleDataLocked, getc. cbv zeta. erewrite ste_step by done.
  rewrite (ri_seq _ _ _ Hi). destruct Hpkt as [Hseq Hpay]. rewrite Hseq.
  pose proof (RxInv_n _ _ _ Hi) as HnL. unfold LIM in *.
  destruct (Z.eqb_spec (seqn i) (seqn n)) as [E|E].
  - apply seqn_inj in E; [subst i|unfold LIM; lia..].
    destruct (processInSequence_spec w n arr pkt Hi Hn Hlim (conj Hseq Hpay))
      as (n' & w' & ? & ? & ? & ? & ? & ?).
    exists n', w'. split_and!; try done. lia.
  - unfold seqn at 1 2. rewrite seqLessThan_unwrap by lia. case_if; zbool.
    + assert (i ∈ arr) by (apply (ri_prefix _ _ _ Hi); lia).
      assert ({[i]} ∪ arr = arr) as -> by set_solver.
      exists n, w. split_and!; try done. by rewrite Nat.sub_diag.
    + assert (i ≠ n) by (by intros ->).
      destruct (handleOutOfOrder_spec w n arr pkt i Hi ltac:(lia) Hlim (conj Hseq Hpay))
        as (w' & ? & ? & ? & Hb & _).
      exists n, w'. split_and!; try done; [set_solver|]. rewrite Nat.sub_diag. exact Hb.
Qed.

(** ** The receive buffer *)

Lemma write_buf_spec b p :
  buf_Size (write_buf b p) = buf_Size b ∧
  buf_TotalWritten (write_buf b p) = buf_TotalWritten b + Z.of_nat (length p) ∧
  buf_Bytes (write_buf b p) = lastn (Z.to_nat (buf_Size b)) (buf_Bytes b ++ p).
Proof. unfold write_buf. destruct (Write_ok b p) as (b' & -> & ?). done. Qed.

Lemma writes_size ps b :
  buf_Size (writes b ps) = buf_Size b ∧
  buf_TotalWritten (writes b ps) = buf_TotalWritten b + Z.of_nat (length (concat ps)).
Proof.
  revert b. induction ps as [|p ps IH]; intros b; cbn [writes foldl concat]; [split; [done|cbn; lia]|].
  destruct (write_buf_spec b p) as (H1 & H2 & _). destruct (IH (write_buf b p)) as [H3 H4].
  unfold writes in *. rewrite H3, H4, H1, H2, length_app. split; [done|lia].
Qed.

(** The buffer holds exactly the unread bytes. *)
Definition exact (b : Buffer) : Prop := buf_TotalWritten b = Z.of_nat (length (buf_Bytes b)).

Lemma writes_exact ps b :
  exact b → buf_TotalWritten (writes b ps) <= buf_Size b →
  buf_Bytes (writes b ps) = buf_Bytes b ++ concat ps ∧ exact (writes b ps).
Proof.
  revert b. induction ps as [|p ps IH]; intros b He Hf; cbn [writes foldl concat].
  { by rewrite app_nil_r. }
  destruct (write_buf_spec b p) as (H1 & H2 & H3).
  pose proof (writes_size ps (write_buf b p)) as [H4 H5]. unfold writes in *. cbn [foldl] in Hf.
  unfold exact in He.
  assert (H6 : buf_Bytes (write_buf b p) = buf_Bytes b ++ p).
  { rewrite H3. apply lastn_all. rewrite length_app. lia. }
  destruct (IH (write_buf b p)) as [H7 H8]; [|lia|].
  { unfold exact. rewrite H2, H6, length_app. lia. }
  rewrite H7, H6, app_assoc. done.
Qed.

(** ** Activity that leaves the receive side alone *)

#[global] Instance retransmit_rx s : Pres (same rx) (retransmitPacketLocked s).
Proof. unfold retransmitPacketLocked, SendMessage, Now, getc, setc. apply _. Qed.

#[global] Instance reduceWindow_rx : Pres (same rx) reduceCongestionWindowLocked.
Proof. unfold reduceCongestionWindowLocked, setc. apply _. Qed.

#[global] Instance handleNACKs_rx nacks b : Pres (same rx) (handleNACKs nacks b).
Proof.
  revert b. induction nacks as [|x nacks IH]; intros b; cbn [handleNACKs]; [apply _|].
  unfold getc, setc. apply _.
Qed.

#[global] Instance handleAck_rx (pkt : Packet) : Pres (same rx) (handleAckLocked pkt).
Proof.
  unfold handleAckLocked, handleNACKsLocked, handleOptionalDelayLocked, startPersistTimerLocked,
    stopPersistTimerLocked, cleanupAckedPacketsLocked, measureRTTFromAck, updateRTTEstimate,
    calculateRTO, updateCongestionWindow, sendBroadcast, go, Now, getc, setc. apply _.
Qed.

#[global] Instance retransmitTimedOut_rx l : Pres (same rx) (retransmitTimedOutPacketsLocked l).
Proof.
  induction l as [|x l IH]; cbn [retransmitTimedOutPacketsLocked]; [apply _|]. unfold getc. apply _.
Qed.

#[global] Instance checkRetransmissions_rx : Pres (same rx) checkRetransmissions.
Proof.
  unfold checkRetransmissions, findTimedOutPacketsLocked, applyExponentialBackoffLocked, range_keys,
    Now, getc, setc. apply _.
Qed.

#[global] Instance checkInactivity_rx : Pres (same rx) checkInactivity.
Proof. unfold checkInactivity, Now, getc, setc. apply _. Qed.

#[global] Instance sendPacket_rx (pkt : Packet) : Pres (same rx) (sendPacketLocked pkt).
Proof. unfold_send. apply _. Qed.

#[global] Instance sendDataChunk_rx chunk : Pres (same rx) (sendDataChunk chunk).
Proof. unfold sendDataChunk, getResendDelaySeconds, getc, setc. apply _. Qed.

#[global] Instance handleMessageDelivered_rx s : Pres (same rx) (handleMessageDelivered s).
Proof. unfold handleMessageDelivered, getc, setc. apply _. Qed.

#[global] Instance handleMessageFailed_rx s r : Pres (same rx) (handleMessageFailed s r).
Proof. unfold handleMessageFailed, sendViaI2CP, SendMessage, getc, setc. apply _. Qed.

(** ** Read *)

#[local] Instance checkReadDeadline_rx : Pres (same rx) checkReadDeadlineLocked.
Proof. unfold checkReadDeadlineLocked, Now, getc. apply _. Qed.
#[local] Instance setupReadTimer_rx : Pres (same rx) setupReadTimer.
Proof. unfold setupReadTimer, Now, getc. apply _. Qed.
#[local] Instance readPrefix_rx :
  Pres (same rx) (_ ← validateReadStateLocked; _ ← waitForReadDataLocked []; validateReadStateLocked).
Proof. unfold validateReadStateLocked, waitForReadDataLocked, getc. apply _. Qed.

Definition post_read_tail : STE World ConnError unit :=
  c ← getc id;
  if sendingChoke c then
    bufferUsage ← calculateBufferUsage (buf_TotalWritten (recvBuf c));
    if fltb bufferUsage c0_3 then _ ← try sendUnchokeSignalLocked; mret () else mret ()
  else mret ().
#[local] Instance post_read_tail_rx : Pres (same rx) post_read_tail.
Proof. unfold post_read_tail, calculateBufferUsage, getc. apply _. Qed.
#[local] Instance post_read_tail_total : Total post_read_tail.
Proof. unfold post_read_tail, calculateBufferUsage, getc. apply _. Qed.

Lemma postRead_spec w n arr :
  RxInv w n arr → n ∉ arr →
  ∃ w', handlePostReadActionsLocked w = (Ok (), w') ∧ rx w' = rx w.
Proof.
  intros Hi Hn. unfold handlePostReadActionsLocked, getc. erewrite ste_step by done. cbn [id].
  erewrite ste_step.
  - destruct (total_run rx post_read_tail w _ _) as ([] & w' & E & Hr). exists w'. split; [exact E|done].
  - unfold ewhen. case_if; [|done]. unfold deliverBufferedPacketsLocked, getc.
    erewrite ste_step by done. by eapply deliver_stop.
Qed.

(** The bytes left after reading [k]. *)
Lemma consume_spec k w :
  exact (recvBuf (conn w)) → buf_TotalWritten (recvBuf (conn w)) <= buf_Size (recvBuf (conn w)) →
  let data := buf_Bytes (recvBuf (conn w)) in
  ∃ b', consumeBufferDataLocked k w =
      (Ok (take k data, None), updc (λ c, c <| recvBuf := b' |>) w) ∧
    buf_Bytes b' = drop k data ∧ exact b' ∧ buf_Size b' = buf_Size (recvBuf (conn w)).
Proof.
  intros He Hf data. unfold exact in He. fold data in He.
  destruct (Reset_ok (recvBuf (conn w))) as (R1 & R2 & R3).
  unfold consumeBufferDataLocked, getc. erewrite ste_step by done. cbv zeta. fold data.
  erewrite ste_step by (unfold setc, emodify; reflexivity).
  set (m := Nat.min k (length data)).
  assert (Ht : take m data = take k data).
  { subst m. destruct (Nat.min_spec k (length data)) as [[? ->]|[? ->]]; [done|]. by rewrite !take_ge by lia. }
  assert (Hd : drop m data = drop k data).
  { subst m. destruct (Nat.min_spec k (length data)) as [[? ->]|[? ->]]; [done|]. by rewrite !drop_ge by lia. }
  rewrite Ht, Hd. destruct (Nat.ltb_spec m (length data)).
  - erewrite ste_step by apply writeRecvBuf_eq. cbv iota.
    exists (write_buf (buf_Reset (recvBuf (conn w))) (drop k data)).
    destruct (write_buf_spec (buf_Reset (recvBuf (conn w))) (drop k data)) as (W1 & W2 & W3).
    rewrite W1, W3, R1, R2. split; [reflexivity|]. cbn [app].
    assert (Hl : lastn (Z.to_nat (buf_Size (recvBuf (conn w)))) (drop k data) = drop k data).
    { apply lastn_all. rewrite length_drop. lia. }
    rewrite Hl. split_and!; try done. unfold exact. rewrite W2, W3, R1, R2, R3. cbn [app]. by rewrite Hl.
  - exists (buf_Reset (recvBuf (conn w))). split; [reflexivity|]. rewrite R2.
    split_and!; [by rewrite drop_ge by lia| |done]. unfold exact. by rewrite R2, R3.
Qed.

Lemma RxInv_buf w n arr b : RxInv w n arr → RxInv (updc (λ c, c <| recvBuf := b |>) w) n arr.
Proof. intros []. by split. Qed.

(** With something in the buffer [Read] does not wait, also on a closed
    connection. *)
Lemma Read_data k w n arr :
  RxInv w n arr → n ∉ arr → exact (recvBuf (conn w)) →
  buf_TotalWritten (recvBuf (conn w)) <= buf_Size (recvBuf (conn w)) →
  let data := buf_Bytes (recvBuf (conn w)) in
  data ≠ [] →
  ∃ w', Read [] k w = (Ok (take k data, None), w') ∧ RxInv w' n arr ∧ rest w' = rest w ∧
    buf_Bytes (recvBuf (conn w')) = drop k data ∧ exact (recvBuf (conn w')) ∧
    buf_Size (recvBuf (conn w')) = buf_Size (recvBuf (conn w)).
Proof.
  intros Hi Hn He Hf data Hnil. unfold Read. pose proof He as He'. unfold exact in He'. fold data in He'.
  assert (Hz : (buf_TotalWritten (recvBuf (conn w)) =? 0) = false).
  { rewrite He'. apply Z.eqb_neq. destruct data; [done|cbn; lia]. }
  assert (Hv : validateReadStateLocked w = (Ok (), w)).
  { unfold validateReadStateLocked, getc. erewrite ste_step by done. cbn [id]. by rewrite Hz, andb_false_r. }
  rewrite (ste_step _ _ w None w).
  2: { unfold try. erewrite ste_step by exact Hv. erewrite ste_step; [by rewrite Hv|].
       unfold waitForReadDataLocked, getc. erewrite ste_step by done. cbn [id]. by rewrite Hz. }
  destruct (consume_spec k w He Hf) as (b' & Ec & Hb' & Hx & Hs). fold data in Ec, Hb'.
  erewrite ste_step by exact Ec. cbv iota beta.
  destruct (postRead_spec (updc (λ c, c <| recvBuf := b' |>) w) n arr) as (w' & E' & Hr);
    [by apply RxInv_buf|done|].
  erewrite ste_step by exact E'. apply rx_rest in Hr as Hrr. destruct Hrr as [Hr1 Hr2].
  exists w'. rewrite !Hr2. split_and!; [done| |done..]. eapply RxInv_rx; [exact Hr|by apply RxInv_buf].
Qed.

(** On a closed connection with nothing left it is the end of the file. *)
Lemma Read_EOF k w : closed (conn w) = true → buf_TotalWritten (recvBuf (conn w)) = 0 →
  Read [] k w = (Ok ([], Some EEOF), w).
Proof.
  intros Hc Hz. unfold Read, try, validateReadStateLocked. unfold mbind, ste_bind, getc, egets. cbn.
  by rewrite Hc, Hz.
Qed.

(** [Read] hands out the oldest unread bytes and keeps the others; on an empty
    buffer it does not return data. *)
Lemma Read_spec k w n arr :
  RxInv w n arr → n ∉ arr → closed (conn w) = false → exact (recvBuf (conn w)) →
  buf_TotalWritten (recvBuf (conn w)) <= buf_Size (recvBuf (conn w)) →
  let data := buf_Bytes (recvBuf (conn w)) in
  ∃ w' e, Read [] k w = (Ok (take k data, e), w') ∧ RxInv w' n arr ∧ rest w' = rest w ∧
    buf_Bytes (recvBuf (conn w')) = drop k data ∧ exact (recvBuf (conn w')) ∧
    buf_Size (recvBuf (conn w')) = buf_Size (recvBuf (conn w)) ∧ (data ≠ [] → e = None).
Proof.
  intros Hi Hn Hc He Hf data. unfold Read.
  set (pre := _ ← validateReadStateLocked; _ ← waitForReadDataLocked []; validateReadStateLocked).
  assert (Hpre : Pres (same rx) pre) by apply _. specialize (Hpre w). unfold exact in He. fold data in He.
  destruct (decide (data = [])) as [Hnil|Hnil].
  - assert (Hz : buf_TotalWritten (recvBuf (conn w)) = 0) by (by rewrite He, Hnil).
    assert (Hex : ∃ e w', pre w = (Err e, w')).
    { unfold pre, validateReadStateLocked. unfold getc.
      unfold mbind at 1, ste_bind at 1. erewrite ste_step by done. cbn [id]. rewrite Hc. cbn [andb].
      cbn [mret ste_ret]. unfold mbind at 1, ste_bind at 1. unfold waitForReadDataLocked.
      unfold getc. erewrite ste_step by done. cbn [id]. rewrite Hz, Hc. cbn [Z.eqb andb negb].
      unfold mbind at 1, ste_bind at 1.
      destruct (checkReadDeadlineLocked w) as [[[]|e|] w1] eqn:E1; [|by eauto|].
      2: { exfalso. unfold checkReadDeadlineLocked, Now, getc in E1.
           unfold mbind, ste_bind, egets in E1. cbn in E1. repeat case_match; simplify_eq. }
      unfold mbind at 1, ste_bind at 1.
      destruct (setupReadTimer w1) as [[b|e|] w2] eqn:E2; [|by eauto|].
      2: { exfalso. unfold setupReadTimer, Now, getc in E2.
           unfold mbind, ste_bind, egets in E2. cbn in E2. repeat case_match; simplify_eq. }
      erewrite ste_step by done. case_if; eauto. }
    destruct Hex as (e & w' & Ep). unfold try at 1. unfold mbind at 1, ste_bind at 1. fold pre.
    rewrite Ep in *. cbn in Hpre. rewrite Hnil, take_nil, drop_nil.
    exists w', (Some e). apply rx_rest in Hpre as Hr. destruct Hr as [Hr1 Hr2].
    split_and!; try done; [by eapply RxInv_rx|by rewrite Hr2|by unfold exact; rewrite Hr2|by rewrite Hr2].
  - destruct (Read_data k w n arr Hi Hn He Hf Hnil) as (w' & E & ? & ? & ? & ? & ?). by exists w', None.
Qed.

(** ** Runs of a connection *)

(** What happens to an established connection: a packet of the stream or a
    plain acknowledgement is processed, the user reads, writes a chunk or the
    timers fire, I2CP reports on a message. *)
Inductive rx_event :=
| EvData (i : nat) (pkt : Packet)
| EvAck (pkt : Packet)
| EvRead (k : nat)
| EvSend (chunk : bytes)
| EvRetransmit
| EvKeepalive
| EvDelivered (seq : Z)
| EvFailed (seq : Z) (retriable : bool).

Definition rx_step (s : World * bytes) (ev : rx_event) : World * bytes :=
  let '(w, rd) := s in
  match ev with
  | EvData _ pkt | EvAck pkt => (snd (processPacket pkt w), rd)
  | EvRead k =>
      match Read [] k w with
      | (Ok (bs, _), w') => (w', rd ++ bs)
      | (_, w') => (w', rd)
      end
  | EvSend chunk => (snd (sendDataChunk chunk w), rd)
  | EvRetransmit => (snd (checkRetransmissions w), rd)
  | EvKeepalive => (snd (checkInactivity w), rd)
  | EvDelivered seq => (snd (handleMessageDelivered seq w), rd)
  | EvFailed seq r => (snd (handleMessageFailed seq r w), rd)
  end.

Definition rx_run (w : World) (evs : list rx_event) : World * bytes := foldl rx_step (w, []) evs.

(** Neither SYN nor CLOSE nor RESET. *)
Definition plain_flags (pkt : Packet) : Prop :=
  has_flag (Flags pkt) FlagSYN = false ∧ has_flag (Flags pkt) FlagCLOSE = false ∧
  has_flag (Flags pkt) FlagRESET = false.

(** The packets are the stream's, none of them numbered 0: such a packet is
    taken for a plain acknowledgement. *)
Definition event_ok (ev : rx_event) : Prop :=
  match ev with
  | EvData i pkt => stream_packet i pkt ∧ payload i ≠ [] ∧ seqn i ≠ 0 ∧ Z.of_nat i < LIM ∧
      plain_flags pkt
  | EvAck pkt => SequenceNum pkt = 0 ∧ plain_flags pkt
  | _ => True
  end.

Definition arrivals (evs : list rx_event) : gset nat :=
  list_to_set (omap (λ ev, match ev with EvData i _ => Some i | _ => None end) evs).

(** No step overflows the receive buffer. *)
Fixpoint never_overflows (s : World * bytes) (evs : list rx_event) : Prop :=
  match evs with
  | [] => True
  | ev :: evs =>
      let s' := rx_step s ev in
      let b := recvBuf (conn s'.1) in
      buf_TotalWritten b <= buf_Size b ∧ never_overflows s' evs
  end.

Record run_inv (s : World * bytes) (n : nat) (arr : gset nat) : Prop := {
  rv_rx : RxInv s.1 n arr;
  rv_next : n ∉ arr;
  rv_rest : rest s.1 = (StateEstablished, false);
  rv_exact : exact (recvBuf (conn s.1));
  rv_fits : buf_TotalWritten (recvBuf (conn s.1)) <= buf_Size (recvBuf (conn s.1));
  rv_stream : s.2 ++ buf_Bytes (recvBuf (conn s.1)) = concat (payload <$> seq 0 n);
}.

Lemma run_inv_same s w' n arr :
  rx w' = rx s.1 → run_inv s n arr → run_inv (w', s.2) n arr.
Proof.
  intros Hr [Hi Hn Hre He Hf Hs]. apply rx_rest in Hr as H. destruct H as [H1 H2].
  split; cbn; rewrite ?H1, ?H2; try done. by eapply RxInv_rx.
Qed.

(** [processPacket] up to its dispatch. *)
Lemma processPacket_eq pkt w :
  processPacket pkt w = dispatchPacketByFlags pkt
    (updc (λ c, c <| lastActivity := clock (ticks w) |>) (w <| ticks ::= S |>)).
Proof. reflexivity. Qed.

Lemma dispatch_plain pkt w :
  plain_flags pkt → state (conn w) = StateEstablished →
  dispatchPacketByFlags pkt w =
    (if SequenceNum pkt =? 0 then handleAckLocked pkt w
     else if (0 <? length (Payload pkt))%nat then handleDataLocked pkt w else (Ok (), w)).
Proof.
  intros (H1 & H2 & H3) Hs. unfold dispatchPacketByFlags, getc. erewrite ste_step by done. cbn [id].
  rewrite H1, H2, H3, Hs. cbn [andb negb]. rewrite bool_decide_false by done. cbn [andb].
  rewrite andb_true_r. case_if; [done|]. by case_if.
Qed.

Lemma run_inv_data s n arr i pkt :
  run_inv s n arr → event_ok (EvData i pkt) →
  let s' := rx_step s (EvData i pkt) in
  buf_TotalWritten (recvBuf (conn s'.1)) <= buf_Size (recvBuf (conn s'.1)) →
  ∃ n', run_inv s' n' ({[i]} ∪ arr).
Proof.
  intros [Hi Hn Hre He Hf Hs] ([Hseq Hpay] & Hne & Hz & Hlim & Hfl). destruct s as [w rd]. cbn [fst snd] in *.
  cbn [rx_step fst]. rewrite processPacket_eq.
  set (w1 := updc (λ c, c <| lastActivity := clock (ticks w) |>) (w <| ticks ::= S |>)).
  assert (Hrx1 : rx w1 = rx w) by done. apply rx_rest in Hrx1 as Hr1. destruct Hr1 as [Hr1 Hb1].
  assert (Hst : state (conn w1) = StateEstablished) by (unfold rest in *; congruence).
  rewrite (dispatch_plain pkt w1 Hfl Hst), Hseq, Hpay. apply Z.eqb_neq in Hz as Hz'. rewrite Hz'.
  destruct (Nat.ltb_spec 0 (length (payload i))) as [_|Hl].
  2: { destruct (payload i); [done|cbn in Hl; lia]. }
  destruct (handleData_spec w1 n arr pkt i) as (n' & w' & -> & Hle & Hi' & Hn' & Hr' & Hb');
    [by eapply RxInv_rx|done..|]. cbn [snd]. intros Hfit.
  rewrite Hb1 in Hb'.
  destruct (writes_size (payload <$> seq n (n' - n)) (recvBuf (conn w))) as [Hsz _].
  rewrite Hb' in Hfit. rewrite Hsz in Hfit.
  destruct (writes_exact _ _ He Hfit) as [Hbytes Hex].
  exists n'. split; cbn [fst snd]; try done.
  - by rewrite Hr', Hr1.
  - by rewrite Hb'.
  - by rewrite Hb', Hsz.
  - rewrite Hb', Hbytes, app_assoc, Hs, <-concat_app, <-fmap_app. do 2 f_equal.
    replace n' with (n + (n' - n))%nat at 2 by lia. by rewrite seq_app.
Qed.

Lemma run_inv_read s n arr k :
  run_inv s n arr → run_inv (rx_step s (EvRead k)) n arr.
Proof.
  intros [Hi Hn Hre He Hf Hs]. destruct s as [w rd]. cbn [fst snd] in *.
  assert (closed (conn w) = false) by (unfold rest in Hre; congruence).
  destruct (Read_spec k w n arr) as (w' & e & E & Hi' & Hr & Hb & Hx & Hsz & _); try done.
  cbn [rx_step]. rewrite E. split; cbn [fst snd]; try done.
  - by rewrite Hr.
  - unfold exact in *. rewrite Hx, Hsz, Hb, length_drop. lia.
  - rewrite Hb, <-app_assoc, take_drop. done.
Qed.

Lemma rx_run_inv evs s n arr :
  run_inv s n arr → Forall event_ok evs → never_overflows s evs →
  ∃ n', run_inv (foldl rx_step s evs) n' (arrivals evs ∪ arr).
Proof.
  revert s n arr. induction evs as [|ev evs IH]; intros s n arr Hi Hok Hno; cbn [foldl].
  { exists n. unfold arrivals. cbn. by rewrite union_empty_l_L. }
  apply Forall_cons in Hok as [Hev Hok]. destruct Hno as [Hfit Hno].
  assert (Hsame : ∀ w', rx w' = rx s.1 → rx_step s ev = (w', s.2) →
    arrivals (ev :: evs) = arrivals evs →
    ∃ n', run_inv (foldl rx_step (rx_step s ev) evs) n' (arrivals (ev :: evs) ∪ arr)).
  { intros w' Hw Hst Ha. rewrite Ha. eapply IH; [|done|done]. rewrite Hst. by apply run_inv_same. }
  pose proof Hi as [Hrx Hn Hre _ _ _]. destruct s as [w rd]. cbn [fst snd] in *.
  assert (Hst : state (conn w) = StateEstablished) by (unfold rest in Hre; congruence).
  destruct ev as [i pkt|pkt|k|chunk| | |sq|sq r].
  - destruct (run_inv_data _ _ _ _ _ Hi Hev Hfit) as [n1 H1].
    destruct (IH _ _ _ H1 Hok Hno) as [n2 H2]. exists n2.
    assert (arrivals (EvData i pkt :: evs) ∪ arr = arrivals evs ∪ ({[i]} ∪ arr)) as ->; [|done].
    unfold arrivals. cbn. set_solver.
  - destruct Hev as [Hz Hfl]. apply (Hsame (snd (processPacket pkt w))); [|done|done].
    rewrite processPacket_eq, dispatch_plain by done. rewrite Hz. cbn [Z.eqb].
    rewrite (run_same rx (handleAckLocked pkt) _ (handleAck_rx pkt)). done.
  - eapply IH; [by apply run_inv_read|done|done].
  - apply (Hsame (snd (sendDataChunk chunk w))); [|done|done]. apply (run_same rx). apply _.
  - apply (Hsame (snd (checkRetransmissions w))); [|done|done]. apply (run_same rx). apply _.
  - apply (Hsame (snd (checkInactivity w))); [|done|done]. apply (run_same rx). apply _.
  - apply (Hsame (snd (handleMessageDelivered sq w))); [|done|done]. apply (run_same rx). apply _.
  - apply (Hsame (snd (handleMessageFailed sq r w))); [|done|done]. apply (run_same rx). apply _.
Qed.

(** A connection whose handshake has completed and that has received nothing. *)
Record rx_init (w : World) : Prop := {
  rxi_seq : recvSeq (conn w) = base;
  rxi_ooo : outOfOrderPackets (conn w) = ∅;
  rxi_nack : nackList (conn w) = ∅;
  rxi_rest : rest w = (StateEstablished, false);
  rxi_bytes : buf_Bytes (recvBuf (conn w)) = [];
  rxi_written : buf_TotalWritten (recvBuf (conn w)) = 0;
  rxi_size : 0 < buf_Size (recvBuf (conn w));
}.

Lemma rx_init_inv w : is_u32 base → rx_init w → run_inv (w, []) 0 ∅.
Proof.
  intros Hb [Hs Ho Hn Hr Hby Hw Hsz]. split; cbn [fst snd]; try done.
  - split; rewrite ?Hs, ?Ho, ?Hn; try done; try set_solver.
    + unfold seqn. rewrite u32_small; lia.
    + intros; lia.
    + rewrite size_empty. lia.
  - unfold exact. by rewrite Hw, Hby.
  - lia.
Qed.

(** ** The properties *)

(** Reliable in-order delivery.  Take an established connection that has
    received nothing, and any run in which packets of the peer's stream arrive
    in any order, any number of times, with any of them missing, interleaved
    with acknowledgements, reads, writes, timers and I2CP reports.  Then, as
    long as the receive buffer does not overflow, what the user has read
    followed by what the buffer holds is exactly the concatenation of the
    payloads before the first packet that has not arrived, and the connection
    expects that packet next. *)
Theorem in_order_delivery (w : World) (evs : list rx_event) :
  is_u32 base → rx_init w → Forall event_ok evs → never_overflows (w, []) evs →
  let '(w', rd) := rx_run w evs in
  ∃ n : nat, (n ∉ arrivals evs) ∧ (∀ i, (i < n)%nat → i ∈ arrivals evs) ∧
    recvSeq (conn w') = seqn n ∧
    rd ++ buf_Bytes (recvBuf (conn w')) = concat (payload <$> seq 0 n).
Proof.
  intros Hb Hi Hok Hno. unfold rx_run.
  destruct (rx_run_inv evs (w, []) 0 ∅ (rx_init_inv w Hb Hi) Hok Hno) as [n Hn].
  rewrite union_empty_r_L in Hn. destruct (foldl rx_step (w, []) evs) as [w' rd].
  destruct Hn as [Hrx Hnext _ _ _ Hs]. cbn [fst snd] in *.
  exists n. split_and!; [done|apply Hrx|apply Hrx|done].
Qed.

(** C19.  The NACK list is sound.  After any run of arriving packets, sends,
    reads, timers and reports on an established connection whose receive buffer
    does not overflow, it has at most the 255
    entries an acknowledgement can carry; every number on it is that of a
    packet [j] that has not arrived, at or after the one expected next and
    before one that has arrived, that is of a hole in what has been received;
    and so no packet that has arrived is asked for again. *)
Theorem nack_list_sound (w : World) (evs : list rx_event) :
  is_u32 base → rx_init w → Forall event_ok evs → never_overflows (w, []) evs →
  let w' := (rx_run w evs).1 in
  (size (nackList (conn w')) ≤ 255)%nat ∧
  (∃ n : nat, recvSeq (conn w') = seqn n ∧
    ∀ s, s ∈ nackList (conn w') → ∃ j i, s = seqn j ∧ j ∉ arrivals evs ∧ (n ≤ j < i)%nat ∧ i ∈ arrivals evs) ∧
  (∀ i, i ∈ arrivals evs → seqn i ∉ nackList (conn w')).
Proof.
  intros Hb Hi Hok Hno. unfold rx_run.
  destruct (rx_run_inv evs (w, []) 0 ∅ (rx_init_inv w Hb Hi) Hok Hno) as [n Hn].
  rewrite union_empty_r_L in Hn. destruct Hn as [[] _ _ _ _ _].
  assert (Hnk : ∀ s, s ∈ nackList (conn (foldl rx_step (w, []) evs).1) →
    ∃ j i, s = seqn j ∧ j ∉ arrivals evs ∧ (n ≤ j < i)%nat ∧ i ∈ arrivals evs).
  { intros s (j & i & ? & Hj & ? & ?)%ri_nack0. exists j, i. split_and!; try done.
    destruct (decide (n ≤ j)%nat) as [|Hlt]; [done|]. destruct Hj. apply ri_prefix0. lia. }
  split_and!; [done|by exists n|].
  intros k Hk (j & i & E & Hj & ? & Hi')%Hnk. pose proof (ri_bound0 k Hk). pose proof (ri_bound0 i Hi').
  apply seqn_inj in E; [by subst|unfold LIM in *; lia..].
Qed.

(** Selective acknowledgement is complete: when a packet arrives ahead of
    the expected one, it is kept, and every missing packet before it (among the
    next 255) is on the NACK list afterwards, unless the list is full. *)
Theorem out_of_order_nacked (w : World) (n i : nat) (arr : gset nat) (pkt : Packet) :
  RxInv w n arr → n ∉ arr → (n < i)%nat → Z.of_nat i < LIM → stream_packet i pkt →
  ∃ w', handleDataLocked pkt w = (Ok (), w') ∧ RxInv w' n ({[i]} ∪ arr) ∧
    ∀ j, (n ≤ j < i)%nat → (j < n + 255)%nat → j ∉ arr →
      seqn j ∈ nackList (conn w') ∨ size (nackList (conn w')) = 255%nat.
Proof.
  intros Hi Hn Hni Hlim Hpkt. pose proof (RxInv_n _ _ _ Hi) as HnL.
  destruct (handleOutOfOrder_spec w n arr pkt i Hi Hni Hlim Hpkt) as (w' & E & Hi' & _ & _ & Hm).
  exists w'. split_and!; [|done|].
  - unfold handleDataLocked, getc. cbv zeta. erewrite ste_step by done.
    rewrite (ri_seq _ _ _ Hi), (proj1 Hpkt). unfold LIM in *.
    destruct (Z.eqb_spec (seqn i) (seqn n)) as [Ee|_].
    { apply seqn_inj in Ee; [lia|unfold LIM; lia..]. }
    unfold seqn at 1 2. rewrite seqLessThan_unwrap by lia. case_if; zbool; [lia|done].
  - intros j Hj Hj' Hja. apply Hm; [done|done|].
    intros [->%elem_of_singleton|]%elem_of_union; [lia|done].
Qed.

End Reassembly.

Section ZeroSequence.
Context {I : I2CP} {B : CircBuf} {RT : GoRuntime}.

(** A data packet whose sequence number is 0 (once in 2^32, when the
    counter wraps) is taken for a plain acknowledgement: it changes nothing on
    the receive side, so neither it nor any retransmission of it is ever
    delivered, and the connection waits for it for ever. *)
Theorem zero_sequence_never_delivered (pkt : Packet) (w : World) :
  plain_flags pkt → SequenceNum pkt = 0 → state (conn w) = StateEstablished →
  recvSeq (conn w) = 0 →
  rx (snd (processPacket pkt w)) = rx w ∧ recvSeq (conn (snd (processPacket pkt w))) = 0.
Proof.
  intros Hf Hz Hs Hr. rewrite processPacket_eq, dispatch_plain by done. rewrite Hz. cbn [Z.eqb].
  assert (H : rx (handleAckLocked pkt (updc (λ c, c <| lastActivity := clock (ticks w) |>)
    (w <| ticks ::= S |>))).2 = rx w) by (rewrite (run_same rx (handleAckLocked pkt) _ _); done).
  split; [done|]. unfold rx in H. congruence.
Qed.
End ZeroSequence.

(** ** Concrete runs *)

Section Examples.
Definition payload_ex (i : nat) : bytes := [byte_of_Z (Z.of_nat i); xff].
Definition pkt_ex (i : nat) : @Packet ConcreteI2CP :=
  (base_Packet 9 7 (100 + Z.of_nat i) 499 0) <| Payload := payload_ex i |>.

(** Packets 1, 0, 0 again, 3: packets 0, 1 are read; 2 is missing. *)
Definition rx_evs : list rx_event :=
  [EvData 1 (pkt_ex 1); EvRead 10; EvData 0 (pkt_ex 0); EvRead 3; EvData 0 (pkt_ex 0);
   EvData 3 (pkt_ex 3); EvSend [x41]; EvRetransmit; EvRead 10].

Lemma world_ex_init : rx_init 100 world_ex.
Proof. by split. Qed.

Lemma rx_evs_ok : Forall (event_ok 100 payload_ex) rx_evs.
Proof. unfold rx_evs, event_ok, stream_packet, plain_flags, LIM. repeat constructor; done. Qed.

Lemma rx_evs_fits : never_overflows (world_ex, []) rx_evs.
Proof. by vm_compute. Qed.

Example rx_run_ex :
  (rx_run world_ex rx_evs).2 = [x00; xff; x01; xff] ∧
  elements (nackList (conn (rx_run world_ex rx_evs).1)) = [102].
Proof. split; vmeq. Qed.

Lemma in_order_delivery_witness :
  let '(w', rd) := rx_run world_ex rx_evs in
  ∃ n : nat, (n ∉ arrivals rx_evs) ∧ (∀ i, (i < n)%nat → i ∈ arrivals rx_evs) ∧
    recvSeq (conn w') = seqn 100 n ∧
    rd ++ buf_Bytes (recvBuf (conn w')) = concat (payload_ex <$> seq 0 n).
Proof.
  apply (in_order_delivery 100 payload_ex world_ex rx_evs);
    [lia|apply world_ex_init|apply rx_evs_ok|apply rx_evs_fits].
Defined.

Lemma nack_list_sound_witness :
  let w' := (rx_run world_ex rx_evs).1 in
  nackList (conn w') = {[102]} ∧ (size (nackList (conn w')) ≤ 255)%nat ∧
  (∃ n : nat, recvSeq (conn w') = seqn 100 n ∧
    ∀ s, s ∈ nackList (conn w') →
      ∃ j i, s = seqn 100 j ∧ j ∉ arrivals rx_evs ∧ (n ≤ j < i)%nat ∧ i ∈ arrivals rx_evs) ∧
  (∀ i, i ∈ arrivals rx_evs → seqn 100 i ∉ nackList (conn w')).
Proof.
  split; [vmeq|].
  apply (nack_list_sound 100 payload_ex world_ex rx_evs);
    [lia|apply world_ex_init|apply rx_evs_ok|apply rx_evs_fits].
Defined.

Lemma world_ex_inv : RxInv 100 payload_ex world_ex 0 ∅.
Proof. apply (rx_init_inv 100 payload_ex world_ex); [lia|apply world_ex_init]. Qed.

Lemma out_of_order_nacked_witness :
  ∃ w', handleDataLocked (pkt_ex 3) world_ex = (Ok (), w') ∧ RxInv 100 payload_ex w' 0 ({[3%nat]} ∪ ∅) ∧
    ∀ j, (0 ≤ j < 3)%nat → (j < 0 + 255)%nat → j ∉ (∅ : gset nat) →
      seqn 100 j ∈ nackList (conn w') ∨ size (nackList (conn w')) = 255%nat.
Proof.
  apply (out_of_order_nacked 100 payload_ex world_ex 0 3 ∅ (pkt_ex 3));
    [apply world_ex_inv|set_solver|lia|done|done].
Defined.

Definition pkt_zero : @Packet ConcreteI2CP := (base_Packet 9 7 0 499 0) <| Payload := [x41; x42] |>.
Lemma zero_sequence_never_delivered_witness :
  let w := updc (λ c, c <| recvSeq := 0 |>) world_ex in
  rx (snd (processPacket pkt_zero w)) = rx w ∧ recvSeq (conn (snd (processPacket pkt_zero w))) = 0.
Proof. apply (zero_sequence_never_delivered pkt_zero); done. Defined.
End Examples.
