(* ===== verification/ConnAckProps.v ===== *)
(** * Properties of acknowledgements, timers and congestion control

    The RTT estimator is the integer filter of RFC 6298, the retransmission
    timeout and the congestion window stay within their bounds whatever
    arrives, an acknowledgement removes exactly what it covers, two NACKs of a
    packet make one fast retransmission and one window reduction, and the
    retransmission timer resends what has timed out or gives up. *)

From S2P Require Import Prelude GoInt SeqNum I2CP Packet Floats Runtime Conn ConnRecv ConnAck.
From S2P Require Import Crypto ConnLife ConnWrite ConnFrames ConnOps ConnExamples.
From Stdlib Require Import Strings.Byte.

Section Estimator.
Context {I : I2CP} {B : CircBuf} {RT : GoRuntime}.
Implicit Types w : World.

(** Durations below 2^50 ns (13 days). *)
Definition small (d : Z) : Prop := 0 <= d < 2 ^ 50.

(** RFC 6298 in integers: after the first sample [R], the smoothed time is [R]
    and the variance [R/2]; afterwards they move by 1/8 and 1/4. *)
Definition rfc6298 (srtt var r : Z) : Z * Z :=
  if srtt =? 0 then (r, r / 2)
  else ((7 * srtt + r) / 8, (3 * var + Z.abs (srtt - r)) / 4).

Lemma calculateRTO_eq w :
  calculateRTO w = (Ok (), updc (λ c, c <| rto :=
    Z.min MaxRTO (Z.max MinRTO (i64 (srtt (conn w) + i64 (4 * rttVariance (conn w))))) |>) w).
Proof.
  unfold calculateRTO. rewrite setc_step, getc_step. cbn [id]. unfold ewhen.
  set (r := i64 (srtt (conn w) + _)).
  lazymatch goal with |- context [updc ?f w] => set (w1 := updc f w) end.
  assert (Hr : rto (conn w1) = r) by done.
  assert (Hu : ∀ x, updc (λ c, c <| rto := x |>) w1 = updc (λ c, c <| rto := x |>) w) by done.
  rewrite Hr. destruct (Z.ltb_spec r MinRTO).
  - rewrite setc_step, getc_step. cbn. change (MaxRTO <? MinRTO) with false. cbv iota.
    rewrite Z.max_l by lia. done.
  - rewrite (ste_step _ _ _ () w1) by done. rewrite getc_step. cbn [id]. rewrite Hr.
    rewrite Z.max_r by lia. destruct (Z.ltb_spec MaxRTO r).
    + rewrite Z.min_l by lia. by rewrite setc_eq, Hu.
    + rewrite Z.min_r by lia. done.
Qed.

Definition rtt_filter (c : StreamConn) (r : Z) : StreamConn :=
  if srtt c =? 0 then c <| rtt := r |> <| srtt := r |> <| rttVariance := Z.quot r 2 |>
  else
    c <| rtt := r |>
      <| rttVariance := trunc (fadd (fmul (of_int (rttVariance c)) c0_75)
           (fmul c0_25 (of_int (if r <? srtt c then i64 (srtt c - r) else i64 (r - srtt c))))) |>
      <| srtt := trunc (fadd (fmul (of_int (srtt c)) c0_875) (fmul c0_125 (of_int r))) |>.

Lemma updateRTTEstimate_eq r w : updateRTTEstimate r w = (Ok (), updc (λ c, rtt_filter c r) w).
Proof.
  unfold updateRTTEstimate. rewrite setc_step, getc_step. cbn [id].
  set (w1 := updc _ w). change (srtt (conn w1)) with (srtt (conn w)).
  assert (Hf : rtt_filter (conn w) r = rtt_filter (conn w) r) by done. unfold rtt_filter at 1 in Hf.
  destruct (srtt (conn w) =? 0); rewrite setc_step, setc_eq; subst w1; rewrite !updc_updc;
    f_equal; apply updc_ext; rewrite <-Hf; done.
Qed.

(** C17.  For durations below 13 days the float64 arithmetic of
    updateRTTEstimate has no rounding error: the estimator computes the
    integer filter of RFC 6298, and calculateRTO sets the timeout to
    srtt + 4 rttvar clamped between 100 ms and 45 s. *)
Theorem rtt_estimator_exact w r :
  small (srtt (conn w)) → small (rttVariance (conn w)) → small r →
  let '(s', v') := rfc6298 (srtt (conn w)) (rttVariance (conn w)) r in
  (_ ← updateRTTEstimate r; calculateRTO) w =
    (Ok (), updc (λ c, c <| rtt := r |> <| srtt := s' |> <| rttVariance := v' |>
              <| rto := Z.min MaxRTO (Z.max MinRTO (s' + 4 * v')) |>) w).
Proof.
  intros Hs Hv Hr. unfold small, rfc6298 in *.
  set (s0 := srtt (conn w)) in *. set (v0 := rttVariance (conn w)) in *.
  assert (Hst : ∀ s' v', 0 <= s' < 2 ^ 52 → 0 <= v' < 2 ^ 52 →
    (srtt (rtt_filter (conn w) r) = s') → (rttVariance (rtt_filter (conn w) r) = v') →
    rtt_filter (conn w) r = (conn w) <| rtt := r |> <| srtt := s' |> <| rttVariance := v' |> →
    (_ ← updateRTTEstimate r; calculateRTO) w =
      (Ok (), updc (λ c, c <| rtt := r |> <| srtt := s' |> <| rttVariance := v' |>
                <| rto := Z.min MaxRTO (Z.max MinRTO (s' + 4 * v')) |>) w)).
  { intros s' v' Hs' Hv' Es Ev Ef. rewrite (ste_step _ _ _ () _ (updateRTTEstimate_eq r w)).
    rewrite calculateRTO_eq, updc_updc. f_equal.
    change (srtt (conn (updc (λ c, rtt_filter c r) w))) with (srtt (rtt_filter (conn w) r)).
    change (rttVariance (conn (updc (λ c, rtt_filter c r) w))) with (rttVariance (rtt_filter (conn w) r)).
    rewrite Es, Ev, (i64_small (4 * v')), i64_small by lia. apply updc_ext. by rewrite Ef. }
  destruct (Z.eqb_spec s0 0) as [E|E].
  - assert (Ef : rtt_filter (conn w) r =
      (conn w) <| rtt := r |> <| srtt := r |> <| rttVariance := r / 2 |>).
    { unfold rtt_filter. fold s0. rewrite E. cbn [Z.eqb]. by rewrite Z.quot_div_nonneg by lia. }
    apply Hst; [lia|zlia|by rewrite Ef..].
  - set (d := Z.abs (s0 - r)).
    assert (Hd : (if r <? s0 then i64 (s0 - r) else i64 (r - s0)) = d).
    { subst d. case_if; zbool; rewrite i64_small by zlia; lia. }
    assert (Ef : rtt_filter (conn w) r = (conn w) <| rtt := r |> <| srtt := (7 * s0 + r) / 8 |>
      <| rttVariance := (3 * v0 + d) / 4 |>).
    { unfold rtt_filter. fold s0 v0. apply Z.eqb_neq in E. rewrite E, Hd.
      pose proof (weighted_exact v0 d 3 1 2) as E1. change (2 ^ 2) with 4 in E1.
      pose proof (weighted_exact s0 r 7 1 3) as E2. change (2 ^ 3) with 8 in E2.
      change (Fl 3 (- (2))) with c0_75 in E1. change (Fl 1 (- (2))) with c0_25 in E1.
      change (Fl 7 (- (3))) with c0_875 in E2. change (Fl 1 (- (3))) with c0_125 in E2.
      rewrite E1, E2 by (unfold fits; lia).
      replace (v0 * 3 + 1 * d) with (3 * v0 + d) by lia.
      replace (s0 * 7 + 1 * r) with (7 * s0 + r) by lia. done. }
    apply Hst; [zlia|zlia|by rewrite Ef..].
Qed.
End Estimator.

(** ** Bounds that every operation keeps *)

Section Bounds.
Context {I : I2CP} {B : CircBuf} {RT : GoRuntime}.
Implicit Types w : World.
#[local] Abbreviation M := (STE World ConnError).

(** The congestion window is between 2 and 128 packets, the slow-start
    threshold too, the timeout between 100 ms and 45 s, and at most 128 packets
    are in flight. *)
Record cc_inv w : Prop := {
  cc_cwnd : 2 <= cwnd (conn w) <= MaxWindowSize;
  cc_ssthresh : 2 <= ssthresh (conn w) <= MaxWindowSize;
  cc_rto : MinRTO <= rto (conn w) <= MaxRTO;
  cc_flight : Z.of_nat (size (sentPackets (conn w))) <= MaxWindowSize;
}.

Lemma cc_setc f :
  (∀ w, cc_inv w → cc_inv (updc f w)) → Pres (keeps cc_inv) (setc f : M ()).
Proof. intros H. by apply pres_emodify. Qed.

#[local] Hint Extern 1 (Pres (keeps cc_inv) (emodify _)) =>
  (apply pres_emodify; intros ? []; split; assumption) : typeclass_instances.

#[local] Hint Extern 1 (Pres (keeps cc_inv) (setc _)) =>
  (apply cc_setc; intros ? []; split; assumption) : typeclass_instances.

#[local] Instance updateWindow_cc : Pres (keeps cc_inv) updateCongestionWindow.
Proof.
  intros w [Hc Hs Hr Hf]. unfold updateCongestionWindow. rewrite getc_step. cbn [id].
  unfold MaxWindowSize in *. case_if; zbool; rewrite setc_step; split; cbn; try done.
  - rewrite u32_small by lia. unfold MaxWindowSize. lia.
  - rewrite u32_small by lia. unfold MaxWindowSize. lia.
Qed.

#[local] Instance reduceWindow_cc : Pres (keeps cc_inv) reduceCongestionWindowLocked.
Proof.
  intros w [Hc Hs Hr Hf]. unfold reduceCongestionWindowLocked. rewrite !setc_step.
  unfold MaxWindowSize in *. split; cbn; try done; unfold MaxWindowSize; zlia.
Qed.

#[local] Instance calculateRTO_cc : Pres (keeps cc_inv) calculateRTO.
Proof.
  intros w [Hc Hs Hr Hf]. rewrite calculateRTO_eq. split; cbn; try done.
  unfold MinRTO, MaxRTO, Millisecond, Second in *. lia.
Qed.

#[local] Instance backoff_cc : Pres (keeps cc_inv) applyExponentialBackoffLocked.
Proof.
  intros w [Hc Hs Hr Hf]. unfold applyExponentialBackoffLocked. rewrite setc_step, getc_step. cbn.
  unfold MinRTO, MaxRTO, Millisecond, Second in *.
  assert (i64 (rto (conn w) * 2) = rto (conn w) * 2) as E by (apply i64_small; lia).
  rewrite E. unfold ewhen. case_if; zbool; split; cbn; rewrite ?E; try done;
    unfold MinRTO, MaxRTO, Millisecond, Second in *; lia.
Qed.

(** The packets in flight: fewer, or the same ones with new counters. *)
Lemma cc_flight_le f :
  (∀ w, (size (sentPackets (f (conn w))) ≤ size (sentPackets (conn w)))%nat ∧
     cwnd (f (conn w)) = cwnd (conn w) ∧ ssthresh (f (conn w)) = ssthresh (conn w) ∧
     rto (f (conn w)) = rto (conn w)) → Pres (keeps cc_inv) (setc f : M ()).
Proof.
  intros H. apply cc_setc. intros w []. destruct (H w) as (H1 & H2 & H3 & H4).
  split; cbn; rewrite ?H2, ?H3, ?H4; try done. lia.
Qed.

Lemma size_insert_old {A} (m : gmap Z A) k a b : m !! k = Some a → size (<[k := b]> m) = size m.
Proof. intros H. by rewrite map_size_insert, H. Qed.

#[local] Instance delete_cc s : Pres (keeps cc_inv) (setc (λ c, c <| sentPackets ::= delete s |>) : M ()) | 5.
Proof.
  apply cc_flight_le. intros w. split_and!; try done. cbn. rewrite map_size_delete.
  destruct (sentPackets (conn w) !! s); cbn; lia.
Qed.

#[local] Instance cleanup_cc P `{!∀ kv, Decision (P kv)} :
  Pres (keeps cc_inv) (setc (λ c, c <| sentPackets ::= filter P |>) : M ()) | 6.
Proof.
  apply cc_flight_le. intros w. split_and!; try done. cbn. apply map_size_filter.
Qed.

#[local] Instance SendMessage_conn bs n : Pres (same conn) (SendMessage bs n).
Proof. unfold SendMessage, getc. apply _. Qed.
Lemma conn_cc {A} (m : M A) : Pres (same conn) m → Pres (keeps cc_inv) m.
Proof. intros H w []. specialize (H w). unfold same in H. split; rewrite H; done. Qed.
#[local] Instance SendMessage_cc bs n : Pres (keeps cc_inv) (SendMessage bs n).
Proof. apply conn_cc, _. Qed.
#[local] Instance Now_cc : Pres (keeps cc_inv) Now.
Proof. apply conn_cc, _. Qed.

(** Replacing the record of a packet in flight. *)
Lemma replace_cc s info info' w :
  sentPackets (conn w) !! s = Some info → cc_inv w →
  cc_inv (updc (λ c, c <| sentPackets ::= <[s := info']> |>) w).
Proof. intros H []. split; cbn; try done. by erewrite size_insert_old. Qed.

#[local] Instance retransmit_cc s : Pres (keeps cc_inv) (retransmitPacketLocked s).
Proof.
  intros w Hi. unfold retransmitPacketLocked. rewrite getc_step.
  destruct (sentPackets (conn w) !! s) as [info|] eqn:E; [|done]. rewrite getc_step.
  set (m := ewhen _ _). assert (Hm : Pres (same conn) m) by (subst m; apply _).
  specialize (Hm w). unfold same in Hm. unfold mbind at 1, ste_bind at 1.
  assert (Hi1 : cc_inv (snd (m w))) by (destruct Hi; split; rewrite Hm; done).
  destruct (m w) as [[[]|e|] w1]; try done. rewrite Now_step, setc_eq. cbn [snd] in *.
  apply (replace_cc s info); [by rewrite <-Hm in E|]. by destruct Hi1; split.
Qed.

#[local] Instance handleFailed_cc s r : Pres (keeps cc_inv) (handleMessageFailed s r).
Proof.
  intros w Hi. unfold handleMessageFailed. rewrite getc_step. cbn [id].
  destruct (closed (conn w)); [done|]. destruct r; [|done]. cbn [negb].
  destruct (sentPackets (conn w) !! s) as [info|] eqn:E; [|done]. rewrite setc_step.
  set (w1 := updc _ w). assert (Hi1 : cc_inv w1) by by eapply replace_cc.
  case_if; [|done]. unfold sendViaI2CP, getc.
  match goal with |- cc_inv (snd (?m w1)) => assert (Hp : Pres (keeps cc_inv) m) by apply _ end.
  by apply Hp.
Qed.

(** Control packets have no payload, so they are not kept in flight. *)
Lemma sendPacket_cc (pkt : Packet) : Payload pkt = [] → Pres (keeps cc_inv) (sendPacketLocked pkt).
Proof.
  intros H. unfold sendPacketLocked, trackPacketForRetransmission. rewrite H. cbn [length Nat.eqb].
  unfold sendViaI2CPWithTracking, trackMessage, marshal, getc, setc. apply _.
Qed.

#[local] Hint Extern 1 (Pres (keeps cc_inv) (sendPacketLocked _)) =>
  (apply sendPacket_cc; reflexivity) : typeclass_instances.

#[local] Instance sendAck_cc : Pres (keeps cc_inv) sendAckLocked.
Proof. unfold sendAckLocked, packetNACKs, getNACKListSliceLocked, range_keys, getc. apply _. Qed.
#[local] Instance sendChoke_cc : Pres (keeps cc_inv) sendChokeSignalLocked.
Proof. unfold sendChokeSignalLocked, packetNACKs, getNACKListSliceLocked, range_keys, getc, setc. apply _. Qed.
#[local] Instance sendUnchoke_cc : Pres (keeps cc_inv) sendUnchokeSignalLocked.
Proof. unfold sendUnchokeSignalLocked, packetNACKs, getNACKListSliceLocked, range_keys, getc, setc. apply _. Qed.

#[local] Instance SignPacket_payload kp : Pres (same Payload) (SignPacket kp).
Proof. unfold SignPacket. apply _. Qed.

#[local] Instance sendClose_cc : Pres (keeps cc_inv) sendCloseLocked.
Proof.
  unfold sendCloseLocked. intros w Hi. rewrite getc_step. cbn [id]. cbv zeta.
  set (m := match session (conn w) with None => _ | Some _ => _ end).
  assert (Hm : returns m w (λ p w', Payload p = [] ∧ w' = w) ∧ snd (m w) = w).
  { subst m. destruct (session (conn w)) as [s|]; [|split; [by apply returns_ret|done]].
    destruct (SigningKeyPair s) as [kp|]; [|split; [by apply returns_ret|done]].
    unfold sign. lazymatch goal with |- context [SignPacket kp ?p] =>
      pose proof (SignPacket_payload kp p) as Hp; destruct (SignPacket kp p) as [[] p'] end;
      split; try done; intros p1 w1 [= <- <-]; done. }
  destruct Hm as [Hm1 Hm2]. unfold mbind, ste_bind. destruct (m w) as [[p|e|] w1] eqn:E; cbn [snd] in *.
  - destruct (Hm1 _ _ E) as [Hp ->]. by apply (sendPacket_cc p Hp).
  - by subst.
  - by subst.
Qed.

#[local] Instance manageChoke_cc : Pres (keeps cc_inv) manageChokeStateLocked.
Proof.
  unfold manageChokeStateLocked, updateChokeStateForUsage, calculateBufferUsage, getc, setc. apply _.
Qed.

#[local] Instance deliver_cc fuel : Pres (keeps cc_inv) (deliverBufferedPackets fuel).
Proof.
  induction fuel as [|fuel IH]; cbn [deliverBufferedPackets];
    unfold writeRecvBuf, removeFromNACKListLocked, getc, setc; apply _.
Qed.

#[local] Instance addMissing_cc n i : Pres (keeps cc_inv) (addMissingSequencesFrom i n).
Proof.
  revert i. induction n as [|n IH]; intros i; cbn [addMissingSequencesFrom];
    unfold shouldAddToNACKListLocked, getc, setc; apply _.
Qed.

#[local] Instance handleData_cc (pkt : Packet) : Pres (keeps cc_inv) (handleDataLocked pkt).
Proof.
  unfold handleDataLocked, processInSequencePacketLocked, handleOutOfOrderPacketLocked,
    handleBufferFullLocked, updateNACKListLocked, calculateSequenceGapLocked,
    addMissingSequencesToNACKListLocked, deliverBufferedPacketsLocked, removeFromNACKListLocked,
    writeRecvBuf, recvBroadcast, getc, setc. apply _.
Qed.

#[local] Instance handleNACKs_cc nacks b : Pres (keeps cc_inv) (handleNACKs nacks b).
Proof.
  revert b. induction nacks as [|x nacks IH]; intros b; cbn [handleNACKs]; [apply _|].
  unfold getc, setc. apply _.
Qed.

#[local] Instance cleanupAcked_cc a b l : Pres (keeps cc_inv) (cleanupAckedPacketsLocked a b l).
Proof. unfold cleanupAckedPacketsLocked, sendBroadcast, getc. cbv zeta. apply _. Qed.

#[local] Instance handleAck_cc (pkt : Packet) : Pres (keeps cc_inv) (handleAckLocked pkt).
Proof.
  unfold handleAckLocked, handleNACKsLocked, handleOptionalDelayLocked, startPersistTimerLocked,
    stopPersistTimerLocked, measureRTTFromAck, updateRTTEstimate, sendBroadcast, go, getc. apply _.
Qed.

#[local] Instance handleSynAck_cc (pkt : Packet) : Pres (keeps cc_inv) (handleSynAckLocked pkt).
Proof. unfold handleSynAckLocked, extractRemoteMTUFromSynAck, setState, getc. apply _. Qed.
#[local] Instance handleFinalAck_cc (pkt : Packet) : Pres (keeps cc_inv) (handleFinalAckLocked pkt).
Proof. unfold handleFinalAckLocked, setState, go, getc. apply _. Qed.
#[local] Instance handleClose_cc (pkt : Packet) : Pres (keeps cc_inv) (handleCloseLocked pkt).
Proof. unfold handleCloseLocked, setState, recvBroadcast, getc. apply _. Qed.
#[local] Instance handleReset_cc (pkt : Packet) : Pres (keeps cc_inv) (handleResetLocked pkt).
Proof. unfold handleResetLocked, setState, recvBroadcast, getc. apply _. Qed.
#[local] Instance process_cc (pkt : Packet) : Pres (keeps cc_inv) (processPacket pkt).
Proof. unfold processPacket, dispatchPacketByFlags, getc. cbv zeta. apply _. Qed.

#[local] Instance receive_cc : Pres (keeps cc_inv) receiveLoopStep.
Proof.
  unfold receiveLoopStep, getc. apply pres_bind; [apply _|apply _|]. intros c.
  destruct (recvChan c); apply _.
Qed.

#[local] Instance retransmitTimedOut_cc l : Pres (keeps cc_inv) (retransmitTimedOutPacketsLocked l).
Proof.
  induction l as [|x l IH]; cbn [retransmitTimedOutPacketsLocked]; [apply _|]. unfold getc. apply _.
Qed.

#[local] Instance Close_cc : Pres (keeps cc_inv) Close.
Proof.
  unfold Close, sendCloseIfEstablished, cleanupConnectionLocked, cacheTCB, UnregisterConnection,
    limiterClosed, stopPersistTimerLocked, wakeBlockedGoroutines, recvBroadcast, sendBroadcast,
    setState, getc. apply _.
Qed.

#[local] Instance tick_cc : Pres (keeps cc_inv) retransmitTimerTick.
Proof.
  unfold retransmitTimerTick, checkRetransmissions, findTimedOutPacketsLocked, range_keys, getc.
  apply _.
Qed.

(** With room in the window one more packet may be in flight. *)
Lemma track_cc (pkt : Packet) bs w :
  window_open w → cc_inv w → cc_inv (snd (trackPacketForRetransmission pkt bs w)).
Proof.
  intros Ho Hi. unfold trackPacketForRetransmission. case_if; [done|].
  rewrite Now_step, setc_eq. destruct Hi as [Hc Hs Hr Hf]. unfold window_open, MaxWindowSize in *.
  rewrite u32_small in Ho by lia. split; cbn; try done. rewrite map_size_insert.
  destruct (sentPackets (conn w) !! SequenceNum pkt); unfold MaxWindowSize; cbn; lia.
Qed.

#[local] Instance sendTracked_cc bs s b : Pres (keeps cc_inv) (sendViaI2CPWithTracking bs s b).
Proof. unfold sendViaI2CPWithTracking, trackMessage, getc. apply _. Qed.

Lemma pres_after {A} (m : M A) (k : A → M ()) (R : World → World → Prop) `{!PreOrder R} w :
  R w (snd (m w)) → (∀ a, Pres R (k a)) → R w (snd ((m ≫= k) w)).
Proof.
  intros H Hk. unfold mbind, ste_bind. destruct (m w) as [[a|e|] w1]; [|done..].
  etransitivity; [exact H|]. apply Hk.
Qed.

Lemma marshal_eq (pkt : Packet) w : snd (marshal pkt w) = w.
Proof. unfold marshal. by destruct (Marshal pkt). Qed.

Lemma sendPacket_window_cc (pkt : Packet) w :
  window_open w → cc_inv w → cc_inv (snd (sendPacketLocked pkt w)).
Proof.
  intros Ho Hi. unfold sendPacketLocked. pose proof (marshal_eq pkt w) as Hm.
  unfold mbind at 1, ste_bind at 1. destruct (marshal pkt w) as [[bs|e|] w1]; cbn [snd] in *; subst w1; try done.
  revert Hi. apply (pres_after (trackPacketForRetransmission pkt bs) _ (keeps cc_inv)).
  - intros Hi. by apply track_cc.
  - intros _. unfold getc. apply _.
Qed.

Lemma sendDataChunk_cc chunk w : window_open w → cc_inv w → cc_inv (snd (sendDataChunk chunk w)).
Proof.
  intros Ho Hi. unfold sendDataChunk. rewrite getc_step. cbn [id].
  assert (∃ d, getResendDelaySeconds w = (Ok d, w)) as [d Hd].
  { unfold getResendDelaySeconds. rewrite getc_step. cbn [id]. cbv zeta. repeat case_if; by eexists. }
  rewrite (ste_step _ _ _ _ _ Hd). cbv zeta. revert Hi.
  apply (pres_after (sendPacketLocked _) _ (keeps cc_inv)).
  - intros Hi. by apply sendPacket_window_cc.
  - intros _. apply _.
Qed.

#[local] Instance consume_cc n : Pres (keeps cc_inv) (consumeBufferDataLocked n).
Proof. unfold consumeBufferDataLocked, writeRecvBuf, getc. cbv zeta. apply _. Qed.
#[local] Instance postRead_cc : Pres (keeps cc_inv) handlePostReadActionsLocked.
Proof.
  unfold handlePostReadActionsLocked, deliverBufferedPacketsLocked, calculateBufferUsage, getc. apply _.
Qed.
#[local] Instance incoming_cc pick (pkt : Packet) : Pres (keeps cc_inv) (handleIncomingPacket pick pkt).
Proof. unfold handleIncomingPacket, getc. apply _. Qed.
#[local] Instance inactivity_cc : Pres (keeps cc_inv) checkInactivity.
Proof. unfold checkInactivity, getc. apply _. Qed.
#[local] Instance persist_cc : Pres (keeps cc_inv) persistTimerFired.
Proof.
  unfold persistTimerFired, sendProbePacketLocked, getc. apply pres_bind; [apply _..|]. intros c.
  apply pres_if; [apply _|]. apply pres_bind; [apply _| |apply _].
  apply pres_bind; [apply _..|]. intros c1. cbv zeta. apply _.
Qed.
#[local] Instance delivered_cc s : Pres (keeps cc_inv) (handleMessageDelivered s).
Proof. unfold handleMessageDelivered, getc. apply _. Qed.
#[local] Instance SetDeadline_cc t : Pres (keeps cc_inv) (SetDeadline t).
Proof. unfold SetDeadline, recvBroadcast. apply _. Qed.
#[local] Instance SetReadDeadline_cc t : Pres (keeps cc_inv) (SetReadDeadline t).
Proof. unfold SetReadDeadline, recvBroadcast. apply _. Qed.
#[local] Instance SetWriteDeadline_cc t : Pres (keeps cc_inv) (SetWriteDeadline t).
Proof. unfold SetWriteDeadline, sendBroadcast. apply _. Qed.
#[local] Instance SetInactivity_cc t : Pres (keeps cc_inv) (SetInactivityTimeout t).
Proof. unfold SetInactivityTimeout. apply _. Qed.

(** C7.  Flow control.  Whatever packets arrive, whatever the user does and in
    whatever order the timers fire, also while a Read or Write waits, the
    congestion window and the slow-start threshold stay between 2 and 128
    packets, the retransmission timeout between 100 ms and 45 s, and never more
    than 128 data packets are in flight. *)
Theorem flow_control_bounds (ops : list conn_op) w : cc_inv w → cc_inv (conn_run ops w).
Proof.
  apply (conn_run_kept (keeps cc_inv)); try apply _.
  - intros waits k He. apply Read_env; [apply _..|exact He].
  - intros waits data He. apply Write_env; [apply _..| |exact He].
    intros chunk w1 _ Ho Hi. by apply sendDataChunk_cc.
Qed.
End Bounds.

(** ** Acknowledged and missing packets *)

Section Acks.
Context {I : I2CP} {B : CircBuf} {RT : GoRuntime}.
Implicit Types w : World.
#[local] Abbreviation M := (STE World ConnError).

(** What a retransmission sends. *)
Definition resend_message (c : StreamConn) (bs : bytes) : Message :=
  MkMessage (dest c) (localPort c) (remotePort c) bs 0.

(** I2CP accepts every message. *)
Definition sends_ok : Prop := ∀ n, send_ok n = true.

Definition resent (s : Z) (info : sentPacket) (w : World) : World :=
  updc (λ c, c <| sentPackets ::= <[s := MkSent (data info) (clock (ticks w)) (retries info + 1)]> |>)
    (w <| sends ::= S |> <| outbox ::= λ o, o ++ [resend_message (conn w) (data info)] |> <| ticks ::= S |>).

Lemma SendMessage_ok bs n w : sends_ok →
  SendMessage bs n w = (Ok (), w <| sends ::= S |> <| outbox ::= λ o, o ++
    [MkMessage (dest (conn w)) (localPort (conn w)) (remotePort (conn w)) bs n] |>).
Proof.
  intros H. unfold SendMessage. do 2 erewrite ste_step by done. by rewrite H.
Qed.

Lemma retransmit_eq s w : sends_ok → is_Some (session (conn w)) →
  retransmitPacketLocked s w =
    (Ok (), match sentPackets (conn w) !! s with Some info => resent s info w | None => w end).
Proof.
  intros Hs Hses. unfold retransmitPacketLocked. rewrite getc_step.
  destruct (sentPackets (conn w) !! s) as [info|]; [|done]. rewrite getc_step.
  rewrite bool_decide_true by done. unfold ewhen. erewrite ste_step by (by apply SendMessage_ok).
  rewrite Now_step, setc_eq. done.
Qed.

(** Whether one more NACK of [s] makes a fast retransmission. *)
Definition triggers w (s : Z) : bool :=
  FastRetransmitThreshold <=? default 0 (nackCounts (conn w) !! s) + 1.

Definition halved (c : StreamConn) : Z := Z.max (cwnd c / 2) 2.

(** The result of processing [nacks]. *)
Record nacks_done (nacks : list Z) (triggered : bool) w w' : Prop := {
  nd_counts : ∀ s, nackCounts (conn w') !! s =
    if decide (s ∈ nacks)
    then if triggers w s then None else Some (default 0 (nackCounts (conn w) !! s) + 1)
    else nackCounts (conn w) !! s;
  nd_sent : ∀ s, sentPackets (conn w') !! s = None ↔ sentPackets (conn w) !! s = None;
  nd_data : ∀ s info, sentPackets (conn w) !! s = Some info → ∃ info',
    sentPackets (conn w') !! s = Some info' ∧ data info' = data info ∧
    retries info' = retries info + (if decide (s ∈ nacks) then if triggers w s then 1 else 0 else 0);
  nd_outbox : outbox w' = outbox w ++
    omap (λ s, resend_message (conn w) ∘ data <$> sentPackets (conn w) !! s) (filter (λ s, triggers w s) nacks);
  nd_window : (cwnd (conn w'), ssthresh (conn w')) =
    if negb triggered && existsb (triggers w) nacks then (halved (conn w), halved (conn w))
    else (cwnd (conn w), ssthresh (conn w));
  nd_peer : (dest (conn w'), localPort (conn w'), remotePort (conn w'), session (conn w')) =
    (dest (conn w), localPort (conn w), remotePort (conn w), session (conn w));
}.

Lemma nacks_done_nil b w : nacks_done [] b w w.
Proof.
  split; cbn; try done.
  - intros s info H. exists info. by rewrite H, Z.add_0_r.
  - by rewrite app_nil_r.
  - by rewrite andb_false_r.
Qed.

Lemma resend_peer c c' d : dest c' = dest c → localPort c' = localPort c → remotePort c' = remotePort c →
  resend_message c' d = resend_message c d.
Proof. unfold resend_message. by intros -> -> ->. Qed.

Lemma nacks_done_app l1 l2 b w w1 w2 :
  nacks_done l1 b w w1 → nacks_done l2 (b || existsb (triggers w) l1) w1 w2 →
  (∀ s, s ∈ l1 → s ∉ l2) → nacks_done (l1 ++ l2) b w w2.
Proof.
  intros H1 H2 Hd.
  assert (Hc : ∀ s, s ∈ l2 → nackCounts (conn w1) !! s = nackCounts (conn w) !! s).
  { intros s Hs. rewrite (nd_counts _ _ _ _ H1). rewrite decide_False; [done|]. intros Hs1. by apply (Hd s). }
  assert (Ht : ∀ s, s ∈ l2 → triggers w1 s = triggers w s) by (intros s Hs; unfold triggers; by rewrite Hc).
  pose proof (nd_peer _ _ _ _ H1) as [= Hp1 Hp2 Hp3 Hp4].
  split.
  - intros s. rewrite (nd_counts _ _ _ _ H2). destruct (decide (s ∈ l2)) as [Hs|Hs].
    + rewrite decide_True by (apply elem_of_app; by right). by rewrite Ht, Hc.
    + rewrite (nd_counts _ _ _ _ H1). destruct (decide (s ∈ l1)).
      * by rewrite decide_True by (apply elem_of_app; by left).
      * rewrite decide_False; [done|]. intros [|]%elem_of_app; done.
  - intros s. rewrite (nd_sent _ _ _ _ H2). apply H1.
  - intros s info Hi. destruct (nd_data _ _ _ _ H1 s info Hi) as (i1 & E1 & D1 & R1).
    destruct (nd_data _ _ _ _ H2 s i1 E1) as (i2 & E2 & D2 & R2). exists i2.
    split_and!; [done|congruence|]. rewrite R2, R1. destruct (decide (s ∈ l2)) as [Hs|Hs].
    + rewrite (decide_False (P := s ∈ l1)) by (intros Hs1; by apply (Hd s)).
      rewrite decide_True by (apply elem_of_app; by right). rewrite Ht by done. lia.
    + destruct (decide (s ∈ l1)).
      * rewrite decide_True by (apply elem_of_app; by left). lia.
      * rewrite decide_False by (intros [|]%elem_of_app; done). lia.
  - rewrite (nd_outbox _ _ _ _ H2), (nd_outbox _ _ _ _ H1), <-app_assoc. f_equal.
    rewrite filter_app, omap_app. f_equal.
    assert (Hf : filter (λ s, triggers w1 s) l2 = filter (λ s, triggers w s) l2).
    { apply filter_ext_elem. intros s Hs. by rewrite Ht. }
    rewrite Hf. apply omap_ext_elem. intros s Hs. unfold compose.
    pose proof (nd_sent _ _ _ _ H1 s) as Hn. destruct (sentPackets (conn w) !! s) as [info|] eqn:E.
    + destruct (nd_data _ _ _ _ H1 s info E) as (i1 & -> & D1 & _). cbn. rewrite D1.
      f_equal. by apply resend_peer.
    + by rewrite (proj2 Hn).
  - rewrite (nd_window _ _ _ _ H2), existsb_app.
    assert (existsb (triggers w1) l2 = existsb (triggers w) l2) as ->.
    { clear -Ht. induction l2 as [|x l IH]; [done|]. cbn. rewrite Ht by left. f_equal. apply IH.
      intros s Hs. apply Ht. by right. }
    pose proof (nd_window _ _ _ _ H1) as Hw. destruct b; cbn in *; [done|].
    destruct (existsb (triggers w) l1); cbn in *; [done|].
    injection Hw as Hw1 Hw2. unfold halved. by rewrite Hw1, Hw2.
  - by rewrite (nd_peer _ _ _ _ H2), (nd_peer _ _ _ _ H1).
Qed.
(** One NACK. *)
Definition count_nack (s : Z) (w : World) : World :=
  updc (λ c, c <| nackCounts ::= λ m, <[s := default 0 (m !! s) + 1]> m |>) w.
Definition reduce_window (w : World) : World :=
  updc (λ c, c <| ssthresh := halved (conn w) |> <| cwnd := halved (conn w) |>
          <| windowSize := halved (conn w) |>) w.
Definition resend_if_kept (s : Z) (w : World) : World :=
  match sentPackets (conn w) !! s with Some info => resent s info w | None => w end.
Definition nack_one (s : Z) (b : bool) (w : World) : World :=
  if triggers w s then
    let w1 := count_nack s w in
    updc (λ c, c <| nackCounts ::= delete s |>)
      (resend_if_kept s (if b then w1 else reduce_window w1))
  else count_nack s w.

Lemma reduce_eq w : reduceCongestionWindowLocked w = (Ok (), reduce_window w).
Proof.
  unfold reduceCongestionWindowLocked. rewrite !setc_step, setc_eq. unfold reduce_window.
  rewrite !updc_updc. f_equal.
Qed.

Lemma handleNACKs_cons x l b w :
  sends_ok → is_Some (session (conn w)) →
  handleNACKs (x :: l) b w = handleNACKs l (b || triggers w x) (nack_one x b w).
Proof.
  intros Hs Hses. cbn [handleNACKs]. rewrite setc_step, getc_step. fold (count_nack x w).
  assert (E : default 0 (nackCounts (conn (count_nack x w)) !! x) = default 0 (nackCounts (conn w) !! x) + 1).
  { cbn. by rewrite lookup_insert_eq. }
  rewrite E. unfold nack_one. fold (triggers w x). destruct (triggers w x) eqn:Ht.
  - rewrite orb_true_r.
    assert (Hr : ewhen (negb b) reduceCongestionWindowLocked (count_nack x w) =
      (Ok (), if b then count_nack x w else reduce_window (count_nack x w))).
    { destruct b; [done|]. apply reduce_eq. }
    rewrite (ste_step _ _ _ _ _ Hr). set (w2 := if b then _ else _).
    assert (Hses2 : is_Some (session (conn w2))) by (subst w2; by destruct b).
    rewrite (ste_step _ _ _ None (resend_if_kept x w2)).
    2: { unfold try. rewrite retransmit_eq by done. done. }
    by rewrite setc_step.
  - by rewrite orb_false_r.
Qed.

Lemma nack_counted_done x b w : triggers w x = false → nacks_done [x] b w (count_nack x w).
Proof.
  intros Ht.
  split; try done.
  + intros s. cbn. destruct (decide (s ∈ [x])) as [->%list_elem_of_singleton|Hn].
    * by rewrite Ht, lookup_insert_eq.
    * rewrite lookup_insert_ne; [done|]. intros ->. by apply Hn, list_elem_of_singleton.
  + intros s info Hi. exists info. split_and!; [done|done|].
    destruct (decide (s ∈ [x])) as [->%list_elem_of_singleton|]; [rewrite Ht|]; lia.
  + rewrite filter_cons_False by (rewrite Ht; intros []). cbn. by rewrite app_nil_r.
  + cbn. by rewrite Ht, andb_false_r.
Qed.

Lemma nack_triggered_done x b w : triggers w x = true →
  nacks_done [x] b w (updc (λ c, c <| nackCounts ::= delete x |>)
    (resend_if_kept x (if b then count_nack x w else reduce_window (count_nack x w)))).
Proof.
  intros Ht.
  set (w2 := if b then count_nack x w else _).
  assert (E2 : sentPackets (conn w2) = sentPackets (conn w) ∧
    delete x (nackCounts (conn w2)) = delete x (nackCounts (conn w)) ∧
    (dest (conn w2), localPort (conn w2), remotePort (conn w2), session (conn w2)) =
    (dest (conn w), localPort (conn w), remotePort (conn w), session (conn w)) ∧
    outbox w2 = outbox w ∧
    (cwnd (conn w2), ssthresh (conn w2)) =
      if b then (cwnd (conn w), ssthresh (conn w)) else (halved (conn w), halved (conn w))).
  { subst w2. destruct b; cbn; rewrite ?delete_insert_eq; done. }
  destruct E2 as (Es & Ec & Ep & Eo & Ew). unfold resend_if_kept. rewrite Es.
  assert (Hcnt : ∀ s, delete x (nackCounts (conn w)) !! s =
    if decide (s ∈ [x]) then if triggers w s then None else Some (default 0 (nackCounts (conn w) !! s) + 1)
    else nackCounts (conn w) !! s).
  { intros s. destruct (decide (s ∈ [x])) as [->%list_elem_of_singleton|Hn].
    - by rewrite Ht, lookup_delete_eq.
    - rewrite lookup_delete_ne; [done|]. intros ->. by apply Hn, list_elem_of_singleton. }
  assert (Hwin : (cwnd (conn w2), ssthresh (conn w2)) =
    if negb b && existsb (triggers w) [x] then (halved (conn w), halved (conn w))
    else (cwnd (conn w), ssthresh (conn w))) by (cbn; rewrite Ht, Ew; by destruct b).
  destruct (sentPackets (conn w) !! x) as [info|] eqn:E.
  + split.
    * intros s. cbn. rewrite Ec. apply Hcnt.
    * intros s. cbn. rewrite Es. destruct (decide (s = x)) as [->|].
      { rewrite lookup_insert_eq, E. done. } by rewrite lookup_insert_ne.
    * intros s i0 Hi. cbn. rewrite Es. destruct (decide (s = x)) as [->|Hne].
      { rewrite lookup_insert_eq. eexists. split; [done|]. rewrite E in Hi. injection Hi as ->.
        rewrite decide_True by by apply list_elem_of_singleton. by rewrite Ht. }
      rewrite lookup_insert_ne by done. exists i0. split_and!; [done|done|].
      rewrite decide_False by (intros ?%list_elem_of_singleton; done). lia.
    * rewrite filter_cons_True by by rewrite Ht. cbn. rewrite E, Eo. cbn. do 2 f_equal.
      injection Ep as ??? _. by apply resend_peer.
    * exact Hwin.
    * exact Ep.
  + split.
    * intros s. cbn. rewrite Ec. apply Hcnt.
    * intros s. cbn. by rewrite Es.
    * intros s i0 Hi. cbn. rewrite Es. exists i0. split_and!; [done|done|].
      destruct (decide (s ∈ [x])) as [->%list_elem_of_singleton|]; [congruence|lia].
    * rewrite filter_cons_True by by rewrite Ht. cbn. by rewrite E, Eo, app_nil_r.
    * exact Hwin.
    * exact Ep.
Qed.

Lemma nack_one_done x b w : nacks_done [x] b w (nack_one x b w).
Proof.
  unfold nack_one. destruct (triggers w x) eqn:Ht; [by apply nack_triggered_done|by apply nack_counted_done].
Qed.

Lemma handleNACKs_done l b w :
  sends_ok → is_Some (session (conn w)) → NoDup l →
  ∃ w', handleNACKs l b w = (Ok (), w') ∧ nacks_done l b w w'.
Proof.
  intros Hs. revert b w. induction l as [|x l IH]; intros b w Hses Hnd.
  { exists w. split; [done|]. apply nacks_done_nil. }
  apply NoDup_cons in Hnd as [Hx Hnd]. rewrite handleNACKs_cons by done.
  pose proof (nack_one_done x b w) as H1. pose proof (nd_peer _ _ _ _ H1) as [= _ _ _ Hp].
  destruct (IH (b || triggers w x) (nack_one x b w)) as (w' & E & H2); [by rewrite Hp|done|].
  exists w'. split; [done|]. apply (nacks_done_app [x] l b w (nack_one x b w) w'); [done| |].
  - cbn. by rewrite orb_false_r.
  - intros s ->%list_elem_of_singleton. done.
Qed.

(** C18.  Fast retransmit.  Of the packets an acknowledgement reports missing,
    exactly those reported for the second time are sent again if still in
    flight, their count starting afresh; the others have been counted once
    more; the congestion window is halved once for the whole list, and not at
    all when nothing is sent again. *)
Theorem fast_retransmit_exact (nacks : list Z) w :
  sends_ok → is_Some (session (conn w)) → NoDup nacks →
  ∃ w', handleNACKsLocked nacks w = (Ok (), w') ∧ nacks_done nacks false w w'.
Proof.
  intros Hs Hses Hnd. unfold handleNACKsLocked. destruct nacks as [|x l].
  - exists w. split; [done|]. apply nacks_done_nil.
  - cbn [length Nat.eqb]. by apply handleNACKs_done.
Qed.
End Acks.

(** ** What an acknowledgement removes *)

Section Cleanup.
Context {I : I2CP} {B : CircBuf} {RT : GoRuntime}.
Implicit Types w : World.
#[local] Abbreviation M := (STE World ConnError).

(** [w'] has the packets in flight of [w], and has sent nothing but some of
    them. *)
Definition resends w w' : Prop :=
  (∀ s, data <$> sentPackets (conn w') !! s = data <$> sentPackets (conn w) !! s) ∧
  (dest (conn w'), localPort (conn w'), remotePort (conn w')) =
    (dest (conn w), localPort (conn w), remotePort (conn w)) ∧
  ∃ ms, outbox w' = outbox w ++ ms ∧ ∀ m, m ∈ ms →
    ∃ s info, sentPackets (conn w) !! s = Some info ∧ m = resend_message (conn w) (data info).

#[local] Instance resends_preorder : PreOrder resends.
Proof.
  split.
  - intros w. split_and!; [done|done|]. exists []. rewrite app_nil_r. split; [done|]. by intros m ?%elem_of_nil.
  - intros w1 w2 w3 (D1 & P1 & ms1 & O1 & M1) (D2 & P2 & ms2 & O2 & M2).
    split_and!; [intros s; by rewrite D2|by rewrite P2|].
    exists (ms1 ++ ms2). split; [by rewrite O2, O1, app_assoc|].
    intros m [Hm|Hm]%elem_of_app; [by apply M1|].
    destruct (M2 m Hm) as (s & info & Hs & ->). specialize (D1 s). rewrite Hs in D1.
    destruct (sentPackets (conn w1) !! s) as [info1|] eqn:E; [|done]. cbn in D1.
    injection D1 as D1. exists s, info1. split; [done|]. rewrite D1. injection P1 as ???.
    by apply resend_peer.
Qed.

Lemma resends_same w w' :
  sentPackets (conn w') = sentPackets (conn w) → outbox w' = outbox w →
  (dest (conn w'), localPort (conn w'), remotePort (conn w')) =
    (dest (conn w), localPort (conn w), remotePort (conn w)) → resends w w'.
Proof.
  intros E1 E2 E3. split_and!; [by rewrite E1|done|]. exists [].
  rewrite app_nil_r. split; [done|]. by intros m ?%elem_of_nil.
Qed.
#[local] Hint Extern 1 (Pres resends (setc _)) =>
  (apply pres_emodify; intros; apply resends_same; exact eq_refl) : typeclass_instances.
#[local] Hint Extern 1 (Pres resends (emodify _)) =>
  (apply pres_emodify; intros; apply resends_same; exact eq_refl) : typeclass_instances.

#[local] Instance Now_resends : Pres resends Now.
Proof. unfold Now. apply _. Qed.

#[local] Instance retransmit_resends s : Pres resends (retransmitPacketLocked s).
Proof.
  intros w. unfold retransmitPacketLocked. rewrite getc_step.
  destruct (sentPackets (conn w) !! s) as [info|] eqn:E; [|reflexivity]. rewrite getc_step.
  set (w1 := λ w0 : World, updc (λ c, c <| sentPackets ::= <[s := MkSent (data info) (clock (ticks w0)) (retries info + 1)]> |>)
    (w0 <| ticks ::= S |>)).
  assert (Hupd : ∀ w0, sentPackets (conn w0) = sentPackets (conn w) →
    (dest (conn w0), localPort (conn w0), remotePort (conn w0)) =
    (dest (conn w), localPort (conn w), remotePort (conn w)) →
    (outbox w0 = outbox w ∨ outbox w0 = outbox w ++ [resend_message (conn w) (data info)]) →
    resends w (w1 w0)).
  { intros w0 E0 Ep Eo. split_and!.
    - intros s'. cbn. rewrite E0. destruct (decide (s = s')) as [->|].
      + by rewrite lookup_insert_eq, E.
      + by rewrite lookup_insert_ne.
    - exact Ep.
    - destruct Eo as [Eo|Eo].
      + exists []. rewrite app_nil_r. split; [done|]. by intros m ?%elem_of_nil.
      + eexists. split; [exact Eo|]. intros m ->%list_elem_of_singleton. by exists s, info. }
  unfold ewhen. case_if.
  - unfold SendMessage.
    destruct (send_ok (sends w)) eqn:Hok.
    + rewrite (ste_step _ _ w () (w <| sends ::= S |> <| outbox ::= λ o, o ++ [resend_message (conn w) (data info)] |>)).
      * apply Hupd; [done|done|by right].
      * do 2 erewrite ste_step by done. by rewrite Hok.
    + rewrite (ste_err _ _ w ESend (w <| sends ::= S |>)).
      * cbn [snd]. by apply resends_same.
      * do 2 erewrite ste_step by done. by rewrite Hok.
  - apply Hupd; [done|done|by left].
Qed.

#[local] Instance handleNACKs_resends l b : Pres resends (handleNACKs l b).
Proof.
  revert b. induction l as [|x l IH]; intros b; cbn [handleNACKs]; [apply _|].
  unfold reduceCongestionWindowLocked, getc. apply _.
Qed.

(** The steps of [handleAckLocked] after the packets have been removed. *)
Definition ack_tail (pkt : Packet) : M () :=
  _ ← updateCongestionWindow;
  _ ← handleNACKsLocked (NACKs pkt);
  handleOptionalDelayLocked pkt.

#[local] Instance ack_tail_resends (pkt : Packet) : Pres resends (ack_tail pkt).
Proof.
  unfold ack_tail, updateCongestionWindow, handleNACKsLocked, handleOptionalDelayLocked,
    startPersistTimerLocked, stopPersistTimerLocked, sendBroadcast, go, getc. apply _.
Qed.

Definition woken w w' : Prop := (sendCond (conn w) ≤ sendCond (conn w'))%nat.
#[local] Instance woken_preorder : PreOrder woken.
Proof. split; unfold woken; [by intros ?|intros ???; lia]. Qed.
#[local] Hint Extern 1 (Pres woken (setc _)) =>
  (apply pres_emodify; intros; unfold woken; cbn; lia) : typeclass_instances.
#[local] Hint Extern 1 (Pres woken (emodify _)) =>
  (apply pres_emodify; intros; unfold woken; cbn; lia) : typeclass_instances.
#[local] Instance handleNACKs_woken l b : Pres woken (handleNACKs l b).
Proof.
  revert b. induction l as [|x l IH]; intros b; cbn [handleNACKs]; [apply _|].
  unfold reduceCongestionWindowLocked, retransmitPacketLocked, SendMessage, Now, getc. apply _.
Qed.
#[local] Instance ack_tail_woken (pkt : Packet) : Pres woken (ack_tail pkt).
Proof.
  unfold ack_tail, updateCongestionWindow, handleNACKsLocked, handleOptionalDelayLocked,
    startPersistTimerLocked, stopPersistTimerLocked, sendBroadcast, go, Now, getc. apply _.
Qed.

#[local] Instance retransmit_safe s : Safe (retransmitPacketLocked s).
Proof. unfold retransmitPacketLocked, SendMessage, Now, getc, setc. apply _. Qed.
#[local] Instance handleNACKs_total l b : Total (handleNACKs l b).
Proof.
  revert b. induction l as [|x l IH]; intros b; cbn [handleNACKs]; [apply _|].
  unfold reduceCongestionWindowLocked, getc, setc. apply _.
Qed.
#[local] Instance ack_tail_total (pkt : Packet) : Total (ack_tail pkt).
Proof.
  unfold ack_tail, updateCongestionWindow, handleNACKsLocked, handleOptionalDelayLocked,
    startPersistTimerLocked, stopPersistTimerLocked, sendBroadcast, go, Now, getc, setc. apply _.
Qed.

Definition flight w := (sentPackets (conn w), outbox w, sendCond (conn w),
  (dest (conn w), localPort (conn w), remotePort (conn w))).
#[local] Instance measure_flight a : Pres (same flight) (measureRTTFromAck a).
Proof. unfold measureRTTFromAck, updateRTTEstimate, calculateRTO, Now, getc, setc. apply _. Qed.
#[local] Instance measure_total a : Total (measureRTTFromAck a).
Proof. unfold measureRTTFromAck, updateRTTEstimate, calculateRTO, Now, getc, setc. apply _. Qed.

Lemma cleanup_eq old new nacks w :
  ∃ w', cleanupAckedPacketsLocked old new nacks w = (Ok (), w') ∧
    sentPackets (conn w') = filter (λ kv, seqLessThanOrEqual kv.1 new = false) (sentPackets (conn w)) ∧
    outbox w' = outbox w ∧
    (dest (conn w'), localPort (conn w'), remotePort (conn w')) =
      (dest (conn w), localPort (conn w), remotePort (conn w)) ∧
    ((size (sentPackets (conn w')) < size (sentPackets (conn w)))%nat →
      (sendCond (conn w) < sendCond (conn w'))%nat).
Proof.
  unfold cleanupAckedPacketsLocked. rewrite getc_step, !setc_step, getc_step. cbn [id].
  set (w1 := updc _ (updc _ w)). cbv zeta. unfold ewhen.
  case_if.
  - eexists. split; [done|]. split_and!; try done. intros _. cbn. lia.
  - exists w1. split; [done|]. split_and!; try done. intros Hlt. apply orb_false_iff in Hif as [Hif _].
    apply Nat.ltb_ge in Hif. cbn in Hlt. cbn in Hif. lia.
Qed.

Lemma handleAck_tail (pkt : Packet) w :
  has_flag (Flags pkt) FlagNoACK = false → seqGreaterThan (AckThrough pkt) (ackThrough (conn w)) = true →
  ∃ w1, handleAckLocked pkt w = ack_tail pkt w1 ∧
    sentPackets (conn w1) =
      filter (λ kv, seqLessThanOrEqual kv.1 (AckThrough pkt) = false) (sentPackets (conn w)) ∧
    outbox w1 = outbox w ∧
    (dest (conn w1), localPort (conn w1), remotePort (conn w1)) =
      (dest (conn w), localPort (conn w), remotePort (conn w)) ∧
    ((size (sentPackets (conn w1)) < size (sentPackets (conn w)))%nat →
      (sendCond (conn w) < sendCond (conn w1))%nat).
Proof.
  intros Hf Hg. unfold handleAckLocked. rewrite getc_step. cbn [id]. rewrite Hf, Hg. cbv zeta.
  rewrite ste_assoc, setc_step, ste_assoc. set (w0 := updc _ w).
  destruct (total_run flight (measureRTTFromAck (AckThrough pkt)) w0 _ _) as ([] & w1 & E1 & Hfl).
  rewrite (ste_step _ _ _ _ _ E1), ste_assoc.
  destruct (cleanup_eq (ackThrough (conn w)) (AckThrough pkt) (NACKs pkt) w1) as (w2 & E2 & S2 & O2 & P2 & C2).
  rewrite (ste_step _ _ _ _ _ E2). unfold flight in Hfl.
  assert (Hw : sentPackets (conn w1) = sentPackets (conn w)) by (injection Hfl as Hw _; exact Hw).
  assert (Ho : outbox w1 = outbox w) by (injection Hfl as _ Ho _; exact Ho).
  assert (Hc : sendCond (conn w1) = sendCond (conn w)) by (injection Hfl as _ _ Hc _; exact Hc).
  exists w2. split; [reflexivity|]. rewrite <-Hw, <-Ho, <-Hc. split_and!; try done.
  rewrite P2. injection Hfl as _ _ _ -> -> ->. done.
Qed.

(** A plain acknowledgement that does not advance only resends what its NACKs
    ask for. *)
Lemma handleAck_stale (pkt : Packet) w :
  seqGreaterThan (AckThrough pkt) (ackThrough (conn w)) = false →
  resends w (snd (handleAckLocked pkt w)) ∧ ackThrough (conn (snd (handleAckLocked pkt w))) = ackThrough (conn w).
Proof.
  intros Hg. set (m := _ ← handleNACKsLocked (NACKs pkt); handleOptionalDelayLocked pkt : M ()).
  assert (E : handleAckLocked pkt w = m w).
  { unfold handleAckLocked. rewrite getc_step. cbn [id]. rewrite Hg. rewrite (ste_step _ _ w () w); [done|]. by case_if. }
  rewrite E. assert (Hk : ∀ l b, Pres (same (λ w, ackThrough (conn w))) (handleNACKs l b)).
  { induction l as [|x l IH]; intros b; cbn [handleNACKs]; [apply _|].
    unfold reduceCongestionWindowLocked, retransmitPacketLocked, SendMessage, Now, getc, setc. apply _. }
  split.
  - assert (H : Pres resends m); [|apply H]. subst m. unfold handleNACKsLocked, handleOptionalDelayLocked,
      startPersistTimerLocked, stopPersistTimerLocked, sendBroadcast, go, getc. apply _.
  - assert (H : Pres (same (λ w, ackThrough (conn w))) m); [|apply H]. subst m. unfold handleNACKsLocked,
      handleOptionalDelayLocked, startPersistTimerLocked, stopPersistTimerLocked, sendBroadcast, go, Now, getc, setc.
    apply _.
Qed.

(** C29.  A plain acknowledgement ([handleAckLocked], a packet with sequence
    number 0) whose number advances removes from flight exactly the packets up
    to the acknowledged number (a packet it also reports missing included),
    keeps the data of all others, wakes the writers when anything was removed,
    and sends nothing but packets that stay in flight; it never fails.  The
    number a data packet carries is another matter, see [Acks.data_ack_masks]. *)
Theorem acknowledgement_clears (pkt : Packet) w :
  has_flag (Flags pkt) FlagNoACK = false → seqGreaterThan (AckThrough pkt) (ackThrough (conn w)) = true →
  ∃ w', handleAckLocked pkt w = (Ok (), w') ∧
    (∀ s, data <$> sentPackets (conn w') !! s =
       if seqLessThanOrEqual s (AckThrough pkt) then None else data <$> sentPackets (conn w) !! s) ∧
    ((∃ s, is_Some (sentPackets (conn w) !! s) ∧ seqLessThanOrEqual s (AckThrough pkt) = true) →
      (sendCond (conn w) < sendCond (conn w'))%nat) ∧
    ∃ ms, outbox w' = outbox w ++ ms ∧ ∀ m, m ∈ ms →
      ∃ s info, seqLessThanOrEqual s (AckThrough pkt) = false ∧
        sentPackets (conn w) !! s = Some info ∧ m = resend_message (conn w) (data info).
Proof.
  intros Hf Hg. destruct (handleAck_tail pkt w Hf Hg) as (w1 & E & S1 & O1 & P1 & C1).
  pose proof (ack_tail_resends pkt w1) as (Hd & _ & ms & Hms & Hin).
  pose proof (ack_tail_woken pkt w1) as Hw. destruct (ack_tail_total pkt w1) as [[] Ht].
  rewrite E. destruct (ack_tail pkt w1) as [r w']. cbn [fst snd] in *. subst r.
  exists w'. split_and!; [done| | |].
  - intros s. rewrite Hd, S1. destruct (seqLessThanOrEqual s (AckThrough pkt)) eqn:Es.
    + destruct (filter _ _ !! s) as [i|] eqn:El; [|done].
      apply map_lookup_filter_Some in El as [_ El]. cbn in El. congruence.
    + f_equal. destruct (sentPackets (conn w) !! s) as [i|] eqn:El.
      * by apply map_lookup_filter_Some.
      * apply map_lookup_filter_None. by left.
  - intros (s & [i Hi] & Hs). unfold woken in Hw.
    assert (size (sentPackets (conn w1)) < size (sentPackets (conn w)))%nat; [|lia].
    rewrite S1. apply map_subset_size. split; [apply map_filter_subseteq|]. intros Hsub.
    apply (lookup_weaken _ _ _ _ Hi) in Hsub. apply map_lookup_filter_Some in Hsub as [_ Hn].
    cbn in Hn. congruence.
  - exists ms. split; [by rewrite Hms, O1|]. intros m Hm. destruct (Hin m Hm) as (s & info & Hi & ->).
    rewrite S1 in Hi. apply map_lookup_filter_Some in Hi as [Hi Hs].
    exists s, info. split_and!; [done|done|]. injection P1 as ???. by apply resend_peer.
Qed.
End Cleanup.

(** ** The retransmission timer *)

Section Timer.
Context {I : I2CP} {B : CircBuf} {RT : GoRuntime} `{!GoRuntimeLaws RT}.
Implicit Types w : World.

#[local] Instance exhausted_dec info : Decision (MaxRetransmissions <= retries info).
Proof. apply _. Defined.

(** [s] has been in flight for longer than the timeout when the timer looks. *)
Definition timed_out w (s : Z) (info : sentPacket) : Prop :=
  sentPackets (conn w) !! s = Some info ∧
  rto (conn w) < time_Sub (clock (ticks w)) (sentTime info).

Definition exhausted (info : sentPacket) : Prop := MaxRetransmissions <= retries info.

Lemma findTimedOut_spec w : ∃ l w1,
  findTimedOutPacketsLocked w = (Ok l, w1) ∧ conn w1 = conn w ∧ outbox w1 = outbox w ∧
  NoDup l ∧ ∀ s, s ∈ l ↔ ∃ info, timed_out w s info.
Proof.
  unfold findTimedOutPacketsLocked. rewrite Now_step, getc_step. cbn [id].
  set (m := sentPackets (conn w)). set (keys := range_order (ranges w) (map_to_list m).*1).
  erewrite ste_step by (unfold range_keys; do 2 erewrite ste_step by done; done).
  do 2 eexists. split; [done|]. split_and!; [done|done| |].
  - apply NoDup_filter. fold m. rewrite range_order_perm. apply NoDup_fst_map_to_list.
  - intros s. rewrite list_elem_of_filter. fold m. rewrite range_order_perm. unfold timed_out. fold m. split.
    + cbn. fold m. intros [Ht Hs]. destruct (m !! s) as [info|]; [|done]. apply Z.ltb_lt in Ht. by exists info.
    + cbn. fold m. intros (info & Hm & Ht). rewrite Hm. split; [by apply Z.ltb_lt|].
      apply list_elem_of_fmap. exists (s, info). split; [done|]. by apply elem_of_map_to_list.
Qed.

Lemma backoff_eq w : MinRTO <= rto (conn w) <= MaxRTO →
  applyExponentialBackoffLocked w = (Ok (), updc (λ c, c <| rto := Z.min (2 * rto (conn w)) MaxRTO |>) w).
Proof.
  intros H. unfold applyExponentialBackoffLocked. rewrite setc_step, getc_step. cbn [id].
  set (w1 := updc _ w).
  assert (Hr : rto (conn w1) = 2 * rto (conn w)).
  { subst w1. cbn. unfold MinRTO, MaxRTO, Millisecond, Second in *. rewrite i64_small by lia. lia. }
  rewrite Hr. unfold ewhen. case_if; zbool.
  - rewrite setc_eq, Z.min_r by lia. done.
  - rewrite Z.min_l by lia. unfold mret, ste_ret. f_equal. rewrite <-Hr. apply updc_ext. done.
Qed.

(** Resending the packets of a list. *)
Lemma retransmitTimedOut_ok l w :
  sends_ok → is_Some (session (conn w)) → NoDup l →
  (∀ s, s ∈ l → ∃ info, sentPackets (conn w) !! s = Some info ∧ ¬ exhausted info) →
  ∃ w', retransmitTimedOutPacketsLocked l w = (Ok (), w') ∧ rto (conn w') = rto (conn w) ∧
    outbox w' = outbox w ++
      omap (λ s, resend_message (conn w) ∘ data <$> sentPackets (conn w) !! s) l ∧
    ∀ s, (λ i, (data i, retries i)) <$> sentPackets (conn w') !! s =
      (λ i, (data i, retries i + if decide (s ∈ l) then 1 else 0)) <$> sentPackets (conn w) !! s.
Proof.
  intros Hok. revert w. induction l as [|x l IH]; intros w Hses Hnd Hl.
  { exists w. split_and!; [done|done|by rewrite app_nil_r|]. intros s.
    destruct (sentPackets (conn w) !! s); [|done]. cbn. by rewrite Z.add_0_r. }
  apply NoDup_cons in Hnd as [Hx Hnd]. destruct (Hl x ltac:(by left)) as (info & Hi & He).
  cbn [retransmitTimedOutPacketsLocked]. rewrite getc_step, Hi. unfold exhausted in He.
  destruct (Z.leb_spec MaxRetransmissions (retries info)); [lia|].
  rewrite (ste_step _ _ _ None (resent x info w)).
  2: { unfold try. by rewrite retransmit_eq, Hi by done. }
  assert (Hne : ∀ s, s ≠ x → sentPackets (conn (resent x info w)) !! s = sentPackets (conn w) !! s).
  { intros s Hs. cbn. by rewrite lookup_insert_ne. }
  destruct (IH (resent x info w)) as (w' & E & Hr & Ho & Hd); [done|done| |].
  { intros s Hs. rewrite Hne; [|by intros ->]. apply Hl. by right. }
  exists w'. split_and!; [done|done| |].
  - rewrite Ho. cbn [omap list_omap]. rewrite Hi. unfold compose. cbn. rewrite <-app_assoc. cbn. do 2 f_equal.
    apply omap_ext_elem. intros s Hs. rewrite lookup_insert_ne; [done|]. by intros ->.
  - intros s. rewrite Hd. destruct (decide (s = x)) as [->|Hs].
    + rewrite (decide_False (P := x ∈ l)) by done. rewrite decide_True by left. rewrite Hi. cbn.
      rewrite lookup_insert_eq. cbn. f_equal. f_equal. lia.
    + rewrite Hne by done. destruct (sentPackets (conn w) !! s); [|done]. cbn. do 3 f_equal.
      destruct (decide (s ∈ l)) as [Hs'|Hs'].
      * by rewrite decide_True by by right.
      * rewrite decide_False; [done|]. by intros [->|]%elem_of_cons.
Qed.

Lemma retransmitTimedOut_err l w :
  sends_ok → is_Some (session (conn w)) → NoDup l →
  (∀ s, s ∈ l → is_Some (sentPackets (conn w) !! s)) →
  (∃ s info, s ∈ l ∧ sentPackets (conn w) !! s = Some info ∧ exhausted info) →
  ∃ s info w', s ∈ l ∧ sentPackets (conn w) !! s = Some info ∧ exhausted info ∧
    retransmitTimedOutPacketsLocked l w = (Err (EMaxRetransmissions s), w').
Proof.
  intros Hok. revert w. induction l as [|x l IH]; intros w Hses Hnd Hl (s & info & Hs & Hi & He).
  { by apply elem_of_nil in Hs. }
  apply NoDup_cons in Hnd as [Hx Hnd]. destruct (Hl x ltac:(by left)) as [ix Hix].
  cbn [retransmitTimedOutPacketsLocked]. rewrite getc_step, Hix.
  destruct (Z.leb_spec MaxRetransmissions (retries ix)) as [Hm|Hm].
  { exists x, ix, w. split_and!; [by left|done|done|done]. }
  rewrite (ste_step _ _ _ None (resent x ix w)).
  2: { unfold try. by rewrite retransmit_eq, Hix by done. }
  assert (Hne : ∀ s, s ≠ x → sentPackets (conn (resent x ix w)) !! s = sentPackets (conn w) !! s).
  { intros s' Hs'. cbn. by rewrite lookup_insert_ne. }
  assert (Hsx : s ≠ x) by (intros ->; unfold exhausted in He; rewrite Hix in Hi; injection Hi as ->; lia).
  destruct (IH (resent x ix w)) as (s1 & i1 & w1 & H1 & H2 & H3 & H4); [done|done| | |].
  - intros s' Hs'. rewrite Hne; [|by intros ->]. apply Hl. by right.
  - exists s, info. rewrite Hne by done. split_and!; [|done|done]. by apply elem_of_cons in Hs as [->|].
  - exists s1, i1, w1. rewrite Hne in H2 by by intros ->. split_and!; [by right|done|done|done].
Qed.

(** C30.  The retransmission timer.  When some packet has been in flight for
    longer than the timeout: if none of them has already been retransmitted
    eight times, exactly they are sent again, each with one more retry, in some
    order, and the timeout is doubled up to 45 s; otherwise the check fails
    with one whose retries are exhausted.  When none has timed out nothing
    changes but the clock. *)
Theorem retransmission_timer_exact w :
  sends_ok → is_Some (session (conn w)) → MinRTO <= rto (conn w) <= MaxRTO →
  ∃ l r w', checkRetransmissions w = (r, w') ∧ NoDup l ∧ (∀ s, s ∈ l ↔ ∃ info, timed_out w s info) ∧
    match r with
    | Ok _ =>
        (∀ s info, timed_out w s info → ¬ exhausted info) ∧
        rto (conn w') = (if decide (l = []) then rto (conn w) else Z.min (2 * rto (conn w)) MaxRTO) ∧
        outbox w' = outbox w ++ omap (λ s, resend_message (conn w) ∘ data <$> sentPackets (conn w) !! s) l ∧
        ∀ s, (λ i, (data i, retries i)) <$> sentPackets (conn w') !! s =
          (λ i, (data i, retries i + if decide (s ∈ l) then 1 else 0)) <$> sentPackets (conn w) !! s
    | Err e => ∃ s info, timed_out w s info ∧ exhausted info ∧ e = EMaxRetransmissions s
    | Panic => False
    end.
Proof.
  intros Hok Hses Hr. unfold checkRetransmissions. rewrite getc_step. cbn [id].
  destruct (Z.eqb_spec (rto (conn w)) 0) as [Hz|_].
  { unfold MinRTO, Millisecond in Hr. lia. }
  destruct (findTimedOut_spec w) as (l & w1 & E & Hc & Ho & Hnd & Hl). rewrite (ste_step _ _ _ _ _ E).
  exists l. destruct (Nat.eqb_spec (length l) 0) as [Hl0|Hl0].
  { apply length_zero_iff_nil in Hl0 as ->. exists (Ok ()), w1. split; [done|]. split; [done|]. split; [done|]. split_and!.
    - intros s info Ht. exfalso. by eapply elem_of_nil, Hl; eauto.
    - by rewrite Hc.
    - by rewrite Ho, app_nil_r.
    - intros s. rewrite Hc. destruct (sentPackets (conn w) !! s); [|done]. cbn. by rewrite Z.add_0_r. }
  assert (Hne : l ≠ []) by (by intros ->). rewrite (ste_step _ _ _ () _ (backoff_eq w1 ltac:(by rewrite Hc))).
  set (w2 := updc _ w1).
  assert (Hs2 : sentPackets (conn w2) = sentPackets (conn w)) by (subst w2; cbn; by rewrite Hc).
  assert (Hses2 : is_Some (session (conn w2))) by (subst w2; cbn; by rewrite Hc).
  set (P := λ s, match sentPackets (conn w) !! s with
    Some i => MaxRetransmissions <= retries i | None => False end).
  assert (HPd : ∀ s, Decision (P s)) by (intros s; unfold P; destruct (sentPackets _ !! s); apply _).
  destruct (decide (Exists P l)) as [Hex|Hex].
  - apply Exists_exists in Hex as (s & Hs & HP). unfold P in HP.
    destruct (sentPackets (conn w) !! s) as [info|] eqn:Hi; [|done].
    destruct (retransmitTimedOut_err l w2) as (s' & i' & w' & H1 & H2 & H3 & H4); try done.
    + intros s' Hs'. apply Hl in Hs' as (i' & Hi' & _). rewrite Hs2. by eexists.
    + exists s, info. by rewrite Hs2.
    + exists (Err (EMaxRetransmissions s')), w'. split_and!; [done|done|done|].
      exists s', i'. apply Hl in H1 as (i1 & H1). pose proof H1 as [H1' _]. rewrite Hs2 in H2.
      assert (i1 = i') by congruence. by subst.
  - assert (Hfresh : ∀ s info, timed_out w s info → ¬ exhausted info).
    { intros s info Ht He. apply Hex, Exists_exists. exists s. split; [by apply Hl; eauto|].
      unfold P. by rewrite (proj1 Ht). }
    destruct (retransmitTimedOut_ok l w2) as (w' & H1 & H2 & H3 & H4); try done.
    + intros s Hs. apply Hl in Hs as (info & Ht). exists info. rewrite Hs2. split; [apply Ht|by eapply Hfresh].
    + exists (Ok ()), w'. split; [done|]. split; [done|]. split; [done|]. split_and!; [done| | |].
      * rewrite H2, decide_False by done. subst w2. cbn. by rewrite Hc.
      * rewrite H3. subst w2. cbn. rewrite Ho, Hc. done.
      * intros s. by rewrite H4, Hs2.
Qed.
End Timer.

(** ** Delivery reports *)

Section Reports.
Context {I : I2CP} {B : CircBuf} {RT : GoRuntime}.
Implicit Types w : World.

(** I2CP reports the delivery of each message of a list. *)
Definition reports (l : list Z) w : World :=
  fold_left (λ w s, snd (handleMessageDelivered s w)) l w.

Lemma report_eq s w : snd (handleMessageDelivered s w) = updc (λ c, c <| sentPackets ::= delete s |>) w.
Proof.
  unfold handleMessageDelivered. rewrite getc_step. unfold ewhen. case_if; [done|].
  apply bool_decide_eq_false in Hif. rewrite updc_id; [done|].
  assert (delete s (sentPackets (conn w)) = sentPackets (conn w)) as E.
  { apply delete_id. destruct (sentPackets (conn w) !! s); [|done]. exfalso. apply Hif. by eexists. }
  unfold upd, set_sentPackets. rewrite E. by destruct (conn w).
Qed.

Lemma reports_spec l w :
  (∀ s, is_Some (sentPackets (conn (reports l w)) !! s) → is_Some (sentPackets (conn w) !! s) ∧ s ∉ l) ∧
  sendCond (conn (reports l w)) = sendCond (conn w) ∧ nackCounts (conn (reports l w)) = nackCounts (conn w) ∧
  ackThrough (conn (reports l w)) = ackThrough (conn w) ∧ outbox (reports l w) = outbox w.
Proof.
  unfold reports. revert w. induction l as [|x l IH]; intros w; cbn [fold_left].
  { split_and!; try done. intros s Hs. split; [done|]. apply not_elem_of_nil. }
  rewrite report_eq. destruct (IH (updc (λ c, c <| sentPackets ::= delete x |>) w)) as (H1 & H2 & H3 & H4 & H5).
  split_and!; try done. intros s Hs. apply H1 in Hs as [Hs Hl]. cbn in Hs.
  destruct (decide (s = x)) as [->|Hne].
  - rewrite lookup_delete_eq in Hs. by destruct Hs.
  - rewrite lookup_delete_ne in Hs by done. split; [done|]. by intros [->|]%elem_of_cons.
Qed.

(** A lost wake-up.  When I2CP reports the packets of a full window
    delivered before the peer acknowledges them, they leave the window, so
    they will not be retransmitted, but writers waiting for window space are
    not woken, neither then nor by the peer's acknowledgement. *)
Theorem delivery_report_lost_wakeup (l : list Z) (pkt : Packet) w :
  (∀ s, is_Some (sentPackets (conn w) !! s) → s ∈ l) → nackCounts (conn w) = ∅ →
  NACKs pkt = [] → has_flag (Flags pkt) FlagDelayRequested = false →
  let w1 := reports l w in
  ∃ w2, handleAckLocked pkt w1 = (Ok (), w2) ∧ sentPackets (conn w1) = ∅ ∧
    sendCond (conn w2) = sendCond (conn w) ∧ outbox w2 = outbox w.
Proof.
  intros Hl Hn Hk Hd w1. destruct (reports_spec l w) as (H1 & H2 & H3 & _ & H5). fold w1 in H1, H2, H3, H5.
  assert (Hs : sentPackets (conn w1) = ∅).
  { apply map_eq. intros s. rewrite lookup_empty. destruct (sentPackets (conn w1) !! s) eqn:E; [|done].
    destruct (H1 s) as [Hi Hs]; [by rewrite E|]. by apply Hl in Hi. }
  unfold handleAckLocked, handleNACKsLocked, handleOptionalDelayLocked. rewrite Hk, Hd. cbn [length Nat.eqb negb].
  rewrite getc_step. cbn [id]. rewrite Hn in H3.
  assert (Hw : ∀ (b : bool), ∃ w2, (if b then mret () : STE World ConnError () else
      if seqGreaterThan (AckThrough pkt) (ackThrough (conn w1)) then
        _ ← setc (λ c, c <| ackThrough := AckThrough pkt |>);
        _ ← measureRTTFromAck (AckThrough pkt);
        _ ← cleanupAckedPacketsLocked (ackThrough (conn w1)) (AckThrough pkt) [];
        updateCongestionWindow
      else mret ()) w1 = (Ok (), w2) ∧ sendCond (conn w2) = sendCond (conn w1) ∧ outbox w2 = outbox w1).
  { intros [|]; [by exists w1|]. case_if; [|by exists w1]. rewrite setc_step.
    set (wa := updc _ w1).
    rewrite (ste_step _ _ wa () wa).
    2: { unfold measureRTTFromAck. rewrite getc_step. change (sentPackets (conn wa)) with (sentPackets (conn w1)).
         by rewrite Hs, lookup_empty. }
    unfold cleanupAckedPacketsLocked. rewrite ste_assoc, getc_step, !ste_assoc, setc_step.
    rewrite ste_assoc, setc_step, ste_assoc, getc_step.
    set (wb := updc _ (updc _ wa)).
    assert (Hb1 : sentPackets (conn wb) = ∅) by (cbn; by rewrite Hs, map_filter_empty).
    assert (Hb2 : nackCounts (conn wb) = ∅) by (cbn; by rewrite H3, map_filter_empty).
    assert (Ha1 : sentPackets (conn wa) = ∅) by done. assert (Ha2 : nackCounts (conn wa) = ∅) by done.
    cbn [id]. rewrite Ha1, Ha2, Hb1, Hb2. cbn.
    unfold updateCongestionWindow. rewrite (ste_step _ _ wb () wb) by done. rewrite getc_step.
    case_if; by eexists. }
  destruct (Hw (has_flag (Flags pkt) FlagNoACK)) as (w2 & E2 & C2 & O2).
  exists w2. rewrite (ste_step _ _ _ _ _ E2). split_and!; [done|done|by rewrite C2|by rewrite O2].
Qed.
End Reports.

(** ** Concrete runs *)

Section Examples.
#[local] Abbreviation upd_ex f := (updc f world_ex).

(** A first sample of 200 ms, a second of 300 ms. *)
Definition rtt_ex : World := upd_ex (λ c, c <| srtt := 200 * Millisecond |> <| rttVariance := 100 * Millisecond |>).
Lemma rtt_estimator_exact_witness :
  let '(s', v') := rfc6298 (srtt (conn rtt_ex)) (rttVariance (conn rtt_ex)) (300 * Millisecond) in
  (_ ← updateRTTEstimate (300 * Millisecond); calculateRTO) rtt_ex =
    (Ok (), updc (λ c, c <| rtt := 300 * Millisecond |> <| srtt := s' |> <| rttVariance := v' |>
              <| rto := Z.min MaxRTO (Z.max MinRTO (s' + 4 * v')) |>) rtt_ex).
Proof. apply (rtt_estimator_exact rtt_ex (300 * Millisecond)); done. Defined.

(** A choke signal, a write that waits until the unchoke arrives during its
    wait, a timeout and the peer's close. *)
Definition ack_ex (flags delay ack : Z) : @Packet ConcreteI2CP :=
  (base_Packet 9 7 0 ack flags) <| OptionalDelay := delay |>.
Definition ops_ex : list conn_op :=
  [OpIncoming true (ack_ex FlagDelayRequested SendDelayChoke 499); OpReceive;
   OpWrite [[OpPersistTick; OpIncoming true (ack_ex FlagDelayRequested 0 500); OpReceive]] [x41; x42; x43];
   OpRetransmitTick; OpIncoming true (ack_ex 0 0 501); OpReceive; OpClose].
Lemma world_ex_cc : cc_inv world_ex.
Proof. by split. Qed.
Example ops_run_ex :
  let w := conn_run ops_ex world_ex in
  (sendSeq (conn w), cwnd (conn w), size (sentPackets (conn w)), state (conn w), length (outbox w))
  = (502, 48, 0%nat, StateClosing, 3%nat).
Proof. cbv zeta. vmeq. Qed.
Lemma flow_control_bounds_witness : cc_inv (conn_run ops_ex world_ex).
Proof. apply (flow_control_bounds ops_ex world_ex world_ex_cc). Defined.

(** Packets 500 and 501 in flight, 501 reported missing once before. *)
Definition flight_ex : World := upd_ex (λ c, c <| nackCounts := {[501 := 1]} |>
  <| sentPackets := {[500 := MkSent [x41] 0 0; 501 := MkSent [x42] 0 0]} |>).
Lemma fast_retransmit_exact_witness :
  ∃ w', handleNACKsLocked [500; 501] flight_ex = (Ok (), w') ∧ nacks_done [500; 501] false flight_ex w'.
Proof.
  apply (fast_retransmit_exact [500; 501] flight_ex); [done|by eexists|].
  apply NoDup_cons; split; [by intros ?%list_elem_of_singleton|apply NoDup_singleton].
Defined.

(** The acknowledgement of 501 that reports 500 missing. *)
Definition nacking_ack : @Packet ConcreteI2CP := (base_Packet 9 7 0 501 0) <| NACKs := [500] |>.
Lemma acknowledgement_clears_witness :
  ∃ w', handleAckLocked nacking_ack flight_ex = (Ok (), w') ∧
    (∀ s, data <$> sentPackets (conn w') !! s =
       if seqLessThanOrEqual s (AckThrough nacking_ack) then None
       else data <$> sentPackets (conn flight_ex) !! s) ∧
    ((∃ s, is_Some (sentPackets (conn flight_ex) !! s) ∧
        seqLessThanOrEqual s (AckThrough nacking_ack) = true) →
      (sendCond (conn flight_ex) < sendCond (conn w'))%nat) ∧
    ∃ ms, outbox w' = outbox flight_ex ++ ms ∧ ∀ m, m ∈ ms →
      ∃ s info, seqLessThanOrEqual s (AckThrough nacking_ack) = false ∧
        sentPackets (conn flight_ex) !! s = Some info ∧
        m = resend_message (conn flight_ex) (data info).
Proof. apply (acknowledgement_clears nacking_ack flight_ex); vmeq. Defined.

Lemma retransmission_timer_exact_witness :
  let w := flight_ex <| ticks := Z.to_nat 20000 |> in
  ∃ l r w', checkRetransmissions w = (r, w') ∧ NoDup l ∧ (∀ s, s ∈ l ↔ ∃ info, timed_out w s info) ∧
    match r with
    | Ok _ =>
        (∀ s info, timed_out w s info → ¬ exhausted info) ∧
        rto (conn w') = (if decide (l = []) then rto (conn w) else Z.min (2 * rto (conn w)) MaxRTO) ∧
        outbox w' = outbox w ++ omap (λ s, resend_message (conn w) ∘ data <$> sentPackets (conn w) !! s) l ∧
        ∀ s, (λ i, (data i, retries i)) <$> sentPackets (conn w') !! s =
          (λ i, (data i, retries i + if decide (s ∈ l) then 1 else 0)) <$> sentPackets (conn w) !! s
    | Err e => ∃ s info, timed_out w s info ∧ exhausted info ∧ e = EMaxRetransmissions s
    | Panic => False
    end.
Proof.
  apply (retransmission_timer_exact (flight_ex <| ticks := Z.to_nat 20000 |>)); [done|by eexists|done].
Defined.

Lemma delivery_report_lost_wakeup_witness :
  let w := flight_ex <| conn ::= λ c, c <| nackCounts := ∅ |> |> in
  let w1 := reports [500; 501] w in
  ∃ w2, handleAckLocked (ack_ex 0 0 501) w1 = (Ok (), w2) ∧ sentPackets (conn w1) = ∅ ∧
    sendCond (conn w2) = sendCond (conn w) ∧ outbox w2 = outbox w.
Proof.
  apply (delivery_report_lost_wakeup [500; 501] (ack_ex 0 0 501)); [|done..].
  intros s [i Hi]. cbn in Hi. apply lookup_insert_Some in Hi as [[<- _]|[_ [<- _]%lookup_singleton_Some]]; [left|right; left].
Defined.
End Examples.
