(* ===== verification/ConnWriteProps.v ===== *)
(** * Properties of writing

    What [Write] puts on the wire: the data cut into packets of at most the
    negotiated MTU, with consecutive sequence numbers, that the receiver parses
    back to those bytes; how many bytes it reports on every outcome; and what
    happens when I2CP refuses a packet. *)

From S2P Require Import Prelude GoInt SeqNum I2CP Packet PacketProps Crypto Floats Runtime Conn.
From S2P Require Import ConnRecv ConnAck ConnLife ConnWrite ConnFrames ConnOps ConnExamples.
From Stdlib Require Import Strings.Byte.

Section Write.
Context {I : I2CP} `{!I2CPLaws I} {B : CircBuf} {RT : GoRuntime}.
Implicit Types w : World.
#[local] Abbreviation M := (STE World ConnError).

(** The negotiated MTU. *)
Definition mtu_of (c : StreamConn) : nat :=
  Z.to_nat (if remoteMTU c =? 0 then localMTU c else Z.min (localMTU c) (remoteMTU c)).

(** The identity of a connection: what its packets are addressed with, and
    their size. *)
Definition ident w :=
  (session (conn w), dest (conn w), localPort (conn w), remotePort (conn w),
   localStreamID (conn w), remoteStreamID (conn w), mtu_of (conn w)).

(** Identity, sequence number and what has been sent. *)
Definition tx w := (ident w, sendSeq (conn w), outbox w).

#[local] Instance track_tx (pkt : Packet) bs : Pres (same tx) (trackPacketForRetransmission pkt bs).
Proof. unfold trackPacketForRetransmission, Now, setc. apply _. Qed.
#[local] Instance track_total (pkt : Packet) bs : Total (trackPacketForRetransmission pkt bs).
Proof. unfold trackPacketForRetransmission, Now, setc. apply _. Qed.
#[local] Instance trackMessage_tx s n b : Pres (same tx) (trackMessage s n b).
Proof. unfold trackMessage, Now, getc. apply _. Qed.

(** Sending a packet adds its wire image to what has been sent, or fails and
    adds nothing. *)
Lemma sendPacket_spec (pkt : Packet) w :
  marshal_ok pkt →
  ∃ r w', sendPacketLocked pkt w = (r, w') ∧ ident w' = ident w ∧ sendSeq (conn w') = sendSeq (conn w) ∧
    match r with
    | Ok _ => ∃ nonce, outbox w' = outbox w ++
        [MkMessage (dest (conn w)) (localPort (conn w)) (remotePort (conn w)) (wire pkt) nonce]
    | Err _ => outbox w' = outbox w
    | Panic => False
    end.
Proof.
  intros Hok. unfold sendPacketLocked.
  rewrite (ste_step _ _ w (wire pkt) w) by (unfold marshal; by rewrite Marshal_wire).
  destruct (total_run tx (trackPacketForRetransmission pkt (wire pkt)) w _ _) as ([] & w1 & E1 & H1).
  rewrite (ste_step _ _ _ _ _ E1). unfold sendViaI2CPWithTracking. rewrite ste_assoc, getc_step.
  unfold tx in H1. injection H1 as Hi1 Hi2 Hi3 Hi4 Hi5 Hi6 Hi7 Hs1 Ho1.
  assert (Hid1 : ident w1 = ident w) by (unfold ident; congruence).
  destruct (session (conn w1)) as [ses|] eqn:Es.
  - destruct (total_run tx (trackMessage (SequenceNum pkt) (Z.of_nat (length (wire pkt)))
      (negb (length (Payload pkt) =? 0)%nat)) w1 _ _) as (nonce & w2 & E2 & H2).
    rewrite ste_assoc, (ste_step _ _ _ _ _ E2).
    injection H2 as Hj1 Hj2 Hj3 Hj4 Hj5 Hj6 Hj7 Hs2 Ho2.
    assert (Hid2 : ident w2 = ident w) by (unfold ident in *; congruence).
    destruct (send_ok (sends w2)) eqn:Hsend.
    + rewrite (ste_step _ _ w2 () (w2 <| sends ::= S |> <| outbox ::= λ o, o ++ [MkMessage
        (dest (conn w2)) (localPort (conn w2)) (remotePort (conn w2)) (wire pkt) nonce] |>)).
      2: { unfold SendMessage. do 2 erewrite ste_step by done. by rewrite Hsend. }
      rewrite Now_step, setc_eq. do 2 eexists. split; [done|].
      split_and!; [exact Hid2|cbn; congruence|]. exists nonce. cbn. congruence.
    + rewrite (ste_err _ _ w2 ESend (w2 <| sends ::= S |>)).
      2: { unfold SendMessage. do 2 erewrite ste_step by done. by rewrite Hsend. }
      do 2 eexists. split; [done|]. split_and!; [exact Hid2|cbn; congruence|cbn; congruence].
  - do 2 eexists. split; [done|]. split_and!; [done|congruence|congruence].
Qed.

(** The data packet a chunk becomes. *)
Definition data_packet (c : StreamConn) (resend : Z) (chunk : bytes) : Packet :=
  (base_Packet (localStreamID c) (remoteStreamID c) (sendSeq c) (recvSeq c -% 1) 0)
    <| ResendDelay := resend |> <| Payload := chunk |>.

Lemma data_packet_ok c d chunk : marshal_ok (data_packet c d chunk).
Proof. split; [cbn; lia|done..]. Qed.

Lemma resend_delay_range w : ∃ d, getResendDelaySeconds w = (Ok d, w) ∧ 1 <= d < 256.
Proof.
  unfold getResendDelaySeconds. rewrite getc_step. cbn [id]. cbv zeta.
  case_if; zbool; [exists 1; split; [done|lia]|]. case_if; zbool; [exists 255; split; [done|lia]|].
  eexists. split; [done|]. unfold u8. zlia.
Qed.

Definition ids_ok w : Prop :=
  is_u32 (localStreamID (conn w)) ∧ is_u32 (remoteStreamID (conn w)) ∧ is_u32 (sendSeq (conn w)).

(** The receiver of [m] parses a plain data packet of stream [c] with sequence
    number [s] and payload [chunk]. *)
Definition carries (c : StreamConn) (s : Z) (chunk : bytes) (m : Message) : Prop :=
  m_dest m = dest c ∧ m_localPort m = localPort c ∧ m_remotePort m = remotePort c ∧
  ∃ q, unmarshal_fresh (m_data m) = Ok q ∧ SequenceNum q = s ∧ Payload q = chunk ∧ Flags q = 0 ∧
    SendStreamID q = localStreamID c ∧ RecvStreamID q = remoteStreamID c.

Lemma carries_ident w w' s chunk m :
  ident w' = ident w → carries (conn w') s chunk m → carries (conn w) s chunk m.
Proof. unfold ident, carries. intros [= _ -> -> -> -> -> _]. done. Qed.

Lemma sendDataChunk_spec chunk w : ids_ok w →
  ∃ r w', sendDataChunk chunk w = (r, w') ∧ ident w' = ident w ∧
    match r with
    | Ok _ => sendSeq (conn w') = sendSeq (conn w) +% 1 ∧
        ∃ m, outbox w' = outbox w ++ [m] ∧ carries (conn w) (sendSeq (conn w)) chunk m
    | Err _ => sendSeq (conn w') = sendSeq (conn w) ∧ outbox w' = outbox w
    | Panic => False
    end.
Proof.
  intros (H1 & H2 & H3). unfold sendDataChunk. rewrite getc_step. cbn [id].
  destruct (resend_delay_range w) as (d & Hd & Hr). rewrite (ste_step _ _ _ _ _ Hd). cbv zeta.
  fold (data_packet (conn w) d chunk).
  destruct (sendPacket_spec _ w (data_packet_ok (conn w) d chunk)) as (r & w1 & E & Hi & Hs & Ho).
  destruct r as [[]|e|]; [| |done].
  - rewrite (ste_step _ _ _ _ _ E), setc_step, setc_eq. do 2 eexists. split; [done|].
    split_and!; [exact Hi|cbn; by rewrite Hs|]. destruct Ho as [nonce Ho]. eexists. split; [exact Ho|].
    split_and!; [done..|]. exists (wire_view (data_packet (conn w) d chunk)). split_and!; try done.
    apply Unmarshal_wire; [|apply data_packet_ok|by split].
    split; try done; cbn; [apply u32_range|lia].
  - rewrite (ste_err _ _ _ _ _ E). do 2 eexists. split; [done|]. done.
Qed.

(** What the other goroutines do while [Write] waits: anything that leaves the
    connection's identity and sequence number alone and takes nothing back
    that has been sent (no other writer and no probe). *)
Definition writer_env w w' : Prop :=
  ident w' = ident w ∧ sendSeq (conn w') = sendSeq (conn w) ∧ outbox w `prefix_of` outbox w'.
#[export] Instance writer_env_preorder : PreOrder writer_env.
Proof.
  split; [done|]. intros w1 w2 w3 (A1 & A2 & A3) (B1 & B2 & B3).
  split_and!; [congruence|congruence|by etransitivity].
Qed.

Lemma tx_env {A} (m : M A) : Pres (same tx) m → Pres writer_env m.
Proof.
  intros H w. specialize (H w). unfold same, tx in H.
  injection H as Hi1 Hi2 Hi3 Hi4 Hi5 Hi6 Hi7 Hs Ho.
  split_and!; [unfold ident; congruence|congruence|by rewrite Ho].
Qed.
#[local] Instance Now_env : Pres writer_env Now.
Proof. apply tx_env. unfold Now. apply _. Qed.

#[export] Instance waitForWindow_safe waits : Safe (waitForWindowSpace waits).
Proof.
  induction waits as [|f waits IH]; cbn [waitForWindowSpace];
    unfold checkWriteDeadlineLocked, setupWindowWaitTimer, validateWriteStateLocked,
      checkWriteDeadlineLocked, Now, getc; apply _.
Qed.
#[export] Instance waitForChoke_safe waits : Safe (waitForChokeCondVar waits).
Proof.
  induction waits as [|f waits IH]; cbn [waitForChokeCondVar];
    unfold createChokeTimer, checkWriteDeadlineLocked, validateWriteStateLocked,
      checkWriteDeadlineLocked, Now, getc; apply _.
Qed.

(** The messages [ms] carry the chunks [cs] with consecutive sequence numbers
    from [s] on. *)
Fixpoint carry (c : StreamConn) (s : Z) (cs : list bytes) (ms : list Message) : Prop :=
  match cs, ms with
  | [], [] => True
  | chunk :: cs, m :: ms => carries c s chunk m ∧ carry c (s +% 1) cs ms
  | _, _ => False
  end.

Lemma carry_ident w w' s cs ms :
  ident w' = ident w → carry (conn w') s cs ms → carry (conn w) s cs ms.
Proof.
  intros Hi. revert s ms. induction cs as [|chunk cs IH]; intros s [|m ms]; try done.
  intros [H1 H2]. split; [by eapply carries_ident|by apply IH].
Qed.

(** [n] bytes of [data] have been written between [w] and [w']. *)
Record written (mtu : nat) (data : bytes) (n : nat) w w' : Prop := {
  wr_len : (n ≤ length data)%nat;
  wr_ident : ident w' = ident w;
  wr_chunks : ∃ cs ms new, concat cs = take n data ∧
    Forall (λ c, (0 < length c ≤ mtu)%nat) cs ∧
    sendSeq (conn w') = u32 (sendSeq (conn w) + Z.of_nat (length cs)) ∧
    outbox w' = outbox w ++ new ∧ ms `sublist_of` new ∧
    carry (conn w) (sendSeq (conn w)) cs ms;
}.

Lemma written_env mtu data w w' : is_u32 (sendSeq (conn w)) → writer_env w w' → written mtu data 0 w w'.
Proof.
  intros Hu (Hi & Hs & [new Ho]). split; [lia|done|]. exists [], [], new. split_and!; try done.
  - cbn. rewrite Z.add_0_r, u32_small by done. done.
  - apply sublist_nil_l.
Qed.

Lemma written_step mtu data chunk n w w1 w2 w3 m :
  is_u32 (sendSeq (conn w)) → writer_env w w1 → ident w2 = ident w1 → sendSeq (conn w2) = sendSeq (conn w1) +% 1 →
  outbox w2 = outbox w1 ++ [m] → carries (conn w1) (sendSeq (conn w1)) chunk m →
  (0 < length chunk ≤ mtu)%nat → take (length chunk) data = chunk →
  written mtu (drop (length chunk) data) n w2 w3 →
  written mtu data (length chunk + n) w w3.
Proof.
  intros Hu (Hi1 & Hs1 & [n1 Ho1]) Hi2 Hs2 Ho2 Hc Hl Ht [Hlen Hi3 (cs & ms & new & Hcs & Hall & Hs3 & Ho3 & Hsub & Hcar)].
  assert (Hld : (length chunk ≤ length data)%nat) by (rewrite <-Ht, length_take; lia).
  rewrite length_drop in Hlen. split; [lia|congruence|].
  exists (chunk :: cs), (m :: ms), (n1 ++ m :: new). split_and!.
  - cbn. rewrite Hcs. rewrite <-Ht at 1. by rewrite take_take_drop.
  - by constructor.
  - rewrite Hs3, Hs2, Hs1. rewrite u32_add_l. f_equal. cbn. lia.
  - rewrite Ho3, Ho2, Ho1. by rewrite <-!app_assoc.
  - apply sublist_app_r. exists [], (m :: ms). split_and!; [done|apply sublist_nil_l|by apply sublist_skip].
  - split; [rewrite <-Hs1; by eapply carries_ident|].
    apply (carry_ident w w2); [congruence|]. by rewrite <-Hs1, <-Hs2.
Qed.

Lemma ids_env w w' : ident w' = ident w → is_u32 (sendSeq (conn w')) → ids_ok w → ids_ok w'.
Proof. unfold ident, ids_ok. intros [= _ _ _ _ -> -> _]. tauto. Qed.

Lemma chunk_cases (mtu : nat) (data : bytes) :
  (0 < mtu)%nat → data ≠ [] →
  let chunk := if (mtu <? length data)%nat then take mtu data else data in
  (0 < length chunk ≤ mtu)%nat ∧ take (length chunk) data = chunk.
Proof.
  intros Hm Hd chunk. subst chunk. destruct (Nat.ltb_spec mtu (length data)).
  - rewrite length_take_le by lia. split; [lia|done].
  - rewrite firstn_all. split; [|done]. destruct data; [done|cbn in *; lia].
Qed.

Lemma writeChunks_spec fuel waits data total mtu w :
  (length data < fuel)%nat → (length data ≤ total)%nat → (0 < mtu)%nat →
  env_ok writer_env waits → ready w → ids_ok w →
  ∃ n e w', writeChunksLocked fuel waits data total mtu w =
      (Ok ((total - length data + n)%nat, e), w') ∧
    written mtu data n w w' ∧ (e = None → n = length data).
Proof.
  revert waits data w. induction fuel as [|fuel IH]; intros waits data w Hf Ht Hm He Hr Hids; [lia|].
  cbn [writeChunksLocked]. pose proof Hids as (_ & _ & Hu).
  destruct (Nat.eqb_spec (length data) 0) as [H0|H0].
  { exists 0%nat, None, w. rewrite H0. split_and!; [by replace (total - 0 + 0)%nat with total by lia| |done].
    by apply written_env. }
  assert (Hd : data ≠ []) by (by intros ->).
  pose proof (waitForWindow_env writer_env Now_env waits He w) as Hw.
  pose proof (waitForWindow_returns writer_env waits He w Hr) as Hret.
  pose proof (waitForWindow_safe waits w) as Hsafe.
  destruct (waitForWindowSpace waits w) as [[ws|e|] w1] eqn:Ew; [| |done].
  - destruct (Hret _ _ Ew) as (Hws & Hr1 & _). cbn [snd] in Hw.
    rewrite (ste_step _ _ w (inl ws) w1) by (unfold catch; by rewrite Ew). cbv zeta.
    destruct (chunk_cases mtu data Hm Hd) as [Hl Htk].
    set (chunk := if (mtu <? length data)%nat then take mtu data else data) in *.
    destruct Hw as (Hi1 & Hs1 & Ho1).
    assert (Hids1 : ids_ok w1) by (apply (ids_env w w1); [done|by rewrite Hs1|done]).
    destruct (sendDataChunk_spec chunk w1 Hids1) as (r & w2 & E2 & Hi2 & Hout).
    pose proof (sendDataChunk_standing chunk w1) as Hst. rewrite E2 in Hst. cbn [snd] in Hst.
    destruct r as [[]|e|]; [| |done].
    + destruct Hout as (Hs2 & m & Ho2 & Hc).
      rewrite (ste_step _ _ w1 None w2) by (unfold try; by rewrite E2). cbv iota.
      assert (Hcl : (length chunk ≤ length data)%nat) by (rewrite <-Htk, length_take; lia).
      destruct (IH ws (drop (length chunk) data) w2) as (n & e & w3 & E3 & Hwr & Hn).
      { rewrite length_drop. lia. } { rewrite length_drop. lia. } { done. } { done. }
      { by eapply ready_standing. }
      { apply (ids_env w1 w2); [done|rewrite Hs2; apply u32_range|done]. }
      exists (length chunk + n)%nat, e, w3. rewrite E3, length_drop. split_and!.
      * do 3 f_equal. lia.
      * by apply (written_step mtu data chunk n w w1 w2 w3 m).
      * intros He'. rewrite (Hn He'), length_drop. lia.
    + destruct Hout as [Hs2 Ho2].
      rewrite (ste_step _ _ w1 (Some e) w2) by (unfold try; by rewrite E2). cbv iota.
      exists 0%nat, (Some e), w2. rewrite Nat.add_0_r. split_and!; [done| |done].
      apply written_env; [done|]. split_and!; [congruence|congruence|by rewrite Ho2].
  - rewrite (ste_step _ _ w (inr e) w1) by (unfold catch; by rewrite Ew).
    exists 0%nat, (Some e), w1. rewrite Nat.add_0_r. split_and!; [done| |done].
    by apply written_env.
Qed.

Lemma negotiated_eq w :
  ∃ m, getNegotiatedMTULocked w = (Ok m, w) ∧ Z.to_nat m = mtu_of (conn w).
Proof.
  unfold getNegotiatedMTULocked, mtu_of. rewrite getc_step. cbn [id].
  case_if; [by eexists|]. case_if; zbool; eexists; (split; [done|]); f_equal; lia.
Qed.

(** C28.  [Write] is exact.  With a positive MTU, valid identifiers and nobody
    else writing during its waits, it always returns, and the number it
    returns is the number of bytes handed to I2CP: the new messages contain, in
    order, packets with consecutive sequence numbers, each of 1 to MTU bytes,
    whose payloads, as the receiver parses them, concatenate to exactly that
    prefix of the data; without an error it is all of the data. *)
Theorem write_exact waits data w :
  ids_ok w → (0 < mtu_of (conn w))%nat → env_ok writer_env waits →
  ∃ n e w', Write waits data w = (Ok (n, e), w') ∧
    written (mtu_of (conn w)) data n w w' ∧ (e = None → n = length data).
Proof.
  intros Hids Hm He. pose proof Hids as (_ & _ & Hu). unfold Write.
  set (pre := _ ← validateWriteStateLocked; handleChokeWaitLocked waits).
  assert (Hpre : Pres writer_env pre ∧ Safe pre).
  { subst pre. unfold handleChokeWaitLocked, getc. pose proof (waitForChoke_env writer_env Now_env waits He).
    split; [apply _|]. unfold validateWriteStateLocked, checkWriteDeadlineLocked, Now, getc. apply _. }
  destruct Hpre as [Hpre Hsafe]. specialize (Hpre w). specialize (Hsafe w).
  pose proof (write_prefix_returns writer_env waits w He) as Hret. fold pre in Hret.
  destruct (pre w) as [[ws|e|] w1] eqn:Ep; [| |done]; cbn [snd] in Hpre.
  - rewrite (ste_step _ _ w (inl ws) w1) by (unfold catch; by rewrite Ep).
    destruct (Hret _ _ Ep) as [Hws Hr1]. destruct Hpre as (Hi1 & Hs1 & [n1 Ho1]).
    unfold writeDataLocked. destruct (negotiated_eq w1) as (m & Hneg & Hmtu).
    rewrite (ste_step _ _ _ _ _ Hneg), Hmtu.
    assert (Hmm : mtu_of (conn w1) = mtu_of (conn w)) by (unfold ident in Hi1; congruence). rewrite Hmm.
    destruct (writeChunks_spec (S (length data)) ws data (length data) (mtu_of (conn w)) w1)
      as (n & e & w2 & E2 & Hwr & Hn); [lia|lia|done|done|done| |].
    { apply (ids_env w w1); [done|by rewrite Hs1|done]. }
    rewrite Nat.sub_diag in E2. exists n, e, w2. split_and!; [exact E2| |done].
    destruct Hwr as [Hl Hi2 (cs & ms & new & H1 & H2 & H3 & H4 & H5 & H6)].
    split; [done|congruence|]. exists cs, ms, (n1 ++ new).
    split_and!; [done|done|by rewrite H3, Hs1|by rewrite H4, Ho1, app_assoc|by apply sublist_inserts_l|].
    rewrite <-Hs1. by apply (carry_ident w w1).
  - rewrite (ste_step _ _ w (inr e) w1) by (unfold catch; by rewrite Ep).
    exists 0%nat, (Some e), w1. split_and!; [done|by apply written_env|done].
Qed.

(** ** When I2CP refuses a packet *)

Definition sent w := (tx w, sentPackets (conn w), sends w).
#[local] Instance trackMessage_sent s n b : Pres (same sent) (trackMessage s n b).
Proof. unfold trackMessage, Now, getc. apply _. Qed.

Lemma refused_chunk chunk w :
  chunk ≠ [] → is_Some (session (conn w)) → send_ok (sends w) = false →
  ∃ d t w1, sendDataChunk chunk w = (Err ESend, w1) ∧ tx w1 = tx w ∧ 1 <= d < 256 ∧
    sentPackets (conn w1) !! sendSeq (conn w) = Some (MkSent (wire (data_packet (conn w) d chunk)) t 0).
Proof.
  intros Hne Hses Hno. unfold sendDataChunk. rewrite getc_step. cbn [id].
  destruct (resend_delay_range w) as (d & Hd & Hr). rewrite (ste_step _ _ _ _ _ Hd). cbv zeta.
  fold (data_packet (conn w) d chunk). set (pkt := data_packet (conn w) d chunk).
  assert (Hlen : (length chunk =? 0)%nat = false) by (apply Nat.eqb_neq; by destruct chunk).
  set (w1 := updc (λ c, c <| sentPackets ::= <[sendSeq (conn w) := MkSent (wire pkt) (clock (ticks w)) 0]> |>)
    (w <| ticks ::= S |>)).
  destruct (total_run sent (trackMessage (sendSeq (conn w)) (Z.of_nat (length (wire pkt)))
      (negb (length (Payload pkt) =? 0)%nat)) w1 _ _) as (nonce & w2 & E2 & H2).
  injection H2 as Hi1 Hi2 Hi3 Hi4 Hi5 Hi6 Hi7 Hs Ho Hsent Hsends.
  exists d, (clock (ticks w)), (w2 <| sends ::= S |>). split.
  - rewrite (ste_err _ _ w ESend (w2 <| sends ::= S |>)); [done|].
    unfold sendPacketLocked.
    rewrite (ste_step _ _ w (wire pkt) w) by (unfold marshal; by rewrite (Marshal_wire pkt (data_packet_ok _ _ _))).
    rewrite (ste_step _ _ w () w1).
    2: { unfold trackPacketForRetransmission. change (Payload pkt) with chunk. rewrite Hlen.
         rewrite Now_step, setc_eq. done. }
    apply ste_err. unfold sendViaI2CPWithTracking. rewrite getc_step.
    change (session (conn w1)) with (session (conn w)). destruct Hses as [ses ->].
    rewrite (ste_step _ _ _ _ _ E2). unfold SendMessage. do 2 erewrite ste_step by done.
    rewrite Hsends. change (sends w1) with (sends w). by rewrite Hno.
  - split_and!; [|lia|lia|].
    + change (mtu_of (conn w2) = mtu_of (conn w)) in Hi7. change (tx w2 = tx w). unfold tx, ident. congruence.
    + cbn. rewrite Hsent. cbn. by rewrite lookup_insert_eq.
Qed.

(** A refused packet is not forgotten.  When I2CP refuses a chunk,
    [Write] reports it as not written and its sequence number is used for the
    next chunk, but the packet stays in flight: the next retransmission sends
    it, and the next write sends other bytes under the same number, so the
    receiver gets two different packets for one place in the stream. *)
Theorem refused_packet_resent chunk chunk2 w :
  chunk ≠ [] → ids_ok w → is_Some (session (conn w)) → send_ok (sends w) = false →
  ∃ w1, sendDataChunk chunk w = (Err ESend, w1) ∧ outbox w1 = outbox w ∧
    ∀ w2 w3, retransmitPacketLocked (sendSeq (conn w)) w1 = (Ok (), w2) →
      sendDataChunk chunk2 w2 = (Ok (), w3) →
      ∃ m m2, outbox w3 = outbox w ++ [m; m2] ∧
        carries (conn w) (sendSeq (conn w)) chunk m ∧ carries (conn w) (sendSeq (conn w)) chunk2 m2.
Proof.
  intros Hne Hids Hses Hno.
  destruct (refused_chunk chunk w Hne Hses Hno) as (d & t & w1 & E1 & Htx & Hd & Hin).
  exists w1. unfold tx in Htx. injection Htx as Hi1 Hi2 Hi3 Hi4 Hi5 Hi6 Hi7 Hs Ho.
  split_and!; [done|done|]. intros w2 w3 E2 E3.
  unfold retransmitPacketLocked in E2. rewrite getc_step, Hin, getc_step, Hi1 in E2.
  rewrite bool_decide_true in E2 by done. unfold ewhen in E2. cbn [data] in E2.
  destruct (send_ok (sends w1)) eqn:Hok.
  2: { rewrite (ste_err _ _ w1 ESend (w1 <| sends ::= S |>)) in E2; [done|].
       unfold SendMessage. do 2 erewrite ste_step by done. by rewrite Hok. }
  set (m := MkMessage (dest (conn w1)) (localPort (conn w1)) (remotePort (conn w1))
    (wire (data_packet (conn w) d chunk)) 0).
  rewrite (ste_step _ _ w1 () (w1 <| sends ::= S |> <| outbox ::= λ o, o ++ [m] |>)) in E2.
  2: { unfold SendMessage. do 2 erewrite ste_step by done. by rewrite Hok. }
  rewrite Now_step, setc_eq in E2. injection E2 as <-.
  lazymatch type of E3 with sendDataChunk _ ?x = _ => set (w2 := x) in * end.
  assert (Hid2 : ident w2 = ident w) by (change (ident w1 = ident w); unfold ident; congruence).
  assert (Hs2 : sendSeq (conn w2) = sendSeq (conn w)) by done.
  destruct (sendDataChunk_spec chunk2 w2) as (r & w3' & E3' & Hid3 & Hr).
  { apply (ids_env w w2); [done|rewrite Hs2; apply Hids|done]. }
  rewrite E3' in E3. injection E3 as -> ->. destruct Hr as (_ & m2 & Ho3 & Hc2).
  exists m, m2. split_and!.
  - rewrite Ho3. subst w2. cbn. by rewrite Ho, <-app_assoc.
  - split_and!; [done|done|done|]. exists (wire_view (data_packet (conn w) d chunk)). split_and!; try done.
    destruct Hids as (H1 & H2 & H3).
    apply Unmarshal_wire; [|apply data_packet_ok|by split]. split; try done; cbn; [apply u32_range|lia].
  - rewrite <-Hs2. by apply (carries_ident w w2).
Qed.
End Write.

(** ** Concrete runs *)

Section Examples.
(** A peer with a small MTU; the window is full and opens during the wait. *)
Definition write_ex : World := updc (λ c, c <| remoteMTU := 3 |> <| sentPackets :=
  list_to_map ((λ i, (490 + Z.of_nat i, MkSent [x41] 0 0)) <$> seq 0 6) |>) world_ex.
Definition opens (w : World) : World := updc (λ c, c <| sentPackets := ∅ |>) w.

Lemma opens_env : env_ok writer_env [opens].
Proof. constructor; [|constructor]. intros w. by split_and!. Qed.

Definition summary (s : result ConnError (nat * option ConnError) * World) : option nat * nat * Z :=
  (match s.1 with Ok (n, None) => Some n | _ => None end, length (outbox s.2), sendSeq (conn s.2)).
Example write_run_ex : summary (Write [opens] [x61; x62; x63; x64] write_ex) = (Some 4%nat, 2%nat, 502).
Proof. vmeq. Qed.

Lemma write_exact_witness :
  ∃ n e w', Write [opens] [x61; x62; x63; x64] write_ex = (Ok (n, e), w') ∧
    written (mtu_of (conn write_ex)) [x61; x62; x63; x64] n write_ex w' ∧ (e = None → n = 4%nat).
Proof.
  apply (write_exact [opens] [x61; x62; x63; x64] write_ex); [done|apply Nat.ltb_lt; vmeq|apply opens_env].
Defined.

(** I2CP refuses the first message. *)
Definition FlakyRuntime : GoRuntime := {|
  clock := λ n, Z.of_nat n; range_order := λ _ l, l; send_ok := λ n, negb (n =? 0)%nat |}.

Lemma refused_packet_resent_witness :
  ∃ w1, @sendDataChunk _ _ FlakyRuntime [x41] world_ex = (Err ESend, w1) ∧ outbox w1 = outbox world_ex ∧
    ∀ w2 w3, @retransmitPacketLocked _ _ FlakyRuntime (sendSeq (conn world_ex)) w1 = (Ok (), w2) →
      @sendDataChunk _ _ FlakyRuntime [x42] w2 = (Ok (), w3) →
      ∃ m m2, outbox w3 = outbox world_ex ++ [m; m2] ∧
        carries (conn world_ex) (sendSeq (conn world_ex)) [x41] m ∧
        carries (conn world_ex) (sendSeq (conn world_ex)) [x42] m2.
Proof. apply (@refused_packet_resent _ _ _ FlakyRuntime [x41] [x42] world_ex); [done|done|by eexists|done]. Defined.
End Examples.
