(* ===== verification/ConnCoherent.v ===== *)
(** * What a connection holds stays coherent

    The maps of a connection under any run, whatever packets arrive, from the
    peer or from somebody else: a buffered packet is filed under its own
    number, no buffered packet is asked for again, the NACK list and the queue
    are bounded; and so the loop that delivers buffered packets always ends. *)

From S2P Require Import Prelude GoInt SeqNum I2CP Packet Floats Crypto Runtime Conn.
From S2P Require Import ConnRecv ConnAck ConnLife ConnWrite ConnFrames ConnOps ConnExamples ConnRecvProps.
From Stdlib Require Import Strings.Byte.

Section Coherent.
Context {I : I2CP} {B : CircBuf} `{!CircBufLaws B} {RT : GoRuntime}.
Implicit Types w : World.
Implicit Types c : StreamConn.
#[local] Abbreviation M := (STE World ConnError).

Record coherent c : Prop := {
  co_ooo : ∀ s p, outOfOrderPackets c !! s = Some p → SequenceNum p = s;
  co_nack : ∀ s, s ∈ nackList c → outOfOrderPackets c !! s = None;
  co_nacks : (size (nackList c) ≤ 255)%nat;
  co_queue : (length (recvChan c) ≤ 32)%nat;
}.
Definition coh w : Prop := coherent (conn w).

Definition tables w := (outOfOrderPackets (conn w), nackList (conn w), recvChan (conn w)).
Lemma coh_same w w' : tables w' = tables w → coh w → coh w'.
Proof. unfold tables, coh. intros [= E1 E2 E3] []. split; by rewrite ?E1, ?E2, ?E3. Qed.
Lemma same_coh {A} (m : M A) : Pres (same tables) m → Pres (keeps coh) m.
Proof. intros H w. unfold keeps. by apply coh_same, H. Qed.

#[local] Hint Extern 1 (Pres (keeps coh) (emodify _)) =>
  (apply pres_emodify; intros ?; unfold keeps; apply coh_same; exact eq_refl) : typeclass_instances.
#[local] Hint Extern 1 (Pres (keeps coh) (setc _)) =>
  (apply pres_emodify; intros ?; unfold keeps; apply coh_same; exact eq_refl) : typeclass_instances.

(** ** Methods that touch neither the maps nor the queue *)

#[local] Instance Now_coh : Pres (keeps coh) Now.
Proof. apply same_coh. unfold Now. apply _. Qed.
#[local] Instance sendPacket_tables (p : Packet) : Pres (same tables) (sendPacketLocked p).
Proof. unfold_send. apply _. Qed.
#[local] Instance sendAck_coh : Pres (keeps coh) sendAckLocked.
Proof. apply same_coh. unfold_send. apply _. Qed.
#[local] Instance sendChoke_coh : Pres (keeps coh) sendChokeSignalLocked.
Proof. apply same_coh. unfold_send. apply _. Qed.
#[local] Instance sendUnchoke_coh : Pres (keeps coh) sendUnchokeSignalLocked.
Proof. apply same_coh. unfold_send. apply _. Qed.
#[local] Instance sendClose_coh : Pres (keeps coh) sendCloseLocked.
Proof. apply same_coh. unfold_send. apply _. Qed.
#[local] Instance sendDataChunk_coh chunk : Pres (keeps coh) (sendDataChunk chunk).
Proof. apply same_coh. unfold sendDataChunk, getResendDelaySeconds, getc, setc. apply _. Qed.
#[local] Instance manageChoke_coh : Pres (keeps coh) manageChokeStateLocked.
Proof. unfold manageChokeStateLocked, updateChokeStateForUsage, calculateBufferUsage, getc. apply _. Qed.
#[local] Instance writeRecv_coh p : Pres (keeps coh) (writeRecvBuf p).
Proof. unfold writeRecvBuf, getc. apply _. Qed.
#[local] Instance SendMessage_coh bs n : Pres (keeps coh) (SendMessage bs n).
Proof. unfold SendMessage, getc. apply _. Qed.
#[local] Instance retransmit_coh s : Pres (keeps coh) (retransmitPacketLocked s).
Proof. unfold retransmitPacketLocked, getc. apply _. Qed.
#[local] Instance handleNACKs_coh l b : Pres (keeps coh) (handleNACKs l b).
Proof.
  revert b. induction l as [|n l IH]; intros b; cbn [handleNACKs]; [apply _|].
  unfold reduceCongestionWindowLocked, getc. apply _.
Qed.
#[local] Instance handleAck_coh (p : Packet) : Pres (keeps coh) (handleAckLocked p).
Proof.
  unfold handleAckLocked, handleNACKsLocked, handleOptionalDelayLocked, startPersistTimerLocked,
    stopPersistTimerLocked, cleanupAckedPacketsLocked, measureRTTFromAck, updateRTTEstimate,
    calculateRTO, updateCongestionWindow, sendBroadcast, go, getc. cbv zeta. apply _.
Qed.
#[local] Instance retransmitTimedOut_coh l : Pres (keeps coh) (retransmitTimedOutPacketsLocked l).
Proof. induction l as [|x l IH]; cbn [retransmitTimedOutPacketsLocked]; unfold getc; apply _. Qed.
#[local] Instance Close_coh : Pres (keeps coh) Close.
Proof.
  unfold Close, sendCloseIfEstablished, cleanupConnectionLocked, cacheTCB, UnregisterConnection,
    limiterClosed, stopPersistTimerLocked, wakeBlockedGoroutines, recvBroadcast, sendBroadcast,
    setState, getc. apply _.
Qed.
#[local] Instance tick_coh : Pres (keeps coh) retransmitTimerTick.
Proof.
  unfold retransmitTimerTick, checkRetransmissions, findTimedOutPacketsLocked, applyExponentialBackoffLocked,
    range_keys, getc. apply _.
Qed.
#[local] Instance persist_coh : Pres (keeps coh) persistTimerFired.
Proof.
  unfold persistTimerFired, sendProbePacketLocked, getc. apply pres_bind; [apply _..|]. intros c.
  apply pres_if; [apply _|]. apply pres_bind; [apply _| |apply _].
  apply pres_bind; [apply _..|]. intros c1. cbv zeta. apply _.
Qed.
#[local] Instance inactivity_coh : Pres (keeps coh) checkInactivity.
Proof. unfold checkInactivity, getc. apply _. Qed.
#[local] Instance reported_coh s : Pres (keeps coh) (handleMessageDelivered s).
Proof. unfold handleMessageDelivered, getc. apply _. Qed.
#[local] Instance failed_coh s r : Pres (keeps coh) (handleMessageFailed s r).
Proof. unfold handleMessageFailed, sendViaI2CP, getc. cbv zeta. apply _. Qed.
#[local] Instance consume_coh n : Pres (keeps coh) (consumeBufferDataLocked n).
Proof. unfold consumeBufferDataLocked, getc. cbv zeta. apply _. Qed.

(** ** The buffered packets *)

Lemma coh_next w : coh w →
  coh (updc (λ c, c <| nackList := nackList c ∖ {[recvSeq (conn w)]} |>) w).
Proof.
  intros []. split; cbn; try done.
  - intros s [Hs _]%elem_of_difference. by apply co_nack0.
  - pose proof (size_remove (nackList (conn w)) (recvSeq (conn w))). lia.
Qed.

#[local] Instance removeNACK_coh s : Pres (keeps coh) (removeFromNACKListLocked s).
Proof.
  intros w []. rewrite removeFromNACKList_eq. split; cbn; try done.
  - intros s' [Hs _]%elem_of_difference. by apply co_nack0.
  - pose proof (size_remove (nackList (conn w)) s). lia.
Qed.

(** The loop files each packet it delivers out of the map, so fuel for every
    buffered packet is enough. *)
Lemma deliver_coh fuel w : coh w → (size (outOfOrderPackets (conn w)) < fuel)%nat →
  ∃ w', deliverBufferedPackets fuel w = (Ok (), w') ∧ coh w'.
Proof.
  revert w. induction fuel as [|fuel IH]; intros w Hw Hf; [lia|].
  cbn [deliverBufferedPackets]. rewrite getc_step. cbn [id].
  destruct (outOfOrderPackets (conn w) !! recvSeq (conn w)) as [p|] eqn:E; [|by exists w].
  assert (Hp : SequenceNum p = recvSeq (conn w)) by by apply (co_ooo _ Hw).
  rewrite (ste_step _ _ _ _ _ (writeRecvBuf_eq _ _)), !setc_step.
  rewrite (ste_step _ _ _ _ _ (removeFromNACKList_eq _ _)). rewrite Hp.
  match goal with |- ∃ w', deliverBufferedPackets fuel ?w1 = _ ∧ _ => apply (IH w1) end.
  - destruct Hw. split; cbn; try done.
    + intros s q [_ Hq]%lookup_delete_Some. by apply co_ooo0.
    + intros s [Hs _]%elem_of_difference. apply lookup_delete_None. right. by apply co_nack0.
    + pose proof (size_remove (nackList (conn w)) (recvSeq (conn w))). lia.
  - cbn. rewrite map_size_delete, E. cbn.
    assert (size (outOfOrderPackets (conn w)) ≠ 0%nat) by (rewrite map_size_ne_0_lookup; eauto). lia.
Qed.

Lemma deliverBuffered_coh w : coh w → ∃ w', deliverBufferedPacketsLocked w = (Ok (), w') ∧ coh w'.
Proof. intros H. unfold deliverBufferedPacketsLocked. rewrite getc_step. apply deliver_coh; [done|lia]. Qed.
#[local] Instance deliverLocked_coh : Pres (keeps coh) deliverBufferedPacketsLocked.
Proof. intros w Hw. by destruct (deliverBuffered_coh w Hw) as (w' & -> & ?). Qed.

(** A number is added to the NACK list only when its packet is not buffered
    and there is room. *)
#[local] Instance addMissing_coh n i : Pres (keeps coh) (addMissingSequencesFrom i n).
Proof.
  revert i. induction n as [|n IH]; intros i w Hw; [done|]. rewrite addMissing_cons. case_if; [done|]. zbool.
  cbv zeta. apply IH. unfold should_add. destruct (outOfOrderPackets (conn w) !! _) eqn:E; [done|].
  case_bool_decide; [done|]. cbn [negb]. destruct Hw. unfold MaxNACKs in Hif. split; cbn; try done.
  - intros s [Hs| ->%elem_of_singleton]%elem_of_union; [by apply co_nack0|done].
  - rewrite size_union, size_singleton by set_solver. lia.
Qed.

#[local] Instance handleOutOfOrder_coh (p : Packet) : Pres (keeps coh) (handleOutOfOrderPacketLocked p (SequenceNum p)).
Proof.
  intros w Hw. unfold handleOutOfOrderPacketLocked. rewrite setc_step.
  rewrite (ste_step _ _ _ _ _ (removeFromNACKList_eq _ _)).
  set (m := _ ← updateNACKListLocked (SequenceNum p); _). assert (Hm : Pres (keeps coh) m).
  { subst m. unfold updateNACKListLocked, calculateSequenceGapLocked, addMissingSequencesToNACKListLocked, getc.
    cbv zeta. apply _. }
  apply Hm. destruct Hw. split; cbn; try done.
  - intros s q [[<- <-]|[_ Hq]]%lookup_insert_Some; [done|by apply co_ooo0].
  - intros s [Hs Hne]%elem_of_difference. rewrite lookup_insert_ne by set_solver. by apply co_nack0.
  - pose proof (size_remove (nackList (conn w)) (SequenceNum p)). lia.
Qed.

#[local] Instance processInSequence_coh (p : Packet) s : Pres (keeps coh) (processInSequencePacketLocked p s).
Proof.
  intros w Hw. unfold processInSequencePacketLocked. rewrite (ste_step _ _ _ _ _ (writeRecvBuf_eq _ _)).
  match goal with |- coh (snd (?m ?w1)) =>
    assert (Hm : Pres (keeps coh) m) by (unfold recvBroadcast, getc; apply _); apply Hm end.
  by apply (coh_same w).
Qed.
#[local] Instance handleData_coh (p : Packet) : Pres (keeps coh) (handleDataLocked p).
Proof. unfold handleDataLocked, getc. cbv zeta. apply _. Qed.
#[local] Instance postRead_coh : Pres (keeps coh) handlePostReadActionsLocked.
Proof. unfold handlePostReadActionsLocked, calculateBufferUsage, getc. apply _. Qed.

(** ** The queue *)

#[local] Instance process_coh (p : Packet) : Pres (keeps coh) (processPacket p).
Proof.
  unfold processPacket, dispatchPacketByFlags, handleSynAckLocked, handleFinalAckLocked, handleCloseLocked,
    handleResetLocked, extractRemoteMTUFromSynAck, setState, recvBroadcast, go, getc. cbv zeta. apply _.
Qed.
#[local] Instance receive_coh : Pres (keeps coh) receiveLoopStep.
Proof.
  intros w Hw. unfold receiveLoopStep. rewrite getc_step. cbn [id]. destruct (recvChan (conn w)) as [|p q] eqn:Eq; [done|].
  rewrite setc_step. match goal with |- coh (snd (?m _)) => assert (Hm : Pres (keeps coh) m) by apply _ end.
  apply Hm. destruct Hw. split; cbn; try done. rewrite Eq in co_queue0. cbn in co_queue0. lia.
Qed.
#[local] Instance incoming_coh pick (p : Packet) : Pres (keeps coh) (handleIncomingPacket pick p).
Proof.
  intros w Hw. unfold handleIncomingPacket. rewrite getc_step. cbn [id]. cbv zeta. case_if; [|by case_if].
  rewrite setc_eq. zbool. destruct Hw. split; cbn; try done. rewrite length_app. cbn. lia.
Qed.

Lemma run_coh (ops : list conn_op) w : coh w → coh (conn_run ops w).
Proof.
  apply (conn_run_kept (keeps coh)); try apply _;
    try (intros; unfold SetDeadline, SetReadDeadline, SetWriteDeadline, SetInactivityTimeout, recvBroadcast,
           sendBroadcast; apply _).
  - intros waits k He. apply Read_env; [apply _..|done].
  - intros waits data He. apply Write_env; [apply _..| |done]. intros chunk w1 _ _. apply sendDataChunk_coh.
Qed.

(** Whatever arrives and whatever the user and the timers do, also while a
    [Read] or [Write] waits: a buffered packet is filed under its own sequence
    number, none that is buffered is on the NACK list, which has at most the
    255 entries an acknowledgement can carry, at most 32 packets wait in the
    queue, and the loop that delivers buffered packets ends. *)
Theorem connection_coherent (ops : list conn_op) w :
  coherent (conn w) →
  coherent (conn (conn_run ops w)) ∧ fst (deliverBufferedPacketsLocked (conn_run ops w)) = Ok ().
Proof.
  intros Hw. assert (H : coh (conn_run ops w)) by by apply run_coh. split; [done|].
  by destruct (deliverBuffered_coh _ H) as (w' & -> & _).
Qed.

(** A new connection holds nothing. *)
Lemma new_connection_coherent self session manager dest lp rp mtu isn id buf now :
  coherent (initializeStreamConn self session manager dest lp rp mtu isn id buf now).
Proof. split; cbn; try done; try lia. rewrite size_empty. lia. Qed.
End Coherent.

Section Examples.
(** A packet from far ahead, twice, then the one expected. *)
Definition ahead_ex (s : Z) : @Packet ConcreteI2CP := (base_Packet 9 7 s 499 0) <| Payload := [x41] |>.
Definition ahead_ops : list conn_op :=
  [OpIncoming true (ahead_ex 5000); OpReceive; OpIncoming true (ahead_ex 5000); OpReceive;
   OpIncoming true (ahead_ex 100); OpReceive].
Lemma connection_coherent_witness :
  size (nackList (conn (conn_run ahead_ops world_ex))) = 254%nat ∧
  coherent (conn (conn_run ahead_ops world_ex)) ∧
  fst (deliverBufferedPacketsLocked (conn_run ahead_ops world_ex)) = Ok ().
Proof.
  split; [vmeq|]. apply (connection_coherent ahead_ops world_ex).
  split; cbn; try done; try lia. rewrite size_empty. lia.
Defined.
End Examples.
