(* ===== verification/ConnTx.v ===== *)
(** * What a connection ever sends

    The sender's side of a stream.  Every packet a connection puts on the wire
    is a control packet, a CLOSE, or carries the payload that belongs to its
    sequence number, however often it is sent again and whatever arrives, is
    read or times out in between. *)

From S2P Require Import Prelude GoInt SeqNum I2CP Packet PacketProps PacketHeader Floats Crypto Runtime.
From S2P Require Import Conn ConnRecv ConnAck ConnLife ConnWrite ConnFrames ConnOps ConnRecvProps ConnWriteProps.
From Stdlib Require Import Strings.Byte.

Section Tx.
Context {I : I2CP} `{!I2CPLaws I} {B : CircBuf} {RT : GoRuntime}.
(** The number of the stream's first packet; what had been sent before the
    point from which the sender is observed, and how many packets of the
    stream were among it. *)
Context (base : Z) (old : list Message) (n0 : nat).
Implicit Types w : World.
Implicit Types cs : list (option bytes).
#[local] Abbreviation M := (STE World ConnError).

(** [cs] assigns its payload to every sequence number used so far; [None] if
    no packet with that number may be on its way.  A datagram is lawful if it
    parses to a SYN, CLOSE or RESET, to a packet numbered 0, or to a packet with
    the payload of its number. *)
Definition lawful cs (bs : bytes) : Prop :=
  ∀ q, unmarshal_fresh bs = Ok q → plain_flags q →
    SequenceNum q = 0 ∨ ∃ i c, cs !! i = Some (Some c) ∧ SequenceNum q = seqn base i ∧ Payload q = c.

(** [new] has a packet of index [i] with payload [c]. *)
Definition carried (new : list Message) (i : nat) (c : bytes) : Prop :=
  ∃ m q, m ∈ new ∧ unmarshal_fresh (m_data m) = Ok q ∧ Flags q = 0 ∧
    SequenceNum q = seqn base i ∧ Payload q = c.

(** What has been sent since: lawful, every payload at least once, and no
    number without a message. *)
Record emitted cs (new : list Message) : Prop := {
  em_lawful : Forall (λ m, lawful cs (m_data m)) new;
  em_carried : ∀ i c, cs !! i = Some (Some c) → (n0 ≤ i)%nat → carried new i c;
  em_length : (length cs ≤ n0 + length new)%nat;
}.

Record TxInv cs w : Prop := {
  tx_session : is_Some (session (conn w));
  tx_mtu : 0 < localMTU (conn w) ∧ 0 <= remoteMTU (conn w);
  tx_seq : sendSeq (conn w) = seqn base (length cs);
  tx_full : Forall (λ o, o ≠ Some []) cs;
  tx_out : ∃ new, outbox w = old ++ new ∧ emitted cs new;
  tx_flight : ∀ s info, sentPackets (conn w) !! s = Some info → lawful cs (data info);
}.

Lemma lawful_app cs more bs : lawful cs bs → lawful (cs ++ more) bs.
Proof.
  intros H q Hq Hp. destruct (H q Hq Hp) as [|(i & c & Hi & Hs)]; [by left|]. right.
  exists i, c. split; [|done]. rewrite lookup_app_l; [done|]. by eapply lookup_lt_Some.
Qed.

Lemma carried_app new more i c : carried new i c → carried (new ++ more) i c.
Proof. intros (m & q & Hm & H). exists m, q. split; [|done]. apply elem_of_app. by left. Qed.

Lemma emitted_control cs new m : lawful cs (m_data m) → emitted cs new → emitted cs (new ++ [m]).
Proof.
  intros Hm [H1 H2 H3]. split; [by apply Forall_app_2; [|constructor]| |rewrite length_app; lia].
  intros i c Hi Hn. by apply carried_app, H2.
Qed.

(** What the invariant reads. *)
Definition txv w :=
  (session (conn w), localMTU (conn w), remoteMTU (conn w), sendSeq (conn w), sentPackets (conn w), outbox w).

Lemma TxInv_view cs w w' : txv w' = txv w → TxInv cs w → TxInv cs w'.
Proof. unfold txv. intros [= H1 H2 H3 H4 H5 H6] []. split; rewrite ?H1, ?H2, ?H3, ?H4, ?H5, ?H6; done. Qed.

Lemma view_tx {A} cs (m : M A) : Pres (same txv) m → Pres (keeps (TxInv cs)) m.
Proof. intros H w. exact (TxInv_view cs w _ (H w)). Qed.

Lemma tx_setc cs f : (∀ w, TxInv cs w → TxInv cs (updc f w)) → Pres (keeps (TxInv cs)) (setc f : M ()).
Proof. intros H. by apply pres_emodify. Qed.

#[local] Hint Extern 1 (Pres (keeps (TxInv _)) (emodify _)) =>
  (apply pres_emodify; intros ? []; split; assumption) : typeclass_instances.
#[local] Hint Extern 1 (Pres (keeps (TxInv _)) (setc _)) =>
  (apply tx_setc; intros ? []; split; assumption) : typeclass_instances.

(** ** Control packets *)

(** No payload, and either the number 0 or a flag that the receiver acts on
    before it looks at the number. *)
Record control (p : Packet) : Prop := {
  ct_payload : Payload p = [];
  ct_offline : OfflineSignature p = None;
  ct_flags : is_u16 (Flags p);
  ct_seq : SequenceNum p = 0 ∨ has_flag (Flags p) FlagCLOSE = true;
}.

Lemma control_lawful cs p bs : control p → Marshal p = Ok bs → lawful cs bs.
Proof.
  intros [_ Ho Hf Hs] Hm q Hq (_ & Hc & _). apply Marshal_ok_iff in Hm as [Hm ->].
  destruct (wire_head p q Ho Hf (mo_nacks _ Hm) Hq) as [H1 H2]. rewrite H2 in Hc.
  destruct Hs as [Hs|Hs]; [|congruence]. left. by rewrite H1, Hs.
Qed.

Lemma SendMessage_tx cs bs : lawful cs bs → ∀ nonce, Pres (keeps (TxInv cs)) (SendMessage bs nonce).
Proof.
  intros Hl nonce. unfold SendMessage, getc. do 2 (apply pres_bind; [apply _..|intros ?]). case_if; [|apply _].
  apply pres_bind; [apply _..|]. intros c. apply pres_emodify. intros w [H1 H2 H3 H4 (new & H5 & H6) H7].
  split; try assumption. eexists (new ++ [_]). cbn. rewrite H5, <-app_assoc. split; [done|].
  by apply emitted_control.
Qed.

#[local] Instance Now_tx : Pres (same txv) Now.
Proof. unfold Now. apply _. Qed.
#[local] Instance trackMessage_txv s n b : Pres (same txv) (trackMessage s n b).
Proof. unfold trackMessage, Now, getc. apply _. Qed.
#[local] Instance Now_tx' cs : Pres (keeps (TxInv cs)) Now.
Proof. apply view_tx, _. Qed.
#[local] Instance trackMessage_tx' cs s n b : Pres (keeps (TxInv cs)) (trackMessage s n b).
Proof. apply view_tx, _. Qed.

Lemma sendPacket_tx cs p : control p → Pres (keeps (TxInv cs)) (sendPacketLocked p).
Proof.
  intros Hc. unfold sendPacketLocked, marshal, trackPacketForRetransmission. rewrite (ct_payload _ Hc).
  change (length [] =? 0)%nat with true. destruct (Marshal p) as [bs|e|] eqn:Em; [|apply _..].
  pose proof (control_lawful cs p bs Hc Em) as Hl. apply pres_ret_bind. unfold sendViaI2CPWithTracking, getc.
  pose proof (SendMessage_tx cs bs Hl). apply _.
Qed.

#[local] Hint Extern 1 (Pres (keeps (TxInv _)) (sendPacketLocked _)) =>
  (apply sendPacket_tx; by (split; [..|left])) : typeclass_instances.

#[local] Instance range_keys_tx cs l : Pres (keeps (TxInv cs)) (range_keys l).
Proof. unfold range_keys. apply _. Qed.
#[local] Instance packetNACKs_tx cs : Pres (keeps (TxInv cs)) packetNACKs.
Proof. unfold packetNACKs, getNACKListSliceLocked, getc. apply _. Qed.
#[local] Instance sendAck_tx cs : Pres (keeps (TxInv cs)) sendAckLocked.
Proof. unfold sendAckLocked, getc. cbv zeta. apply _. Qed.
#[local] Instance sendChoke_tx cs : Pres (keeps (TxInv cs)) sendChokeSignalLocked.
Proof. unfold sendChokeSignalLocked, getc. cbv zeta. apply _. Qed.
#[local] Instance sendUnchoke_tx cs : Pres (keeps (TxInv cs)) sendUnchokeSignalLocked.
Proof. unfold sendUnchokeSignalLocked, getc. cbv zeta. apply _. Qed.

Definition ctl (p : Packet) := (Payload p, OfflineSignature p, Flags p, SequenceNum p).
#[local] Instance SignPacket_ctl kp : Pres (same ctl) (SignPacket kp).
Proof. unfold SignPacket. apply _. Qed.

Lemma control_ctl p p' : ctl p' = ctl p → control p → control p'.
Proof. unfold ctl. intros [= H1 H2 H3 H4] []. split; by rewrite ?H1, ?H2, ?H3, ?H4. Qed.

#[local] Instance sendClose_tx cs : Pres (keeps (TxInv cs)) sendCloseLocked.
Proof.
  unfold sendCloseLocked. intros w. rewrite getc_step. cbn [id]. cbv zeta.
  set (m := match session (conn w) with None => _ | Some _ => _ end).
  assert (Hm : returns m w (λ p w', control p ∧ w' = w) ∧ snd (m w) = w).
  { subst m. destruct (session (conn w)) as [s|].
    2: { split; [|done]. apply returns_ret. split; [|done]. split; [done..|by right]. }
    destruct (SigningKeyPair s) as [kp|].
    2: { split; [|done]. apply returns_ret. split; [|done]. split; [done..|by right]. }
    unfold sign. lazymatch goal with |- context [SignPacket kp ?p] =>
      pose proof (SignPacket_ctl kp p) as Hp; assert (control p) as Hc by (split; [done..|by right]);
      destruct (SignPacket kp p) as [[] p'] end;
      split; try done; intros p1 w1 [= <- <-]; (split; [by eapply control_ctl|done]). }
  destruct Hm as [Hm1 Hm2]. unfold mbind, ste_bind. destruct (m w) as [[p|e|] w1] eqn:E; cbn [snd] in *.
  - destruct (Hm1 _ _ E) as [Hp ->]. by apply (sendPacket_tx cs p Hp).
  - by subst.
  - by subst.
Qed.

(** ** Packets in flight: fewer, or the same bytes *)

Lemma tx_fewer cs f :
  (∀ w, (sentPackets (f (conn w)) ⊆ sentPackets (conn w)) ∧
     session (f (conn w)) = session (conn w) ∧ localMTU (f (conn w)) = localMTU (conn w) ∧
     remoteMTU (f (conn w)) = remoteMTU (conn w) ∧ sendSeq (f (conn w)) = sendSeq (conn w)) →
  Pres (keeps (TxInv cs)) (setc f : M ()).
Proof.
  intros H. apply tx_setc. intros w []. destruct (H w) as (H1 & H2 & H3 & H4 & H5).
  split; cbn; rewrite ?H2, ?H3, ?H4, ?H5; try done. intros s info Hs. eapply tx_flight0, lookup_weaken; done.
Qed.

#[local] Instance delete_tx cs s : Pres (keeps (TxInv cs)) (setc (λ c, c <| sentPackets ::= delete s |>) : M ()) | 5.
Proof. apply tx_fewer. intros w. split_and!; try done. cbn. apply delete_subseteq. Qed.
#[local] Instance cleanup_tx cs P `{!∀ kv, Decision (P kv)} :
  Pres (keeps (TxInv cs)) (setc (λ c, c <| sentPackets ::= filter P |>) : M ()) | 6.
Proof. apply tx_fewer. intros w. split_and!; try done. cbn. apply map_filter_subseteq. Qed.

Lemma tx_replace cs s info info' w :
  sentPackets (conn w) !! s = Some info → data info' = data info → TxInv cs w →
  TxInv cs (updc (λ c, c <| sentPackets ::= <[s := info']> |>) w).
Proof.
  intros H Hd []. split; cbn; try done. intros s' i' [[<- <-]|[_ Hs]]%lookup_insert_Some.
  - rewrite Hd. by eapply tx_flight0.
  - by eapply tx_flight0.
Qed.

#[local] Instance SendMessage_same_conn bs n : Pres (same conn) (SendMessage bs n).
Proof. unfold SendMessage, getc. apply _. Qed.

#[local] Instance retransmit_tx cs s : Pres (keeps (TxInv cs)) (retransmitPacketLocked s).
Proof.
  intros w Hi. unfold retransmitPacketLocked. rewrite getc_step.
  destruct (sentPackets (conn w) !! s) as [info|] eqn:E; [|done]. rewrite getc_step.
  pose proof (tx_flight _ _ Hi _ _ E) as Hl. set (m := ewhen _ _).
  assert (Hm : Pres (same conn) m) by (subst m; apply _).
  assert (Hm' : Pres (keeps (TxInv cs)) m) by (subst m; pose proof (SendMessage_tx cs (data info) Hl); apply _).
  specialize (Hm w). unfold same in Hm. specialize (Hm' w Hi). unfold mbind at 1, ste_bind at 1.
  destruct (m w) as [[[]|e|] w1]; try done. rewrite Now_step, setc_eq. cbn [snd] in *.
  apply (tx_replace cs s info); [by rewrite <-Hm in E|done|]. eapply TxInv_view; [|done]. done.
Qed.

#[local] Instance handleFailed_tx cs s r : Pres (keeps (TxInv cs)) (handleMessageFailed s r).
Proof.
  intros w Hi. unfold handleMessageFailed. rewrite getc_step. cbn [id].
  destruct (closed (conn w)); [done|]. destruct r; [|done]. cbn [negb].
  destruct (sentPackets (conn w) !! s) as [info|] eqn:E; [|done]. rewrite setc_step.
  pose proof (tx_flight _ _ Hi _ _ E) as Hl.
  set (w1 := updc _ w). assert (Hi1 : TxInv cs w1) by by eapply tx_replace.
  case_if; [|done]. unfold sendViaI2CP, getc. pose proof (SendMessage_tx cs (data info) Hl).
  match goal with |- TxInv cs (snd (?m w1)) => assert (Hp : Pres (keeps (TxInv cs)) m) by apply _ end.
  by apply Hp.
Qed.
#[local] Instance delivered_tx cs s : Pres (keeps (TxInv cs)) (handleMessageDelivered s).
Proof. unfold handleMessageDelivered, getc. apply _. Qed.

(** ** The other methods *)

#[local] Instance manageChoke_tx cs : Pres (keeps (TxInv cs)) manageChokeStateLocked.
Proof.
  unfold manageChokeStateLocked, updateChokeStateForUsage, calculateBufferUsage, getc. apply _.
Qed.
#[local] Instance deliver_tx cs fuel : Pres (keeps (TxInv cs)) (deliverBufferedPackets fuel).
Proof.
  induction fuel as [|fuel IH]; cbn [deliverBufferedPackets];
    unfold writeRecvBuf, removeFromNACKListLocked, getc; apply _.
Qed.
#[local] Instance addMissing_tx cs n i : Pres (keeps (TxInv cs)) (addMissingSequencesFrom i n).
Proof.
  revert i. induction n as [|n IH]; intros i; cbn [addMissingSequencesFrom];
    unfold shouldAddToNACKListLocked, getc; apply _.
Qed.
#[local] Instance handleData_tx cs (pkt : Packet) : Pres (keeps (TxInv cs)) (handleDataLocked pkt).
Proof.
  unfold handleDataLocked, processInSequencePacketLocked, handleOutOfOrderPacketLocked,
    handleBufferFullLocked, updateNACKListLocked, calculateSequenceGapLocked,
    addMissingSequencesToNACKListLocked, deliverBufferedPacketsLocked, removeFromNACKListLocked,
    writeRecvBuf, recvBroadcast, getc. apply _.
Qed.
#[local] Instance handleNACKs_tx cs nacks b : Pres (keeps (TxInv cs)) (handleNACKs nacks b).
Proof.
  revert b. induction nacks as [|x nacks IH]; intros b; cbn [handleNACKs]; [apply _|].
  unfold reduceCongestionWindowLocked, getc. apply _.
Qed.
#[local] Instance cleanupAcked_tx cs a b l : Pres (keeps (TxInv cs)) (cleanupAckedPacketsLocked a b l).
Proof. unfold cleanupAckedPacketsLocked, sendBroadcast, getc. cbv zeta. apply _. Qed.
#[local] Instance measureRTT_tx cs a : Pres (keeps (TxInv cs)) (measureRTTFromAck a).
Proof. unfold measureRTTFromAck, updateRTTEstimate, calculateRTO, getc. cbv zeta. apply _. Qed.
#[local] Instance updateWindow_tx cs : Pres (keeps (TxInv cs)) updateCongestionWindow.
Proof. unfold updateCongestionWindow, getc. apply _. Qed.
#[local] Instance handleAck_tx cs (pkt : Packet) : Pres (keeps (TxInv cs)) (handleAckLocked pkt).
Proof.
  unfold handleAckLocked, handleNACKsLocked, handleOptionalDelayLocked, startPersistTimerLocked,
    stopPersistTimerLocked, sendBroadcast, go, getc. cbv zeta. apply _.
Qed.

(** The peer's packet size is taken only if it is positive. *)
#[local] Instance remoteMTU_tx cs (pkt : Packet) : Pres (keeps (TxInv cs)) (extractRemoteMTUFromSynAck pkt).
Proof.
  intros w [H1 [H2 H3] H4 H5 H6 H7]. unfold extractRemoteMTUFromSynAck.
  destruct (_ && _) eqn:Hc; rewrite setc_eq; (split; [assumption|split|assumption..]); cbn; try assumption.
  - zbool. lia.
  - done.
Qed.
#[local] Instance handleSynAck_tx cs (pkt : Packet) : Pres (keeps (TxInv cs)) (handleSynAckLocked pkt).
Proof. unfold handleSynAckLocked, setState, getc. apply _. Qed.
#[local] Instance handleFinalAck_tx cs (pkt : Packet) : Pres (keeps (TxInv cs)) (handleFinalAckLocked pkt).
Proof. unfold handleFinalAckLocked, setState, go, getc. apply _. Qed.
#[local] Instance handleClose_tx cs (pkt : Packet) : Pres (keeps (TxInv cs)) (handleCloseLocked pkt).
Proof. unfold handleCloseLocked, setState, recvBroadcast, getc. apply _. Qed.
#[local] Instance handleReset_tx cs (pkt : Packet) : Pres (keeps (TxInv cs)) (handleResetLocked pkt).
Proof. unfold handleResetLocked, setState, recvBroadcast, getc. apply _. Qed.
#[local] Instance process_tx cs (pkt : Packet) : Pres (keeps (TxInv cs)) (processPacket pkt).
Proof. unfold processPacket, dispatchPacketByFlags, getc. cbv zeta. apply _. Qed.
#[local] Instance receive_tx cs : Pres (keeps (TxInv cs)) receiveLoopStep.
Proof.
  unfold receiveLoopStep, getc. apply pres_bind; [apply _|apply _|]. intros c.
  destruct (recvChan c); apply _.
Qed.
#[local] Instance retransmitTimedOut_tx cs l : Pres (keeps (TxInv cs)) (retransmitTimedOutPacketsLocked l).
Proof.
  induction l as [|x l IH]; cbn [retransmitTimedOutPacketsLocked]; [apply _|]. unfold getc. apply _.
Qed.
#[local] Instance Close_tx cs : Pres (keeps (TxInv cs)) Close.
Proof.
  unfold Close, sendCloseIfEstablished, cleanupConnectionLocked, cacheTCB, UnregisterConnection,
    limiterClosed, stopPersistTimerLocked, wakeBlockedGoroutines, recvBroadcast, sendBroadcast,
    setState, getc. apply _.
Qed.
#[local] Instance tick_tx cs : Pres (keeps (TxInv cs)) retransmitTimerTick.
Proof.
  unfold retransmitTimerTick, checkRetransmissions, findTimedOutPacketsLocked, applyExponentialBackoffLocked, getc.
  apply _.
Qed.
#[local] Instance consume_tx cs n : Pres (keeps (TxInv cs)) (consumeBufferDataLocked n).
Proof. unfold consumeBufferDataLocked, writeRecvBuf, getc. cbv zeta. apply _. Qed.
#[local] Instance postRead_tx cs : Pres (keeps (TxInv cs)) handlePostReadActionsLocked.
Proof.
  unfold handlePostReadActionsLocked, deliverBufferedPacketsLocked, calculateBufferUsage, getc. apply _.
Qed.
#[local] Instance incoming_tx cs pick (pkt : Packet) : Pres (keeps (TxInv cs)) (handleIncomingPacket pick pkt).
Proof. unfold handleIncomingPacket, getc. apply _. Qed.
#[local] Instance inactivity_tx cs : Pres (keeps (TxInv cs)) checkInactivity.
Proof. unfold checkInactivity, getc. apply _. Qed.
Lemma deadlines_tx cs t :
  Pres (keeps (TxInv cs)) (SetDeadline t) ∧ Pres (keeps (TxInv cs)) (SetReadDeadline t) ∧
  Pres (keeps (TxInv cs)) (SetWriteDeadline t) ∧ Pres (keeps (TxInv cs)) (SetInactivityTimeout t).
Proof.
  unfold SetDeadline, SetReadDeadline, SetWriteDeadline, SetInactivityTimeout, recvBroadcast, sendBroadcast.
  split_and!; apply _.
Qed.

(** ** Packets of the stream *)

Context (Hsend : ∀ n, send_ok n = true).

Lemma SendMessage_ok' bs nonce w : ∃ m, m_data m = bs ∧
  SendMessage bs nonce w = (Ok (), w <| sends ::= S |> <| outbox ::= λ o, o ++ [m] |>).
Proof.
  exists (MkMessage (dest (conn w)) (localPort (conn w)) (remotePort (conn w)) bs nonce). split; [done|].
  unfold SendMessage. do 2 erewrite ste_step by done. by rewrite Hsend.
Qed.

(** A packet without options, numbered next, that is sent now. *)
Record next_packet cs (p : Packet) : Prop := {
  np_flags : Flags p = 0;
  np_offline : OfflineSignature p = None;
  np_nacks : NACKs p = [];
  np_seq : SequenceNum p = seqn base (length cs);
}.

Lemma next_parsed cs p : next_packet cs p → ∃ q, unmarshal_fresh (wire p) = Ok q ∧ Flags q = 0 ∧
  SequenceNum q = seqn base (length cs) ∧ Payload q = Payload p.
Proof.
  intros [Hf Ho Hn Hs]. exists (wire_view (fit p)). split; [apply Unmarshal_plain; [done..|by rewrite Hn; cbn; lia]|].
  cbn. rewrite Hf, Hs. split_and!; [done| |done]. unfold seqn. apply u32_idemp.
Qed.

Lemma next_marshal cs p : next_packet cs p → Marshal p = Ok (wire p).
Proof.
  intros [Hf _ Hn _]. apply Marshal_wire. split; rewrite ?Hf; try done. rewrite Hn. cbn. lia.
Qed.

Lemma next_lawful cs p : next_packet cs p → lawful (cs ++ [Some (Payload p)]) (wire p).
Proof.
  intros H q Hq _. right. destruct (next_parsed cs p H) as (q' & Hq' & _ & Hs & Hp).
  assert (q = q') as -> by congruence. exists (length cs), (Payload p). split; [|done].
  apply lookup_snoc_Some. by right.
Qed.

Lemma emitted_next cs new p m : emitted cs new → next_packet cs p → m_data m = wire p →
  emitted (cs ++ [Some (Payload p)]) (new ++ [m]).
Proof.
  intros [H1 H2 H3] Hp Hm. split; [| |rewrite !length_app; cbn; lia].
  - apply Forall_app_2; [|constructor; [|done]].
    + eapply Forall_impl; [exact H1|]. intros m'. apply lawful_app.
    + rewrite Hm. by apply next_lawful.
  - intros i c [[_ Hi]|[-> [= <-]]]%lookup_snoc_Some Hn; [by apply carried_app, H2|].
    destruct (next_parsed cs p Hp) as (q & Hq & Hr).
    exists m, q. rewrite Hm. split; [|done]. apply elem_of_app. right. by left.
Qed.

Lemma seqn_succ n : seqn base n +% 1 = seqn base (S n).
Proof. unfold seqn. rewrite u32_add_l. f_equal. lia. Qed.

(** One more message, and the sequence number moves on. *)
Lemma TxInv_next cs p m w w' :
  TxInv cs w → next_packet cs p → m_data m = wire p → Payload p ≠ [] →
  (session (conn w'), localMTU (conn w'), remoteMTU (conn w')) =
    (session (conn w), localMTU (conn w), remoteMTU (conn w)) →
  outbox w' = outbox w ++ [m] → sendSeq (conn w') = sendSeq (conn w) +% 1 →
  (∀ s info, sentPackets (conn w') !! s = Some info →
     sentPackets (conn w) !! s = Some info ∨ data info = wire p) →
  TxInv (cs ++ [Some (Payload p)]) w'.
Proof.
  intros [H1 H2 H3 H4 (new & H5 & H6) H7] Hp Hm Hne [= E1 E2 E3] E4 E5 E6.
  split; rewrite ?E1, ?E2, ?E3; try done.
  - rewrite E5, H3, length_app, Nat.add_1_r. apply seqn_succ.
  - apply Forall_app_2; [done|]. constructor; [|done]. congruence.
  - exists (new ++ [m]). rewrite E4, H5, <-app_assoc. split; [done|]. by apply emitted_next.
  - intros s info Hs. destruct (E6 s info Hs) as [Hold| ->]; [eapply lawful_app, H7; done|].
    by apply next_lawful.
Qed.

Lemma getResendDelay_run w : ∃ d, getResendDelaySeconds w = (Ok d, w).
Proof. unfold getResendDelaySeconds. rewrite getc_step. cbn [id]. cbv zeta. repeat case_if; by eexists. Qed.

Lemma trackMessage_run s n b w : ∃ nonce w', trackMessage s n b w = (Ok nonce, w') ∧ txv w' = txv w.
Proof. apply total_run; apply _. Qed.

Lemma sendDataChunk_tx cs chunk w : chunk ≠ [] → TxInv cs w →
  ∃ w', sendDataChunk chunk w = (Ok (), w') ∧ TxInv (cs ++ [Some chunk]) w'.
Proof.
  intros Hne Hi. unfold sendDataChunk. rewrite getc_step. cbn [id].
  destruct (getResendDelay_run w) as [d ->%(ste_step _ _ w d w)]. cbv zeta.
  set (p := _ <| Payload := chunk |>).
  assert (Hp : next_packet cs p) by (split; try done; apply (tx_seq _ _ Hi)).
  assert (Hl : (length (Payload p) =? 0)%nat = false) by (apply Nat.eqb_neq; by destruct chunk).
  unfold sendPacketLocked, marshal. rewrite (next_marshal _ _ Hp), !ste_assoc.
  rewrite (ste_step _ _ w (wire p) w) by done. unfold trackPacketForRetransmission. rewrite Hl.
  rewrite !ste_assoc, Now_step, setc_step. cbn beta.
  unfold sendViaI2CPWithTracking. rewrite !ste_assoc, getc_step. set (w1 := updc _ _).
  destruct (tx_session _ _ Hi) as [y Hy]. change (session (conn w1)) with (session (conn w)). rewrite Hy.
  destruct (trackMessage_run (SequenceNum p) (Z.of_nat (length (wire p))) (negb false) w1) as (nonce & w2 & E2 & H2).
  rewrite !ste_assoc, (ste_step _ _ _ _ _ E2).
  destruct (SendMessage_ok' (wire p) nonce w2) as (m & Hm & E3).
  rewrite (ste_step _ _ _ _ _ E3), !ste_assoc, Now_step, !setc_step, setc_eq.
  eexists. split; [done|]. unfold txv in H2. injection H2 as A1 A2 A3 A4 A5 A6.
  apply (TxInv_next cs p m w); try done; cbn.
  - by rewrite A1, A2, A3.
  - by rewrite A6.
  - by rewrite A4.
  - rewrite A5. cbn. intros s info [[<- <-]|[_ Hs]]%lookup_insert_Some; [by right|by left].
Qed.

(** The probe of the persist timer is a packet of the stream, with a byte that
    nobody wrote, and it is not kept in flight. *)
Definition probing w : Prop :=
  choked (conn w) = true ∧ closed (conn w) = false ∧ is_Some (persistTimer (conn w)).

Lemma persist_probe cs w : probing w → TxInv cs w →
  ∃ m w', persistTimerFired w = (Ok true, w') ∧ outbox w' = outbox w ++ [m] ∧
    carried [m] (length cs) [x00] ∧ TxInv (cs ++ [Some [x00]]) w' ∧
    session (conn w') = session (conn w) ∧ localMTU (conn w') = localMTU (conn w) ∧
    remoteMTU (conn w') = remoteMTU (conn w) ∧ sentPackets (conn w') = sentPackets (conn w).
Proof.
  intros (H1 & H2 & [t H3]) Hi. unfold persistTimerFired. rewrite getc_step. cbn [id]. rewrite H1, H2.
  rewrite bool_decide_false by congruence. cbn [negb orb].
  unfold sendProbePacketLocked. rewrite ste_assoc, getc_step. cbn [id]. destruct (tx_session _ _ Hi) as [y Hy].
  rewrite bool_decide_false by congruence. rewrite H2. cbn [orb]. cbv zeta.
  set (p := _ <| Payload := [x00] |>).
  assert (Hp : next_packet cs p) by (split; try done; apply (tx_seq _ _ Hi)).
  rewrite (next_marshal _ _ Hp), ste_assoc, setc_step. set (w1 := updc _ w).
  destruct (SendMessage_ok' (wire p) 0 w1) as (m & Hm & E3).
  rewrite ste_assoc, (ste_step _ _ w1 None _) by (unfold try; by rewrite E3).
  exists m. eexists. split; [done|]. split; [done|]. split.
  { destruct (next_parsed cs p Hp) as (q & Hq & Hr). exists m, q. rewrite Hm. split; [by left|done]. }
  split; [|done]. apply (TxInv_next cs p m w); try done. intros s info Hs. by left.
Qed.

(** ** Runs *)

(** Neither writing nor the persist timer. *)
Fixpoint quiet (op : conn_op) : bool :=
  match op with
  | OpWrite _ _ | OpPersistTick => false
  | OpRead waits _ => forallb (forallb quiet) waits
  | _ => true
  end.

(** The numbers given so far keep their payloads; if the step is [alone], it
    gives none. *)
Definition numbering (alone : bool) w w' : Prop :=
  ∀ cs, TxInv cs w → ∃ more, TxInv (cs ++ more) w' ∧ (alone = true → more = []).
#[local] Instance numbering_preorder alone : PreOrder (numbering alone).
Proof.
  split; [intros w cs H; exists []; by rewrite app_nil_r|]. intros w1 w2 w3 H1 H2 cs H.
  destruct (H1 cs H) as (m1 & G1 & A1). destruct (H2 _ G1) as (m2 & G2 & A2).
  exists (m1 ++ m2). rewrite app_assoc. split; [done|]. intros Ha. by rewrite A1, A2.
Qed.

Lemma numbering_keeps alone w w' : (∀ cs, TxInv cs w → TxInv cs w') → numbering alone w w'.
Proof. intros H cs Hi. exists []. rewrite app_nil_r. auto. Qed.

Lemma numbering_pres {A} alone (m : M A) : (∀ cs, Pres (keeps (TxInv cs)) m) → Pres (numbering alone) m.
Proof. intros H w. apply numbering_keeps. intros cs. apply H. Qed.

Lemma Read_numbering alone waits k : env_ok (numbering alone) waits → Pres (numbering alone) (Read waits k).
Proof.
  intros He. apply Read_env; [apply _|apply numbering_pres, _| |apply numbering_pres, _|done].
  intros n. apply numbering_pres, _.
Qed.

Lemma quiet_step op : quiet op = true → ∀ w, numbering true w (conn_step op w).
Proof.
  revert op. apply (conn_op_nested (λ op, quiet op = true → ∀ w, numbering true w (conn_step op w))).
  - intros waits k IH Hq w. apply Read_numbering. apply Forall_map. cbn in Hq.
    eapply Forall_when; [|exact Hq]. eapply Forall_impl; [exact IH|]. intros ops Hops Hqs.
    apply (run_kept (numbering true)). by eapply Forall_when.
  - done.
  - intros op. destruct op; try done; intros _ w; apply numbering_keeps; intros cs.
    + apply incoming_tx.
    + apply receive_tx.
    + apply Close_tx.
    + apply tick_tx.
    + apply inactivity_tx.
    + apply delivered_tx.
    + apply handleFailed_tx.
    + apply (deadlines_tx cs t).
    + apply (deadlines_tx cs t).
    + apply (deadlines_tx cs t).
    + apply (deadlines_tx cs t).
Qed.

(** ** Writing *)

Lemma writeChunks_tx alone fuel waits data total mtu cs w :
  (length data < fuel)%nat → (length data ≤ total)%nat → (0 < mtu)%nat →
  env_ok (numbering alone) waits → ready w → TxInv cs w →
  ∃ n e more chunks w', writeChunksLocked fuel waits data total mtu w = (Ok ((total - length data + n)%nat, e), w') ∧
    TxInv (cs ++ more) w' ∧ (alone = true → more = Some <$> chunks) ∧ (n ≤ length data)%nat ∧ concat chunks = take n data.
Proof.
  revert waits data cs w. induction fuel as [|fuel IH]; intros waits data cs w Hf Ht Hm He Hr Hi; [lia|].
  cbn [writeChunksLocked]. destruct (Nat.eqb_spec (length data) 0) as [H0|H0].
  { exists 0%nat, None, [], [], w. rewrite app_nil_r. split; [|auto with lia]. rewrite H0. unfold mret, ste_ret. do 3 f_equal. lia. }
  assert (Hd : data ≠ []) by (by intros ->).
  pose proof (waitForWindow_env (numbering alone) (numbering_pres alone Now _) waits He w) as Hw.
  pose proof (waitForWindow_returns (numbering alone) waits He w Hr) as Hret.
  pose proof (waitForWindow_safe waits w) as Hsafe.
  destruct (waitForWindowSpace waits w) as [[ws|e|] w1] eqn:Ew; [| |done]; cbn [snd] in Hw;
    destruct (Hw cs Hi) as (m1 & Hi1 & Ha1).
  2: { rewrite (ste_step _ _ w (inr e) w1) by (unfold catch; by rewrite Ew).
       exists 0%nat, (Some e), m1, [], w1. rewrite Nat.add_0_r. split_and!; [done|done|done|lia|done]. }
  destruct (Hret _ _ Ew) as (Hws & Hr1 & _).
  rewrite (ste_step _ _ w (inl ws) w1) by (unfold catch; by rewrite Ew). cbv zeta.
  destruct (chunk_cases mtu data Hm Hd) as [Hl Htk].
  set (chunk := if (mtu <? length data)%nat then take mtu data else data) in *.
  assert (Hcl : (length chunk ≤ length data)%nat) by (rewrite <-Htk, length_take; lia).
  destruct (sendDataChunk_tx (cs ++ m1) chunk w1) as (w2 & E2 & Hi2); [intros Hc; rewrite Hc in Hl; cbn in Hl; lia|done|].
  pose proof (sendDataChunk_standing chunk w1) as Hst. rewrite E2 in Hst. cbn [snd] in Hst.
  rewrite (ste_step _ _ w1 None w2) by (unfold try; by rewrite E2). cbv iota.
  destruct (IH ws (drop (length chunk) data) ((cs ++ m1) ++ [Some chunk]) w2)
    as (n & e & m3 & chunks & w3 & E3 & Hi3 & Ha3 & Hn & Hc);
    [rewrite length_drop; lia..|done|done|by eapply ready_standing|done|].
  rewrite length_drop in *. exists (length chunk + n)%nat, e, (m1 ++ Some chunk :: m3), (chunk :: chunks), w3. rewrite E3. split_and!.
  - do 3 f_equal. lia.
  - by rewrite <-!app_assoc in Hi3.
  - intros Ha. by rewrite Ha1, Ha3.
  - lia.
  - cbn. rewrite Hc, <-Htk at 1. apply take_take_drop.
Qed.

(** [Write] numbers what it reports as written, and always returns. *)
Lemma Write_tx alone waits data cs w : env_ok (numbering alone) waits → TxInv cs w →
  ∃ n e more chunks w', Write waits data w = (Ok (n, e), w') ∧
    TxInv (cs ++ more) w' ∧ (alone = true → more = Some <$> chunks) ∧ (n ≤ length data)%nat ∧ concat chunks = take n data.
Proof.
  intros He Hi. unfold Write. set (pre := _ ← validateWriteStateLocked; handleChokeWaitLocked waits).
  assert (Hpre : Pres (numbering alone) pre ∧ Safe pre).
  { subst pre. unfold handleChokeWaitLocked, getc.
    pose proof (waitForChoke_env (numbering alone) (numbering_pres alone Now _) waits He). pose proof (numbering_pres alone Now _).
    split; [apply _|]. unfold validateWriteStateLocked, checkWriteDeadlineLocked, Now, getc. apply _. }
  destruct Hpre as [Hpre Hsafe]. specialize (Hpre w cs). specialize (Hsafe w).
  pose proof (write_prefix_returns (numbering alone) waits w He) as Hret. fold pre in Hret.
  destruct (pre w) as [[ws|e|] w1] eqn:Ep; [| |done]; cbn [snd] in Hpre;
    destruct (Hpre Hi) as (m1 & Hi1 & Ha1).
  - rewrite (ste_step _ _ w (inl ws) w1) by (unfold catch; by rewrite Ep).
    destruct (Hret _ _ Ep) as [Hws Hr1]. unfold writeDataLocked.
    destruct (negotiated_eq w1) as (m & Hneg & Hmtu). rewrite (ste_step _ _ _ _ _ Hneg), Hmtu.
    destruct (writeChunks_tx alone (S (length data)) ws data (length data) (mtu_of (conn w1)) (cs ++ m1) w1)
      as (n & e & m2 & chunks & w2 & E2 & Hi2 & Ha2 & H2); [lia|lia| |done..|].
    { unfold mtu_of. destruct (tx_mtu _ _ Hi1). case_if; zbool; lia. }
    rewrite Nat.sub_diag in E2. rewrite <-app_assoc in Hi2. exists n, e, (m1 ++ m2), chunks, w2.
    split_and!; [done|done| |apply H2..]. intros Ha. by rewrite Ha1, Ha2.
  - rewrite (ste_step _ _ w (inr e) w1) by (unfold catch; by rewrite Ep).
    exists 0%nat, (Some e), m1, [], w1. split_and!; [done|done|done|lia|done].
Qed.

(** ** Any run *)

Lemma persist_numbering : Pres (numbering false) persistTimerFired.
Proof.
  intros w cs Hi. destruct (choked (conn w)) eqn:H1; [destruct (closed (conn w)) eqn:H2;
    [|destruct (persistTimer (conn w)) as [t|] eqn:H3]|].
  2: { destruct (persist_probe cs w) as (m & w' & -> & _ & _ & Hi' & _); [by split_and!; [..|eexists]|done|].
       by eexists. }
  all: exists []; rewrite app_nil_r; (split; [|done]); unfold persistTimerFired; rewrite getc_step; cbn [id];
    rewrite ?H1, ?H2, ?H3; done.
Qed.

Lemma run_numbering ops w : numbering false w (conn_run ops w).
Proof.
  assert (Hk : ∀ A (m : M A), (∀ cs, Pres (keeps (TxInv cs)) m) → Pres (numbering false) m)
    by (intros; by apply numbering_pres).
  apply conn_run_kept; try (intros; apply Hk; apply _).
  - apply _.
  - apply Read_numbering.
  - intros waits data He w1 cs Hi. destruct (Write_tx false waits data cs w1 He Hi) as (n & e & more & ch & w' & -> & Hi' & _).
    by eexists.
  - apply persist_numbering.
  - intros t. apply Hk. intros cs. apply (deadlines_tx cs t).
  - intros t. apply Hk. intros cs. apply (deadlines_tx cs t).
  - intros t. apply Hk. intros cs. apply (deadlines_tx cs t).
  - intros t. apply Hk. intros cs. apply (deadlines_tx cs t).
Qed.

(** One writer: nothing else is written, and nothing probed, while it waits. *)
Definition single_writer (op : conn_op) : bool :=
  match op with OpWrite waits _ => forallb (forallb quiet) waits | _ => quiet op end.

(** A step, and what [Write] has reported as written. *)
Definition tx_step (s : World * bytes) (op : conn_op) : World * bytes :=
  let '(w, acc) := s in
  match op with
  | OpWrite waits data =>
      match Write (map conn_run waits) data w with
      | (Ok (n, _), w') => (w', acc ++ take n data)
      | (_, w') => (w', acc)
      end
  | _ => (conn_step op w, acc)
  end.
Definition tx_run (w : World) (ops : list conn_op) : World * bytes := foldl tx_step (w, []) ops.

(** [acc] is what the numbers given so far carry. *)
Definition wrote (acc : bytes) w : Prop := ∃ chunks, TxInv (Some <$> chunks) w ∧ concat chunks = acc.

Lemma tx_step_wrote op s : single_writer op = true → wrote s.2 s.1 → wrote (tx_step s op).2 (tx_step s op).1.
Proof.
  destruct s as [w acc]. cbn [fst snd]. intros Hop (chunks & Hi & Hc).
  assert (Hq : quiet op = true → wrote acc (conn_step op w)).
  { intros Hq. destruct (quiet_step op Hq w _ Hi) as (more & Hi' & Ha).
    rewrite (Ha eq_refl), app_nil_r in Hi'. by exists chunks. }
  destruct op; try (by apply Hq). cbn in Hop.
  destruct (Write_tx true (map conn_run waits) data (Some <$> chunks) w)
    as (n & e & more & new & w' & E & Hi' & Ha & _ & Hn); [|done|].
  { apply Forall_map. eapply Forall_when; [|exact Hop]. apply Forall_true. intros ops Hops.
    apply (run_kept (numbering true)). eapply Forall_when; [|exact Hops]. apply Forall_true. apply quiet_step. }
  cbn [tx_step]. rewrite E. exists (chunks ++ new). rewrite (Ha eq_refl), <-fmap_app in Hi'.
  split; [done|]. by rewrite concat_app, Hc, Hn.
Qed.

Lemma tx_run_wrote ops w : Forall (λ op, single_writer op = true) ops → wrote [] w →
  wrote (tx_run w ops).2 (tx_run w ops).1.
Proof.
  unfold tx_run. intros Hops. change w with ((w, [] : bytes).1) at 1. change ([] : bytes) with ((w, [] : bytes).2) at 1.
  generalize (w, [] : bytes). induction Hops as [|op ops Hop _ IH]; intros s Hs; [done|]. cbn [foldl].
  apply IH. by apply tx_step_wrote.
Qed.
End Tx.
