(* ===== verification/Transfer.v ===== *)
(** * A byte stream from one end to the other

    The sender of [ConnTx], a network that loses, repeats and reorders what the
    sender emits, and the receiver of [ConnRecvProps], put together: what the
    reader gets is what the writer has written.  And where that ends: the
    probes of the persist timer. *)

From S2P Require Import Prelude GoInt SeqNum I2CP Packet PacketProps PacketHeader Floats Crypto Runtime.
From S2P Require Import Conn ConnRecv ConnAck ConnLife ConnWrite ConnFrames ConnOps ConnExamples.
From S2P Require Import ConnRecvProps ConnWriteProps ConnTx.
From Stdlib Require Import Strings.Byte.

(** ** The network *)

Section Network.
Context {I : I2CP} {B : CircBuf} {RT : GoRuntime}.
Implicit Types w : World.

(** What happens at the receiving end: a datagram is delivered, or something
    of its own. *)
Inductive net_event :=
| NetDeliver (m : Message)
| NetLocal (ev : rx_event).

(** The connection processes what the datagram parses to. *)
Definition deliver_packet (m : Message) w : World :=
  match unmarshal_fresh (m_data m) with
  | Ok q => snd (processPacket q w)
  | _ => w
  end.

Definition net_step (s : World * bytes) (ev : net_event) : World * bytes :=
  match ev with
  | NetDeliver m => (deliver_packet m s.1, s.2)
  | NetLocal ev => rx_step s ev
  end.
Definition net_run w (evs : list net_event) : World * bytes := foldl net_step (w, []) evs.

(** Neither SYN, CLOSE nor RESET. *)
Definition plain_message (m : Message) : Prop := ∃ q, unmarshal_fresh (m_data m) = Ok q ∧ plain_flags q.

(** The network delivers nothing but what has been sent. *)
Definition net_ok (sent : list Message) (ev : net_event) : Prop :=
  match ev with
  | NetDeliver m => m ∈ sent ∧ plain_message m
  | NetLocal (EvData _ _) | NetLocal (EvAck _) => False
  | NetLocal _ => True
  end.

(** No step overflows the receive buffer. *)
Fixpoint net_fits (s : World * bytes) (evs : list net_event) : Prop :=
  match evs with
  | [] => True
  | ev :: evs =>
      let s' := net_step s ev in
      let b := recvBuf (conn s'.1) in
      buf_TotalWritten b <= buf_Size b ∧ net_fits s' evs
  end.

(** What the reader has read, and what waits for it. *)
Definition arrived (s : World * bytes) : bytes := s.2 ++ buf_Bytes (recvBuf (conn s.1)).

(** An established connection that has nothing in flight, with a packet size. *)
Record ready_to_send w : Prop := {
  rs_session : is_Some (session (conn w));
  rs_mtu : 0 < localMTU (conn w) ∧ 0 <= remoteMTU (conn w);
  rs_seq : 0 < sendSeq (conn w) < 4294967296;
  rs_flight : sentPackets (conn w) = ∅;
}.

(** Fewer messages than sequence numbers are left. *)
Definition numbers_left (base : Z) (sent : list Message) : Prop :=
  base + Z.of_nat (length sent) < 4294967296 ∧ Z.of_nat (length sent) < LIM.
(** The writes of one end, over the network, at the other. *)
Definition carries_stream ws wr : Prop := ∀ (ops : list conn_op) (evs : list net_event),
  Forall (λ op, single_writer op = true) ops →
  let '(ws', written) := tx_run ws ops in
  let sent := drop (length (outbox ws)) (outbox ws') in
  numbers_left (sendSeq (conn ws)) sent → Forall (net_ok sent) evs → net_fits (wr, []) evs →
  arrived (net_run wr evs) `prefix_of` written ∧
  ((∀ m, m ∈ sent → plain_message m → NetDeliver m ∈ evs) → arrived (net_run wr evs) = written).

End Network.

(** ** What arrives of a numbered stream *)

Section Reception.
Context {I : I2CP} {B : CircBuf} `{!CircBufLaws B} {RT : GoRuntime}.
Context (base : Z) (cs : list (option bytes)) (sent : list Message).
Context (Hbase : 0 < base < 4294967296) (Hfull : Forall (λ o, o ≠ Some []) cs).
Context (Hwords : base + Z.of_nat (length cs) <= 4294967296) (Hlim : Z.of_nat (length cs) <= LIM).
Context (Hlawful : Forall (λ m, lawful base cs (m_data m)) sent).
Implicit Types w : World.

Definition chunk_at (i : nat) : bytes := default [] (cs !! i ≫= id).

Lemma seqn_plain i : (i < length cs)%nat → seqn base i = base + Z.of_nat i.
Proof. intros H. apply u32_small. lia. Qed.

(** The event of [ConnRecvProps] that a network event is. *)
Definition as_rx (ev : net_event) : rx_event :=
  match ev with
  | NetLocal ev => ev
  | NetDeliver m =>
      match unmarshal_fresh (m_data m) with
      | Ok q => if SequenceNum q =? 0 then EvAck q else EvData (Z.to_nat (SequenceNum q - base)) q
      | _ => EvRetransmit
      end
  end.

(** A delivered message is an acknowledgement or a packet of the stream. *)
Lemma delivered_cases m : net_ok sent (NetDeliver m) →
  (∃ q, unmarshal_fresh (m_data m) = Ok q ∧ plain_flags q ∧ SequenceNum q = 0 ∧ as_rx (NetDeliver m) = EvAck q) ∨
  (∃ q i c, unmarshal_fresh (m_data m) = Ok q ∧ plain_flags q ∧ cs !! i = Some (Some c) ∧
     SequenceNum q = seqn base i ∧ Payload q = c ∧ as_rx (NetDeliver m) = EvData i q).
Proof.
  intros [Hm (q & Hq & Hp)]. rewrite Forall_forall in Hlawful. cbn [as_rx]. rewrite Hq.
  destruct (Hlawful m Hm q Hq Hp) as [Hz|(i & c & Hi & Hs & Hc)]; [left|right].
  - exists q. by rewrite Hz.
  - exists q, i, c. apply lookup_lt_Some in Hi as Hl. rewrite Hs, seqn_plain by done.
    destruct (Z.eqb_spec (base + Z.of_nat i) 0); [lia|]. split_and!; try done.
    f_equal. lia.
Qed.

Lemma as_rx_step s ev : net_ok sent ev → net_step s ev = rx_step s (as_rx ev).
Proof.
  destruct s as [w rd], ev as [m|ev]; [|done]. intros H. cbn [net_step fst snd]. unfold deliver_packet.
  destruct (delivered_cases m H) as [(q & -> & _ & _ & ->)|(q & i & c & -> & _ & _ & _ & _ & ->)]; done.
Qed.

Lemma as_rx_ok ev : net_ok sent ev → event_ok base chunk_at (as_rx ev).
Proof.
  destruct ev as [m|[]]; try done. intros H.
  destruct (delivered_cases m H) as [(q & Hq & Hp & Hz & ->)|(q & i & c & Hq & Hp & Hi & Hs & Hc & ->)]; [done|].
  apply lookup_lt_Some in Hi as Hl. assert (Hci : chunk_at i = c) by (unfold chunk_at; by rewrite Hi).
  cbn. unfold stream_packet. rewrite Hs, Hc, Hci. split_and!; [done|done| | |lia|apply Hp..].
  - intros ->. eapply Forall_lookup_1 in Hfull; [|done]. done.
  - rewrite seqn_plain by done. lia.
Qed.

Lemma as_rx_run evs s : Forall (net_ok sent) evs → foldl net_step s evs = foldl rx_step s (as_rx <$> evs).
Proof.
  intros H. revert s. induction H as [|ev evs Hev _ IH]; intros s; [done|]. cbn. by rewrite IH, as_rx_step.
Qed.

Lemma as_rx_fits evs s : Forall (net_ok sent) evs → net_fits s evs → never_overflows s (as_rx <$> evs).
Proof.
  intros H. revert s. induction H as [|ev evs Hev _ IH]; intros s; [done|]. cbn.
  rewrite as_rx_step by done. intros [H1 H2]. split; [done|]. by apply IH.
Qed.

Lemma arrivals_iff evs i : i ∈ arrivals evs ↔ ∃ q, EvData i q ∈ evs.
Proof.
  unfold arrivals. rewrite elem_of_list_to_set, list_elem_of_omap. split.
  - intros ([] & Hin & [= <-]). by eexists.
  - intros [q Hin]. by exists (EvData i q).
Qed.

(** What [ConnRecvProps] keeps over a run holds after any run over the network. *)
Lemma received w evs : rx_init base w → Forall (net_ok sent) evs → net_fits (w, []) evs →
  ∃ n, run_inv base chunk_at (net_run w evs) n (arrivals (as_rx <$> evs)).
Proof.
  intros Hw Hok Hfit. unfold net_run. rewrite as_rx_run by done.
  assert (Hevs : Forall (event_ok base chunk_at) (as_rx <$> evs))
    by (apply Forall_fmap; eapply Forall_impl; [exact Hok|apply as_rx_ok]).
  destruct (rx_run_inv base chunk_at (as_rx <$> evs) (w, []) 0 ∅) as [n Hn];
    [apply rx_init_inv; [lia|done]|done|by apply as_rx_fits|].
  exists n. by rewrite union_empty_r_L in Hn.
Qed.

(** The receiver has the payloads before the first one that has not been
    delivered, and that one is not [None]. *)
Lemma reception w evs : rx_init base w → Forall (net_ok sent) evs → net_fits (w, []) evs →
  ∃ n, arrived (net_run w evs) = concat (chunk_at <$> seq 0 n) ∧
    (∀ i, (i < n)%nat → is_Some (cs !! i ≫= id)) ∧
    ∀ m q, NetDeliver m ∈ evs → unmarshal_fresh (m_data m) = Ok q → SequenceNum q ≠ base + Z.of_nat n.
Proof.
  intros Hw Hok Hfit. destruct (received w evs Hw Hok Hfit) as [n Hn]. destruct Hn as [Hrx Hnext _ _ _ Hs]. exists n. split; [exact Hs|]. split.
  - intros i Hi. apply (ri_prefix _ _ _ _ _ Hrx) in Hi. apply arrivals_iff in Hi as [q Hq].
    apply list_elem_of_fmap in Hq as (ev & Hev & Hin). rewrite Forall_forall in Hok. specialize (Hok ev Hin).
    destruct ev as [m|[]]; try done.
    destruct (delivered_cases m Hok) as [(q' & _ & _ & _ & H)|(q' & j & c & _ & _ & Hj & _ & _ & H)].
    { by rewrite H in Hev. }
    rewrite H in Hev. injection Hev as -> ->. by rewrite Hj.
  - intros m q Hm Hq Hs'. apply Hnext. apply arrivals_iff. rewrite Forall_forall in Hok.
    destruct (delivered_cases m (Hok _ Hm)) as [(q' & H1 & _ & H2 & _)|(q' & j & c & H1 & _ & Hj & H2 & _ & H)].
    { assert (q' = q) as -> by congruence. lia. }
    assert (q' = q) as -> by congruence. apply lookup_lt_Some in Hj. rewrite seqn_plain in H2 by done.
    assert (j = n) as -> by lia. exists q. apply list_elem_of_fmap. by exists (NetDeliver m).
Qed.
End Reception.

(** ** End to end *)

Section EndToEnd.
Context {I : I2CP} `{!I2CPLaws I} {B : CircBuf} `{!CircBufLaws B} {RT : GoRuntime}.
Context (Hsend : ∀ n, send_ok n = true).
Implicit Types w : World.

Lemma sender_starts w : ready_to_send w → wrote (sendSeq (conn w)) (outbox w) 0 [] w.
Proof.
  intros [H1 H2 H3 H4]. exists []. split; [|done]. split; try done.
  - unfold seqn. cbn. by rewrite Z.add_0_r, u32_small by lia.
  - exists []. rewrite app_nil_r. split; [done|]. by split.
  - rewrite H4. intros s info Hs. by rewrite lookup_empty in Hs.
Qed.

Lemma concat_chunks (chunks : list bytes) more n : (n ≤ length chunks)%nat →
  concat (chunk_at ((Some <$> chunks) ++ more) <$> seq 0 n) = concat (take n chunks).
Proof.
  intros Hn. f_equal. apply list_eq. intros i. destruct (decide (i < n)%nat) as [Hi|Hi].
  - rewrite list_lookup_fmap, lookup_seq_lt, lookup_take_lt by done. cbn.
    destruct (lookup_lt_is_Some_2 chunks i) as [c Hc]; [lia|].
    unfold chunk_at. by rewrite lookup_app_l, list_lookup_fmap, Hc by (rewrite length_fmap; lia).
  - rewrite list_lookup_fmap, lookup_seq_ge, lookup_take_ge by lia. done.
Qed.

Lemma concat_take_prefix (chunks : list bytes) n : concat (take n chunks) `prefix_of` concat chunks.
Proof. rewrite <-(take_drop n chunks) at 2. rewrite concat_app. by eexists. Qed.

(** Of a stream whose numbers all carry chunks the receiver gets a prefix, and
    all of it if everything is delivered. *)
Lemma stream_arrives base chunks sent w evs :
  0 < base < 4294967296 → Forall (λ o, o ≠ Some []) (Some <$> chunks) → emitted base 0 (Some <$> chunks) sent →
  numbers_left base sent → rx_init base w → Forall (net_ok sent) evs → net_fits (w, []) evs →
  arrived (net_run w evs) `prefix_of` concat chunks ∧
  ((∀ m, m ∈ sent → plain_message m → NetDeliver m ∈ evs) → arrived (net_run w evs) = concat chunks).
Proof.
  intros Hb Hf [Hl Hcar Hlen] [Hn1 Hn2] Hr Hok Hfit.
  destruct (reception base (Some <$> chunks) sent) with (w := w) (evs := evs) as (n & -> & Hhave & Hmiss);
    [done|done|lia|lia|done..|]. rewrite length_fmap in Hlen.
  assert (Hnl : (n ≤ length chunks)%nat).
  { destruct (decide (n ≤ length chunks)%nat) as [|Hgt]; [done|]. exfalso.
    destruct (Hhave (length chunks)) as [c Hc]; [lia|]. by rewrite lookup_ge_None_2 in Hc by (rewrite length_fmap; lia). }
  rewrite <-(app_nil_r (Some <$> chunks)), concat_chunks by done. split; [apply concat_take_prefix|].
  intros Hall. rewrite take_ge; [done|]. destruct (decide (length chunks ≤ n)%nat) as [|Hlt]; [done|]. exfalso.
  destruct (lookup_lt_is_Some_2 chunks n) as [c Hcn]; [lia|].
  destruct (Hcar n c) as (m & q & Hm & Hq & Hfl & Hsq & _); [by rewrite list_lookup_fmap, Hcn|lia|].
  apply (Hmiss m q); [|done|rewrite Hsq; apply u32_small; lia].
  apply Hall; [done|]. exists q. split; [done|]. unfold plain_flags. by rewrite Hfl.
Qed.

Lemma TxInv_sent base old n0 cs w : TxInv base old n0 cs w →
  Forall (λ o, o ≠ Some []) cs ∧ emitted base n0 cs (drop (length old) (outbox w)).
Proof. intros [_ _ _ Hf (new & -> & He) _]. by rewrite drop_app_length. Qed.

Lemma established_carries ws wr :
  ready_to_send ws → rx_init (sendSeq (conn ws)) wr → carries_stream ws wr.
Proof.
  intros Hs Hr ops evs Hops.
  pose proof (tx_run_wrote _ _ _ Hsend ops ws Hops (sender_starts ws Hs)) as (chunks & Hi & Hc).
  destruct (tx_run ws ops) as [ws' written]. cbn [fst snd] in Hi, Hc. intros sent Hnum Hok Hfit. subst written.
  destruct (TxInv_sent _ _ _ _ _ Hi) as [Hf He]. by apply (stream_arrives (sendSeq (conn ws)) chunks sent); [apply Hs|..].
Qed.

(** A reliable byte stream.  Take two established connections such that
    the receiver expects the number the sender sends next.  The sender writes,
    one [Write] after the other, while packets of any kind arrive, timers fire
    and I2CP reports come in; every message it emits may be delivered late,
    more than once or not at all, between whatever the receiver does itself.
    As long as no number is used twice and the receive buffer does not
    overflow, what the receiver has read followed by what its buffer holds is
    a prefix of what the sender's [Write] calls reported as written; and it is
    all of it once everything sent has arrived. *)
Theorem reliable_stream ws wr (ops : list conn_op) (evs : list net_event) :
  ready_to_send ws → Forall (λ op, single_writer op = true) ops →
  rx_init (sendSeq (conn ws)) wr →
  let '(ws', written) := tx_run ws ops in
  let sent := drop (length (outbox ws)) (outbox ws') in
  numbers_left (sendSeq (conn ws)) sent → Forall (net_ok sent) evs → net_fits (wr, []) evs →
  arrived (net_run wr evs) `prefix_of` written ∧
  ((∀ m, m ∈ sent → plain_message m → NetDeliver m ∈ evs) → arrived (net_run wr evs) = written).
Proof. intros Hs Hops Hr. by apply (established_carries ws wr Hs Hr ops evs). Qed.

(** C36.  A probe adds a byte.  The packet the persist timer sends while the
    peer chokes the sender takes the next sequence number and carries one zero
    byte; to the receiver it is data.  When everything sent has arrived, the
    reader has what was written and a zero byte that nobody wrote. *)
Theorem probe_injects_byte ws wr (ops : list conn_op) (evs : list net_event) :
  ready_to_send ws → Forall (λ op, single_writer op = true) ops →
  rx_init (sendSeq (conn ws)) wr →
  let '(w1, written) := tx_run ws ops in
  probing w1 →
  let sent := drop (length (outbox ws)) (outbox (snd (persistTimerFired w1))) in
  numbers_left (sendSeq (conn ws)) sent → Forall (net_ok sent) evs → net_fits (wr, []) evs →
  (∀ m, m ∈ sent → plain_message m → NetDeliver m ∈ evs) →
  arrived (net_run wr evs) = written ++ [x00].
Proof.
  intros Hs Hops Hr. pose proof (tx_run_wrote _ _ _ Hsend ops ws Hops (sender_starts ws Hs)) as (chunks & Hi & Hc).
  destruct (tx_run ws ops) as [w1 written]. cbn [fst snd] in Hi, Hc. intros Hp. subst written.
  destruct (persist_probe _ _ _ Hsend _ w1 Hp Hi) as (m & w2 & E & _ & _ & Hi2 & _). rewrite E. cbn [snd].
  intros Hnum Hok Hfit. change [Some [x00]] with (Some <$> [[x00]]) in Hi2. rewrite <-fmap_app in Hi2.
  destruct (TxInv_sent _ _ _ _ _ Hi2) as [Hf He]. change [x00] with (concat [[x00]]). rewrite <-concat_app.
  eapply (stream_arrives (sendSeq (conn ws)) (chunks ++ [[x00]])); [apply Hs|done..].
Qed.

(** What the sender emits once a probe is lost: nothing with its number. *)
Lemma after_lost_probe base old chunks w1 later :
  TxInv base old 0 (Some <$> chunks) w1 → probing w1 →
  let w2 := snd (persistTimerFired w1) in let w3 := conn_run later w2 in
  let sent := drop (length old) (outbox w1) ++ drop (length (outbox w2)) (outbox w3) in
  ∃ more, let cs := (Some <$> chunks) ++ None :: more in
    Forall (λ o, o ≠ Some []) cs ∧ Forall (λ m, lawful base cs (m_data m)) sent ∧ (length cs ≤ S (length sent))%nat.
Proof.
  intros Hi Hp. destruct (persist_probe _ _ _ Hsend _ w1 Hp Hi) as (m & w2 & E & _ & _ & Hi2 & E1 & E2 & E3 & E4).
  rewrite E. cbn [snd]. cbv zeta. pose proof Hi as [H1 H2 H3 H4 _ H6].
  assert (Hn : TxInv base (outbox w2) (S (length chunks)) ((Some <$> chunks) ++ [None]) w2).
  { split; rewrite ?E1, ?E2, ?E3, ?E4; try done.
    - rewrite (tx_seq _ _ _ _ _ Hi2). by rewrite !length_app.
    - apply Forall_app_2; [done|]. by constructor.
    - exists []. rewrite app_nil_r. split; [done|]. split; [constructor| |rewrite length_app, length_fmap; cbn; lia].
      intros i c Hc Hic. apply lookup_lt_Some in Hc as Hl. rewrite length_app, length_fmap in Hl. cbn in Hl. lia.
    - intros s info Hs. eapply lawful_app, H6, Hs. }
  destruct (run_numbering _ _ _ Hsend later w2 _ Hn) as (more & Hi3 & _). exists more.
  rewrite <-app_assoc in Hi3. destruct (TxInv_sent _ _ _ _ _ Hi3) as [Hf [Hl _ Hlen]].
  destruct (TxInv_sent _ _ _ _ _ Hi) as [_ [Hl0 _ Hlen0]]. split_and!; [done| |].
  - apply Forall_app_2; [|done]. eapply Forall_impl; [exact Hl0|]. intros m'. apply lawful_app.
  - rewrite length_fmap in Hlen0. cbn [app] in Hlen. rewrite (length_app (drop (length old) (outbox w1))). lia.
Qed.

(** C35.  A lost probe stops the stream.  The probe is not kept for
    retransmission.  If the network loses it, then whatever the sender does
    afterwards, however often it writes and resends and whatever it is told,
    the receiver never gets beyond what had been written before the probe. *)
Theorem lost_probe_stalls ws wr (ops later : list conn_op) (evs : list net_event) :
  ready_to_send ws → Forall (λ op, single_writer op = true) ops →
  rx_init (sendSeq (conn ws)) wr →
  let '(w1, written) := tx_run ws ops in
  probing w1 →
  let w2 := snd (persistTimerFired w1) in
  let sent := drop (length (outbox ws)) (outbox w1) ++ drop (length (outbox w2)) (outbox (conn_run later w2)) in
  numbers_left (sendSeq (conn ws)) sent → Forall (net_ok sent) evs → net_fits (wr, []) evs →
  arrived (net_run wr evs) `prefix_of` written.
Proof.
  intros Hs Hops Hr. pose proof (tx_run_wrote _ _ _ Hsend ops ws Hops (sender_starts ws Hs)) as (chunks & Hi & Hc).
  destruct (tx_run ws ops) as [w1 written]. cbn [fst snd] in Hi, Hc. intros Hp. subst written.
  pose proof (after_lost_probe _ _ _ _ later Hi Hp) as (more & Hf & Hl & Hlen). intros w2 sent [Hn1 Hn2] Hok Hfit.
  change (Forall (λ m, lawful (sendSeq (conn ws)) ((Some <$> chunks) ++ None :: more) (m_data m)) sent) in Hl.
  change (length ((Some <$> chunks) ++ None :: more) ≤ S (length sent))%nat in Hlen.
  destruct (reception (sendSeq (conn ws)) ((Some <$> chunks) ++ None :: more) sent) with (w := wr) (evs := evs)
    as (n & -> & Hhave & _); [apply Hs|done|lia|lia|done..|].
  assert (Hnl : (n ≤ length chunks)%nat).
  { destruct (decide (n ≤ length chunks)%nat) as [|Hgt]; [done|]. exfalso.
    destruct (Hhave (length chunks)) as [c Hcc]; [lia|].
    by rewrite lookup_app_r, length_fmap, Nat.sub_diag in Hcc by (rewrite length_fmap; lia). }
  rewrite concat_chunks by done. apply concat_take_prefix.
Qed.
End EndToEnd.

(** ** Concrete runs *)

Section Examples.

(** A sender whose packets hold three bytes; a receiver with room for 16. *)
Definition sender_ex : World := updc (λ c, c <| remoteMTU := 3 |>) world_ex.
Definition receiver_ex : World := updc (λ c, c <| recvSeq := 500 |>) world_ex.

Lemma sender_ex_ready : ready_to_send sender_ex.
Proof. by split; [eexists|..]. Qed.
Lemma receiver_ex_init : rx_init (sendSeq (conn sender_ex)) receiver_ex.
Proof. by split. Qed.

(** Four bytes are written, an acknowledgement that chokes the sender arrives,
    the timers fire. *)
Definition choke_ex : @Packet ConcreteI2CP :=
  (base_Packet 9 7 0 499 FlagDelayRequested) <| OptionalDelay := SendDelayChoke |>.
Definition tx_ops : list conn_op :=
  [OpWrite [] [x61; x62; x63; x64]; OpIncoming true choke_ex; OpReceive; OpRetransmitTick; OpInactivityTick].
Lemma tx_ops_single : Forall (λ op, single_writer op = true) tx_ops.
Proof. by repeat constructor. Qed.

#[local] Abbreviation sent_ex w := (drop (length (outbox sender_ex)) (outbox w)).
Definition plainb (m : Message) : bool :=
  match unmarshal_fresh (m_data m) with
  | Ok q => negb (has_flag (Flags q) FlagSYN) && negb (has_flag (Flags q) FlagCLOSE) && negb (has_flag (Flags q) FlagRESET)
  | _ => false
  end.
Lemma plainb_plain m : plainb m = true → plain_message m.
Proof.
  unfold plainb, plain_message. destruct (unmarshal_fresh (m_data m)) as [q| |]; [|done..]. intros H. exists q.
  zbool. by split_and!.
Qed.

(** Everything is delivered in reverse order, then in order, then read. *)
Definition net_evs (sent : list Message) : list net_event :=
  (NetDeliver <$> reverse sent ++ sent) ++ [NetLocal (EvRead 10)].
Lemma net_evs_ok sent : forallb plainb sent = true → Forall (net_ok sent) (net_evs sent).
Proof.
  intros H. apply Forall_app_2; [|by constructor]. apply Forall_fmap, Forall_forall. intros m Hm.
  assert (Hin : m ∈ sent) by (apply elem_of_app in Hm as [Hm|Hm]; [by rewrite elem_of_reverse in Hm|done]).
  split; [done|]. apply plainb_plain. assert (Ha : Forall (λ m, plainb m = true) sent).
  { eapply Forall_when; [|exact H]. by apply Forall_true. } rewrite Forall_forall in Ha. by apply Ha.
Qed.
Lemma net_evs_all sent m : m ∈ sent → plain_message m → NetDeliver m ∈ net_evs sent.
Proof.
  intros Hm _. apply elem_of_app. left. apply list_elem_of_fmap. exists m. split; [done|].
  apply elem_of_app. by right.
Qed.

Definition tx_ex : World := (tx_run sender_ex tx_ops).1.
Lemma tx_ex_eq : tx_run sender_ex tx_ops = (tx_ex, [x61; x62; x63; x64]).
Proof. unfold tx_ex. rewrite (surjective_pairing (tx_run sender_ex tx_ops)) at 1. f_equal. Qed.

Ltac net_side := lazymatch goal with
  | |- numbers_left _ _ => split; vm_compute; reflexivity
  | |- Forall _ _ => apply net_evs_ok; vmeq
  | |- net_fits _ _ => vm_compute; repeat split; discriminate
  end.

Lemma reliable_stream_witness :
  arrived (net_run receiver_ex (net_evs (sent_ex tx_ex))) = [x61; x62; x63; x64].
Proof.
  pose proof (reliable_stream (RT:=ConcreteRuntime) (λ _, eq_refl) sender_ex receiver_ex tx_ops
    (net_evs (sent_ex tx_ex)) sender_ex_ready tx_ops_single receiver_ex_init) as H.
  rewrite tx_ex_eq in H. cbv beta iota zeta in H. refine (proj2 (H _ _ _) _); [net_side..|apply net_evs_all].
Defined.

#[local] Abbreviation probe_ex := (snd (persistTimerFired tx_ex)).
Lemma tx_ex_probing : probing tx_ex.
Proof. split_and!; [vmeq|vmeq|]. exists 0%nat. vmeq. Qed.

Lemma probe_injects_byte_witness :
  arrived (net_run receiver_ex (net_evs (sent_ex probe_ex))) = [x61; x62; x63; x64] ++ [x00].
Proof.
  pose proof (probe_injects_byte (RT:=ConcreteRuntime) (λ _, eq_refl) sender_ex receiver_ex tx_ops
    (net_evs (sent_ex probe_ex)) sender_ex_ready tx_ops_single receiver_ex_init) as H.
  rewrite tx_ex_eq in H. cbv beta iota zeta in H. refine (H tx_ex_probing _ _ _ _); [net_side..|apply net_evs_all].
Defined.

(** After the lost probe two more bytes are written and everything resent. *)
Definition later_ex : list conn_op :=
  [OpIncoming true ((base_Packet 9 7 0 501 FlagDelayRequested) <| OptionalDelay := 0 |>); OpReceive;
   OpWrite [] [x65; x66]; OpRetransmitTick].
#[local] Abbreviation sent_later :=
  (sent_ex tx_ex ++ drop (length (outbox probe_ex)) (outbox (conn_run later_ex probe_ex))).

Lemma lost_probe_stalls_witness :
  arrived (net_run receiver_ex (net_evs sent_later)) `prefix_of` [x61; x62; x63; x64].
Proof.
  pose proof (lost_probe_stalls (RT:=ConcreteRuntime) (λ _, eq_refl) sender_ex receiver_ex tx_ops later_ex
    (net_evs sent_later) sender_ex_ready tx_ops_single receiver_ex_init) as H.
  rewrite tx_ex_eq in H. cbv beta iota zeta in H. refine (H tx_ex_probing _ _ _); net_side.
Defined.
End Examples.
