(* ===== verification/Duplex.v ===== *)
(** * Both directions at once

    The two ends of a connection, each with whatever can happen to a
    connection at it: packets are queued and processed, timers fire, I2CP
    reports, either end closes, and one goroutine reads and writes, waiting
    where the methods wait.  What one end reads is what the other has written,
    in both directions. *)

From S2P Require Import Prelude GoInt SeqNum I2CP Packet PacketProps PacketHeader Floats Crypto Runtime.
From S2P Require Import Conn ConnRecv ConnAck ConnLife ConnWrite ConnFrames ConnOps ConnExamples.
From S2P Require Import ConnRecvProps ConnWriteProps ConnTx Transfer.
From Stdlib Require Import Strings.Byte.

(** ** The receive side under any operation *)

Section Receiving.
Context {I : I2CP} {B : CircBuf} `{!CircBufLaws B} {RT : GoRuntime}.
(** The stream's first number and its chunks. *)
Context (base : Z) (chunks : list bytes) (Hlim : Z.of_nat (length chunks) <= LIM).
Implicit Types w : World.
#[local] Abbreviation M := (STE World ConnError).
#[local] Abbreviation payload := (chunk_at (Some <$> chunks)).

(** A packet of the peer's that is not a SYN: a CLOSE or a RESET, a plain
    acknowledgement, or a chunk under its number. *)
Definition in_stream (q : Packet) : Prop :=
  has_flag (Flags q) FlagSYN = false ∧
  (plain_flags q → SequenceNum q = 0 ∨
    ∃ i c, chunks !! i = Some c ∧ SequenceNum q = seqn base i ∧ Payload q = c).

(** [got] has been read, [n] chunks have been delivered, those of [arr] have
    arrived; the buffer can hold the whole stream. *)
Record takes (got : bytes) (n : nat) (arr : gset nat) w : Prop := {
  tk_rx : RxInv base payload w n arr;
  tk_next : n ∉ arr;
  tk_exact : exact (recvBuf (conn w));
  tk_stream : got ++ buf_Bytes (recvBuf (conn w)) = concat (payload <$> seq 0 n);
  tk_known : ∀ i, i ∈ arr → (i < length chunks)%nat;
  tk_room : Z.of_nat (length (concat chunks)) <= buf_Size (recvBuf (conn w));
  tk_queue : Forall in_stream (recvChan (conn w));
  tk_state : state (conn w) ≠ StateSynRcvd;
}.
Definition receives (got : bytes) w : Prop := ∃ n arr, takes got n arr w.

Lemma concat_payload n : (n ≤ length chunks)%nat → concat (payload <$> seq 0 n) = concat (take n chunks).
Proof. intros H. pose proof (concat_chunks chunks [] n H) as E. by rewrite app_nil_r in E. Qed.

Lemma delivered_known w n arr : RxInv base payload w n arr → (∀ i, i ∈ arr → (i < length chunks)%nat) →
  (n ≤ length chunks)%nat.
Proof.
  intros Hi Hk. destruct n as [|n]; [lia|]. pose proof (Hk n (ri_prefix _ _ _ _ _ Hi n (Nat.lt_succ_diag_r n))). lia.
Qed.

Lemma receives_prefix got w : receives got w → got `prefix_of` concat chunks.
Proof.
  intros (n & arr & H). etransitivity; [|apply (concat_take_prefix chunks n)].
  rewrite <-concat_payload by (eapply delivered_known; apply H). rewrite <-(tk_stream _ _ _ _ H). by eexists.
Qed.

(** *** What leaves it alone *)

#[local] Hint Extern 1 (Pres (keeps (takes _ _ _)) (emodify _)) =>
  (apply pres_emodify; intros ? []; split; first [assumption | match goal with H : RxInv _ _ _ _ _ |- RxInv _ _ _ _ _ => by destruct H; split end | done]) : typeclass_instances.

Definition queue w : list Packet := recvChan (conn w).

Lemma takes_view {A} (m : M A) got n arr :
  Pres (same rx) m → Pres (same queue) m → Pres (keeps (takes got n arr)) m.
Proof.
  intros Hr Hq w [H1 H2 H3 H4 H5 H6 H7 H8]. specialize (Hr w). specialize (Hq w). unfold same, queue in *.
  apply rx_rest in Hr as H. destruct H as [E1 E2]. unfold rest in E1.
  split; rewrite ?E2; try done; [by eapply RxInv_rx|by rewrite Hq|congruence].
Qed.

#[global] Instance marshal_queue (pkt : Packet) : Pres (same queue) (marshal pkt).
Proof. unfold marshal. apply _. Qed.
#[global] Instance sendPacket_queue (pkt : Packet) : Pres (same queue) (sendPacketLocked pkt).
Proof. unfold_send. apply _. Qed.
#[global] Instance sendAck_queue : Pres (same queue) sendAckLocked.
Proof. unfold_send. apply _. Qed.
#[global] Instance sendChoke_queue : Pres (same queue) sendChokeSignalLocked.
Proof. unfold_send. apply _. Qed.
#[global] Instance sendUnchoke_queue : Pres (same queue) sendUnchokeSignalLocked.
Proof. unfold_send. apply _. Qed.
#[global] Instance sendClose_queue : Pres (same queue) (sendCloseLocked : M ()).
Proof. unfold_send. apply _. Qed.
#[global] Instance manageChoke_queue : Pres (same queue) manageChokeStateLocked.
Proof. unfold manageChokeStateLocked, updateChokeStateForUsage, calculateBufferUsage, getc, setc. apply _. Qed.
#[global] Instance deliver_queue fuel : Pres (same queue) (deliverBufferedPackets fuel).
Proof.
  induction fuel as [|fuel IH]; cbn [deliverBufferedPackets];
    unfold writeRecvBuf, removeFromNACKListLocked, getc, setc; apply _.
Qed.
#[global] Instance addMissing_queue n i : Pres (same queue) (addMissingSequencesFrom i n).
Proof.
  revert i. induction n as [|n IH]; intros i; cbn [addMissingSequencesFrom];
    unfold shouldAddToNACKListLocked, getc, setc; apply _.
Qed.
#[global] Instance handleData_queue (pkt : Packet) : Pres (same queue) (handleDataLocked pkt).
Proof.
  unfold handleDataLocked, processInSequencePacketLocked, handleOutOfOrderPacketLocked,
    handleBufferFullLocked, updateNACKListLocked, calculateSequenceGapLocked,
    addMissingSequencesToNACKListLocked, deliverBufferedPacketsLocked, removeFromNACKListLocked,
    writeRecvBuf, recvBroadcast, getc, setc. apply _.
Qed.
#[global] Instance retransmit_queue s : Pres (same queue) (retransmitPacketLocked s).
Proof. unfold retransmitPacketLocked, SendMessage, Now, getc, setc. apply _. Qed.
#[global] Instance handleNACKs_queue nacks b : Pres (same queue) (handleNACKs nacks b).
Proof.
  revert b. induction nacks as [|x nacks IH]; intros b; cbn [handleNACKs]; [apply _|].
  unfold reduceCongestionWindowLocked, getc, setc. apply _.
Qed.
#[global] Instance handleAck_queue (pkt : Packet) : Pres (same queue) (handleAckLocked pkt).
Proof.
  unfold handleAckLocked, handleNACKsLocked, handleOptionalDelayLocked, startPersistTimerLocked,
    stopPersistTimerLocked, cleanupAckedPacketsLocked, measureRTTFromAck, updateRTTEstimate,
    calculateRTO, updateCongestionWindow, sendBroadcast, go, Now, getc, setc. apply _.
Qed.
#[global] Instance retransmitTimedOut_queue l : Pres (same queue) (retransmitTimedOutPacketsLocked l).
Proof. induction l as [|x l IH]; cbn [retransmitTimedOutPacketsLocked]; [apply _|]. unfold getc. apply _. Qed.
#[global] Instance checkRetransmissions_queue : Pres (same queue) checkRetransmissions.
Proof.
  unfold checkRetransmissions, findTimedOutPacketsLocked, applyExponentialBackoffLocked, range_keys,
    Now, getc, setc. apply _.
Qed.
#[global] Instance checkInactivity_queue : Pres (same queue) checkInactivity.
Proof. unfold checkInactivity, Now, getc, setc. apply _. Qed.
#[global] Instance sendDataChunk_queue chunk : Pres (same queue) (sendDataChunk chunk).
Proof. unfold sendDataChunk, getResendDelaySeconds, getc, setc. apply _. Qed.
#[global] Instance handleMessageDelivered_queue s : Pres (same queue) (handleMessageDelivered s).
Proof. unfold handleMessageDelivered, getc, setc. apply _. Qed.
#[global] Instance handleMessageFailed_queue s r : Pres (same queue) (handleMessageFailed s r).
Proof. unfold handleMessageFailed, sendViaI2CP, SendMessage, getc, setc. apply _. Qed.
#[global] Instance postRead_queue : Pres (same queue) handlePostReadActionsLocked.
Proof.
  unfold handlePostReadActionsLocked, deliverBufferedPacketsLocked, calculateBufferUsage, getc, setc. apply _.
Qed.

#[local] Instance sendClose_takes got n arr : Pres (keeps (takes got n arr)) (sendCloseLocked : M ()).
Proof. apply takes_view; [unfold_send; apply _|apply _]. Qed.
#[local] Instance handleClose_takes got n arr (pkt : Packet) : Pres (keeps (takes got n arr)) (handleCloseLocked pkt).
Proof. unfold handleCloseLocked, setState, recvBroadcast, getc, setc. apply _. Qed.
#[local] Instance handleReset_takes got n arr (pkt : Packet) : Pres (keeps (takes got n arr)) (handleResetLocked pkt).
Proof. unfold handleResetLocked, setState, recvBroadcast, getc, setc. apply _. Qed.
#[local] Instance Close_takes got n arr : Pres (keeps (takes got n arr)) Close.
Proof.
  unfold Close, sendCloseIfEstablished, cleanupConnectionLocked, cacheTCB, UnregisterConnection,
    limiterClosed, stopPersistTimerLocked, wakeBlockedGoroutines, recvBroadcast, sendBroadcast,
    setState, Now, getc, setc. apply _.
Qed.
#[local] Instance tick_takes got n arr : Pres (keeps (takes got n arr)) retransmitTimerTick.
Proof. unfold retransmitTimerTick. pose proof (takes_view checkRetransmissions got n arr _ _). apply _. Qed.
Lemma deadlines_takes got n arr t :
  Pres (keeps (takes got n arr)) (SetDeadline t) ∧ Pres (keeps (takes got n arr)) (SetReadDeadline t) ∧
  Pres (keeps (takes got n arr)) (SetWriteDeadline t) ∧ Pres (keeps (takes got n arr)) (SetInactivityTimeout t).
Proof.
  unfold SetDeadline, SetReadDeadline, SetWriteDeadline, SetInactivityTimeout, recvBroadcast, sendBroadcast, getc, setc.
  split_and!; apply _.
Qed.

(** *** Packets *)

Lemma payload_at i c : chunks !! i = Some c → payload i = c.
Proof. intros H. unfold chunk_at. by rewrite list_lookup_fmap, H. Qed.

Lemma takes_data got n arr w (pkt : Packet) i c : takes got n arr w → chunks !! i = Some c →
  SequenceNum pkt = seqn base i → Payload pkt = c → receives got (snd (handleDataLocked pkt w)).
Proof.
  intros [H1 H2 H3 H4 H5 H6 H7 H8] Hi Hs Hp. apply lookup_lt_Some in Hi as Hl.
  pose proof (handleData_queue pkt w) as Hq.
  destruct (handleData_spec base payload w n arr pkt i) as (n' & w' & E & Hle & Hi' & Hn' & Hr' & Hb');
    [done|done|lia|by split; [|rewrite (payload_at i c)]|].
  rewrite E in Hq |- *. cbn [snd] in *. unfold same, queue in Hq.
  assert (Hk : ∀ j, j ∈ {[i]} ∪ arr → (j < length chunks)%nat).
  { intros j [->%elem_of_singleton|Hj]%elem_of_union; [done|by apply H5]. }
  pose proof (delivered_known _ _ _ Hi' Hk) as Hn.
  assert (Hcat : concat (payload <$> seq 0 n) ++ concat (payload <$> seq n (n' - n)) = concat (payload <$> seq 0 n')).
  { rewrite <-concat_app, <-fmap_app, <-seq_app. do 3 f_equal. lia. }
  destruct (writes_size (payload <$> seq n (n' - n)) (recvBuf (conn w))) as [Hsz Htw].
  assert (Hfit : buf_TotalWritten (writes (recvBuf (conn w)) (payload <$> seq n (n' - n))) <= buf_Size (recvBuf (conn w))).
  { rewrite Htw. unfold exact in H3. rewrite H3. apply (f_equal length) in Hcat. rewrite (concat_payload n') in Hcat by done.
    rewrite <-H4, !length_app in Hcat. pose proof (prefix_length _ _ (concat_take_prefix chunks n')). lia. }
  destruct (writes_exact _ _ H3 Hfit) as [Hby Hex].
  exists n', ({[i]} ∪ arr). split; rewrite ?Hb', ?Hsz; try done.
  - rewrite Hby, app_assoc, H4. exact Hcat.
  - by rewrite Hq.
  - unfold rest in Hr'. congruence.
Qed.

Lemma process_receives got (q : Packet) : in_stream q → Pres (keeps (receives got)) (processPacket q).
Proof.
  intros [Hsyn Hq] w (n & arr & H). rewrite processPacket_eq.
  set (w1 := updc (λ c, c <| lastActivity := clock (ticks w) |>) (w <| ticks ::= S |>)).
  assert (H1 : takes got n arr w1) by (by destruct H as [[] ? ? ? ? ? ? ?]; repeat split). clearbody w1. clear w H.
  pose proof (tk_state _ _ _ _ H1) as Hst. unfold dispatchPacketByFlags. rewrite getc_step. cbn [id]. cbv zeta.
  rewrite Hsyn, bool_decide_false by done. cbn [andb negb].
  assert (Hk : ∀ m : M (), Pres (keeps (takes got n arr)) m → receives got (snd (m w1))).
  { intros m Hm. exists n, arr. by apply Hm. }
  destruct (has_flag (Flags q) FlagCLOSE) eqn:Hc; [apply Hk, _|].
  destruct (has_flag (Flags q) FlagRESET) eqn:Hr; [apply Hk, _|]. rewrite andb_true_r.
  destruct (Z.eqb_spec (SequenceNum q) 0) as [|Hz]; [apply Hk, takes_view; apply _|].
  case_if; [|by exists n, arr].
  destruct Hq as [|(i & c & Hi & Hs & Hp)]; [by split|done|]. by apply (takes_data got n arr w1 q i c).
Qed.

(** *** Operations *)

Lemma receives_pres {A} (m : M A) : (∀ got n arr, Pres (keeps (takes got n arr)) m) →
  ∀ got, Pres (keeps (receives got)) m.
Proof. intros H got w (n & arr & Hw). exists n, arr. by apply H. Qed.

Lemma receive_receives got : Pres (keeps (receives got)) receiveLoopStep.
Proof.
  intros w (n & arr & H). unfold receiveLoopStep. rewrite getc_step. cbn [id].
  destruct (recvChan (conn w)) as [|q qs] eqn:E; [by exists n, arr|]. rewrite setc_step.
  pose proof (tk_queue _ _ _ _ H) as Hq. rewrite E in Hq. apply Forall_cons in Hq as [Hq Hqs].
  set (w1 := updc _ w). assert (H1 : receives got w1).
  { exists n, arr. destruct H as [[] ? ? ? ? ? ? ?]. by repeat split. }
  pose proof (process_receives got q Hq) as Hp.
  assert (Hm : Pres (keeps (receives got)) (_ ← try (processPacket q); mret true)) by apply _. by apply Hm.
Qed.

Lemma incoming_receives got pick (q : Packet) : in_stream q →
  Pres (keeps (receives got)) (handleIncomingPacket pick q).
Proof.
  intros Hq w (n & arr & H). exists n, arr. unfold handleIncomingPacket. rewrite getc_step. cbn [id].
  repeat case_if; try done. rewrite setc_eq. destruct H as [[] ? ? ? ? ? ? ?]. repeat split; try done.
  cbn. apply Forall_app. by split; [|constructor].
Qed.

(** What a step that reads nothing does. *)
Definition passes w w' : Prop := ∀ got, receives got w → receives got w'.
#[global] Instance passes_preorder : PreOrder passes.
Proof. split; [by intros w got|]. intros w1 w2 w3 H1 H2 got H. by apply H2, H1. Qed.
Lemma passes_view {A} (m : M A) : Pres (same rx) m → Pres (same queue) m → Pres passes m.
Proof. intros Hr Hq w got. apply receives_pres. intros ? n arr. by apply takes_view. Qed.
#[local] Instance Now_passes : Pres passes Now.
Proof. apply passes_view; unfold Now; apply _. Qed.

Lemma Write_passes waits data : env_ok passes waits → Pres passes (Write waits data).
Proof.
  apply Write_env; [apply _..|]. intros chunk w _ _. apply (passes_view (sendDataChunk chunk)); apply _.
Qed.

(** What [Read] returns comes off the front of what has not been read. *)
Lemma Read_receives waits k got w : env_ok passes waits → receives got w →
  match Read waits k w with
  | (Ok (bs, _), w') => receives (got ++ bs) w' ∧ (length bs ≤ k)%nat
  | (_, w') => receives got w'
  end.
Proof.
  intros He Hw. unfold Read. set (pre := _ ← validateReadStateLocked; _).
  assert (Hpre : Pres passes pre).
  { subst pre. pose proof (waitForReadData_env passes Now_passes waits He). unfold validateReadStateLocked, getc. apply _. }
  specialize (Hpre w got Hw). unfold try. unfold mbind at 1, ste_bind at 1.
  destruct (pre w) as [[[]|e|] w1] eqn:Ep; cbn [snd] in Hpre; [| |done].
  2: { split; [by rewrite app_nil_r|cbn; lia]. }
  destruct Hpre as (n & arr & H). pose proof H as [H1 H2 H3 H4 H5 H6 H7 H8].
  assert (Hf : buf_TotalWritten (recvBuf (conn w1)) <= buf_Size (recvBuf (conn w1))).
  { unfold exact in H3. rewrite H3. apply (f_equal length) in H4. rewrite concat_payload, length_app in H4
      by (by eapply delivered_known). pose proof (prefix_length _ _ (concat_take_prefix chunks n)). lia. }
  destruct (consume_spec k w1 H3 Hf) as (b' & Ec & Hb' & Hx & Hs). rewrite (ste_step _ _ _ _ _ Ec). cbv iota beta.
  set (w2 := updc _ w1). assert (Hi2 : RxInv base payload w2 n arr) by by apply RxInv_buf.
  destruct (postRead_spec base payload w2 n arr Hi2 H2) as (w3 & E3 & Hr). rewrite (ste_step _ _ _ _ _ E3).
  split; [|rewrite length_take; lia]. pose proof (postRead_queue w2) as Hq. rewrite E3 in Hq. unfold same, queue in Hq.
  apply rx_rest in Hr as H'. destruct H' as [E1 E2]. exists n, arr. unfold rest in E1. cbn [snd] in Hq.
  split; rewrite ?E2; try done.
  - by eapply RxInv_rx.
  - cbn. by rewrite Hb', <-app_assoc, take_drop.
  - cbn. by rewrite Hs.
  - by rewrite Hq.
  - assert (state (conn w3) = state (conn w1)) as -> by (by injection E1). done.
Qed.
End Receiving.

(** ** One end *)

(** What the goroutine that uses the connection sees. *)
Inductive net_call :=
| CRead (k : nat) (bs : bytes) (e : option ConnError)
| CWrite (data : bytes) (n : nat) (e : option ConnError)
| CSetReadDeadline (t : Z)
| CClose.

Definition bytes_read (log : list net_call) : bytes :=
  flat_map (λ c, match c with CRead _ bs _ => bs | _ => [] end) log.
Definition bytes_written (log : list net_call) : bytes :=
  flat_map (λ c, match c with CWrite data n _ => take n data | _ => [] end) log.

Section Ends.
Context {I : I2CP} {B : CircBuf} {RT : GoRuntime}.
Implicit Types w : World.

(** A step at one end, and the call it is, if it is one. *)
Definition end_step (s : World * list net_call) (op : conn_op) : World * list net_call :=
  let '(w, log) := s in
  match op with
  | OpRead waits k =>
      match Read (map conn_run waits) k w with
      | (Ok (bs, e), w') => (w', log ++ [CRead k bs e])
      | (_, w') => (w', log)
      end
  | OpWrite waits data =>
      match Write (map conn_run waits) data w with
      | (Ok (n, e), w') => (w', log ++ [CWrite data n e])
      | (_, w') => (w', log)
      end
  | OpSetReadDeadline t => (conn_step op w, log ++ [CSetReadDeadline t])
  | OpClose => (conn_step op w, log ++ [CClose])
  | _ => (conn_step op w, log)
  end.
Definition end_run w (ops : list conn_op) : World * list net_call := foldl end_step (w, []) ops.

(** Neither a read nor a write nor the persist timer. *)
Definition idle (op : conn_op) : bool :=
  match op with OpRead _ _ | OpWrite _ _ | OpPersistTick => false | _ => true end.
(** One goroutine reads and writes; the persist timer does not fire. *)
Definition sequential (op : conn_op) : bool :=
  match op with
  | OpRead waits _ | OpWrite waits _ => forallb (forallb idle) waits
  | _ => idle op
  end.

(** The packets an operation brings. *)
Fixpoint queued (op : conn_op) : list Packet :=
  match op with
  | OpIncoming _ q => [q]
  | OpRead waits _ | OpWrite waits _ => flat_map (flat_map queued) waits
  | _ => []
  end.

(** The packet is one of the messages sent, and not a SYN. *)
Definition came_from (sent : list Message) (q : Packet) : Prop :=
  has_flag (Flags q) FlagSYN = false ∧ ∃ m, m ∈ sent ∧ unmarshal_fresh (m_data m) = Ok q.

Definition sent_by w (ops : list conn_op) : list Message :=
  drop (length (outbox w)) (outbox (end_run w ops).1).

(** An end of an established connection that has used its stream for nothing
    and whose peer sends [base] next. *)
Record joined w (base : Z) : Prop := {
  jn_send : ready_to_send w;
  jn_recv : rx_init base w;
  jn_queue : recvChan (conn w) = [];
}.

(** [n] bytes need fewer than 2^31 packets and fit the receive buffer. *)
Definition room_for (n : nat) w : Prop := Z.of_nat n <= LIM ∧ Z.of_nat n <= buf_Size (recvBuf (conn w)).

(** *** The send side *)

Lemma idle_quiet op : idle op = true → quiet op = true.
Proof. by destruct op. Qed.
Lemma idles_quiet (waits : list (list conn_op)) :
  forallb (forallb idle) waits = true → forallb (forallb quiet) waits = true.
Proof.
  rewrite !forallb_forall. intros H ops Hops. specialize (H ops Hops). rewrite forallb_forall in *.
  intros op Hop. by apply idle_quiet, H.
Qed.
Lemma sequential_single op : sequential op = true → single_writer op = true.
Proof. destruct op; try done; apply idles_quiet. Qed.

Lemma bytes_written_app l1 l2 : bytes_written (l1 ++ l2) = bytes_written l1 ++ bytes_written l2.
Proof. apply flat_map_app. Qed.
Lemma bytes_read_app l1 l2 : bytes_read (l1 ++ l2) = bytes_read l1 ++ bytes_read l2.
Proof. apply flat_map_app. Qed.

Lemma end_step_tx s op :
  tx_step (s.1, bytes_written s.2) op = ((end_step s op).1, bytes_written (end_step s op).2).
Proof.
  destruct s as [w log], op; cbn [tx_step end_step fst snd]; try done; try (rewrite bytes_written_app; cbn; by rewrite app_nil_r).
  - cbn [conn_step]. change (λ ops w, fold_left _ ops w) with conn_run.
    destruct (Read _ _ _) as [[[bs e]|e|] w']; cbn; [|done..]. rewrite bytes_written_app. cbn. by rewrite app_nil_r.
  - destruct (Write _ _ _) as [[[n e]|e|] w']; cbn; [|done..]. rewrite bytes_written_app. cbn. by rewrite app_nil_r.
Qed.

Lemma end_run_tx w ops : tx_run w ops = ((end_run w ops).1, bytes_written (end_run w ops).2).
Proof.
  unfold tx_run, end_run. change (w, []) with ((w, [] : list net_call).1, bytes_written (w, [] : list net_call).2) at 1.
  generalize (w, [] : list net_call). induction ops as [|op ops IH]; intros s; [done|].
  cbn [foldl]. by rewrite end_step_tx, IH.
Qed.

(** *** The receive side *)

Section Stream.
Context `{!CircBufLaws B}.
Context (base : Z) (chunks : list bytes) (Hlim : Z.of_nat (length chunks) <= LIM).
#[local] Abbreviation stream := (in_stream base chunks).
#[local] Abbreviation pass := (passes base chunks).

Lemma idle_passes op : idle op = true → Forall stream (queued op) → ∀ w, pass w (conn_step op w).
Proof.
  intros Hi Hq w. destruct op; try done; cbn [conn_step queued] in *.
  - apply Forall_cons in Hq as [Hq _]. intros got. by apply incoming_receives.
  - intros got. by apply receive_receives.
  - intros got. apply receives_pres. intros. apply Close_takes.
  - intros got. apply receives_pres. intros. apply tick_takes.
  - apply (passes_view _ _ checkInactivity); apply _.
  - apply (passes_view _ _ (handleMessageDelivered seqNum)); apply _.
  - apply (passes_view _ _ (handleMessageFailed seqNum retriable)); apply _.
  - intros got. apply receives_pres. intros got' n arr. exact (proj1 (deadlines_takes base chunks got' n arr t)).
  - intros got. apply receives_pres. intros got' n arr. exact (proj1 (proj2 (deadlines_takes base chunks got' n arr t))).
  - intros got. apply receives_pres. intros got' n arr. exact (proj1 (proj2 (proj2 (deadlines_takes base chunks got' n arr t)))).
  - intros got. apply receives_pres. intros got' n arr. exact (proj2 (proj2 (proj2 (deadlines_takes base chunks got' n arr t)))).
Qed.

Lemma waits_pass (waits : list (list conn_op)) :
  forallb (forallb idle) waits = true → Forall stream (flat_map (flat_map queued) waits) →
  env_ok pass (map conn_run waits).
Proof.
  intros Hi Hq. apply Forall_map, Forall_forall. intros ops Hops w.
  rewrite forallb_forall in Hi. specialize (Hi ops). rewrite <-list_elem_of_In in Hi. specialize (Hi Hops).
  rewrite forallb_forall in Hi. rewrite Forall_forall in Hq. apply (run_kept pass). apply Forall_forall.
  intros op Hop. apply idle_passes; [apply Hi; by apply list_elem_of_In|]. apply Forall_forall. intros q Hin.
  apply Hq. apply list_elem_of_In, in_flat_map. exists ops. split; [by apply list_elem_of_In|].
  apply in_flat_map. exists op. split; by apply list_elem_of_In.
Qed.

Lemma end_step_receives s op : sequential op = true → Forall stream (queued op) →
  receives base chunks (bytes_read s.2) s.1 → receives base chunks (bytes_read (end_step s op).2) (end_step s op).1.
Proof.
  destruct s as [w log]. cbn [fst snd]. intros Hop Hq Hr.
  assert (Hidle : idle op = true → receives base chunks (bytes_read log) (conn_step op w)).
  { intros Hi. by apply idle_passes. }
  destruct op; cbn [end_step fst snd]; try (by apply Hidle); try (rewrite bytes_read_app, app_nil_r; by apply Hidle).
  - pose proof (Read_receives base chunks (map conn_run waits) k (bytes_read log) w (waits_pass _ Hop Hq) Hr) as H.
    destruct (Read _ _ _) as [[[bs e]|e|] w']; [|done..]. cbn [fst snd]. rewrite bytes_read_app. cbn.
    rewrite app_nil_r. apply H.
  - pose proof (Write_passes base chunks (map conn_run waits) data (waits_pass _ Hop Hq) w _ Hr) as H.
    destruct (Write _ _ _) as [[[n e]|e|] w']; [|done..]. cbn [fst snd] in *. by rewrite bytes_read_app, app_nil_r.
Qed.

Lemma end_run_receives s ops : Forall (λ op, sequential op = true) ops → Forall stream (flat_map queued ops) →
  receives base chunks (bytes_read s.2) s.1 →
  receives base chunks (bytes_read (foldl end_step s ops).2) (foldl end_step s ops).1.
Proof.
  revert s. induction ops as [|op ops IH]; intros s Hs Hq Hr; [done|].
  apply Forall_cons in Hs as [Hop Hs]. cbn in Hq. apply Forall_app in Hq as [Hq1 Hq2]. cbn [foldl].
  apply IH; [done..|]. by apply end_step_receives.
Qed.

Lemma joined_receives w : is_u32 base → joined w base → Z.of_nat (length (concat chunks)) <= buf_Size (recvBuf (conn w)) →
  receives base chunks [] w.
Proof.
  intros Hb [_ Hr Hq] Hroom. exists 0%nat, ∅.
  destruct (rx_init_inv base (chunk_at (Some <$> chunks)) w Hb Hr) as [H1 H2 H3 H4 _ H5].
  cbn [fst snd] in *. split; try done.
  - by rewrite Hq.
  - unfold rest in H3. congruence.
Qed.
End Stream.

(** ** The two ends *)

Section Both.
Context `{!I2CPLaws I} `{!CircBufLaws B}.

Lemma one_way wa wb base opsA opsB : (∀ n, send_ok n = true) →
  joined wa base → joined wb (sendSeq (conn wa)) →
  Forall (λ op, sequential op = true) opsA → Forall (λ op, sequential op = true) opsB →
  Forall (came_from (sent_by wa opsA)) (flat_map queued opsB) →
  room_for (length (bytes_written (end_run wa opsA).2)) wb →
  bytes_read (end_run wb opsB).2 `prefix_of` bytes_written (end_run wa opsA).2.
Proof.
  intros Hsend Ha Hb Hsa Hsb Hq [Hr1 Hr2].
  assert (Hops : Forall (λ op, single_writer op = true) opsA) by (eapply Forall_impl; [done|apply sequential_single]).
  pose proof (tx_run_wrote _ _ _ Hsend opsA wa Hops (sender_starts wa (jn_send _ _ Ha))) as (chunks & Hi & Hc).
  rewrite end_run_tx in Hi, Hc. cbn [fst snd] in Hi, Hc. destruct (TxInv_sent _ _ _ _ _ Hi) as [Hf [Hl _ _]].
  assert (Hne : Forall (λ c, c ≠ []) chunks).
  { apply Forall_forall. intros c Hin ->. rewrite Forall_forall in Hf.
    by apply (Hf (Some [])); [apply list_elem_of_fmap; exists []|]. }
  assert (Hlen : (length chunks ≤ length (concat chunks))%nat).
  { clear -Hne. induction Hne as [|[|x c] cs ?? IH]; cbn; [done..|]. rewrite length_app. lia. }
  pose proof (rs_seq _ (jn_send _ _ Ha)) as Hbase. rewrite <-Hc in *.
  apply (receives_prefix (sendSeq (conn wa)) chunks) with (w := (end_run wb opsB).1).
  apply end_run_receives; try done; try lia.
  - eapply Forall_impl; [exact Hq|]. intros q [Hs (m & Hm & Hu)]. split; [done|]. intros Hp.
    rewrite Forall_forall in Hl. destruct (Hl m Hm q Hu Hp) as [|(i & c & Hci & H)]; [by left|].
    right. exists i, c. split; [|done]. rewrite list_lookup_fmap in Hci. by destruct (chunks !! i); simplify_eq/=.
  - apply joined_receives; [lia|done..].
Qed.

(** C1.  Both directions at once.  Take the two ends of an established
    connection, each expecting the number the other sends next.  At each end
    one goroutine reads and writes, waiting where [Read] and [Write] wait,
    while packets are queued and processed, the retransmission and the
    keepalive timer fire, I2CP reports on messages and either end closes, in
    any order; every packet an end takes was sent by the other, which the
    network may have lost, delayed, repeated or reordered.  What each end has
    read is then a prefix of what the other's [Write] calls have reported as
    written, under three conditions: the persist timer does not fire (its
    probes add bytes to the stream, see [Transfer.probe_injects_byte]); I2CP
    accepts every message (a chunk it refuses leaves its number to the next);
    and all the bytes one end writes are fewer than 2^31 and fit the receive
    buffer of the other (which overwrites what does not fit, see
    [Acks.overflow_is_silent]). *)
Theorem full_duplex wa wb (opsA opsB : list conn_op) :
  (∀ n, send_ok n = true) →
  joined wa (sendSeq (conn wb)) → joined wb (sendSeq (conn wa)) →
  Forall (λ op, sequential op = true) opsA → Forall (λ op, sequential op = true) opsB →
  Forall (came_from (sent_by wa opsA)) (flat_map queued opsB) →
  Forall (came_from (sent_by wb opsB)) (flat_map queued opsA) →
  let logA := (end_run wa opsA).2 in let logB := (end_run wb opsB).2 in
  room_for (length (bytes_written logA)) wb →
  room_for (length (bytes_written logB)) wa →
  bytes_read logB `prefix_of` bytes_written logA ∧ bytes_read logA `prefix_of` bytes_written logB.
Proof. intros Hok Ha Hb Hsa Hsb Hqb Hqa logA logB Ra Rb. split; by eapply one_way. Qed.
End Both.
End Ends.

(** ** Concrete runs *)

Section Examples.

#[export] Instance OfflineSig_eq_dec : EqDecision OfflineSig.
Proof. solve_decision. Defined.
#[export] Instance Destination_eq_dec : EqDecision (@Destination ConcreteI2CP).
Proof. unfold Destination, ConcreteI2CP. apply _. Defined.
#[export] Instance Packet_eq_dec : EqDecision (@Packet ConcreteI2CP).
Proof. solve_decision. Defined.

(** The packets of messages, and their way through the queue. *)
Definition parsed (sent : list Message) : list Packet :=
  omap (λ m, match unmarshal_fresh (m_data m) with Ok q => Some q | _ => None end) sent.
Definition arrive (qs : list Packet) : list conn_op := flat_map (λ q, [OpIncoming true q; OpReceive]) qs.

Definition came_fromb (sent : list Message) (q : Packet) : bool :=
  negb (has_flag (Flags q) FlagSYN) && bool_decide (q ∈ parsed sent).
Lemma came_fromb_all sent qs : forallb (came_fromb sent) qs = true → Forall (came_from sent) qs.
Proof.
  intros H. apply (Forall_when (came_fromb sent)); [|done]. apply Forall_true. intros q Hq. unfold came_fromb in Hq.
  apply andb_true_iff in Hq as [H0%negb_true_iff H1%bool_decide_eq_true].
  split; [done|]. apply list_elem_of_omap in H1 as (m & Hm & Hu). exists m. split; [done|].
  by destruct (unmarshal_fresh (m_data m)) as [q'| |]; simplify_eq.
Qed.
Lemma sequential_all ops : forallb sequential ops = true → Forall (λ op, sequential op = true) ops.
Proof. intros H. by apply (Forall_when sequential); [apply Forall_true|]. Qed.

(** The ends of a connection with the library's buffers and packets of at most
    20 bytes. *)
Definition end_A : World := MkWorld
  ((initializeStreamConn 1 (Some session_A) false (Some dest_B) 10 20 1730 500 7 (MkBuffer 65536 [] 0) 0)
    <| state := StateEstablished |> <| recvSeq := 700 |> <| remoteStreamID := 9 |> <| remoteMTU := 20 |>)
  manager_A 0 0 0 [] [] [].
Definition end_B : World := MkWorld
  ((initializeStreamConn 1 (Some session_B) false (Some dest_A) 20 10 1730 700 9 (MkBuffer 65536 [] 0) 0)
    <| state := StateEstablished |> <| recvSeq := 500 |> <| remoteStreamID := 7 |> <| remoteMTU := 20 |>)
  manager_A 0 0 0 [] [] [].
Lemma end_A_joined : joined end_A 700.
Proof. split; [split; [by eexists|..]|split|]; done. Qed.
Lemma end_B_joined : joined end_B 500.
Proof. split; [split; [by eexists|..]|split|]; done. Qed.

(** A writes 26 bytes in two packets, which arrive in reverse order and twice
    while B waits for data; B answers with two bytes and A reads them. *)
Definition letters : bytes := String.list_byte_of_string "abcdefghijklmnopqrstuvwxyz".
Definition ask_ops : list conn_op := [OpWrite [] letters].
Definition asked : list Packet := parsed (sent_by end_A ask_ops).
Definition ops_B : list conn_op := [OpRead [arrive (reverse asked ++ asked)] 100; OpWrite [] [x6f; x6b]; OpClose].
Definition ops_A : list conn_op := ask_ops ++ [OpRead [arrive (parsed (sent_by end_B ops_B))] 100].

Lemma full_duplex_witness :
  bytes_read (end_run end_B ops_B).2 = letters ∧ bytes_read (end_run end_A ops_A).2 = [x6f; x6b] ∧
  bytes_read (end_run end_B ops_B).2 `prefix_of` bytes_written (end_run end_A ops_A).2 ∧
  bytes_read (end_run end_A ops_A).2 `prefix_of` bytes_written (end_run end_B ops_B).2.
Proof.
  split; [vmeq|]. split; [vmeq|].
  apply (full_duplex (RT:=ConcreteRuntime) end_A end_B ops_A ops_B (λ _, eq_refl) end_A_joined end_B_joined).
  - apply sequential_all. vmeq.
  - apply sequential_all. vmeq.
  - apply came_fromb_all. vmeq.
  - apply came_fromb_all. vmeq.
  - by split; vm_compute.
  - by split; vm_compute.
Defined.
End Examples.
