(* ===== verification/Echo.v ===== *)
(** * The echo example

    The programs of examples/echo over a [net.Conn]: the server's handler,
    which writes back what it reads, and the client's test, which compares.
    They are interaction trees over the calls of the connection and of the
    operating system; [plays] gives their runs against the calls a connection
    answers.  Then the two programs over the two ends of a connection. *)

From S2P Require Import Prelude GoInt I2CP Packet Floats Runtime Conn ConnRecv ConnAck ConnLife ConnWrite.
From S2P Require Import ConnFrames ConnOps ConnExamples ConnRecvProps ConnWriteProps ConnTx Transfer Duplex.
From ITree Require Import ITree.
From Stdlib Require Import Strings.Byte.

(** ** The programs *)

(** Calls of a [net.Conn], and [time.Now], [ctx.Err() != nil], [time.Sleep]. *)
Variant netE : Type → Type :=
| ERead (k : nat) : netE (bytes * option ConnError)
| EWrite (data : bytes) : netE (nat * option ConnError)
| ESetReadDeadline (t : Z) : netE ()
| EClose : netE ()
| ENow : netE Z
| EDone : netE bool
| ESleep (d : Z) : netE ().

#[local] Instance itree_ret : MRet (itree netE) := λ A a, Ret a.
#[local] Instance itree_bind : MBind (itree netE) := λ A B k t, ITree.bind t k.

(** *** examples/echo/server/main.go *)

Definition readFromClient (len : nat) : itree netE (bytes * bool) :=
  r ← ITree.trigger (ERead len);
  match r with
  | (_, Some _) => mret ([], true)
  | (bs, None) => mret (bs, false)
  end.

Definition echoToClient (data : bytes) : itree netE bool :=
  r ← ITree.trigger (EWrite data);
  match r with
  | (_, Some _) => mret false
  | (_, None) => mret true
  end.

Definition closeConnection : itree netE () := ITree.trigger EClose.

Definition setReadDeadlineIn (d : Z) : itree netE () :=
  now ← ITree.trigger ENow; ITree.trigger (ESetReadDeadline (time_Add now d)).

(** One turn of the handler's loop, with the bytes it has counted. *)
Definition handleTurn (totalBytes : Z) : itree netE (Z + ()) :=
  done ← ITree.trigger EDone;
  if (done : bool) then mret (inr tt)
  else
    r ← readFromClient 4096;
    let '(bs, done) := r in
    if (done : bool) then mret (inr tt)
    else if (length bs =? 0)%nat then mret (inl totalBytes)
    else
      ok ← echoToClient bs;
      if (ok : bool) then _ ← setReadDeadlineIn (90 * Second); mret (inl (totalBytes + Z.of_nat (length bs)))
      else mret (inr tt).

Definition handleConnection : itree netE () :=
  _ ← setReadDeadlineIn (90 * Second); _ ← ITree.iter handleTurn 0; closeConnection.

(** *** examples/echo/client/main.go *)

Inductive EchoError :=
| WriteFailed (e : ConnError)
| UnexpectedEOF (n : nat)
| ReadFailed (e : ConnError)
| EchoMismatch (sent received : bytes).

Definition sendTestMessage (msg : bytes) : itree netE (option EchoError) :=
  r ← ITree.trigger (EWrite msg);
  match r with
  | (_, Some e) => mret (Some (WriteFailed e))
  | (_, None) => mret None
  end.

(** One turn of the reading loop; [buf] is what the buffer of 4096 holds. *)
Definition readTurn (expected : nat) (buf : bytes) : itree netE (bytes + (bytes + EchoError)) :=
  if (length buf <? expected)%nat then
    r ← ITree.trigger (ERead (4096 - length buf));
    match r with
    | (_, Some EEOF) => mret (inr (inr (UnexpectedEOF (length buf))))
    | (_, Some e) => mret (inr (inr (ReadFailed e)))
    | (bs, None) => mret (inl (buf ++ bs))
    end
  else mret (inr (inl buf)).
Definition readEchoResponse (expected : nat) : itree netE (bytes + EchoError) :=
  ITree.iter (readTurn expected) [].

Definition verifyEchoResponse (sent received : bytes) : option EchoError :=
  if decide (received = sent) then None else Some (EchoMismatch sent received).

Definition runSingleEchoTest (msg : bytes) : itree netE (option EchoError) :=
  _ ← ITree.trigger ENow;
  e ← sendTestMessage msg;
  match e with
  | Some e => mret (Some e)
  | None =>
      _ ← setReadDeadlineIn (30 * Second);
      r ← readEchoResponse (length msg);
      match r with
      | inr e => mret (Some e)
      | inl response =>
          _ ← ITree.trigger ENow;
          mret (verifyEchoResponse msg response)
      end
  end.

Fixpoint runEchoTests (msgs : list bytes) : itree netE (option EchoError) :=
  match msgs with
  | [] => mret None
  | msg :: msgs =>
      e ← runSingleEchoTest msg;
      match e with
      | Some e => mret (Some e)
      | None => _ ← ITree.trigger (ESleep (Second / 10)); runEchoTests msgs
      end
  end.

Definition testMessages : list bytes := String.list_byte_of_string <$>
  ["Hello, I2P!"; "Testing streaming protocol"; "Lorem ipsum dolor sit amet, consectetur adipiscing elit.";
   "The quick brown fox jumps over the lazy dog"]%string.

Definition runEchoTest : itree netE (option EchoError) := runEchoTests testMessages.

(** ** Runs of a program *)

(** What a program does next. *)
Inductive node (R : Type) :=
| NRet (r : R)
| NTau (t : itree netE R)
| NRead (k : nat) (f : bytes * option ConnError → itree netE R)
| NWrite (data : bytes) (f : nat * option ConnError → itree netE R)
| NSetReadDeadline (t : Z) (f : () → itree netE R)
| NClose (f : () → itree netE R)
| NNow (f : Z → itree netE R)
| NDone (f : bool → itree netE R)
| NSleep (d : Z) (f : () → itree netE R).
Arguments NRet {R}.
Arguments NTau {R}.
Arguments NRead {R}.
Arguments NWrite {R}.
Arguments NSetReadDeadline {R}.
Arguments NClose {R}.
Arguments NNow {R}.
Arguments NDone {R}.
Arguments NSleep {R}.

Definition vis_node {R X} (e : netE X) : (X → itree netE R) → node R :=
  match e with
  | ERead k => NRead k
  | EWrite d => NWrite d
  | ESetReadDeadline t => NSetReadDeadline t
  | EClose => NClose
  | ENow => NNow
  | EDone => NDone
  | ESleep d => NSleep d
  end.
Definition view {R} (t : itree netE R) : node R :=
  match observe t with
  | RetF r => NRet r
  | TauF t => NTau t
  | VisF e f => vis_node e f
  end.

(** [plays n t log r]: in [n] steps the program makes the calls of [log]; then
    it has returned [r], or is seen no further, with [None].  A call that has
    not returned is the last one.  The clock and the context answer anything. *)
Inductive plays {R} : nat → itree netE R → list net_call → option R → Prop :=
| plays_so_far t : plays 0 t [] None
| plays_ret t r : view t = NRet r → plays 0 t [] (Some r)
| plays_tau n t u log r : view t = NTau u → plays n u log r → plays (S n) t log r
| plays_read n t k f bs e log r :
    view t = NRead k f → e ≠ Some EBlocked → plays n (f (bs, e)) log r → plays (S n) t (CRead k bs e :: log) r
| plays_reading t k f bs : view t = NRead k f → plays 0 t [CRead k bs (Some EBlocked)] None
| plays_write n t d f m e log r :
    view t = NWrite d f → e ≠ Some EBlocked → plays n (f (m, e)) log r → plays (S n) t (CWrite d m e :: log) r
| plays_writing t d f m : view t = NWrite d f → plays 0 t [CWrite d m (Some EBlocked)] None
| plays_deadline n t d f log r :
    view t = NSetReadDeadline d f → plays n (f tt) log r → plays (S n) t (CSetReadDeadline d :: log) r
| plays_close n t f log r : view t = NClose f → plays n (f tt) log r → plays (S n) t (CClose :: log) r
| plays_now n t f x log r : view t = NNow f → plays n (f x) log r → plays (S n) t log r
| plays_done n t f x log r : view t = NDone f → plays n (f x) log r → plays (S n) t log r
| plays_sleep n t d f log r : view t = NSleep d f → plays n (f tt) log r → plays (S n) t log r.

(** A run of a program is one of its first part, and, if that has returned, one
    of the rest. *)
Definition node_bind {A R} (k : A → itree netE R) (v : node A) : node R :=
  match v with
  | NRet a => view (k a)
  | NTau t => NTau (ITree.bind t k)
  | NRead n f => NRead n (λ x, ITree.bind (f x) k)
  | NWrite d f => NWrite d (λ x, ITree.bind (f x) k)
  | NSetReadDeadline d f => NSetReadDeadline d (λ x, ITree.bind (f x) k)
  | NClose f => NClose (λ x, ITree.bind (f x) k)
  | NNow f => NNow (λ x, ITree.bind (f x) k)
  | NDone f => NDone (λ x, ITree.bind (f x) k)
  | NSleep d f => NSleep d (λ x, ITree.bind (f x) k)
  end.

Lemma view_bind {A R} (t : itree netE A) (k : A → itree netE R) :
  view (ITree.bind t k) = node_bind k (view t).
Proof.
  unfold view, ITree.bind. cbn [observe _observe]. unfold observe at 1. cbn. destruct (observe t) as [a|u|X e f]; [done|done|].
  by destruct e.
Qed.

Lemma view_iter {A R} (body : A → itree netE (A + R)) a :
  view (ITree.iter body a) =
  view (ITree.bind (body a) (λ lr, match lr with inl a => Tau (ITree.iter body a) | inr r => Ret r end)).
Proof. done. Qed.

Lemma plays_view {R} n (t u : itree netE R) log r : view t = view u → plays n t log r → plays n u log r.
Proof.
  intros E H. destruct H; try match goal with Hv : view t = _ |- _ => rewrite E in Hv end.
  - apply plays_so_far.
  - by apply plays_ret.
  - by eapply plays_tau.
  - by eapply plays_read.
  - by eapply plays_reading.
  - by eapply plays_write.
  - by eapply plays_writing.
  - by eapply plays_deadline.
  - by eapply plays_close.
  - by eapply plays_now.
  - by eapply plays_done.
  - by eapply plays_sleep.
Qed.

Lemma plays_bind {A R} n (t : itree netE A) (k : A → itree netE R) log r : plays n (ITree.bind t k) log r →
  (r = None ∧ plays n t log None) ∨
  ∃ n1 n2 a l1 l2, n = (n1 + n2)%nat ∧ plays n1 t l1 (Some a) ∧ plays n2 (k a) l2 r ∧ log = l1 ++ l2.
Proof.
  intros H. remember (ITree.bind t k) as u eqn:Eu. assert (E : view u = node_bind k (view t)) by (subst; apply view_bind).
  clear Eu. revert t E.
  assert (Hret : ∀ n u log r t a, view u = view (k a) → view t = NRet a → plays n u log r →
    (r = None ∧ plays n t log None) ∨
    ∃ n1 n2 a l1 l2, n = (n1 + n2)%nat ∧ plays n1 t l1 (Some a) ∧ plays n2 (k a) l2 r ∧ log = l1 ++ l2).
  { intros n' u' log' r' t a E Et H'. right. exists 0%nat, n', a, [], log'. split_and!; [done|by apply plays_ret| |done].
    by eapply plays_view. }
  induction H as [u|u r Eu|n u u' log r Eu H IH|n u kk f bs e log r Eu He H IH|u kk f bs Eu|n u d f m e log r Eu He H IH
    |u d f m Eu|n u d f log r Eu H IH|n u f log r Eu H IH|n u f x log r Eu H IH|n u f x log r Eu H IH|n u d f log r Eu H IH];
    intros t E; [left; split; [done|constructor]|..];
    (destruct (view t) as [a|t'|k' f'|d' f'|d' f'|f'|f'|f'|d' f'] eqn:Et; cbn [node_bind] in E;
      [eapply Hret; [exact E|exact Et|by econstructor]|..]); rewrite Eu in E; try discriminate E; simplify_eq.
  1: pose proof (IH t' ltac:(apply view_bind)) as Hx.
  2: pose proof (IH (f' (bs, e)) ltac:(apply view_bind)) as Hx.
  3: left; split; [done|by econstructor].
  3: pose proof (IH (f' (m, e)) ltac:(apply view_bind)) as Hx.
  4: left; split; [done|by econstructor].
  4, 5: pose proof (IH (f' tt) ltac:(apply view_bind)) as Hx.
  6, 7: pose proof (IH (f' x) ltac:(apply view_bind)) as Hx.
  8: pose proof (IH (f' tt) ltac:(apply view_bind)) as Hx.
  all: destruct Hx as [[-> Hx]|(n1 & n2 & a & l1 & l2 & -> & H1 & H2 & ->)]; [left; split; [done|by econstructor]|].
  all: right; exists (S n1), n2, a; do 2 eexists; split_and!; [done|by econstructor|exact H2|done].
Qed.

Lemma plays_forget {R} n (t : itree netE R) log r : plays n t log r → plays n t log None.
Proof.
  induction 1.
  - apply plays_so_far.
  - apply plays_so_far.
  - by eapply plays_tau.
  - by eapply plays_read.
  - by eapply plays_reading.
  - by eapply plays_write.
  - by eapply plays_writing.
  - by eapply plays_deadline.
  - by eapply plays_close.
  - by eapply plays_now.
  - by eapply plays_done.
  - by eapply plays_sleep.
Qed.

(** The rule for a loop: what holds when a turn starts, when it returns and
    when it is under way holds over the runs of the loop. *)
Section Loop.
Context {A R : Type} (body : A → itree netE (A + R)) (ok : net_call → Prop).
Context (Head : A → list net_call → Prop) (Over : R → list net_call → Prop) (Within : list net_call → Prop).
Context (Hturn : ∀ a pre n log r, Head a pre → Forall ok log → plays n (body a) log r →
  match r with
  | Some (inl a) => Head a (pre ++ log)
  | Some (inr r) => Over r (pre ++ log)
  | None => Within (pre ++ log)
  end).

Lemma plays_iter n a pre log r : Head a pre → Forall ok log → plays n (ITree.iter body a) log r →
  match r with Some r => Over r (pre ++ log) | None => Within (pre ++ log) end.
Proof.
  revert a pre log. induction (lt_wf n) as [n _ IH]. intros a pre log Hh Hok H.
  apply (plays_view _ _ _ _ _ (view_iter body a)) in H.
  apply plays_bind in H as [[-> H]|(n1 & n2 & lr & l1 & l2 & -> & H1 & H2 & ->)]; [by apply (Hturn a pre n log None)|].
  apply Forall_app in Hok as [Hok1 Hok2]. pose proof (Hturn a pre n1 l1 (Some lr) Hh Hok1 H1) as Ht.
  rewrite app_assoc. destruct lr as [a'|r'].
  - inversion H2 as [| |? ? u ? ? Eu Hu| | | | | | | | |]; subst; try discriminate.
    + rewrite app_nil_r. pose proof (Hturn a' _ 0%nat [] None Ht (Forall_nil_2 _) (plays_so_far _)) as Hw.
      by rewrite app_nil_r in Hw.
    + cbn in Eu. injection Eu as <-. eapply (IH n); [lia|done..].
  - inversion H2 as [|? ? Er| | | | | | | | | |]; subst; try discriminate; rewrite app_nil_r.
    + apply (Hturn a pre n1 l1 None Hh Hok1). by eapply plays_forget.
    + cbn in Er. by injection Er as <-.
Qed.
End Loop.

(** ** The server *)

(** What [net.Conn] promises: a [Write] without an error has written it all. *)
Definition complies (c : net_call) : Prop :=
  match c with CWrite data n None => n = length data | _ => True end.
(** The call has not failed. *)
Definition went_well (c : net_call) : Prop :=
  match c with CRead _ _ e | CWrite _ _ e => e = None | _ => True end.

(** Everything read has been written, and the connection not been closed. *)
Definition echoed (log : list net_call) : Prop := bytes_written log = bytes_read log ∧ CClose ∉ log.
(** Nothing but what has been read has been written; if no call has failed, all
    of it, or all but what the last call has read. *)
Definition echoing (log : list net_call) : Prop :=
  bytes_written log `prefix_of` bytes_read log ∧
  (Forall went_well log → bytes_written log = bytes_read log ∨
    ∃ log' k bs, log = log' ++ [CRead k bs None] ∧ bytes_written log' = bytes_read log').

(** The next node of the programs, as far as conditions allow. *)
Ltac run_view E :=
  lazy beta iota zeta delta [view observe _observe ITree.bind ITree.subst itree_bind itree_ret mbind mret
    ITree.trigger vis_node readFromClient echoToClient closeConnection setReadDeadlineIn sendTestMessage] in E.
Ltac play_on H :=
  inversion H; clear H; subst; try discriminate;
  repeat match goal with
  | E : view _ = _ |- _ =>
      cbn in E; run_view E;
      try match type of E with context [if ?b then _ else _] =>
        match goal with Eb : b = _ |- _ => rewrite Eb in E end
      end;
      first [discriminate E | injection E; clear E; intros; subst]
  end.

Ltac play_step := match goal with H : plays _ _ _ _ |- _ => play_on H end.

(** What a turn adds to the log. *)
Inductive turn_log : list net_call → option (Z + ()) → Prop :=
| turn_idle r : (∀ a, r ≠ Some (inl a)) → turn_log [] r
| turn_read_failed k bs e r : (∀ a, r ≠ Some (inl a)) → turn_log [CRead k bs (Some e)] r
| turn_read k bs : turn_log [CRead k bs None] None
| turn_empty k r : turn_log [CRead k [] None] r
| turn_write_failed k bs m e r : (∀ a, r ≠ Some (inl a)) → turn_log [CRead k bs None; CWrite bs m (Some e)] r
| turn_write k bs m : turn_log [CRead k bs None; CWrite bs m None] None
| turn_done k bs m t r : turn_log [CRead k bs None; CWrite bs m None; CSetReadDeadline t] r.

Lemma handleTurn_log a n log r : plays n (handleTurn a) log r → turn_log log r.
Proof.
  intros H. play_step; [by constructor|]. destruct x; [play_step; by constructor|].
  play_step; [by constructor| |by constructor]. destruct e as [e|]; [play_step; by constructor|].
  destruct (length bs =? 0)%nat eqn:E.
  { destruct bs; [|done]. play_step; by constructor. }
  play_step; [by constructor| |by constructor]. destruct e as [e|]; [play_step; by constructor|].
  play_step; [by constructor|]. play_step; [by constructor|]. play_step; by constructor.
Qed.

Lemma echoed_echoing log : echoed log → echoing log.
Proof. intros [H _]. unfold echoing. rewrite H. by split; [|left]. Qed.

Lemma no_close log more : CClose ∉ log → Forall (λ c, c ≠ CClose) more → CClose ∉ log ++ more.
Proof. intros H Hm [|Hin]%elem_of_app; [done|]. rewrite Forall_forall in Hm. by apply (Hm CClose). Qed.

Lemma turn_echo pre log r : echoed pre → Forall complies log → turn_log log r →
  match r with
  | Some (inl _) => echoed (pre ++ log)
  | _ => echoing (pre ++ log) ∧ CClose ∉ pre ++ log
  end.
Proof.
  intros Hpre Hok Ht. pose proof Hpre as [Hw Hc].
  assert (Hback : echoed (pre ++ log) → match r with
    | Some (inl _) => echoed (pre ++ log)
    | _ => echoing (pre ++ log) ∧ CClose ∉ pre ++ log
    end).
  { intros H. pose proof (echoed_echoing _ H). destruct H as [? ?]. by destruct r as [[]|]. }
  assert (Hstop : (∀ a, r ≠ Some (inl a)) → echoing (pre ++ log) → CClose ∉ pre ++ log → match r with
    | Some (inl _) => echoed (pre ++ log)
    | _ => echoing (pre ++ log) ∧ CClose ∉ pre ++ log
    end).
  { intros Hr H1 H2. destruct r as [[a|]|]; [by destruct (Hr a)|done..]. }
  unfold echoed, echoing in *. rewrite bytes_written_app, bytes_read_app, Hw in *.
  destruct Ht as [r Hr|k bs e r Hr|k bs|k r|k bs m e r Hr|k bs m|k bs m t r]; cbn in *; rewrite ?app_nil_r in *.
  - by apply Hback.
  - apply Hstop; [done| |by apply no_close; [|repeat constructor]]. split; [by apply prefix_app_r|].
    by intros [_ [? _]%Forall_cons]%Forall_app.
  - apply Hstop; [done| |by apply no_close; [|repeat constructor]]. split; [by apply prefix_app_r|].
    intros _. right. by exists pre, k, bs.
  - apply Hback. split; [done|by apply no_close; [|repeat constructor]].
  - apply Hstop; [done| |by apply no_close; [|repeat constructor]]. split; [apply prefix_app, prefix_take|].
    by intros [_ [_ [? _]%Forall_cons]%Forall_cons]%Forall_app.
  - apply Forall_cons in Hok as [_ [Hm _]%Forall_cons]. cbn in Hm. rewrite Hm, take_ge in * by lia. apply Hback.
    split; [done|by apply no_close; [|repeat constructor]].
  - apply Forall_cons in Hok as [_ [Hm _]%Forall_cons]. cbn in Hm. rewrite Hm, take_ge in * by lia. apply Hback.
    split; [done|by apply no_close; [|repeat constructor]].
Qed.

Lemma server_loop n pre log r : echoed pre → Forall complies log → plays n (ITree.iter handleTurn 0) log r →
  echoing (pre ++ log) ∧ CClose ∉ pre ++ log.
Proof.
  intros Hpre Hok H. set (P l := echoing l ∧ CClose ∉ l).
  pose proof (plays_iter handleTurn complies (λ _, echoed) (λ _, P) P) as Hi.
  eapply Hi in H; [by destruct r| |exact Hpre|exact Hok].
  intros a p m l q Hp Hl Hq. apply handleTurn_log in Hq. pose proof (turn_echo p l q Hp Hl Hq) as Ht.
  by destruct q as [[]|].
Qed.

Lemma setReadDeadline_log d n log r : plays n (setReadDeadlineIn d) log r →
  (log = [] ∧ r = None) ∨ ∃ t, log = [CSetReadDeadline t].
Proof.
  intros H. play_step; [by left|]. play_step; [by left|]. right. by play_step; eexists.
Qed.

Lemma echoed_start t : echoed [CSetReadDeadline t].
Proof. split; [done|]. apply (no_close []); [apply not_elem_of_nil|by repeat constructor]. Qed.

Lemma server_log n (log : list net_call) (r : option ()) :
  plays n handleConnection log r → Forall complies log →
  ∃ log', echoing log' ∧ (CClose ∉ log') ∧ ((log = log' ∧ r = None) ∨ log = log' ++ [CClose]).
Proof.
  unfold handleConnection, mbind, itree_bind. intros H Hok.
  apply plays_bind in H as [[-> H]|(n1 & n2 & [] & l1 & l2 & -> & H1 & H & ->)].
  { assert (He : echoed log) by (apply setReadDeadline_log in H as [[-> _]|[t ->]]; [by split; [|apply not_elem_of_nil]|apply echoed_start]).
    exists log. split_and!; [by apply echoed_echoing|apply He|by left]. }
  apply setReadDeadline_log in H1 as [[_ H1]|[t ->]]; [done|]. cbn in Hok. apply Forall_cons in Hok as [_ Hok].
  pose proof (echoed_start t) as He.
  apply plays_bind in H as [[-> H]|(n3 & n4 & [] & l3 & l4 & -> & H1 & H & ->)].
  { destruct (server_loop _ _ _ _ He Hok H). eexists. split_and!; [done..|by left]. }
  apply Forall_app in Hok as [Hok _]. destruct (server_loop _ _ _ _ He Hok H1) as [H2 H3].
  exists ([CSetReadDeadline t] ++ l3). split_and!; [done..|]. rewrite <-app_assoc.
  play_step; [left; by rewrite app_nil_r|right]. by play_step.
Qed.

Lemma server_prefix n log (r : option ()) : plays n handleConnection log r → Forall complies log →
  bytes_written log `prefix_of` bytes_read log.
Proof.
  intros H Hok. destruct (server_log n log r H Hok) as (log' & [Hp _] & _ & [[-> _]| ->]); [done|].
  by rewrite bytes_written_app, bytes_read_app, !app_nil_r.
Qed.

(** The echo server echoes.  Whatever a connection answers to the calls of
    [handleConnection], as long as a [Write] without an error has written all
    its data: at any time before the handler closes the connection, what it has
    written is a prefix of what it has read, and unless a call has failed it is
    all of it, or all but what the last call has read; the handler closes the
    connection once, and does nothing after that; and it returns only then. *)
Theorem echo_exact n (log : list net_call) (r : option ()) :
  plays n handleConnection log r → Forall complies log →
  ∃ log', echoing log' ∧ (CClose ∉ log') ∧ ((log = log' ∧ r = None) ∨ log = log' ++ [CClose]).
Proof. apply server_log. Qed.

(** ** The client *)

(** What reading adds to the log: nothing is written; what it returns is what
    has been read. *)
Definition reads_only (log : list net_call) : Prop := bytes_written log = [].

Inductive read_log (buf : bytes) (expected : nat) : list net_call → option (bytes + (bytes + EchoError)) → Prop :=
| read_so_far log : reads_only log → read_log buf expected log None
| read_enough : (expected ≤ length buf)%nat → read_log buf expected [] (Some (inr (inl buf)))
| read_some k bs : read_log buf expected [CRead k bs None] (Some (inl (buf ++ bs)))
| read_error log e : reads_only log → (∀ s rc, e ≠ EchoMismatch s rc) → read_log buf expected log (Some (inr (inr e))).

Lemma readTurn_log expected buf n log r : plays n (readTurn expected buf) log r → read_log buf expected log r.
Proof.
  unfold readTurn. intros H. destruct (Nat.ltb_spec (length buf) expected) as [E|E].
  - play_step; [by constructor| |by constructor]. destruct e as [e|].
    + assert (Hx : plays n0 (Ret (inr (inr (match e with EEOF => UnexpectedEOF (length buf) | e => ReadFailed e end)))) log0 r).
      { eapply plays_view; [|eassumption]. by destruct e. }
      clear H1. play_step; constructor; try done. by destruct e.
    + play_step; by constructor.
  - play_step; by constructor.
Qed.

Definition not_mismatch (e : EchoError) : Prop := match e with EchoMismatch _ _ => False | _ => True end.

Lemma readEcho_log expected n log r : plays n (readEchoResponse expected) log r →
  bytes_written log = [] ∧
  match r with
  | Some (inl response) => bytes_read log = response ∧ (expected ≤ length response)%nat
  | Some (inr e) => not_mismatch e
  | None => True
  end.
Proof.
  unfold readEchoResponse. intros H.
  set (Over (x : bytes + EchoError) (l : list net_call) := bytes_written l = [] ∧
    match x with inl b => bytes_read l = b ∧ (expected ≤ length b)%nat | inr e => not_mismatch e end).
  pose proof (plays_iter (readTurn expected) (λ _, True) (λ b l, bytes_written l = [] ∧ bytes_read l = b) Over
    (λ l, bytes_written l = [])) as Hi.
  eapply (Hi _ n [] [] log r) in H; [|done|by apply Forall_true].
  - cbn in H. destruct r as [[b|e]|]; [exact H..|done].
  Unshelve. intros buf pre m l q [Hw Hr] _ Hq. apply readTurn_log in Hq. unfold Over.
  rewrite bytes_written_app, bytes_read_app, Hw, Hr.
  destruct Hq as [l Hl|Hl|k bs|l e Hl He]; cbn; rewrite ?app_nil_r; try done.
  split; [done|]. by destruct e; try (by destruct (He sent received)).
Qed.

Lemma sendTestMessage_log msg n log r : plays n (sendTestMessage msg) log r →
  bytes_read log = [] ∧
  ((log = [] ∧ r = None) ∨ ∃ m e, log = [CWrite msg m e] ∧
    match r with Some None => e = None | Some (Some e) => not_mismatch e | None => True end).
Proof.
  intros H. play_step; [by split; [|left]| |].
  - destruct e as [e|]; play_step; (split; [done|]); right; by eexists _, _.
  - split; [done|]. right. by eexists _, _.
Qed.

(** What a test of one message adds to the log, after a log in which as much
    has been read as written. *)
Definition tested (msg : bytes) (log : list net_call) (r : option (option EchoError)) : Prop :=
  bytes_written log `prefix_of` msg ∧
  match r with
  | Some None => bytes_written log = msg ∧ bytes_read log = msg
  | Some (Some (EchoMismatch s rc)) =>
      s = msg ∧ bytes_written log = msg ∧ bytes_read log = rc ∧ rc ≠ s ∧ (length s ≤ length rc)%nat
  | _ => True
  end.

Lemma tested_failed msg log r : bytes_written log `prefix_of` msg →
  match r with Some (Some e) => not_mismatch e | Some None => False | None => True end → tested msg log r.
Proof. intros H Hr. split; [done|]. by destruct r as [[[]|]|]. Qed.

Lemma singleTest_log msg n log r : Forall complies log → plays n (runSingleEchoTest msg) log r → tested msg log r.
Proof.
  unfold runSingleEchoTest, mbind, itree_bind. intros Hok H.
  apply plays_bind in H as [[-> H]|(n1 & n2 & t & l1 & l2 & -> & H1 & H & ->)].
  { assert (log = []) as -> by (play_step; [done|by play_step]). apply tested_failed; [apply prefix_nil|done]. }
  assert (l1 = []) as -> by (clear H; play_step; by play_step). cbn in Hok |- *. clear H1.
  apply plays_bind in H as [[-> H]|(n3 & n4 & e & l3 & l4 & -> & H1 & H & ->)].
  { apply sendTestMessage_log in H as [_ [[-> _]|(m & e & -> & _)]]; apply tested_failed; try done; [apply prefix_nil|].
    cbn. rewrite app_nil_r. apply prefix_take. }
  apply sendTestMessage_log in H1 as [Hr [[_ H1]|(m & e' & -> & He)]]; [done|].
  apply Forall_app in Hok as [Hok _]. apply Forall_cons in Hok as [Hm _]. destruct e as [e|].
  { assert (l4 = []) as -> by by play_step. rewrite app_nil_r. apply tested_failed; [cbn; rewrite app_nil_r; apply prefix_take|].
    by play_step. }
  subst e'. cbn in Hm. unfold tested. rewrite bytes_written_app, bytes_read_app. cbn. rewrite Hm, app_nil_r, take_ge by lia.
  assert (Hlog : bytes_written l4 = [] ∧ match r with
    | Some None => bytes_read l4 = msg
    | Some (Some (EchoMismatch s rc)) => s = msg ∧ bytes_read l4 = rc ∧ rc ≠ s ∧ (length s ≤ length rc)%nat
    | _ => True
    end).
  2: { destruct Hlog as [-> Hlog]. rewrite app_nil_r. split; [done|].
       destruct r as [[[]|]|]; try done. by destruct Hlog as (-> & -> & ?). }
  apply plays_bind in H as [[-> H]|(n5 & n6 & [] & l5 & l6 & -> & H1 & H & ->)].
  { apply setReadDeadline_log in H as [[-> _]|[d ->]]; done. }
  apply setReadDeadline_log in H1 as [[_ H1]|[d ->]]; [done|].
  apply plays_bind in H as [[-> H]|(n7 & n8 & x & l7 & l8 & -> & H1 & H & ->)].
  { apply readEcho_log in H as [Hw _]. done. }
  apply readEcho_log in H1 as [Hw Hx]. change ([CSetReadDeadline d] ++ l7 ++ l8) with (CSetReadDeadline d :: l7 ++ l8).
  cbn. rewrite bytes_written_app, bytes_read_app, Hw. destruct x as [response|e].
  - destruct Hx as [-> Hl]. assert (l8 = [] ∧ (r = None ∨ r = Some (verifyEchoResponse msg response))) as [-> Hr']
      by (play_step; [by split; [|left]|]; play_step; (split; [done|]); [by left|by right]).
    cbn. rewrite app_nil_r. split; [done|]. destruct Hr' as [->| ->]; [done|]. unfold verifyEchoResponse. by case_decide.
  - assert (l8 = [] ∧ (r = None ∨ r = Some (Some e))) as [-> [->| ->]] by (play_step; (split; [done|]); [by left|by right]);
      (split; [done|]); [done|by destruct e].
Qed.

(** What the whole test adds to the log. *)
Definition all_tested (msgs : list bytes) (log : list net_call) (r : option (option EchoError)) : Prop :=
  bytes_written log `prefix_of` concat msgs ∧
  match r with
  | Some None => bytes_written log = concat msgs ∧ bytes_read log = concat msgs
  | Some (Some (EchoMismatch s rc)) =>
      ∃ before, bytes_written log = before ++ s ∧ bytes_read log = before ++ rc ∧ rc ≠ s ∧ (length s ≤ length rc)%nat
  | _ => True
  end.

Lemma all_tested_cons msg msgs l1 l2 r : tested msg l1 (Some None) → all_tested msgs l2 r →
  all_tested (msg :: msgs) (l1 ++ l2) r.
Proof.
  intros (_ & Hw & Hr) [Hp Hx]. unfold all_tested. rewrite bytes_written_app, bytes_read_app, Hw, Hr. cbn.
  split; [by apply prefix_app|]. destruct r as [[[]|]|]; try done.
  - destruct Hx as (before & -> & -> & H). exists (msg ++ before). by rewrite <-!app_assoc.
  - by destruct Hx as [-> ->].
Qed.

Lemma echoTests_log msgs n log r : Forall complies log → plays n (runEchoTests msgs) log r → all_tested msgs log r.
Proof.
  revert n log r. induction msgs as [|msg msgs IH]; intros n log r Hok H; cbn [runEchoTests] in H.
  { by play_step. }
  unfold mbind, itree_bind in H. apply plays_bind in H as [[-> H]|(n1 & n2 & e & l1 & l2 & -> & H1 & H & ->)].
  { destruct (singleTest_log _ _ _ _ Hok H) as [Hp _]. split; [|done]. cbn. by apply prefix_app_r. }
  apply Forall_app in Hok as [Hok1 Hok2]. pose proof (singleTest_log _ _ _ _ Hok1 H1) as Ht. destruct e as [e|].
  - destruct Ht as [Hp Ht]. assert (l2 = [] ∧ (r = None ∨ r = Some (Some e))) as [-> Hr]
      by (play_step; (split; [done|]); [by left|by right]).
    rewrite app_nil_r. split; [by apply prefix_app_r|]. destruct Hr as [->| ->]; [done|]. destruct e; try done.
    destruct Ht as (-> & -> & -> & Hne & Hl). by exists [].
  - apply all_tested_cons; [done|]. apply plays_bind in H as [[-> H]|(n3 & n4 & [] & l3 & l4 & -> & H2 & H & ->)].
    + assert (l2 = []) as -> by (play_step; [done|by play_step]). split; [apply prefix_nil|done].
    + assert (l3 = []) as -> by (clear H H1; play_step; by play_step). by eapply IH.
Qed.

(** ** Connecting

    The client dials without the manager, as [dialWithManager] does in spite of
    its name. *)

Section Connecting.
Context {I : I2CP} {B : CircBuf} {RT : GoRuntime}.

Definition dialWithManager (self : positive) (session : option Session) (dest : option Destination)
    (localPort remotePort mtu : Z) (events : list (option Packet)) : STE World ConnError unit :=
  DialWithMTU self session dest localPort remotePort mtu events.
Definition connectToServer (self : positive) (session : option Session) (dest : option Destination)
    (events : list (option Packet)) : STE World ConnError unit :=
  dialWithManager self session dest 0 8080 1730 events.

(** So the connection is not in the manager's table, the answers to its SYN do
    not reach it, and with nothing to wait for but the timeout it fails. *)
Theorem client_never_connects self session dest (w : World) :
  let '(r, w') := connectToServer self session dest [None] w in
  r ≠ Ok () ∧ connections (mgr w') = connections (mgr w).
Proof.
  assert (Hc : Pres (same (λ w, connections (mgr w))) (connectToServer self session dest [None])).
  { unfold connectToServer, dialWithManager, DialWithMTU, createConnectionStruct, validateConnectionParams,
      generateConnectionIdentifiers, drawISN, drawStreamID, applyCachedTCB, applyTCBDataToConnection, performHandshake, sendSYN,
      generateReplayPreventionNACKs, buildSYNPacket, signAndSendPacket, signOrFail, sessionOf, completeHandshake.
    cbn [waitForSynAck]. unfold_send. apply _. }
  specialize (Hc w). unfold same in Hc.
  destruct (connectToServer self session dest [None] w) as [r w'] eqn:E. split; [|exact Hc]. intros ->.
  unfold connectToServer, dialWithManager, DialWithMTU in E. unfold mbind, ste_bind in E.
  destruct (createConnectionStruct _ _ _ _ _ _ _ w) as [[[]|e|] w1]; try done.
  unfold performHandshake, completeHandshake in E. unfold mbind, ste_bind in E.
  by destruct (sendSYN w1) as [[[]|e|] w2].
Qed.
End Connecting.

(** ** The two programs over a connection *)

Section Session.
Context {I : I2CP} `{!I2CPLaws I} {B : CircBuf} `{!CircBufLaws B} {RT : GoRuntime}.
Context (Hsend : ∀ n, send_ok n = true).
Implicit Types w : World.

(** A connection keeps what [net.Conn] promises. *)
Lemma writeChunks_full fuel waits data total mtu w n w' :
  writeChunksLocked fuel waits data total mtu w = (Ok (n, None), w') → n = total.
Proof.
  revert waits data w. induction fuel as [|fuel IH]; intros waits data w; cbn [writeChunksLocked]; [done|].
  case_if; [by intros [= -> _]|]. unfold catch. unfold mbind at 1, ste_bind at 1.
  destruct (waitForWindowSpace waits w) as [[ws|e|] w1]; [|by intros [=]|by intros [=]].
  unfold try. set (chunk := if (mtu <? length data)%nat then _ else _). unfold mbind, ste_bind.
  destruct (sendDataChunk chunk w1) as [[[]|e|] w2]; [|by intros [=]|by intros [=]]. apply IH.
Qed.

Lemma Write_full waits data w n w' : Write waits data w = (Ok (n, None), w') → n = length data.
Proof.
  unfold Write, catch. unfold mbind at 1, ste_bind at 1.
  destruct ((_ ← validateWriteStateLocked; handleChokeWaitLocked waits) w) as [[ws|e|] w1]; [|by intros [=]|by intros [=]].
  unfold writeDataLocked. destruct (negotiated_eq w1) as (m & Hneg & _). rewrite (ste_step _ _ _ _ _ Hneg).
  apply writeChunks_full.
Qed.

Lemma end_step_complies s op : Forall complies s.2 → Forall complies (end_step s op).2.
Proof.
  destruct s as [w log], op; cbn; try done; intros H; try (by apply Forall_app; split; [|by constructor]).
  - destruct (Read _ _ _) as [[[bs e]|e|] w']; [|done..]. apply Forall_app. by split; [|repeat constructor].
  - destruct (Write _ _ _) as [[[n e]|e|] w'] eqn:E; [|done..]. apply Forall_app. split; [done|].
    apply Forall_singleton. destruct e; [done|]. by apply Write_full in E.
Qed.
Lemma end_run_complies w ops : Forall complies (end_run w ops).2.
Proof.
  unfold end_run. assert (H : Forall complies (w, [] : list net_call).2) by constructor.
  revert H. generalize (w, [] : list net_call). induction ops as [|op ops IH]; intros s H; [done|].
  by apply IH, end_step_complies.
Qed.

Lemma testMessages_small : Z.of_nat (length (concat testMessages)) <= LIM.
Proof. by vm_compute. Qed.

(** C4.  The echo session.  The client's test runs at one end of an established
    connection and the server's handler at the other, whatever the network
    loses, delays, repeats and reorders, and whatever the timers of the two
    ends do, but for the persist timer, whose probes add bytes.  Then the client
    never reports a mismatch, and when it reports success, the server has read
    and written back exactly the test messages and the client has read them
    back.  (The buffers of the library, of 64
    KiB, have room for them.) *)
Theorem echo_session wa wb (opsA opsB : list conn_op) nA nB rA rB :
  joined wa (sendSeq (conn wb)) → joined wb (sendSeq (conn wa)) →
  Z.of_nat (length (concat testMessages)) <= buf_Size (recvBuf (conn wa)) →
  Z.of_nat (length (concat testMessages)) <= buf_Size (recvBuf (conn wb)) →
  Forall (λ op, sequential op = true) opsA → Forall (λ op, sequential op = true) opsB →
  Forall (came_from (sent_by wa opsA)) (flat_map queued opsB) →
  Forall (came_from (sent_by wb opsB)) (flat_map queued opsA) →
  let logA := (end_run wa opsA).2 in let logB := (end_run wb opsB).2 in
  plays nA runEchoTest logA rA → plays nB handleConnection logB rB →
  (∀ sent received, rA ≠ Some (Some (EchoMismatch sent received))) ∧
  (rA = Some None → bytes_read logB = concat testMessages ∧ bytes_written logB = concat testMessages ∧
    bytes_read logA = concat testMessages).
Proof.
  intros Ja Jb Ba Bb Sa Sb Ca Cb logA logB Ha Hb.
  destruct (echoTests_log _ _ _ _ (end_run_complies wa opsA) Ha) as [HwA HrA]. fold logA in HwA, HrA.
  assert (HB : bytes_written logB `prefix_of` bytes_read logB) by by eapply server_prefix, end_run_complies.
  pose proof testMessages_small as HL. pose proof (prefix_length _ _ HwA) as L1.
  assert (HAB : bytes_read logB `prefix_of` bytes_written logA)
    by (eapply (one_way wa wb); try done; split; fold logA; lia).
  pose proof (prefix_length _ _ HB) as L2. pose proof (prefix_length _ _ HAB) as L3.
  assert (HBA : bytes_read logA `prefix_of` bytes_written logB)
    by (eapply (one_way wb wa); try done; split; fold logB; lia).
  assert (Hall : bytes_read logA `prefix_of` bytes_written logA) by (by do 2 (etransitivity; [eassumption|])).
  split.
  - intros s rc ->. destruct HrA as (before & Hw & Hr & Hne & Hl). rewrite Hw, Hr in Hall. apply prefix_app_inv in Hall.
    apply Hne. by apply prefix_length_eq.
  - intros ->. destruct HrA as [Hw Hr]. rewrite Hw in HAB. rewrite Hr in HBA.
    assert (E1 : bytes_written logB = concat testMessages) by (apply (anti_symm prefix); [by etransitivity|done]).
    rewrite E1 in HB. split_and!; [by apply (anti_symm prefix)|done..].
Qed.
End Session.

(** ** Concrete runs *)

Section Examples.

Definition returned (e : option ConnError) : bool := match e with Some EBlocked => false | _ => true end.
Lemma returned_ok e : returned e = true → e ≠ Some EBlocked.
Proof. by intros H ->. Qed.

(** Runs a program against a log, with a clock that stands still and a context
    that is not done: the steps taken and the result. *)
Fixpoint replay {R} (fuel : nat) (t : itree netE R) (log : list net_call) : option (nat * option R) :=
  match fuel with
  | O => None
  | S fuel =>
      let next (t : itree netE R) log := (λ x, (S x.1, x.2)) <$> replay fuel t log in
      match view t, log with
      | NRet r, [] => Some (0%nat, Some r)
      | NTau t, _ => next t log
      | NRead k f, CRead k' bs e :: log =>
          if bool_decide (k = k') && returned e then next (f (bs, e)) log else None
      | NWrite d f, CWrite d' n e :: log =>
          if bool_decide (d = d') && returned e then next (f (n, e)) log else None
      | NSetReadDeadline t f, CSetReadDeadline t' :: log => if decide (t = t') then next (f tt) log else None
      | NClose f, CClose :: log => next (f tt) log
      | NNow f, _ => next (f 0) log
      | NDone f, _ => next (f false) log
      | NSleep _ f, _ => next (f tt) log
      | (NRead _ _ | NWrite _ _ | NSetReadDeadline _ _ | NClose _), [] => Some (0%nat, None)
      | _, _ => None
      end
  end.

Lemma replay_plays {R} fuel (t : itree netE R) log n r : replay fuel t log = Some (n, r) → plays n t log r.
Proof.
  revert t log n r. induction fuel as [|fuel IH]; intros t log n r; cbn [replay]; [done|].
  assert (Hnext : ∀ u l, (λ x, (S x.1, x.2)) <$> replay fuel u l = Some (n, r) → ∃ m, n = S m ∧ plays m u l r).
  { intros u l H. apply fmap_Some in H as ([m q] & H & [= -> ->]). exists m. split; [done|by apply IH]. }
  destruct (view t) as [a|u|k f|d f|d f|f|f|f|d f] eqn:E; [destruct log as [|[]]; try done..| | |].
  - intros [= <- <-]. by apply plays_ret.
  - intros (m & -> & H)%Hnext. by eapply plays_tau.
  - intros (m & -> & H)%Hnext. by eapply plays_tau.
  - intros (m & -> & H)%Hnext. by eapply plays_tau.
  - intros (m & -> & H)%Hnext. by eapply plays_tau.
  - intros (m & -> & H)%Hnext. by eapply plays_tau.
  - intros [= <- <-]. apply plays_so_far.
  - destruct (_ && _) eqn:Hd; [|done]. apply andb_true_iff in Hd as [->%bool_decide_eq_true Hd%returned_ok]. intros (m & -> & H)%Hnext. by eapply plays_read.
  - intros [= <- <-]. apply plays_so_far.
  - destruct (_ && _) eqn:Hd; [|done]. apply andb_true_iff in Hd as [->%bool_decide_eq_true Hd%returned_ok]. intros (m & -> & H)%Hnext. by eapply plays_write.
  - intros [= <- <-]. apply plays_so_far.
  - case_decide as Hd; [|done]. subst. intros (m & -> & H)%Hnext. by eapply plays_deadline.
  - intros [= <- <-]. apply plays_so_far.
  - intros (m & -> & H)%Hnext. by eapply plays_close.
  - intros (m & -> & H)%Hnext. by eapply plays_now.
  - intros (m & -> & H)%Hnext. by eapply plays_done.
  - intros (m & -> & H)%Hnext. by eapply plays_sleep.
Qed.

(** The client writes a message; what it has sent since the last round arrives
    at the server, which reads and writes it back; the client reads it. *)
Definition fresh_packets w (before after : list conn_op) : list Packet :=
  parsed (drop (length (sent_by w before)) (sent_by w after)).
Fixpoint rounds (msgs : list bytes) (seen a b : list conn_op) : list conn_op * list conn_op :=
  match msgs with
  | [] => (a, b)
  | msg :: msgs =>
      let a1 := a ++ [OpWrite [] msg; OpSetReadDeadline (30 * Second)] in
      let b1 := b ++ [OpRead [arrive (fresh_packets end_A seen a1)] 4096; OpWrite [] msg; OpSetReadDeadline (90 * Second)] in
      let a2 := a1 ++ [OpRead [arrive (fresh_packets end_B b b1)] 4096] in
      rounds msgs a1 a2 b1
  end.
Definition session_ops : list conn_op * list conn_op := rounds testMessages [] [] [OpSetReadDeadline (90 * Second)].
Definition client_ops : list conn_op := session_ops.1.
Definition server_ops : list conn_op := session_ops.2.

Definition steps_of {R} (t : itree netE R) (log : list net_call) : nat := default 0%nat (fst <$> replay 100 t log).
Lemma client_plays : plays (steps_of runEchoTest (end_run end_A client_ops).2) runEchoTest (end_run end_A client_ops).2 (Some None).
Proof. apply (replay_plays 100). vmeq. Qed.
Lemma server_plays :
  plays (steps_of handleConnection (end_run end_B server_ops).2) handleConnection (end_run end_B server_ops).2 None.
Proof. apply (replay_plays 100). vmeq. Qed.

Lemma echo_session_witness :
  (∀ sent received, Some None ≠ Some (Some (EchoMismatch sent received))) ∧
  (Some (None : option EchoError) = Some None →
    bytes_read (end_run end_B server_ops).2 = concat testMessages ∧
    bytes_written (end_run end_B server_ops).2 = concat testMessages ∧
    bytes_read (end_run end_A client_ops).2 = concat testMessages).
Proof.
  apply (echo_session (RT:=ConcreteRuntime) (λ _, eq_refl) end_A end_B client_ops server_ops
    (steps_of runEchoTest (end_run end_A client_ops).2) (steps_of handleConnection (end_run end_B server_ops).2)
    (Some None) None end_A_joined end_B_joined).
  - by vm_compute.
  - by vm_compute.
  - apply sequential_all. vmeq.
  - apply sequential_all. vmeq.
  - apply came_fromb_all. vmeq.
  - apply came_fromb_all. vmeq.
  - apply client_plays.
  - apply server_plays.
Defined.

(** A client that sends two bytes and closes. *)
Definition short_log : list net_call :=
  [CSetReadDeadline (90 * Second); CRead 4096 [x68; x69] None; CWrite [x68; x69] 2 None; CSetReadDeadline (90 * Second);
   CRead 4096 [] (Some EEOF); CClose].
Lemma short_plays : plays (steps_of handleConnection short_log) handleConnection short_log (Some tt).
Proof. apply (replay_plays 100). vmeq. Qed.
Lemma echo_exact_witness : ∃ log', echoing log' ∧ (CClose ∉ log') ∧ ((short_log = log' ∧ Some () = None) ∨ short_log = log' ++ [CClose]).
Proof. apply (echo_exact _ short_log (Some tt) short_plays). by repeat constructor. Defined.
End Examples.
