(* ===== verification/ConnLifeProps.v ===== *)
(** * Properties of the life of a connection

    The connection's state machine as a relation, that every run follows it,
    what closing does, and what is left behind when the peer closes first. *)

From stdpp Require Import relations.
From S2P Require Import Prelude GoInt SeqNum I2CP Packet PacketProps Crypto Limits MessageStatus.
From S2P Require Import TCBCache Floats Runtime Conn ConnRecv ConnAck ConnLife ConnWrite.
From S2P Require Import Delivery ConnFrames ConnOps ConnExamples.
From Stdlib Require Import Strings.Byte.

(** The transitions of a running connection. *)
Inductive edge : ConnState → ConnState → Prop :=
| edge_syn_ack : edge StateSynSent StateEstablished
| edge_final_ack : edge StateSynRcvd StateEstablished
| edge_local_close : edge StateEstablished StateClosing
| edge_peer_close : edge StateEstablished StateClosed
| edge_close_reply : edge StateClosing StateClosed
| edge_reset s : edge s StateClosed.

Section StateMachine.
Context {I : I2CP} {B : CircBuf} {RT : GoRuntime}.
Implicit Types w : World.
#[local] Abbreviation M := (STE World ConnError).

(** A connection that is closing or closed refuses the user's calls, and so
    does one whose goroutines have been told to stop. *)
Record life_inv w : Prop := {
  li_closed : state (conn w) = StateClosed ∨ state (conn w) = StateClosing → closed (conn w) = true;
  li_ctx : ctx_done (conn w) = true → closed (conn w) = true;
}.

(** What closing releases: the place in the manager's table, the limiter's
    count and the goroutines. *)
Definition held w := (connections (mgr w), limiter (mgr w), ctx_done (conn w)).

Definition life w := (state (conn w), closed (conn w), held w).

Definition follows w w' : Prop :=
  rtc edge (state (conn w)) (state (conn w')) ∧
  (closed (conn w) = true → closed (conn w') = true) ∧
  (ctx_done (conn w) = true → ctx_done (conn w') = true) ∧
  (life_inv w → life_inv w') ∧
  (closed (conn w) = true → held w' = held w).

#[local] Instance follows_preorder : PreOrder follows.
Proof.
  split.
  - intros w. split_and!; [reflexivity|done..].
  - intros w1 w2 w3 (A1 & A2 & A3 & A4 & A5) (B1 & B2 & B3 & B4 & B5).
    split_and!; [by etransitivity|auto..]. intros H. by rewrite B5, A5 by auto.
Qed.

Lemma follows_same w w' : life w' = life w → follows w w'.
Proof.
  unfold life, held. intros [= H1 H2 H3 H4 H5].
  split_and!; [by rewrite H1|by rewrite H2|by rewrite H5| |intros _; unfold held; by rewrite H3, H4, H5].
  intros []. split; by rewrite ?H1, ?H2, ?H5.
Qed.
Lemma follows_frame {A} (m : M A) : Pres (same life) m → Pres follows m.
Proof. intros H w. apply follows_same, H. Qed.

#[local] Hint Extern 1 (Pres follows (setc _)) =>
  (apply pres_emodify; intros; apply follows_same; exact eq_refl) : typeclass_instances.
#[local] Hint Extern 1 (Pres follows (emodify _)) =>
  (apply pres_emodify; intros; apply follows_same; exact eq_refl) : typeclass_instances.

(** State changes along an edge: to an open state, or to the closed one. *)
Lemma follows_open w s :
  edge (state (conn w)) s → s ≠ StateClosed → s ≠ StateClosing → follows w (updc (λ c, c <| state := s |>) w).
Proof.
  intros He H1 H2. split_and!; [by apply rtc_once|done|done| |done]. intros [_ Hx].
  split; cbn; [by intros [|]|done].
Qed.
Lemma follows_closed w :
  follows w (updc (λ c, c <| closed := true |>) (updc (λ c, c <| state := StateClosed |>) w)).
Proof. split_and!; [apply rtc_once; constructor|done|done| |done]. by split. Qed.

#[local] Instance sendPacket_follows (pkt : Packet) : Pres follows (sendPacketLocked pkt).
Proof. apply follows_frame. unfold_send. apply _. Qed.
#[local] Instance sendAck_follows : Pres follows sendAckLocked.
Proof. unfold sendAckLocked, packetNACKs, getNACKListSliceLocked, range_keys, getc. apply _. Qed.
#[local] Instance sendChoke_follows : Pres follows sendChokeSignalLocked.
Proof. unfold sendChokeSignalLocked, packetNACKs, getNACKListSliceLocked, range_keys, getc. apply _. Qed.
#[local] Instance sendUnchoke_follows : Pres follows sendUnchokeSignalLocked.
Proof. unfold sendUnchokeSignalLocked, packetNACKs, getNACKListSliceLocked, range_keys, getc. apply _. Qed.
#[local] Instance sign_follows (pkt : Packet) kp : Pres follows (sign pkt kp).
Proof. intros w. unfold sign. destruct (SignPacket kp pkt) as [[] ?]; reflexivity. Qed.
#[local] Instance sendClose_follows : Pres follows sendCloseLocked.
Proof. unfold sendCloseLocked, getc. apply _. Qed.
#[local] Instance Now_follows : Pres follows Now.
Proof. unfold Now. apply _. Qed.

#[local] Instance sendAck_life : Pres (same life) sendAckLocked.
Proof. unfold_send. apply _. Qed.
#[local] Instance sendPacket_life (pkt : Packet) : Pres (same life) (sendPacketLocked pkt).
Proof. unfold_send. apply _. Qed.
#[local] Instance sign_life (pkt : Packet) kp : Pres (same life) (sign pkt kp).
Proof. intros w. unfold sign. by destruct (SignPacket kp pkt) as [[] ?]. Qed.
#[local] Instance sendClose_life : Pres (same life) sendCloseLocked.
Proof. unfold sendCloseLocked, getc. apply _. Qed.
#[local] Instance trySendClose_life : Pres (same life) (try sendCloseLocked).
Proof. apply _. Qed.

(** After steps that leave the life cycle alone, [k] continues from it. *)
Lemma follows_bind {A} (m : M A) (k : A → M ()) w :
  Pres (same life) m → (∀ a w', life w' = life w → follows w' (snd (k a w'))) →
  follows w (snd ((m ≫= k) w)).
Proof.
  intros Hm Hk. specialize (Hm w). unfold mbind, ste_bind.
  destruct (m w) as [[a|e|] w1]; cbn [snd] in *; [|by apply follows_same..].
  etransitivity; [by apply follows_same|]. by apply Hk.
Qed.

#[local] Instance handleSynAck_follows (pkt : Packet) : Pres follows (handleSynAckLocked pkt).
Proof.
  intros w. unfold handleSynAckLocked. rewrite getc_step. cbn [id].
  case_bool_decide as Hs; [|reflexivity]. cbn [negb]. rewrite setc_step.
  set (w1 := updc _ w). transitivity w1; [by apply follows_same|].
  assert (Hs1 : state (conn w1) = StateSynSent) by done. clearbody w1. clear Hs w.
  apply follows_bind; [unfold extractRemoteMTUFromSynAck, setc; apply _|]. intros [] w2 H2.
  apply follows_bind; [apply _|]. intros [] w3 H3. unfold setState. rewrite setc_eq. cbn [snd].
  unfold life in *. injection H2 as H2 _ _ _ _. injection H3 as H3 _ _ _ _.
  apply follows_open; [|done|done]. rewrite H3, H2, Hs1. constructor.
Qed.

Lemma handleFinalAck_follows_from (pkt : Packet) w :
  state (conn w) = StateSynRcvd → follows w (snd (handleFinalAckLocked pkt w)).
Proof.
  intros Hs. unfold handleFinalAckLocked. rewrite setc_step. set (w1 := updc _ w).
  transitivity w1; [by apply follows_same|]. assert (Hs1 : state (conn w1) = StateSynRcvd) by done.
  clearbody w1. unfold setState. rewrite setc_step.
  transitivity (updc (λ c, c <| state := StateEstablished |>) w1).
  - apply follows_open; [|done|done]. rewrite Hs1. constructor.
  - apply follows_same. unfold go. done.
Qed.

#[local] Instance handleClose_follows (pkt : Packet) : Pres follows (handleCloseLocked pkt).
Proof.
  intros w. unfold handleCloseLocked. apply follows_bind; [apply _|]. intros [] w1 _. rewrite getc_step. cbn [id].
  unfold setState, recvBroadcast. destruct (state (conn w1)) eqn:Es; try reflexivity.
  - apply follows_bind; [apply _|]. intros e w2 H2. rewrite !setc_step, setc_eq.
    etransitivity; [apply follows_closed|]. by apply follows_same.
  - rewrite !setc_step, setc_eq. etransitivity; [apply follows_closed|]. by apply follows_same.
Qed.

#[local] Instance handleReset_follows (pkt : Packet) : Pres follows (handleResetLocked pkt).
Proof.
  intros w. unfold handleResetLocked. apply follows_bind; [apply _|]. intros [] w1 _.
  unfold setState, recvBroadcast. rewrite !setc_step.
  etransitivity; [apply follows_closed|]. by apply follows_same.
Qed.

(** ** Closing *)

Definition closing_state (s : ConnState) : ConnState :=
  if decide (s = StateEstablished) then StateClosing else s.

#[local] Instance cacheTCB_life : Pres (same life) cacheTCB.
Proof. unfold cacheTCB, Now, getc. apply _. Qed.

Lemma sendCloseIf_run w : ∃ w1, sendCloseIfEstablished w = (Ok (), w1) ∧
  state (conn w1) = closing_state (state (conn w)) ∧ closed (conn w1) = closed (conn w) ∧
  ctx_done (conn w1) = ctx_done (conn w).
Proof.
  unfold sendCloseIfEstablished. rewrite getc_step. cbn [id]. unfold closing_state.
  case_bool_decide as Hs; cbn [negb].
  - rewrite decide_True by done.
    destruct (total_run life (try sendCloseLocked) w _ _) as (e & w1 & E & H).
    rewrite (ste_step _ _ _ _ _ E). unfold setState. rewrite setc_eq. eexists. split; [done|].
    unfold life, held in H. injection H as _ Hc _ _ Hx. done.
  - rewrite decide_False by done. by exists w.
Qed.

(** What the manager and the connection's waiters see. *)
Definition reg w := (manager (conn w), localPort (conn w), remotePort (conn w),
  connections (mgr w), limiter (mgr w), persistTimer (conn w), recvCond (conn w), sendCond (conn w)).

Definition life_reg w := (life w, reg w).

#[local] Instance sendPacket_life_reg (pkt : Packet) : Pres (same life_reg) (sendPacketLocked pkt).
Proof. unfold_send. apply _. Qed.
#[local] Instance sign_life_reg (pkt : Packet) kp : Pres (same life_reg) (sign pkt kp).
Proof. intros w. unfold sign. by destruct (SignPacket kp pkt) as [[] ?]. Qed.
#[local] Instance sendClose_life_reg : Pres (same life_reg) sendCloseLocked.
Proof. unfold sendCloseLocked, getc. apply _. Qed.
#[local] Instance cacheTCB_life_reg : Pres (same life_reg) cacheTCB.
Proof. unfold cacheTCB, Now, getc. apply _. Qed.
#[local] Instance cacheTCB_total : Total cacheTCB.
Proof. unfold cacheTCB, Now, getc. apply _. Qed.

(** What a connection that closes leaves behind. *)
Record closed_down w w' : Prop := {
  cd_state : state (conn w') = closing_state (state (conn w));
  cd_closed : closed (conn w') = true;
  cd_ctx : ctx_done (conn w') = true;
  cd_timer : persistTimer (conn w') = None;
  cd_readers : (recvCond (conn w) < recvCond (conn w'))%nat;
  cd_writers : (sendCond (conn w) < sendCond (conn w'))%nat;
  cd_connections : connections (mgr w') =
    if manager (conn w) then delete (localPort (conn w), remotePort (conn w)) (connections (mgr w))
    else connections (mgr w);
  cd_limiter : limiter (mgr w') =
    if manager (conn w) then (λ l, snd (ConnectionClosed l)) <$> limiter (mgr w) else limiter (mgr w);
}.

Lemma sendCloseIf_reg w w1 : sendCloseIfEstablished w = (Ok (), w1) → reg w1 = reg w.
Proof.
  unfold sendCloseIfEstablished. rewrite getc_step. cbn [id]. case_bool_decide; cbn [negb].
  - destruct (total_run life_reg (try sendCloseLocked) w _ _) as (e & w2 & E & H').
    rewrite (ste_step _ _ _ _ _ E). unfold setState. rewrite setc_eq. intros [= <-].
    apply (f_equal snd) in H'. exact H'.
  - by intros [= <-].
Qed.

Lemma stopPersist_eq w :
  stopPersistTimerLocked w = (Ok (), updc (λ c, c <| persistTimer := None |> <| persistStopChan := None |>) w).
Proof.
  unfold stopPersistTimerLocked. rewrite getc_step. cbn [id].
  assert (H1 : ∀ (w0 : World) b, (b = false → persistTimer (conn w0) = None) →
    ewhen b (setc (λ c, c <| persistTimer := None |>)) w0 =
      (Ok () : result ConnError (), updc (λ c, c <| persistTimer := None |>) w0)).
  { intros w0 [|] Hb; [done|]. unfold ewhen, mret, ste_ret. rewrite updc_id; [done|].
    specialize (Hb eq_refl). unfold upd, set_persistTimer. rewrite <-Hb. by destruct (conn w0). }
  assert (H2 : ∀ (w0 : World) b, (b = false → persistStopChan (conn w0) = None) →
    ewhen b (setc (λ c, c <| persistStopChan := None |>)) w0 =
      (Ok () : result ConnError (), updc (λ c, c <| persistStopChan := None |>) w0)).
  { intros w0 [|] Hb; [done|]. unfold ewhen, mret, ste_ret. rewrite updc_id; [done|].
    specialize (Hb eq_refl). unfold upd, set_persistStopChan. rewrite <-Hb. by destruct (conn w0). }
  rewrite (ste_step _ _ w () (updc (λ c, c <| persistTimer := None |>) w)).
  - rewrite H2; [done|]. intros Hb%bool_decide_eq_false. by apply eq_None_not_Some.
  - apply H1. intros Hb%bool_decide_eq_false. by apply eq_None_not_Some.
Qed.

(** The manager forgets the connection. *)
Definition unregistered w : World :=
  if manager (conn w) then
    w <| mgr ::= λ m, m <| connections ::= delete (localPort (conn w), remotePort (conn w)) |> |>
      <| mgr ::= λ m, m <| limiter ::= fmap (λ l, snd (ConnectionClosed l)) |> |>
  else w.

Lemma unregister_eq w :
  ewhen (manager (conn w)) (_ ← UnregisterConnection; limiterClosed) w = (Ok (), unregistered w).
Proof. unfold ewhen, unregistered. by destruct (manager (conn w)). Qed.

Lemma cleanup_run w w0 :
  reg w0 = reg w → state (conn w0) = closing_state (state (conn w)) →
  ∃ w', cleanupConnectionLocked w0 = (Ok (), w') ∧ closed_down w w'.
Proof.
  intros Hreg Hs. unfold cleanupConnectionLocked.
  destruct (total_run life_reg cacheTCB w0 _ _) as ([] & w1 & E1 & H1). rewrite (ste_step _ _ _ _ _ E1).
  rewrite getc_step. cbn [id]. unfold life_reg, life, held, reg in H1, Hreg.
  injection H1 as Hst _ _ _ _ Hm Hl Hr Hcn Hlim Hp Hrc Hsc.
  injection Hreg as Gm Gl Gr Gcn Glim Gp Grc Gsc.
  rewrite (ste_step _ _ _ _ _ (unregister_eq w1)), (ste_step _ _ _ _ _ (stopPersist_eq _)).
  rewrite !setc_step. unfold wakeBlockedGoroutines, recvBroadcast, sendBroadcast. rewrite setc_step, setc_eq.
  assert (Hc2 : conn (unregistered w1) = conn w1) by (unfold unregistered; by destruct (manager (conn w1))).
  eexists. split; [done|]. split; cbn; rewrite ?Hc2; try done; [congruence|lia|lia| |];
    unfold unregistered; rewrite Hm, Gm; destruct (manager (conn w)); cbn; congruence.
Qed.

Lemma Close_run w : closed (conn w) = false →
  ∃ w', Close w = (Ok (), w') ∧ closed_down w w'.
Proof.
  intros Hc. unfold Close. rewrite getc_step. cbn [id]. rewrite Hc.
  destruct (sendCloseIf_run w) as (w1 & E & Hs & _ & _). rewrite (ste_step _ _ _ _ _ E).
  apply cleanup_run; [by apply sendCloseIf_reg|done].
Qed.

(** *** What is sent *)

Context `{!I2CPLaws I}.

Definition close_sent (c : StreamConn) (y : Session) : Packet :=
  (base_Packet (localStreamID c) (remoteStreamID c) (sendSeq c) (recvSeq c -% 1) FlagCLOSE)
    <| Flags ::= λ f, Z.lor f (Z.lor FlagSignatureIncluded FlagFromIncluded) |>
    <| FromDestination := session_Destination y |>.

(** The words of a connection's packets fit. *)
Definition words_ok (c : StreamConn) : Prop :=
  is_u32 (localStreamID c) ∧ is_u32 (remoteStreamID c) ∧ is_u32 (sendSeq c).

Lemma close_signable c y d : words_ok c → session_Destination y = Some d → signable (close_sent c y) d.
Proof.
  intros (H1 & H2 & H3) Hd. pose proof (u32_range (recvSeq c - 1)).
  (split; [done..| |]); [cbn; lia|]. split; cbn; done || lia.
Qed.

(** The messages to the peer that [new] are: one, which the peer parses to [q]. *)
Definition sends_to_peer (c : StreamConn) (new : list Message) (q : Packet) : Prop :=
  ∃ bs n, new = [MkMessage (dest c) (localPort c) (remotePort c) bs n] ∧ Unmarshal bs empty_Packet = (Ok (), q).

Definition wire_part w := (conn w, outbox w, sends w).
#[local] Instance trackMessage_wire s n b : Pres (same wire_part) (trackMessage s n b).
Proof. unfold trackMessage, Now, getc. apply _. Qed.

(** A packet without payload that can be marshalled is sent and forgotten. *)
Lemma sendPacket_emits (pkt : Packet) bs y w :
  Marshal pkt = Ok bs → Payload pkt = [] → session (conn w) = Some y → send_ok (sends w) = true →
  ∃ n w', sendPacketLocked pkt w = (Ok (), w') ∧
    outbox w' = outbox w ++ [MkMessage (dest (conn w)) (localPort (conn w)) (remotePort (conn w)) bs n].
Proof.
  intros Hm Hp Hy Hs. unfold sendPacketLocked.
  rewrite (ste_step _ _ w bs w) by (unfold marshal; by rewrite Hm).
  rewrite (ste_step _ _ w () w) by (unfold trackPacketForRetransmission; by rewrite Hp).
  destruct (total_run wire_part (trackMessage (SequenceNum pkt) (Z.of_nat (length bs))
    (negb (length (Payload pkt) =? 0)%nat)) w _ _) as (nonce & w1 & E1 & H1).
  injection H1 as Hc1 Ho1 Hs1. set (msg := MkMessage (dest (conn w)) (localPort (conn w)) (remotePort (conn w)) bs nonce).
  rewrite (ste_step _ _ w () (w1 <| sends ::= S |> <| outbox ::= λ o, o ++ [msg] |>)).
  - rewrite Now_step, setc_eq. exists nonce. eexists. split; [done|]. cbn. by rewrite Ho1.
  - unfold sendViaI2CPWithTracking. rewrite getc_step, Hy. rewrite (ste_step _ _ _ _ _ E1).
    unfold SendMessage. do 2 erewrite ste_step by done. rewrite Hs1, Hs. cbn -[msg]. unfold msg. by rewrite <-Hc1.
Qed.

Lemma sendClose_emits y d w :
  words_ok (conn w) → session (conn w) = Some y → session_ok y d → send_ok (sends w) = true →
  ∃ w' new q, sendCloseLocked w = (Ok (), w') ∧ outbox w' = outbox w ++ new ∧ sends_to_peer (conn w) new q ∧
    parsed_signed (close_sent (conn w) y) q.
Proof.
  intros Hw Hy Hok Hs. destruct (so_key _ _ Hok) as (kp & Hkp & _).
  destruct (signed_arrives _ d y kp (close_signable (conn w) y d Hw (so_dest _ _ Hok)) Hok Hkp)
    as (sig & H1 & H2 & H3 & H4).
  set (pkt := (close_sent (conn w) y) <| Signature := sig |>) in *.
  destruct (sendPacket_emits pkt (wire pkt) y w H2 eq_refl Hy Hs) as (n & w' & E & Ho).
  exists w'. eexists. exists (wire_view pkt). split_and!; [|exact Ho|by eexists _, _|].
  - unfold sendCloseLocked. rewrite getc_step. cbn [id]. cbv zeta. rewrite Hy, Hkp.
    rewrite (ste_step _ _ w pkt w); [exact E|].
    fold (close_sent (conn w) y). unfold sign. by rewrite (ste_step _ _ w (pkt, None) w) by (by rewrite H1).
  - exists sig. by rewrite H4.
Qed.

#[local] Instance cacheTCB_outbox : Pres (same outbox) cacheTCB.
Proof. unfold cacheTCB, Now, getc. apply _. Qed.
Lemma cleanup_outbox : Pres (same outbox) cleanupConnectionLocked.
Proof.
  unfold cleanupConnectionLocked, UnregisterConnection, limiterClosed, stopPersistTimerLocked, wakeBlockedGoroutines,
    recvBroadcast, sendBroadcast, getc, setc. apply _.
Qed.

(** What [Close] sends: an established connection whose session works a signed
    CLOSE, any other nothing. *)
Definition close_message w w' : Prop :=
  (state (conn w) ≠ StateEstablished → outbox w' = outbox w) ∧
  (state (conn w) = StateEstablished → words_ok (conn w) → send_ok (sends w) = true →
   ∀ y d, session (conn w) = Some y → session_ok y d →
   ∃ new q, outbox w' = outbox w ++ new ∧ sends_to_peer (conn w) new q ∧ parsed_signed (close_sent (conn w) y) q).

Lemma Close_message w : closed (conn w) = false → close_message w (snd (Close w)).
Proof.
  intros Hc. unfold Close. rewrite getc_step. cbn [id]. rewrite Hc.
  destruct (sendCloseIf_run w) as (w1 & E & _). rewrite (ste_step _ _ _ _ _ E).
  pose proof (cleanup_outbox w1) as Ho. unfold same in Ho. unfold sendCloseIfEstablished in E.
  rewrite getc_step in E. cbn [id] in E. split.
  - intros Hs. rewrite bool_decide_false in E by done. cbn [negb] in E. injection E as <-. done.
  - intros Hs Hw Hsend y d Hy Hok. rewrite bool_decide_true in E by done. cbn [negb] in E.
    destruct (sendClose_emits y d w Hw Hy Hok Hsend) as (w2 & new & q & E2 & Ho2 & Hp & Hq).
    rewrite (ste_step _ _ w None w2) in E by (unfold try; by rewrite E2).
    unfold setState in E. rewrite setc_eq in E. injection E as <-. exists new, q. by rewrite Ho.
Qed.

(** C27.  [Close] on a connection that is not closed always succeeds and takes
    everything down: an established connection sends its peer one signed CLOSE
    (any other sends nothing) and starts closing (any other keeps its state),
    the connection is marked closed and its goroutines told to stop, the
    persist timer is stopped, all blocked readers and writers are woken, and
    the manager forgets the connection and counts it closed once. *)
Theorem Close_exact w : closed (conn w) = false →
  ∃ w', Close w = (Ok (), w') ∧ closed_down w w' ∧ close_message w w'.
Proof.
  intros Hc. destruct (Close_run w Hc) as (w' & E & H). exists w'. pose proof (Close_message w Hc) as Hm.
  rewrite E in Hm. done.
Qed.

Lemma closing_edge s : rtc edge s (closing_state s).
Proof. unfold closing_state. case_decide; [subst; apply rtc_once; constructor|reflexivity]. Qed.

#[local] Instance Close_follows : Pres follows Close.
Proof.
  intros w. destruct (closed (conn w)) eqn:Hc.
  { unfold Close. rewrite getc_step. cbn [id]. rewrite Hc. reflexivity. }
  destruct (Close_run w Hc) as (w' & -> & []). cbn [snd].
  split_and!; [rewrite cd_state0; apply closing_edge|done|done|by split|congruence].
Qed.

(** ** The other methods *)

#[local] Instance handleNACKs_life l b : Pres (same life) (handleNACKs l b).
Proof.
  revert b. induction l as [|x l IH]; intros b; cbn [handleNACKs]; [apply _|].
  unfold reduceCongestionWindowLocked, retransmitPacketLocked, SendMessage, Now, getc, setc. apply _.
Qed.
#[local] Instance handleAck_life (pkt : Packet) : Pres (same life) (handleAckLocked pkt).
Proof.
  unfold handleAckLocked, handleNACKsLocked, handleOptionalDelayLocked, startPersistTimerLocked,
    stopPersistTimerLocked, cleanupAckedPacketsLocked, measureRTTFromAck, updateRTTEstimate,
    calculateRTO, updateCongestionWindow, sendBroadcast, go, Now, getc, setc. apply _.
Qed.
#[local] Instance sendChoke_life : Pres (same life) sendChokeSignalLocked.
Proof. unfold_send. apply _. Qed.
#[local] Instance sendUnchoke_life : Pres (same life) sendUnchokeSignalLocked.
Proof. unfold_send. apply _. Qed.
#[local] Instance manageChoke_life : Pres (same life) manageChokeStateLocked.
Proof.
  unfold manageChokeStateLocked, updateChokeStateForUsage, calculateBufferUsage, getc, setc. apply _.
Qed.
#[local] Instance deliver_life fuel : Pres (same life) (deliverBufferedPackets fuel).
Proof.
  induction fuel as [|fuel IH]; cbn [deliverBufferedPackets];
    unfold writeRecvBuf, removeFromNACKListLocked, getc, setc; apply _.
Qed.
#[local] Instance addMissing_life n i : Pres (same life) (addMissingSequencesFrom i n).
Proof.
  revert i. induction n as [|n IH]; intros i; cbn [addMissingSequencesFrom];
    unfold shouldAddToNACKListLocked, getc, setc; apply _.
Qed.
#[local] Instance handleData_life (pkt : Packet) : Pres (same life) (handleDataLocked pkt).
Proof.
  unfold handleDataLocked, processInSequencePacketLocked, handleOutOfOrderPacketLocked,
    handleBufferFullLocked, updateNACKListLocked, calculateSequenceGapLocked,
    addMissingSequencesToNACKListLocked, deliverBufferedPacketsLocked, removeFromNACKListLocked,
    writeRecvBuf, recvBroadcast, getc, setc. apply _.
Qed.

#[local] Instance dispatch_follows (pkt : Packet) : Pres follows (dispatchPacketByFlags pkt).
Proof.
  intros w. unfold dispatchPacketByFlags. rewrite getc_step. cbn [id]. cbv zeta.
  case_if; [apply handleSynAck_follows|]. case_if.
  { apply handleFinalAck_follows_from. repeat (apply andb_true_iff in Hif0 as [Hif0 _]).
    by apply bool_decide_eq_true in Hif0. }
  case_if; [apply handleClose_follows|]. case_if; [apply handleReset_follows|].
  case_if; [apply follows_frame, _|]. case_if; [apply follows_frame, _|reflexivity].
Qed.

#[local] Instance receive_follows : Pres follows receiveLoopStep.
Proof.
  unfold receiveLoopStep, processPacket, getc. apply pres_bind; [apply _|apply _|]. intros c.
  destruct (recvChan c); apply _.
Qed.

#[local] Instance retransmitTimedOut_life l : Pres (same life) (retransmitTimedOutPacketsLocked l).
Proof.
  induction l as [|x l IH]; cbn [retransmitTimedOutPacketsLocked]; [apply _|].
  unfold retransmitPacketLocked, SendMessage, Now, getc, setc. apply _.
Qed.
#[local] Instance check_life : Pres (same life) checkRetransmissions.
Proof.
  unfold checkRetransmissions, findTimedOutPacketsLocked, applyExponentialBackoffLocked, range_keys,
    Now, getc, setc. apply _.
Qed.
#[local] Instance tick_follows : Pres follows retransmitTimerTick.
Proof. pose proof (follows_frame checkRetransmissions check_life). unfold retransmitTimerTick. apply _. Qed.

#[local] Instance consume_life n : Pres (same life) (consumeBufferDataLocked n).
Proof. unfold consumeBufferDataLocked, writeRecvBuf, getc, setc. cbv zeta. apply _. Qed.
#[local] Instance postRead_life : Pres (same life) handlePostReadActionsLocked.
Proof.
  unfold handlePostReadActionsLocked, deliverBufferedPacketsLocked, calculateBufferUsage, getc. apply _.
Qed.
#[local] Instance chunk_life chunk : Pres (same life) (sendDataChunk chunk).
Proof. unfold sendDataChunk, getResendDelaySeconds, getc, setc. cbv zeta. apply _. Qed.
#[local] Instance incoming_life pick (pkt : Packet) : Pres (same life) (handleIncomingPacket pick pkt).
Proof. unfold handleIncomingPacket, getc, setc. apply _. Qed.
#[local] Instance inactivity_life : Pres (same life) checkInactivity.
Proof. unfold checkInactivity, Now, getc, setc. apply _. Qed.
#[local] Instance probe_life : Pres (same life) sendProbePacketLocked.
Proof.
  unfold sendProbePacketLocked, SendMessage, getc, setc. apply pres_bind; [apply _..|]. intros c.
  cbv zeta. apply _.
Qed.
#[local] Instance persist_life : Pres (same life) persistTimerFired.
Proof. unfold persistTimerFired, getc. apply _. Qed.
#[local] Instance delivered_life s : Pres (same life) (handleMessageDelivered s).
Proof. unfold handleMessageDelivered, getc, setc. apply _. Qed.
#[local] Instance failed_life s r : Pres (same life) (handleMessageFailed s r).
Proof. unfold handleMessageFailed, sendViaI2CP, SendMessage, getc, setc. cbv zeta. apply _. Qed.

Lemma run_follows (ops : list conn_op) w : follows w (conn_run ops w).
Proof.
  apply (conn_run_kept follows); try apply _;
    try (intros; apply follows_frame; unfold SetDeadline, SetReadDeadline, SetWriteDeadline,
           SetInactivityTimeout, recvBroadcast, sendBroadcast, setc; apply _).
  - intros waits k He. apply Read_env; [apply _|apply _| | |exact He]; intros; apply follows_frame, _.
  - intros waits data He. apply Write_env; [apply _|apply _| |exact He].
    intros chunk w1 _ _. apply (follows_frame (sendDataChunk chunk)), _.
Qed.

(** C26.  The connection state machine.  Every run, whatever arrives and in
    whatever order, moves the state only along the edges of the state
    machine, never reopens a closed connection nor restarts its goroutines,
    and keeps: a closing or closed connection, or one whose goroutines have
    been told to stop, is marked closed. *)
Theorem state_machine (ops : list conn_op) w :
  let w' := conn_run ops w in
  rtc edge (state (conn w)) (state (conn w')) ∧
  (closed (conn w) = true → closed (conn w') = true) ∧
  (ctx_done (conn w) = true → ctx_done (conn w') = true) ∧
  (life_inv w → life_inv w').
Proof. destruct (run_follows ops w) as (H1 & H2 & H3 & H4 & _). done. Qed.

(** A CLOSE or RESET that is taken: one that is signed must verify. *)
Definition verifies (pkt : Packet) : Prop :=
  has_flag (Flags pkt) FlagSignatureIncluded = true → fst (VerifyPacketSignature pkt) = Ok ().

Lemma verifyIfSigned_ok (pkt : Packet) w : verifies pkt → verifyIfSigned pkt w = (Ok (), w).
Proof.
  intros Hv. unfold verifyIfSigned. destruct (has_flag _ FlagSignatureIncluded) eqn:Hf; [|done].
  specialize (Hv Hf). destruct (VerifyPacketSignature pkt) as [[[]|e|] q]; done.
Qed.

(** C39.  A peer that closes first leaves a leak.  Once the peer's CLOSE or
    RESET, signed as this library signs its own or not, has been handled on an
    open connection, the connection is closed, and no later operation, [Close]
    included, releases what it holds: it stays in the manager's table and in
    the limiter's count, and its goroutines are never told to stop. *)
Theorem peer_close_never_released (pkt : Packet) (ops : list conn_op) w :
  verifies pkt →
  has_flag (Flags pkt) FlagCLOSE = true ∧ state (conn w) = StateEstablished ∨
  has_flag (Flags pkt) FlagRESET = true ∧ has_flag (Flags pkt) FlagCLOSE = false →
  has_flag (Flags pkt) FlagSYN = false →
  let w' := conn_run ops (snd (dispatchPacketByFlags pkt w)) in
  closed (conn w') = true ∧ state (conn w') = StateClosed ∧ held w' = held w.
Proof.
  intros Hv Hfl Hsyn. cbv zeta.
  assert (Hd : let w1 := snd (dispatchPacketByFlags pkt w) in
    closed (conn w1) = true ∧ state (conn w1) = StateClosed ∧ held w1 = held w).
  { unfold dispatchPacketByFlags. rewrite getc_step. cbn [id]. cbv zeta. rewrite Hsyn. cbn [andb negb].
    destruct Hfl as [[Hc Hs]|[Hr Hc]]; rewrite Hc, ?Hs, ?Hr; cbn [negb andb]; rewrite !andb_false_r; cbn [andb].
    - unfold handleCloseLocked. rewrite (ste_step _ _ w () w) by by apply verifyIfSigned_ok.
      rewrite getc_step. cbn [id]. rewrite Hs.
      destruct (total_run life (try sendCloseLocked) w _ _) as (e & w1 & E & H).
      rewrite (ste_step _ _ _ _ _ E). unfold setState, recvBroadcast. rewrite !setc_step, setc_eq.
      unfold life in H. injection H as _ _ H1 H2 H3. split_and!; [done|done|]. unfold held. cbn. congruence.
    - unfold handleResetLocked. rewrite (ste_step _ _ w () w) by by apply verifyIfSigned_ok.
      unfold setState, recvBroadcast. rewrite !setc_step. by split_and!. }
  destruct Hd as (Hc & Hs & Hh).
  destruct (run_follows ops (snd (dispatchPacketByFlags pkt w))) as (H1 & H2 & _ & _ & H5).
  split_and!; [by apply H2| |by rewrite H5].
  rewrite Hs in H1. clear -H1. remember StateClosed as s eqn:E in H1. revert E.
  induction H1 as [s|s s1 s2 H1 _ IH]; intros ->; [done|]. apply IH. by inversion H1.
Qed.
End StateMachine.

Section Examples.
(** The CLOSE the peer's end of the connection sends when it is closed. *)
Definition peer_end : World :=
  updc (λ c, c <| session := Some session_B |> <| Conn.dest := Some dest_A |>) world_ex.
Definition closing_peer : @Packet ConcreteI2CP :=
  match outbox (snd (Close peer_end)) with
  | m :: _ => match unmarshal_fresh (m_data m) with Ok q => q | _ => empty_Packet end
  | [] => empty_Packet
  end.
Lemma Close_exact_witness :
  ∃ w', Close world_ex = (Ok (), w') ∧ closed_down world_ex w' ∧ close_message world_ex w'.
Proof. apply (Close_exact world_ex). done. Defined.

Definition registered_ex : World := world_ex <| conn ::= λ c, c <| manager := true |> |>
  <| mgr ::= λ m, m <| connections := {[(10, 20) := 1%positive]} |> |>.
Lemma peer_close_never_released_witness :
  let w' := conn_run [OpClose; OpRetransmitTick] (snd (dispatchPacketByFlags closing_peer registered_ex)) in
  has_flag (Flags closing_peer) FlagSignatureIncluded = true ∧ connections (mgr w') !! (10, 20) = Some 1%positive ∧
  closed (conn w') = true ∧ state (conn w') = StateClosed ∧ held w' = held registered_ex.
Proof.
  split; [vmeq|]. split; [vmeq|].
  apply (peer_close_never_released closing_peer [OpClose; OpRetransmitTick] registered_ex);
    [intros _; vmeq|left; split; vmeq|vmeq].
Defined.
End Examples.
