(* ===== verification/StreamEnd.v ===== *)
(** * The end of a stream

    What the reader gets once the peer's CLOSE has been processed: what has
    arrived until then, and the end of the file, whether or not packets are
    missing. *)

From S2P Require Import Prelude GoInt SeqNum I2CP Packet PacketProps PacketHeader Floats Crypto Runtime.
From S2P Require Import Conn Delivery ConnRecv ConnAck ConnLife ConnWrite ConnFrames ConnOps ConnExamples.
From S2P Require Import ConnRecvProps ConnWriteProps ConnLifeProps ConnTx Transfer.
From Stdlib Require Import Strings.Byte.

(** ** Reading to the end *)

Section Reading.
Context {I : I2CP} {B : CircBuf} `{!CircBufLaws B} {RT : GoRuntime}.
Implicit Types w : World.

(** A reader that calls [Read] with a buffer of [k] bytes until it returns an
    error, as [io.ReadAll] does. *)
Fixpoint read_all (fuel k : nat) w : bytes * option ConnError * World :=
  match fuel with
  | O => ([], None, w)
  | S fuel =>
      match Read [] k w with
      | (Ok (bs, None), w') => let '(r, e, w'') := read_all fuel k w' in (bs ++ r, e, w'')
      | (Ok (bs, Some e), w') => (bs, Some e, w')
      | (_, w') => ([], None, w')
      end
  end.

Definition unread w : bytes := buf_Bytes (recvBuf (conn w)).

#[local] Instance close_rx : Pres (same rx) sendCloseLocked.
Proof. unfold_send. apply _. Qed.

Context (base : Z) (payload : nat → bytes).

(** The receive side of a connection that may be closed. *)
Record drained w (n : nat) (arr : gset nat) : Prop := {
  dr_rx : RxInv base payload w n arr;
  dr_next : n ∉ arr;
  dr_exact : exact (recvBuf (conn w));
  dr_fits : buf_TotalWritten (recvBuf (conn w)) <= buf_Size (recvBuf (conn w));
}.

Lemma drained_rx w w' n arr : rx w' = rx w → drained w n arr → drained w' n arr.
Proof.
  intros Hr [H1 H2 H3 H4]. apply rx_rest in Hr as H. destruct H as [_ Hb]. split; rewrite ?Hb; try done.
  by eapply RxInv_rx.
Qed.

Lemma drained_read k w n arr : drained w n arr → unread w ≠ [] →
  ∃ w', Read [] k w = (Ok (take k (unread w), None), w') ∧ drained w' n arr ∧ rest w' = rest w ∧
    unread w' = drop k (unread w).
Proof.
  intros [Hi Hn He Hf] Hne. destruct (Read_data _ _ k w n arr Hi Hn He Hf Hne) as (w' & E & Hi' & Hr & Hb & Hx & Hs).
  exists w'. split_and!; try done. split; try done. unfold exact in *. rewrite Hx, Hs, Hb, length_drop. lia.
Qed.

(** Reading a closed connection to the end returns exactly what is unread. *)
Lemma read_to_end k w n arr fuel : (0 < k)%nat → drained w n arr → closed (conn w) = true →
  (length (unread w) < fuel)%nat →
  ∃ w', read_all fuel k w = (unread w, Some EEOF, w').
Proof.
  intros Hk. revert w. induction fuel as [|fuel IH]; intros w Hd Hc Hlen; [lia|]. cbn [read_all].
  destruct (decide (unread w = [])) as [Hnil|Hne].
  - rewrite Read_EOF; [rewrite Hnil; by eexists|done|]. pose proof (dr_exact _ _ _ Hd) as He. unfold exact in He.
    unfold unread in Hnil. by rewrite He, Hnil.
  - destruct (drained_read k w n arr Hd Hne) as (w1 & -> & Hd1 & Hr & Hu).
    assert (0 < length (unread w))%nat by (destruct (unread w); [done|cbn; lia]).
    destruct (IH w1 Hd1) as (w2 & E).
    + unfold rest in Hr. congruence.
    + rewrite Hu, length_drop. lia.
    + rewrite E, Hu, take_drop. by eexists.
Qed.

(** ** The peer's CLOSE *)

Definition close_packet (q : Packet) : Prop :=
  has_flag (Flags q) FlagCLOSE = true ∧ has_flag (Flags q) FlagSYN = false ∧
  (has_flag (Flags q) FlagSignatureIncluded = true → fst (VerifyPacketSignature q) = Ok ()).

Lemma close_processed q w n arr : close_packet q → drained w n arr → rest w = (StateEstablished, false) →
  let w' := snd (processPacket q w) in
  drained w' n arr ∧ rest w' = (StateClosed, true) ∧ unread w' = unread w.
Proof.
  intros (Hc & Hs & Hv) Hd Hr. rewrite processPacket_eq.
  set (w1 := updc (λ c, c <| lastActivity := clock (ticks w) |>) (w <| ticks ::= S |>)).
  assert (Hrx1 : rx w1 = rx w) by done. clearbody w1.
  assert (Hst : state (conn w1) = StateEstablished) by (unfold rx, rest in *; congruence).
  unfold dispatchPacketByFlags. rewrite getc_step. cbn [id]. cbv zeta. rewrite Hs, Hc, Hst. cbn [andb negb].
  rewrite bool_decide_false by done. cbn [andb]. unfold handleCloseLocked.
  rewrite (ste_step _ _ w1 () w1).
  2: { unfold verifyIfSigned. destruct (has_flag _ FlagSignatureIncluded); [|done]. specialize (Hv eq_refl).
       destruct (VerifyPacketSignature q) as [[[]|e|] q']; done. }
  rewrite getc_step. cbn [id]. rewrite Hst.
  destruct (total_run rx (try sendCloseLocked) w1 _ _) as (e & w2 & E & Hrx2).
  rewrite (ste_step _ _ _ _ _ E). unfold setState, recvBroadcast. rewrite !setc_step, setc_eq. cbn [snd].
  assert (Hrx : rx w2 = rx w) by congruence. apply (drained_rx w w2) in Hd; [|done].
  split_and!; [|done|by apply (f_equal (λ r, buf_Bytes r.1.1.1.2)) in Hrx].
  destruct Hd as [[] ? ? ?]. by repeat split.
Qed.
End Reading.

(** ** The end of a stream over the network *)

Section End_of_stream.
Context {I : I2CP} `{!I2CPLaws I} {B : CircBuf} `{!CircBufLaws B} {RT : GoRuntime}.
Context (Hsend : ∀ n, send_ok n = true).
Implicit Types w : World.

Lemma stream_received base chunks sent w evs :
  0 < base < 4294967296 → Forall (λ o, o ≠ Some []) (Some <$> chunks) → emitted base 0 (Some <$> chunks) sent →
  numbers_left base sent → rx_init base w → Forall (net_ok sent) evs → net_fits (w, []) evs →
  ∃ payload n arr, drained base payload (net_run w evs).1 n arr ∧ rest (net_run w evs).1 = (StateEstablished, false).
Proof.
  intros Hb Hf [Hl _ Hlen] [Hn1 Hn2] Hr Hok Hfit.
  destruct (received base (Some <$> chunks) sent) with (w := w) (evs := evs) as (n & [H1 H2 H3 H4 H5 _]);
    [done|done|lia|lia|done..|]. by eexists _, n, _.
Qed.

(** A connection that [Close] tells its peer of. *)
Record closable w (y : Session) d : Prop := {
  cl_state : state (conn w) = StateEstablished;
  cl_open : closed (conn w) = false;
  cl_words : words_ok (conn w);
  cl_session : session (conn w) = Some y;
  cl_works : session_ok y d;
}.

(** The message [Close] sends is a valid CLOSE to whoever parses it. *)
Lemma Close_delivers w y d : closable w y d →
  ∃ m q, drop (length (outbox w)) (outbox (snd (Close w))) = [m] ∧ unmarshal_fresh (m_data m) = Ok q ∧ close_packet q.
Proof.
  intros []. destruct (Close_message w cl_open0) as [_ H].
  destruct (H cl_state0 cl_words0 (Hsend _) y d cl_session0 cl_works0) as (new & q & -> & (bs & n & -> & Hq) & sig & -> & Hv).
  eexists. exists (wire_view ((close_sent (conn w) y) <| Signature := sig |>)). rewrite drop_app_length.
  split; [reflexivity|]. split; [unfold unmarshal_fresh; cbn; by rewrite Hq|]. by split_and!.
Qed.

(** C3.  The end of a stream.  After the sender of [reliable_stream] has
    written it calls [Close], which sends one message.  When that message
    arrives, after the network has delivered what it delivers, a reader that
    reads on with a buffer of any positive size comes to the end of the file,
    having got exactly what had arrived: all of the stream if everything sent
    had arrived, and otherwise a prefix.  The end of the file is reported in
    both cases: the sequence number of the CLOSE, which tells whether packets
    are missing, plays no part. *)
Theorem close_ends_stream ws wr (ops : list conn_op) (evs : list net_event) (y : Session) d (k : nat) :
  ready_to_send ws → Forall (λ op, single_writer op = true) ops →
  rx_init (sendSeq (conn ws)) wr → (0 < k)%nat →
  let '(ws', written) := tx_run ws ops in
  let sent := drop (length (outbox ws)) (outbox ws') in
  closable ws' y d → numbers_left (sendSeq (conn ws)) sent → Forall (net_ok sent) evs → net_fits (wr, []) evs →
  ∃ m, drop (length (outbox ws')) (outbox (snd (Close ws'))) = [m] ∧
    let '(w1, got) := net_run wr evs in
    let '(more, e, _) := read_all (S (length (unread w1))) k (deliver_packet m w1) in
    e = Some EEOF ∧ got ++ more = arrived (w1, got) ∧ got ++ more `prefix_of` written ∧
    ((∀ m, m ∈ sent → plain_message m → NetDeliver m ∈ evs) → got ++ more = written).
Proof.
  intros Hs Hops Hr Hk. pose proof (tx_run_wrote _ _ _ Hsend ops ws Hops (sender_starts ws Hs)) as (chunks & Hi & Hc).
  destruct (tx_run ws ops) as [ws' written]. cbn [fst snd] in Hi, Hc. intros sent Hcl Hnum Hok Hfit. subst written.
  destruct (Close_delivers ws' y d Hcl) as (m & q & Hm & Hmq & Hq). exists m. split; [done|].
  destruct (TxInv_sent _ _ _ _ _ Hi) as [Hf He].
  destruct (stream_arrives (sendSeq (conn ws)) chunks sent wr evs) as [Hpre Hall]; [apply Hs|done..|].
  destruct (stream_received (sendSeq (conn ws)) chunks sent wr evs) as (payload & n & arr & Hd & Hrest); [apply Hs|done..|].
  destruct (net_run wr evs) as [w1 got]. cbn [fst] in Hd, Hrest. unfold deliver_packet. rewrite Hmq.
  destruct (close_processed _ _ q w1 n arr Hq Hd Hrest) as (Hd2 & Hr2 & Hu).
  destruct (read_to_end _ _ k (snd (processPacket q w1)) n arr (S (length (unread w1))) Hk Hd2) as (w3 & ->).
  - unfold rest in Hr2. congruence.
  - rewrite Hu. lia.
  - rewrite Hu. by split_and!.
Qed.
End End_of_stream.

(** ** Concrete runs *)

Section Examples.
(** Of the two packets that carry the four bytes only the first arrives before
    the CLOSE. *)
#[local] Abbreviation sent_ex := (drop (length (outbox sender_ex)) (outbox tx_ex)).
Definition early_evs : list net_event := NetDeliver <$> take 1 sent_ex.

Definition summary (k : nat) : list (bytes * bytes * option ConnError) :=
  (λ m, let '(w1, got) := net_run receiver_ex early_evs in
   let '(more, e, _) := read_all (S (length (unread w1))) k (deliver_packet m w1) in (got, more, e)) <$>
  drop (length (outbox tx_ex)) (outbox (snd (Close tx_ex))).
Example early_close_ex : summary 2 = [([], [x61; x62; x63], Some EEOF)].
Proof. vmeq. Qed.

Lemma tx_ex_closable : closable tx_ex session_A dest_A.
Proof. split; [vmeq|vmeq|by repeat split; vm_compute|vmeq|apply session_A_ok]. Qed.

Lemma close_ends_stream_witness :
  ∃ m, drop (length (outbox tx_ex)) (outbox (snd (Close tx_ex))) = [m] ∧
    let '(w1, got) := net_run receiver_ex early_evs in
    let '(more, e, _) := read_all (S (length (unread w1))) 2 (deliver_packet m w1) in
    e = Some EEOF ∧ got ++ more = arrived (w1, got) ∧ got ++ more `prefix_of` [x61; x62; x63; x64] ∧
    ((∀ m, m ∈ sent_ex → plain_message m → NetDeliver m ∈ early_evs) → got ++ more = [x61; x62; x63; x64]).
Proof.
  pose proof (close_ends_stream (RT:=ConcreteRuntime) (λ _, eq_refl) sender_ex receiver_ex tx_ops early_evs session_A
    dest_A 2 sender_ex_ready tx_ops_single receiver_ex_init (Nat.lt_0_succ 1)) as H.
  rewrite tx_ex_eq in H. cbv beta iota zeta in H. refine (H tx_ex_closable _ _ _); clear H.
  - split; vm_compute; reflexivity.
  - apply Forall_fmap, Forall_take, Forall_forall. intros m Hm. split; [done|]. apply plainb_plain.
    assert (Ha : Forall (λ m, plainb m = true) sent_ex)
      by (apply (Forall_when plainb); [by apply Forall_true|vmeq]).
    rewrite Forall_forall in Ha. by apply Ha.
  - vm_compute. repeat split; discriminate.
Defined.
End Examples.
