(* ===== verification/Acks.v ===== *)
(** * What an acknowledgement stands for

    Two places where the number a packet acknowledges and what has become of
    the data part company: the receiver acknowledges a packet whose bytes
    overwrite others that have not been read, and the sender takes note of the
    number a data packet carries without taking the packets it covers out of
    flight. *)

From S2P Require Import Prelude GoInt SeqNum I2CP Packet PacketProps PacketHeader Floats Crypto Runtime.
From S2P Require Import Conn ConnRecv ConnAck ConnLife ConnWrite ConnFrames ConnOps ConnExamples.
From S2P Require Import ConnRecvProps ConnAckProps ConnWriteProps ConnLifeProps.
From Stdlib Require Import Strings.Byte.

(** ** The acknowledgements a receiver sends *)

Section Sending.
Context {I : I2CP} `{!I2CPLaws I} {B : CircBuf} {RT : GoRuntime}.
Context (Hsend : ∀ n, send_ok n = true).
Implicit Types w : World.
#[local] Abbreviation M := (STE World ConnError).

(** The message is to the peer of [c], which parses it to a plain
    acknowledgement of everything up to [s]. *)
Definition acknowledges (c : StreamConn) (s : Z) (m : Message) : Prop :=
  m_dest m = dest c ∧ m_localPort m = localPort c ∧ m_remotePort m = remotePort c ∧
  ∃ q, unmarshal_fresh (m_data m) = Ok q ∧ plain_flags q ∧ has_flag (Flags q) FlagNoACK = false ∧
    SequenceNum q = 0 ∧ AckThrough q = s.

Definition plain_ack (a b k flags delay : Z) (nacks : list Z) : Packet :=
  (base_Packet a b 0 k flags) <| OptionalDelay := delay |> <| NACKs := nacks |>.

Lemma ack_parses a b k flags delay nacks :
  flags = 0 ∨ flags = FlagDelayRequested → (length nacks ≤ 255)%nat →
  let p := plain_ack a b k flags delay nacks in
  Marshal p = Ok (wire p) ∧ unmarshal_fresh (wire p) = Ok (wire_view (fit p)).
Proof.
  intros Hf Hn p. assert (Hu : is_u16 (Flags p)) by (destruct Hf as [->| ->]; by vm_compute).
  split.
  { apply Marshal_wire. by split; [|destruct Hf as [->| ->]..]. }
  rewrite <-(wire_fit p Hu). apply Unmarshal_wire.
  - by apply packet_wf_fit.
  - split; [cbn; by rewrite length_fmap|destruct Hf as [->| ->]; done..].
  - split; [destruct Hf as [->| ->]; done..|].
    unfold options, opt_delay, opt_from, opt_mps, opt_offline, wire_signature.
    by destruct Hf as [->| ->]; vm_compute.
Qed.

(** What acknowledgements are made from. *)
Definition ack_view w :=
  (session (conn w), recvSeq (conn w), sendingChoke (conn w), outbox w,
   (dest (conn w), localPort (conn w), remotePort (conn w), localStreamID (conn w), remoteStreamID (conn w))).

Lemma packetNACKs_run w : ∃ l w', packetNACKs w = (Ok l, w') ∧ (length l ≤ 255)%nat ∧ ack_view w' = ack_view w.
Proof.
  assert (Hnone : ∃ l w', (mret [] : M (list Z)) w = (Ok l, w') ∧ (length l ≤ 255)%nat ∧ ack_view w' = ack_view w)
    by (exists [], w; split_and!; [done|cbn; lia|done]).
  unfold packetNACKs. rewrite getc_step. destruct (0 <? _)%nat; [|done].
  unfold getNACKListSliceLocked. rewrite getc_step. destruct (_ =? _)%nat; [done|]. clear Hnone.
  erewrite ste_step by (unfold range_keys; do 2 erewrite ste_step by done; done).
  do 2 eexists. split; [done|]. split; [|done]. rewrite length_take. unfold MaxNACKs. lia.
Qed.

(** A message acknowledging all that [w] has received was sent on the way. *)
Definition acked w w' : Prop :=
  ∃ m, m ∈ drop (length (outbox w)) (outbox w') ∧ acknowledges (conn w) (recvSeq (conn w) -% 1) m.

Lemma acked_from w w1 w' : ack_view w1 = ack_view w → acked w1 w' → acked w w'.
Proof.
  unfold acked, acknowledges, ack_view. intros H. by injection H as _ -> _ -> -> -> -> _ _.
Qed.

Definition grows w w' : Prop := outbox w `prefix_of` outbox w'.
#[local] Instance grows_preorder : PreOrder grows.
Proof. split; unfold grows; [by intros w; exists []; rewrite app_nil_r|]. intros w1 w2 w3 ??. by etransitivity. Qed.

Lemma acked_grows w w1 w2 : acked w w1 → grows w1 w2 → acked w w2.
Proof.
  intros (m & Hm & Ha) [k Hk]. exists m. split; [|done]. rewrite Hk.
  destruct (decide (length (outbox w) ≤ length (outbox w1))%nat) as [Hl|Hl].
  - rewrite drop_app_le by done. apply elem_of_app. by left.
  - rewrite drop_ge in Hm by lia. by apply elem_of_nil in Hm.
Qed.

Lemma ack_sent w y flags delay nacks :
  flags = 0 ∨ flags = FlagDelayRequested → (length nacks ≤ 255)%nat → session (conn w) = Some y →
  let p := plain_ack (localStreamID (conn w)) (remoteStreamID (conn w)) (recvSeq (conn w) -% 1) flags delay nacks in
  ∃ w', sendPacketLocked p w = (Ok (), w') ∧ acked w w'.
Proof.
  intros Hf Hn Hy p. destruct (ack_parses (localStreamID (conn w)) (remoteStreamID (conn w)) (recvSeq (conn w) -% 1)
    flags delay nacks Hf Hn) as [Hm Hu]. fold p in Hm, Hu.
  destruct (sendPacket_emits p (wire p) y w Hm eq_refl Hy (Hsend _)) as (n & w' & E & Ho).
  exists w'. split; [done|]. eexists. rewrite Ho, drop_app_length. split; [by left|].
  split_and!; [done..|]. exists (wire_view (fit p)). split; [exact Hu|].
  assert (Hfl : Flags (wire_view (fit p)) = flags) by (destruct Hf as [->| ->]; reflexivity).
  unfold plain_flags. rewrite Hfl. split; [by destruct Hf as [->| ->]|].
  split; [by destruct Hf as [->| ->]|]. split; [done|]. cbn. apply u32_small, u32_range.
Qed.

Lemma sendAck_acked w y : session (conn w) = Some y → ∃ w', sendAckLocked w = (Ok (), w') ∧ acked w w'.
Proof.
  intros Hy. unfold sendAckLocked. rewrite getc_step. cbn [id]. cbv zeta.
  destruct (packetNACKs_run w) as (l & w1 & E1 & Hl & H1). rewrite (ste_step _ _ _ _ _ E1).
  destruct (ack_sent w1 y 0 0 l) as (w2 & E2 & H2); [by left|done|unfold ack_view in H1; congruence|].
  unfold ack_view in H1. injection H1 as H1 H3 H4 H5 H6 H7 H8 H9 H10.
  rewrite H3, H9, H10 in E2. exists w2. split; [exact E2|]. eapply acked_from; [|exact H2].
  unfold ack_view. congruence.
Qed.

Lemma sendChoke_acked w y : session (conn w) = Some y → ∃ w', sendChokeSignalLocked w = (Ok (), w') ∧ acked w w'.
Proof.
  intros Hy. unfold sendChokeSignalLocked. rewrite getc_step. cbn [id]. cbv zeta.
  destruct (packetNACKs_run w) as (l & w1 & E1 & Hl & H1). rewrite (ste_step _ _ _ _ _ E1), setc_step.
  unfold ack_view in H1. injection H1 as H1 H3 H4 H5 H6 H7 H8 H9 H10.
  set (w1' := updc _ w1).
  destruct (ack_sent w1' y FlagDelayRequested SendDelayChoke l) as (w2 & E2 & m & Hm & Ha);
    [by right|done|cbn; congruence|].
  exists w2. split.
  - rewrite <-H3, <-H9, <-H10. exact E2.
  - exists m. cbn in Hm. rewrite H5 in Hm. split; [done|]. unfold acknowledges in *. cbn in Ha.
    by rewrite <-H3, <-H6, <-H7, <-H8.
Qed.

#[local] Hint Extern 1 (Pres grows (emodify _)) =>
  (apply pres_emodify; intros; unfold grows; cbn;
   first [by eexists|exists []; by rewrite app_nil_r]) : typeclass_instances.
#[local] Instance sendAck_grows : Pres grows sendAckLocked.
Proof. unfold_send. apply _. Qed.
#[local] Instance recvBroadcast_grows : Pres grows recvBroadcast.
Proof. unfold recvBroadcast, setc. apply _. Qed.

Lemma manageChoke_acked w y : session (conn w) = Some y → sendingChoke (conn w) = false →
  ∃ w', manageChokeStateLocked w = (Ok (), w') ∧ (acked w w' ∨ ack_view w' = ack_view w).
Proof.
  intros Hy Hc. unfold manageChokeStateLocked. rewrite getc_step. cbn [id]. cbv zeta.
  case_if; [exists w; split; [done|by right]|]. rewrite setc_step. set (w1 := updc _ w).
  assert (Hv : ack_view w1 = ack_view w) by done.
  assert (Hy1 : session (conn w1) = Some y) by done. assert (Hc1 : sendingChoke (conn w1) = false) by done.
  clearbody w1. unfold calculateBufferUsage. rewrite ste_assoc, getc_step.
  rewrite (ste_step _ _ w1 _ w1) by done. unfold updateChokeStateForUsage. rewrite getc_step. cbn [id].
  rewrite Hc1, andb_false_r. cbn [negb]. case_if; [|exists w1; split; [done|by right]].
  destruct (sendChoke_acked w1 y Hy1) as (w2 & E & H2).
  exists w2. split; [|left; by eapply acked_from].
  rewrite (ste_step _ _ w1 None w2); [done|]. unfold try. by rewrite E.
Qed.

(** A receiver that is not choking its peer acknowledges what it delivers. *)
Lemma inseq_tail_acked (pkt : Packet) w y : session (conn w) = Some y → sendingChoke (conn w) = false →
  acked w (snd (inseq_tail pkt w)).
Proof.
  intros Hy Hc. unfold inseq_tail. rewrite getc_step.
  generalize (negb (has_flag (Flags pkt) FlagNoACK) && seqGreaterThan (AckThrough pkt) (ackThrough (conn w))). intros b.
  set (w1 := if b then updc (λ c, c <| ackThrough := AckThrough pkt |>) w else w).
  rewrite (ste_step _ _ w () w1) by (subst w1; by destruct b).
  assert (Hv1 : ack_view w1 = ack_view w) by (subst w1; by destruct b).
  assert (Hy1 : session (conn w1) = Some y) by (subst w1; by destruct b).
  assert (Hc1 : sendingChoke (conn w1) = false) by (subst w1; by destruct b).
  clearbody w1. apply (acked_from w w1); [done|]. clear Hv1 Hy Hc w.
  destruct (manageChoke_acked w1 y Hy1 Hc1) as (w2 & E2 & H2). rewrite (ste_step _ _ _ _ _ E2).
  set (k := _ ← recvBroadcast; _). destruct H2 as [H2|H2].
  { apply (acked_grows w1 w2); [done|]. subst k. unfold getc. apply (pres (R := grows)). }
  subst k. unfold recvBroadcast. rewrite setc_step, getc_step. cbn [id]. set (w3 := updc _ w2).
  assert (Hv3 : ack_view w3 = ack_view w1) by (rewrite <-H2; done). clearbody w3. clear H2 E2 w2.
  unfold ack_view in Hv3. injection Hv3 as E1 E2 E3 E4 E5 E6 E7 E8 E9. rewrite E3, Hc1. cbn [negb orb ewhen].
  destruct (sendAck_acked w3 y) as (w4 & E & H4); [congruence|].
  rewrite (ste_step _ _ w3 None w4); [|unfold try; by rewrite E]. cbn [snd mret ste_ret].
  apply (acked_from w1 w3); [unfold ack_view; congruence|done].
Qed.
End Sending.

(** ** A packet that does not fit *)

Section Overflow.
Context {I : I2CP} `{!I2CPLaws I} {B : CircBuf} `{!CircBufLaws B} {RT : GoRuntime}.
Context (base : Z) (payload : nat → bytes).
Implicit Types w : World.

(** C38.  A packet that does not fit the receive buffer is acknowledged, and
    unread data is lost.  When the expected packet arrives and its payload is
    longer than the room left, the write succeeds all the same (the documented
    ring buffer overwrites), the sequence number moves on, a plain
    acknowledgement of the packet is sent to the peer, and of the unread bytes
    followed by the payload the oldest are gone, as many as there was no room
    for: the reader will never get them and nobody is told. *)
Theorem overflow_is_silent w (n : nat) (arr : gset nat) (pkt : Packet) (y : Session) :
  (∀ k, send_ok k = true) → session (conn w) = Some y → sendingChoke (conn w) = false →
  RxInv base payload w n arr → n ∉ arr → S n ∉ arr → Z.of_nat n < LIM → stream_packet base payload n pkt →
  let b := recvBuf (conn w) in
  exact b → buf_TotalWritten b <= buf_Size b →
  buf_Size b < buf_TotalWritten b + Z.of_nat (length (payload n)) →
  ∃ w' m lost, handleDataLocked pkt w = (Ok (), w') ∧ recvSeq (conn w') = seqn base (S n) ∧
    m ∈ drop (length (outbox w)) (outbox w') ∧ acknowledges (conn w) (seqn base n) m ∧
    buf_Bytes b ++ payload n = lost ++ buf_Bytes (recvBuf (conn w')) ∧
    Z.of_nat (length lost) = buf_TotalWritten b + Z.of_nat (length (payload n)) - buf_Size b.
Proof.
  intros Hok Hy Hc Hi Hn HSn Hlim Hpkt b He Hfit Hover. rewrite (handleData_next _ _ w n arr pkt Hi Hpkt).
  destruct (processInSequence_head base payload w n arr pkt Hi Hn Hlim Hpkt)
    as (n' & w1 & -> & Hle & Hi1 & Hn' & _ & Hq & Hb).
  assert (n' = S n) as ->.
  { destruct (decide (n' = S n)) as [|Hne]; [done|].
    assert (S n ∈ {[n]} ∪ arr) as Hin by (apply (ri_prefix _ _ _ _ _ Hi1); lia).
    apply elem_of_union in Hin as [?%elem_of_singleton|?]; [lia|done]. }
  unfold send_view in Hq. injection Hq as Ho _ _ _ Hch Hs Hd Hlp Hrp _ _.
  pose proof (inseq_tail_acked Hok pkt w1 y ltac:(congruence) ltac:(congruence)) as (m & Hm & Ha).
  destruct (total_run rx (inseq_tail pkt) w1 _ _) as ([] & w2 & E & Hrx). rewrite E in Hm |- *. cbn [snd] in Hm.
  apply rx_rest in Hrx as Hr. destruct Hr as [_ Hb2]. rewrite Hb in Hb2.
  replace (S n - n)%nat with 1%nat in Hb2 by lia. cbn [seq fmap list_fmap writes foldl] in Hb2. fold b in Hb2.
  destruct (write_buf_spec b (payload n)) as (_ & _ & Hw). rewrite <-Hb2 in Hw.
  set (l := buf_Bytes b ++ payload n). unfold exact in He.
  assert (Hl : Z.of_nat (length l) = buf_TotalWritten b + Z.of_nat (length (payload n)))
    by (unfold l; rewrite length_app; lia).
  exists w2, m, (take (length l - Z.to_nat (buf_Size b)) l). split_and!.
  - done.
  - unfold rx in Hrx. injection Hrx as -> _ _ _ _ _. apply (ri_seq _ _ _ _ _ Hi1).
  - by rewrite <-Ho.
  - unfold acknowledges in *. rewrite <-Hd, <-Hlp, <-Hrp.
    replace (seqn base n) with (recvSeq (conn w1) -% 1); [done|]. rewrite (ri_seq _ _ _ _ _ Hi1).
    unfold seqn. rewrite u32_sub_l. f_equal. lia.
  - rewrite Hw. unfold lastn. by rewrite take_drop.
  - rewrite length_take. lia.
Qed.
End Overflow.

(** ** The number a data packet carries *)

Section Masked.
Context {I : I2CP} {B : CircBuf} `{!CircBufLaws B} {RT : GoRuntime}.
Context (base : Z) (payload : nat → bytes).
Implicit Types w : World.

(** What an advancing acknowledgement changes. *)
Definition in_flight w := (sentPackets (conn w), ackThrough (conn w)).

#[local] Instance sendAck_flight : Pres (same in_flight) sendAckLocked.
Proof. unfold_send. cbn. apply _. Qed.
#[local] Instance sendChoke_flight : Pres (same in_flight) sendChokeSignalLocked.
Proof. unfold_send. cbn. apply _. Qed.
#[local] Instance sendUnchoke_flight : Pres (same in_flight) sendUnchokeSignalLocked.
Proof. unfold_send. cbn. apply _. Qed.
#[local] Instance manageChoke_flight : Pres (same in_flight) manageChokeStateLocked.
Proof. unfold manageChokeStateLocked, updateChokeStateForUsage, calculateBufferUsage, getc, setc. apply _. Qed.

Lemma inseq_tail_flight (pkt : Packet) w :
  has_flag (Flags pkt) FlagNoACK = false → seqGreaterThan (AckThrough pkt) (ackThrough (conn w)) = true →
  in_flight (snd (inseq_tail pkt w)) = (sentPackets (conn w), AckThrough pkt).
Proof.
  intros Hf Hg. unfold inseq_tail. rewrite getc_step, Hf, Hg. cbn [negb andb ewhen]. rewrite setc_step.
  set (w1 := updc _ w). set (k := mbind _ manageChokeStateLocked).
  assert (Hk : Pres (same in_flight) k) by (subst k; unfold recvBroadcast, getc, setc; apply _).
  exact (Hk w1).
Qed.

(** Plain acknowledgements, one after the other. *)
Definition plain_acks (acks : list Packet) w : World := foldl (λ w a, snd (handleAckLocked a w)) w acks.

(** C16.  The number a data packet carries is noted and nothing else: when the
    expected data packet acknowledges more than was known, the connection
    takes that number as acknowledged and removes no packet from flight, and
    from then on no plain acknowledgement up to that number, however many
    arrive, advances or removes anything either.  The packets the peer has
    acknowledged stay in flight, with their data, to be sent again. *)
Theorem data_ack_masks w (n : nat) (arr : gset nat) (pkt : Packet) (acks : list Packet) :
  RxInv base payload w n arr → n ∉ arr → Z.of_nat n < LIM → stream_packet base payload n pkt →
  has_flag (Flags pkt) FlagNoACK = false → seqGreaterThan (AckThrough pkt) (ackThrough (conn w)) = true →
  Forall (λ a, seqGreaterThan (AckThrough a) (AckThrough pkt) = false) acks →
  ∃ w1, handleDataLocked pkt w = (Ok (), w1) ∧ ackThrough (conn w1) = AckThrough pkt ∧
    sentPackets (conn w1) = sentPackets (conn w) ∧
    ackThrough (conn (plain_acks acks w1)) = AckThrough pkt ∧
    ∀ s, data <$> sentPackets (conn (plain_acks acks w1)) !! s = data <$> sentPackets (conn w) !! s.
Proof.
  intros Hi Hn Hlim Hpkt Hf Hg Hacks. rewrite (handleData_next _ _ w n arr pkt Hi Hpkt).
  destruct (processInSequence_head base payload w n arr pkt Hi Hn Hlim Hpkt) as (n' & w0 & -> & _ & _ & _ & _ & Hq & _).
  unfold send_view in Hq. injection Hq as _ _ Hs Ha _ _ _ _ _ _ _. rewrite <-Ha in Hg.
  pose proof (inseq_tail_flight pkt w0 Hf Hg) as Hfl. clear Ha Hg.
  destruct (total_run rx (inseq_tail pkt) w0 _ _) as ([] & w1 & E & _). rewrite E in Hfl |- *.
  cbn [snd] in Hfl. unfold in_flight in Hfl. injection Hfl as H1 H2. rewrite Hs in H1.
  exists w1. split_and!; [done..| |].
  all: rewrite <-?H1; clear E H1; revert w1 H2; induction Hacks as [|a acks Hga _ IH]; intros w1 H2; [done|];
    cbn [plain_acks foldl]; rewrite <-H2 in Hga; destruct (handleAck_stale a w1 Hga) as ((Hd & _) & Hk);
    rewrite H2 in Hk.
  - by apply IH.
  - intros s. unfold plain_acks in IH. by rewrite IH.
Qed.
End Masked.

(** ** Concrete runs *)

Section Examples.

(** Fifteen of the sixteen bytes are taken; a packet with two bytes arrives. *)
Definition nearly_full : World :=
  updc (λ c, c <| recvBuf := MkBuffer 16 (replicate 15 x2e) 15 |>) world_ex.
Definition after_overflow : World := snd (handleDataLocked (pkt_ex 0) nearly_full).

Lemma overflow_is_silent_witness :
  buf_Bytes (recvBuf (conn after_overflow)) = replicate 14 x2e ++ payload_ex 0 ∧
  ∃ w' m lost, handleDataLocked (pkt_ex 0) nearly_full = (Ok (), w') ∧ recvSeq (conn w') = seqn 100 1 ∧
    m ∈ drop (length (outbox nearly_full)) (outbox w') ∧ acknowledges (conn nearly_full) (seqn 100 0) m ∧
    replicate 15 x2e ++ payload_ex 0 = lost ++ buf_Bytes (recvBuf (conn w')) ∧ Z.of_nat (length lost) = 1.
Proof.
  split; [vmeq|].
  apply (overflow_is_silent 100 payload_ex nearly_full 0 ∅ (pkt_ex 0) session_A);
    [done..|apply RxInv_buf, world_ex_inv|set_solver|set_solver|done|done|done|done|done].
Defined.

(** One packet is in flight; the peer's answer carries its acknowledgement,
    and a plain acknowledgement follows, twice. *)
Definition one_sent : World := updc (λ c, c <| sentPackets := {[500 := MkSent [x41] 0 0]} |>) world_ex.
Definition answer_ex : @Packet ConcreteI2CP := (pkt_ex 0) <| AckThrough := 500 |>.
Definition acks_ex : list (@Packet ConcreteI2CP) := replicate 2 (base_Packet 9 7 0 500 0).

Lemma data_ack_masks_witness :
  ∃ w1, handleDataLocked answer_ex one_sent = (Ok (), w1) ∧
    data <$> sentPackets (conn (plain_acks acks_ex w1)) !! 500 = Some [x41].
Proof.
  destruct (data_ack_masks 100 payload_ex one_sent 0 ∅ answer_ex acks_ex) as (w1 & E & _ & _ & _ & H);
    [|set_solver|done|done|done|done|by repeat constructor|].
  - eapply RxInv_rx; [|exact world_ex_inv]. done.
  - exists w1. split; [done|]. by rewrite H.
Defined.
End Examples.
