(* ===== verification/System.v ===== *)
(** * The stream manager's state (manager.go, ping.go, stream.go)

    A [StreamManager] with the connections, listeners, filters and pings that
    point to it: one heap of objects, named by numbers, because the manager,
    its listeners and the connections share them.  A method of a connection
    runs on its object through [on_conn], a method of the limiter, the
    message tracker, the TCB cache or a filter through a lens of its own; the
    rest of the file is what every part of the manager uses to send. *)

From S2P Require Import Prelude GoInt I2CP Packet Crypto Limits MessageStatus.
From S2P Require Import TCBCache Runtime Conn ConnLife AccessList.
From Stdlib Require Import Strings.Byte.

(** ** Errors *)

Inductive SysError :=
| SConn (e : ConnError) | SAccess (e : AccessError) | SLimit (e : LimitError)
| SPacket (e : PacketError) | SCrypto (e : CryptoError)
| SNoSource | SReplay | SAcceptFull | SListenerClosed | SMTULow (mtu : Z)
| SNilSession | SNilManager | SManagerClosed | SNilDest | SNoSession | SSend | SNoKey | SRand | SNewBuffer
| SCreateSession | SNilClient | SLookupStart | SLookupFailed | STimeout | SContext
(** Not an error of the code: the call is still waiting. *)
| SBlocked.

Section System.
Context {I : I2CP} {B : CircBuf} {RT : GoRuntime} {C : MessageStatusCodes}.

(** ** Objects *)

(** [acceptChan] has room for ten connections; a closed channel still yields
    what it holds. *)
Record StreamListener := MkListener {
  l_manager : bool;
  l_session : option Session;
  l_localPort : Z;
  acceptChan : list positive;
  acceptClosed : bool;
  l_localMTU : Z;
  l_limiter : bool;
  l_accessFilter : option positive;
  l_closed : bool;
}.
#[global] Instance eta_StreamListener : Eta StreamListener := λ r,
  MkListener (l_manager r) (l_session r) (l_localPort r) (acceptChan r) (acceptClosed r)
    (l_localMTU r) (l_limiter r) (l_accessFilter r) (l_closed r).
#[global] Instance set_acceptChan : Setter acceptChan := ltac:(derive_setter).
#[global] Instance set_acceptClosed : Setter acceptClosed := ltac:(derive_setter).
#[global] Instance set_l_closed : Setter l_closed := ltac:(derive_setter).

(** A message I2CP delivered. *)
Record incomingPacket := MkIncoming {
  i_protocol : Z;
  srcDest : option Destination;
  srcPort : Z;
  destPort : Z;
  i_payload : bytes;
}.

Record PingResult := MkPingResult {
  pr_RTT : Z;
  pr_Payload : bytes;
}.

(** [resultCh] has room for one result. *)
Record pendingPing := MkPendingPing {
  pp_streamID : Z;
  pp_payload : bytes;
  pp_sentAt : Z;
  resultCh : option PingResult;
}.
#[global] Instance eta_pendingPing : Eta pendingPing := λ r,
  MkPendingPing (pp_streamID r) (pp_payload r) (pp_sentAt r) (resultCh r).
#[global] Instance set_resultCh : Setter resultCh := ltac:(derive_setter).

Record PingConfig := MkPingConfig {
  AnswerPings : bool;
  PingTimeout : Z;
}.

Record pingManager := MkPingManager {
  ping_config : PingConfig;
  pendingPings : gmap Z positive;
}.
#[global] Instance eta_pingManager : Eta pingManager := λ r,
  MkPingManager (ping_config r) (pendingPings r).
#[global] Instance set_ping_config : Setter ping_config := ltac:(derive_setter).
#[global] Instance set_pendingPings : Setter pendingPings := ltac:(derive_setter).

(** [ready] closed. *)
Record lookupResult := MkLookup {
  lr_address : bytes;
  lr_dest : option Destination;
  lr_ready : bool;
}.

Record StreamManager := MkManager {
  sm_session : option Session;
  listeners : gmap Z positive;
  sm_view : ManagerView;
  pingMgr : pingManager;
  sm_accessFilter : positive;
  incomingPackets : list incomingPacket;
  processor_done : bool;
  sessionReady : bool;
  leaseSetReady : bool;
  sm_closed : bool;
  lookupResults : gmap Z positive;
}.
#[global] Instance eta_StreamManager : Eta StreamManager := λ r,
  MkManager (sm_session r) (listeners r) (sm_view r) (pingMgr r) (sm_accessFilter r)
    (incomingPackets r) (processor_done r) (sessionReady r) (leaseSetReady r) (sm_closed r)
    (lookupResults r).
#[global] Instance set_sm_session : Setter sm_session := ltac:(derive_setter).
#[global] Instance set_listeners : Setter listeners := ltac:(derive_setter).
#[global] Instance set_sm_view : Setter sm_view := ltac:(derive_setter).
#[global] Instance set_pingMgr : Setter pingMgr := ltac:(derive_setter).
#[global] Instance set_sm_accessFilter : Setter sm_accessFilter := ltac:(derive_setter).
#[global] Instance set_incomingPackets : Setter incomingPackets := ltac:(derive_setter).
#[global] Instance set_processor_done : Setter processor_done := ltac:(derive_setter).
#[global] Instance set_sessionReady : Setter sessionReady := ltac:(derive_setter).
#[global] Instance set_leaseSetReady : Setter leaseSetReady := ltac:(derive_setter).
#[global] Instance set_sm_closed : Setter sm_closed := ltac:(derive_setter).
#[global] Instance set_lookupResults : Setter lookupResults := ltac:(derive_setter).

Record Sys := MkSys {
  sm : StreamManager;
  conns : gmap positive StreamConn;
  lsts : gmap positive StreamListener;
  filters : gmap positive accessFilter;
  access_configs : gmap positive AccessListConfig;
  pings : gmap positive pendingPing;
  lookups : gmap positive lookupResult;
  y_ticks : nat;
  y_ranges : nat;
  y_sends : nat;
  y_rands : list (option bytes);
  y_outbox : list Message;
  y_spawned : list (positive * Goroutine);
}.
#[global] Instance eta_Sys : Eta Sys := λ r,
  MkSys (sm r) (conns r) (lsts r) (filters r) (access_configs r) (pings r) (lookups r)
    (y_ticks r) (y_ranges r) (y_sends r) (y_rands r) (y_outbox r) (y_spawned r).
#[global] Instance set_sm : Setter sm := ltac:(derive_setter).
#[global] Instance set_conns : Setter conns := ltac:(derive_setter).
#[global] Instance set_lsts : Setter lsts := ltac:(derive_setter).
#[global] Instance set_filters : Setter filters := ltac:(derive_setter).
#[global] Instance set_access_configs : Setter access_configs := ltac:(derive_setter).
#[global] Instance set_pings : Setter pings := ltac:(derive_setter).
#[global] Instance set_lookups : Setter lookups := ltac:(derive_setter).
#[global] Instance set_y_ticks : Setter y_ticks := ltac:(derive_setter).
#[global] Instance set_y_ranges : Setter y_ranges := ltac:(derive_setter).
#[global] Instance set_y_sends : Setter y_sends := ltac:(derive_setter).
#[global] Instance set_y_rands : Setter y_rands := ltac:(derive_setter).
#[global] Instance set_y_outbox : Setter y_outbox := ltac:(derive_setter).
#[global] Instance set_y_spawned : Setter y_spawned := ltac:(derive_setter).

(** A method of the manager or of one of its parts. *)
Abbreviation Y := (STE Sys SysError).
Implicit Types s : Sys.

(** ** Lenses *)

Definition getm {A} (f : StreamManager → A) : Y A := egets (λ s, f (sm s)).
Definition setm (f : StreamManager → StreamManager) : Y unit := emodify (λ s, s <| sm ::= f |>).
Definition setv (f : ManagerView → ManagerView) : Y unit := setm (λ m, m <| sm_view ::= f |>).

Definition SysNow : Y Z :=
  t ← egets (λ s, clock (y_ticks s));
  _ ← emodify (λ s, s <| y_ticks ::= S |>);
  mret t.

(** [for k := range m]; [sync.Map.Range] likewise. *)
Definition sys_range {A} (keys : list A) : Y (list A) :=
  n ← egets y_ranges;
  _ ← emodify (λ s, s <| y_ranges ::= S |>);
  mret (omap (λ i, keys !! Z.to_nat i) (range_order n (seqZ 0 (Z.of_nat (length keys))))).

(** The world of a connection's method, and its effects on the system. *)
Definition world_of (c : StreamConn) (s : Sys) : World :=
  MkWorld c (sm_view (sm s)) (y_ticks s) (y_ranges s) (y_sends s) (y_rands s) (y_outbox s) [].

Definition put_world (p : positive) (w : World) (s : Sys) : Sys :=
  MkSys ((sm s) <| sm_view := mgr w |>) (<[p := conn w]> (conns s)) (lsts s) (filters s)
    (access_configs s) (pings s) (lookups s) (ticks w) (ranges w) (sends w) (rands w) (outbox w)
    (y_spawned s ++ ((λ g, (p, g)) <$> spawned w)).

Definition conn_result {A} (r : result ConnError A) : result SysError A :=
  match r with Ok a => Ok a | Err e => Err (SConn e) | Panic => Panic end.

(** [conn.m()]: a method of the object [p]; of a nil pointer it panics. *)
Definition on_conn {A} (p : positive) (m : STE World ConnError A) : Y A := λ s,
  match conns s !! p with
  | None => (Panic, s)
  | Some c => let '(r, w) := m (world_of c s) in (conn_result r, put_world p w s)
  end.

Definition on_listener {A} (l : positive) (f : StreamListener → A) : Y A := λ s,
  match lsts s !! l with None => (Panic, s) | Some x => (Ok (f x), s) end.
Definition set_listener (l : positive) (f : StreamListener → StreamListener) : Y unit :=
  emodify (λ s, s <| lsts ::= alter f l |>).

(** A method of the access filter [f]. *)
Definition on_filter {A} (f : positive) (m : ST FilterWorld A) : Y A := λ s,
  match filters s !! f with
  | None => (Panic, s)
  | Some x =>
      let '(a, w) := m (MkFilterWorld (access_configs s) x) in
      (Ok a, s <| access_configs := configs w |> <| filters ::= <[f := filter_ w]> |>)
  end.

(** A method of the manager's limiter. *)
Definition on_limiter {A} (m : connectionLimiter → result LimitError A * connectionLimiter) : Y A := λ s,
  match limiter (sm_view (sm s)) with
  | None => (Panic, s)
  | Some l =>
      let '(r, l) := m l in
      (match r with Ok a => Ok a | Err e => Err (SLimit e) | Panic => Panic end,
       s <| sm ::= λ x, x <| sm_view ::= λ v, v <| limiter := Some l |> |> |>)
  end.

(** A value drawn from [rand.Read]. *)
Definition sysDraw {A} (g : list (option bytes) → result CryptoError A * list (option bytes)) : Y A :=
  rs ← egets y_rands;
  let '(r, rs) := g rs in
  _ ← emodify (λ s, s <| y_rands := rs |>);
  match r with Ok v => mret v | Err _ => fail SRand | Panic => lift Panic end.

Definition fresh_conn : Y positive := egets (λ s, base.fresh (dom (conns s))).

(** ** Sending (manager.go) *)

(** [sm.session.m()]: a nil session has no methods. *)
Definition managerSession : Y Session :=
  o ← getm sm_session;
  match o with Some x => mret x | None => lift Panic end.

(** [sm.session.SendMessage(dest, 6, localPort, remotePort, stream, 0)] *)
Definition SendMessageTo (dest : option Destination) (localPort remotePort : Z) (stream : bytes) : Y unit :=
  _ ← managerSession;
  n ← egets y_sends;
  _ ← emodify (λ s, s <| y_sends ::= S |>);
  if send_ok n
  then emodify (λ s, s <| y_outbox ::= λ o, o ++ [MkMessage dest localPort remotePort stream 0] |>)
  else fail SSend.

Definition marshalPacket (pkt : Packet) : Y bytes :=
  match Marshal pkt with
  | Ok bs => mret bs
  | Err e => fail (SPacket e)
  | Panic => lift Panic
  end.

Definition sendPacketToDest (pkt : Packet) (dest : option Destination) (localPort remotePort : Z) : Y unit :=
  data ← marshalPacket pkt;
  SendMessageTo dest localPort remotePort data.

(** [SignPacket(pkt, keyPair)]: the packet afterwards, and the error. *)
Definition signPacket (pkt : Packet) (kp : Ed25519KeyPair) : Y (Packet * option CryptoError) :=
  match SignPacket kp pkt with
  | (Ok _, p) => mret (p, None)
  | (Err e, p) => mret (p, Some e)
  | (Panic, _) => lift Panic
  end.

Definition validateResetPrerequisites (dest : option Destination) : Y unit :=
  match dest with
  | None => fail SNilDest
  | Some _ => o ← getm sm_session; match o with None => fail SNoSession | Some _ => mret () end
  end.

Definition createResetPacket (remoteStreamID : Z) : Y Packet :=
  x ← managerSession;
  let flags := Z.lor (Z.lor FlagRESET FlagSignatureIncluded) FlagFromIncluded in
  mret ((base_Packet 0 remoteStreamID 0 0 flags) <| FromDestination := session_Destination x |>).

(** [pkt.Flags &^= FlagSignatureIncluded] *)
Definition clear_signature_flag (pkt : Packet) : Packet :=
  pkt <| Flags ::= λ f, Z.ldiff f FlagSignatureIncluded |>.

Definition signResetPacket (pkt : Packet) : Y Packet :=
  x ← managerSession;
  match SigningKeyPair x with
  | None => mret (clear_signature_flag pkt)
  | Some keyPair =>
      '(pkt, e) ← signPacket pkt keyPair;
      match e with Some _ => mret (clear_signature_flag pkt) | None => mret pkt end
  end.

(** Its errors are only logged. *)
Definition sendResetPacket (dest : option Destination) (remoteStreamID localPort remotePort : Z) : Y unit :=
  e ← try (validateResetPrerequisites dest);
  match e with
  | Some _ => mret ()
  | None =>
      pkt ← createResetPacket remoteStreamID;
      pkt ← signResetPacket pkt;
      _ ← try (sendPacketToDest pkt dest localPort remotePort);
      mret ()
  end.

(** ** The tables (manager.go) *)

Definition RegisterListener (port : Z) (listener : positive) : Y unit :=
  setm (λ m, m <| listeners ::= <[port := listener]> |>).
Definition UnregisterListener (port : Z) : Y unit := setm (λ m, m <| listeners ::= delete port |>).
Definition RegisterConnectionAt (localPort remotePort : Z) (p : positive) : Y unit :=
  setv (λ v, v <| connections ::= <[(localPort, remotePort) := p]> |>).
Definition UnregisterConnectionAt (localPort remotePort : Z) : Y unit :=
  setv (λ v, v <| connections ::= delete (localPort, remotePort) |>).
End System.
