(* ===== verification/Addr.v ===== *)
(** * Addresses and names (stream.go, profile.go)

    [net.Addr] for I2P destinations, and the printed names of states and
    profiles.  The texts of a destination are go-i2cp's: fields of a class. *)

From stdpp Require Import pretty strings.
From S2P Require Import Prelude GoInt I2CP Runtime Conn System.

Class DestinationText `{I2CP} := {
  dest_Base64 : Destination → string;
  dest_Base32 : Destination → string;
}.

Section Addr.
Context {I : I2CP} {B : CircBuf} {RT : GoRuntime} {DT : DestinationText}.
#[local] Open Scope string_scope.

Record I2PAddr := MkAddr {
  addr_dest : option Destination;
  addr_port : Z;
}.

(** [Sprintf("%d", v)] *)
Definition sprint_d (v : Z) : string := pretty v.

Definition Network (a : I2PAddr) : string := "i2p".
Definition addr_String (a : I2PAddr) : string :=
  match addr_dest a with
  | None => "*:" +:+ sprint_d (addr_port a)
  | Some _ => "i2p:" +:+ sprint_d (addr_port a)
  end.

(** A nil address has no destination. *)
Definition addr_Destination (a : option I2PAddr) : option Destination := a ≫= addr_dest.
Definition addr_Base64 (a : option I2PAddr) : string :=
  match addr_Destination a with None => "" | Some d => dest_Base64 d end.
Definition addr_Base32 (a : option I2PAddr) : string :=
  match addr_Destination a with None => "" | Some d => dest_Base32 d end.

(** A [net.Addr]: an [*I2PAddr], which may be nil, or something else. *)
Inductive NetAddr := AnI2PAddr (a : option I2PAddr) | AnotherAddr.

Definition PeerDestination (addr : NetAddr) : option Destination :=
  match addr with AnI2PAddr a => addr_Destination a | AnotherAddr => None end.
Definition PeerDestinationBase64 (addr : NetAddr) : option string := dest_Base64 <$> PeerDestination addr.

Definition LocalAddr (c : StreamConn) : I2PAddr := MkAddr None (localPort c).
Definition RemoteAddr (c : StreamConn) : I2PAddr := MkAddr (dest c) (remotePort c).
Definition listener_Addr (x : StreamListener) : I2PAddr := MkAddr None (l_localPort x).

Definition Profile (c : StreamConn) : Z := profile c.
Definition RemoteProfile (c : StreamConn) : Z := remoteProfile c.

Definition state_String (s : ConnState) : string :=
  match s with
  | StateInit => "INIT"
  | StateSynSent => "SYN_SENT"
  | StateSynRcvd => "SYN_RCVD"
  | StateEstablished => "ESTABLISHED"
  | StateCloseWait => "CLOSE_WAIT"
  | StateClosing => "CLOSING"
  | StateClosed => "CLOSED"
  end.

Definition profile_String (p : Z) : string :=
  if (p =? ProfileBulk)%Z then "bulk"
  else if (p =? ProfileInteractive)%Z then "interactive"
  else "unknown(" +:+ sprint_d p +:+ ")".

(** The addresses of a connection tell its peer and its ports. *)
Lemma remote_address c : PeerDestination (AnI2PAddr (Some (RemoteAddr c))) = dest c ∧
  addr_String (LocalAddr c) = "*:" +:+ sprint_d (localPort c).
Proof. done. Qed.
End Addr.
