(* ===== verification/Ping.v ===== *)
(** * Ping and pong (ping.go)

    A ping is a signed ECHO packet with a random non-zero stream identifier;
    its answer carries the identifier back and at most 32 bytes of payload.
    A [Ping] waits on its result channel: what the other goroutines do
    meanwhile, and which case of the select fires, are arguments. *)

From S2P Require Import Prelude GoInt I2CP Packet Crypto MessageStatus Runtime Conn System.
From Stdlib Require Import Strings.Byte.

Definition MaxPingPayloadSize : nat := 32.
Definition DefaultPingConfig : PingConfig := MkPingConfig true (30 * Second).

(** The case of the select in [Ping] that fires. *)
Inductive PingSelect := SelResult | SelTimeout | SelContext.

Section Ping.
Context {I : I2CP} {B : CircBuf} {RT : GoRuntime} {C : MessageStatusCodes}.
#[local] Abbreviation Y := (STE Sys SysError).
Implicit Types pkt : Packet.

Definition newPingManager (config : option PingConfig) : pingManager :=
  MkPingManager (default DefaultPingConfig config) ∅.

Definition validatePingPrerequisites (dest : option Destination) : Y unit :=
  match dest with
  | None => fail SNilDest
  | Some _ => o ← getm sm_session; match o with None => fail SNoSession | Some _ => mret () end
  end.

(** The loop of [generateStreamID] of packet.go, with its errors. *)
Definition generateStreamID : Y Z := sysDraw Crypto.generateStreamID.

Definition signPingPacket pkt : Y Packet :=
  x ← managerSession;
  match SigningKeyPair x with
  | None => fail SNoKey
  | Some keyPair =>
      '(pkt, e) ← signPacket pkt keyPair;
      match e with Some e => fail (SCrypto e) | None => mret pkt end
  end.

Definition sendPingPacket (dest : option Destination) (streamID : Z) (payload : bytes) : Y unit :=
  x ← managerSession;
  let flags := Z.lor (Z.lor FlagECHO FlagSignatureIncluded) FlagFromIncluded in
  let pkt := (base_Packet streamID 0 0 0 flags) <| FromDestination := session_Destination x |>
               <| Payload := payload |> in
  pkt ← signPingPacket pkt;
  sendPacketToDest pkt dest 0 0.

Definition set_ping (p : positive) (f : pendingPing → pendingPing) : Y unit :=
  emodify (λ s, s <| pings ::= alter f p |>).

(** [pm.pendingPings.Store(streamID, &pendingPing{...})] *)
Definition storePing (streamID : Z) (payload : bytes) : Y positive :=
  now ← SysNow;
  p ← egets (λ s, base.fresh (dom (pings s)));
  _ ← emodify (λ s, s <| pings ::= <[p := MkPendingPing streamID payload now None]> |>);
  _ ← setm (λ m, m <| pingMgr ::= λ g, g <| pendingPings ::= <[streamID := p]> |> |>);
  mret p.
Definition deletePing (streamID : Z) : Y unit :=
  setm (λ m, m <| pingMgr ::= λ g, g <| pendingPings ::= delete streamID |> |>).

(** The select: the result is taken from the channel. *)
Definition awaitPong (p : positive) (sel : PingSelect) : Y PingResult :=
  match sel with
  | SelResult =>
      o ← egets (λ s, pings s !! p ≫= resultCh);
      match o with
      | None => fail SBlocked
      | Some r => _ ← set_ping p (λ x, x <| resultCh := None |>); mret r
      end
  | SelTimeout => fail STimeout
  | SelContext => fail SContext
  end.

(** The identifier is deleted on every way out (deferred). *)
Definition Ping (env : Sys → Sys) (sel : PingSelect) (dest : option Destination) (payload : bytes)
    : Y PingResult :=
  _ ← validatePingPrerequisites dest;
  let payload := if (MaxPingPayloadSize <? length payload)%nat then take MaxPingPayloadSize payload
                 else payload in
  streamID ← generateStreamID;
  p ← storePing streamID payload;
  r ← catch (_ ← sendPingPacket dest streamID payload; _ ← emodify env; awaitPong p sel);
  match r with
  | inr SBlocked => fail SBlocked
  | inr e => _ ← deletePing streamID; fail e
  | inl r => _ ← deletePing streamID; mret r
  end.

(** A full channel drops the result. *)
Definition handlePong pkt : Y unit :=
  if negb (SendStreamID pkt =? 0) then mret ()
  else
    let streamID := RecvStreamID pkt in
    m ← getm (λ m, pendingPings (pingMgr m));
    match m !! streamID with
    | None => mret ()
    | Some p =>
        now ← SysNow;
        set_ping p (λ x,
          match resultCh x with
          | None => x <| resultCh := Some (MkPingResult (time_Sub now (pp_sentAt x)) (Payload pkt)) |>
          | Some _ => x
          end)
    end.

Definition pongPacket pkt : Packet :=
  let payload := Payload pkt in
  let payload := if (MaxPingPayloadSize <? length payload)%nat then take MaxPingPayloadSize payload
                 else payload in
  (base_Packet 0 (SendStreamID pkt) 0 0 FlagECHO) <| Payload := payload |>.

Definition handlePing pkt (srcDest : option Destination) (srcPort destPort : Z) : Y unit :=
  c ← getm (λ m, ping_config (pingMgr m));
  if negb (AnswerPings c) then mret ()
  else if SendStreamID pkt =? 0 then mret ()
  else
    _ ← try (sendPacketToDest (pongPacket pkt) srcDest destPort srcPort);
    mret ().

Definition isPingPacket pkt : bool := has_flag (Flags pkt) FlagECHO && (0 <? SendStreamID pkt).
Definition isPongPacket pkt : bool := has_flag (Flags pkt) FlagECHO && (SendStreamID pkt =? 0).
End Ping.
