(* ===== verification/Listener.v ===== *)
(** * Listeners (stream.go)

    [StreamListener]: listening, accepting, closing, and the way of an
    incoming SYN through the access list, the limits, the checks of its source,
    signature and replay words, to a connection with a SYN-ACK sent and a
    place in the accept queue. *)

From S2P Require Import Prelude GoInt I2CP Packet Crypto Limits MessageStatus TCBCache.
From S2P Require Import Runtime Conn ConnAck ConnLife AccessList System.
From Stdlib Require Import Strings.Byte.

Section Listener.
Context {I : I2CP} {B : CircBuf} {RT : GoRuntime} {C : MessageStatusCodes}.
#[local] Abbreviation Y := (STE Sys SysError).
Implicit Types synPkt : Packet.

(** ** Listening *)

Definition acceptBacklog : nat := 10.

Definition newListener (x : StreamListener) : Y positive :=
  l ← egets (λ s, base.fresh (dom (lsts s)));
  _ ← emodify (λ s, s <| lsts ::= <[l := x]> |>);
  mret l.

Definition ListenWithMTU (session : option Session) (localPort mtu : Z) : Y positive :=
  if mtu <? MinMTU then fail (SMTULow mtu)
  else match session with
       | None => fail SNilSession
       | Some _ => newListener (MkListener false session localPort [] false (u16 mtu) false None false)
       end.

Definition Listen (session : option Session) (localPort : Z) : Y positive :=
  ListenWithMTU session localPort DefaultMTU.

(** [manager] is whether the manager passed is not nil. *)
Definition ListenWithManager (manager : bool) (localPort mtu : Z) : Y positive :=
  if mtu <? MinMTU then fail (SMTULow mtu)
  else if negb manager then fail SNilManager
  else
    m ← getm id;
    l ← newListener (MkListener true (sm_session m) localPort [] false (u16 mtu)
          (bool_decide (is_Some (limiter (sm_view m)))) (Some (sm_accessFilter m)) false);
    _ ← RegisterListener localPort l;
    mret l.

(** Receiving from an open empty channel waits. *)
Definition Accept (l : positive) : Y positive :=
  x ← on_listener l id;
  if l_closed x then fail SListenerClosed
  else match acceptChan x with
       | conn :: q => _ ← set_listener l (λ x, x <| acceptChan := q |>); mret conn
       | [] => if acceptClosed x then fail SListenerClosed else fail SBlocked
       end.

Definition Close (l : positive) : Y unit :=
  x ← on_listener l id;
  if l_closed x then mret ()
  else
    _ ← set_listener l (λ x, x <| l_closed := true |>);
    _ ← set_listener l (λ x, x <| acceptClosed := true |>);
    ewhen (l_manager x) (UnregisterListener (l_localPort x)).

(** ** Checking a SYN *)

Definition validateSYNSource synPkt (remoteDest : option Destination) : Y Destination :=
  let peerDest :=
    if has_flag (Flags synPkt) FlagFromIncluded then
      match FromDestination synPkt with Some d => Some d | None => remoteDest end
    else remoteDest in
  match peerDest with None => fail SNoSource | Some d => mret d end.

Definition verifySYNSignature synPkt : Y unit :=
  if negb (has_flag (Flags synPkt) FlagSignatureIncluded) then mret ()
  else
    match VerifyPacketSignature synPkt with
    | (Ok _, _) => mret ()
    | (Err e, _) => fail (SCrypto e)
    | (Panic, _) => lift Panic
    end.

(** The check is made only on SYNs with eight NACKs, and is skipped when our
    own destination cannot be hashed. *)
Definition verifySYNReplayPrevention (l : positive) synPkt : Y unit :=
  if negb (length (NACKs synPkt) =? 8)%nat then mret ()
  else
    x ← on_listener l id;
    match l_session x with
    | None => lift Panic
    | Some session =>
        match hashDestination (session_Destination session) with
        | None => mret ()
        | Some ourHash =>
            if forallb (λ p, (fst p =? snd p)) (zip (NACKs synPkt) (hash_words ourHash))
            then mret () else fail SReplay
        end
    end.

Definition validateIncomingSYN (l : positive) synPkt (remoteDest : option Destination) : Y unit :=
  _ ← validateSYNSource synPkt remoteDest;
  _ ← verifySYNSignature synPkt;
  verifySYNReplayPrevention l synPkt.

(** ** The access list and the limits *)

Definition checkAccessFilter (l : positive) (remoteDest : option Destination) synPkt : Y unit :=
  x ← on_listener l id;
  match l_accessFilter x with
  | None => mret ()
  | Some f =>
      r ← on_filter f (CheckAndLog remoteDest);
      match r with
      | None => mret ()
      | Some e =>
          _ ← ewhen (l_manager x) (sendResetPacket remoteDest (RecvStreamID synPkt) (l_localPort x) 0);
          fail (SAccess e)
      end
  end.

Definition handleLimitExceeded (l : positive) (action : LimitAction) (remoteDest : option Destination)
    synPkt : Y unit :=
  x ← on_listener l id;
  match action with
  | LimitActionReset =>
      ewhen (l_manager x) (sendResetPacket remoteDest (RecvStreamID synPkt) (l_localPort x) 0)
  | LimitActionDrop => mret ()
  | LimitActionHTTP =>
      ewhen (l_manager x) (sendResetPacket remoteDest (RecvStreamID synPkt) (l_localPort x) 0)
  end.

Definition checkConnectionLimits (l : positive) (remoteDest : option Destination) synPkt : Y unit :=
  x ← on_listener l id;
  if negb (l_limiter x) then mret ()
  else
    now ← SysNow;
    e ← try (on_limiter (CheckAndRecordConnection now remoteDest));
    match e with
    | None => mret ()
    | Some e =>
        o ← getm (λ m, limiter (sm_view m));
        match o with
        | None => lift Panic
        | Some cl => _ ← handleLimitExceeded l (limitAction (Limits.config cl)) remoteDest synPkt; fail e
        end
    end.

(** ** The new connection *)

Definition extractRemoteMTU synPkt (localMTU : Z) : Z :=
  if has_flag (Flags synPkt) FlagMaxPacketSizeIncluded && (0 <? MaxPacketSize synPkt)
  then MaxPacketSize synPkt else DefaultMTU.

Definition initConnectionState (l : positive) synPkt (remotePort : Z) (peerDest : Destination)
    (isn localStreamID : Z) (recvBuf : Buffer) : Y positive :=
  x ← on_listener l id;
  now ← SysNow;
  p ← fresh_conn;
  prof ← getm (λ m, if l_manager x then profileConfig (sm_view m) else 0);
  let conn := MkConn p (l_manager x) (l_session x) (Some peerDest) (l_localPort x) remotePort
    localStreamID (RecvStreamID synPkt)
    isn (SequenceNum synPkt +% 1) 0 0 0
    DefaultWindowSize DefaultWindowSize MaxWindowSize (8 * Second) (9 * Second) 0 0
    false 0 None None false 0
    (l_localMTU x) (extractRemoteMTU synPkt (l_localMTU x))
    ∅ ∅ ∅ ∅
    recvBuf [] false 0 0
    0 0 now DefaultInactivityTimeout
    prof (if has_flag (Flags synPkt) FlagProfileInteractive then ProfileInteractive else ProfileBulk)
    false StateInit in
  _ ← emodify (λ s, s <| conns ::= <[p := conn]> |>);
  _ ← on_conn p (applyCachedTCB (Some peerDest));
  mret p.

Definition createIncomingConnection (l : positive) synPkt (remotePort : Z) (peerDest : Destination)
    : Y positive :=
  isn ← sysDraw generateISN;
  localStreamID ← sysDraw generateStreamID;
  match NewBuffer (64 * 1024) with
  | None => fail SNewBuffer
  | Some recvBuf => initConnectionState l synPkt remotePort peerDest isn localStreamID recvBuf
  end.

(** Sending on a closed channel panics, also in a select with a default. *)
Definition queueConnectionForAccept (l : positive) (conn : positive) (remotePort : Z) : Y unit :=
  x ← on_listener l id;
  if acceptClosed x then lift Panic
  else if (length (acceptChan x) <? acceptBacklog)%nat then
    set_listener l (λ x, x <| acceptChan ::= λ q, q ++ [conn] |>)
  else
    _ ← on_conn conn (setc (λ c, c <| ctx_done := true |>));
    _ ← ewhen (l_manager x) (UnregisterConnectionAt (l_localPort x) remotePort);
    fail SAcceptFull.

Definition finalizeIncomingConnection (l : positive) (conn : positive) (remotePort : Z) : Y unit :=
  x ← on_listener l id;
  _ ← ewhen (l_manager x) (RegisterConnectionAt (l_localPort x) remotePort conn);
  e ← try (on_conn conn sendSynAck);
  match e with
  | Some e =>
      _ ← ewhen (l_manager x) (UnregisterConnectionAt (l_localPort x) remotePort);
      fail e
  | None =>
      _ ← on_conn conn (setState StateSynRcvd);
      _ ← on_conn conn (go GReceiveLoop);
      queueConnectionForAccept l conn remotePort
  end.

Definition handleIncomingSYN (l : positive) synPkt (remotePort : Z) (remoteDest : option Destination)
    : Y unit :=
  _ ← checkAccessFilter l remoteDest synPkt;
  _ ← checkConnectionLimits l remoteDest synPkt;
  _ ← validateIncomingSYN l synPkt remoteDest;
  peerDest ← validateSYNSource synPkt remoteDest;
  conn ← createIncomingConnection l synPkt remotePort peerDest;
  finalizeIncomingConnection l conn remotePort.
End Listener.
