(* ===== verification/Manager.v ===== *)
(** * The stream manager (manager.go)

    What I2CP's callbacks do, the queue of incoming messages and its
    dispatch to pings, listeners and connections, RESETs for what nobody
    wants, closing, and the configuration calls. *)

From S2P Require Import Prelude GoInt I2CP Packet Crypto Limits MessageStatus TCBCache.
From S2P Require Import Runtime Conn ConnAck ConnLife AccessList System Ping Listener.
From Stdlib Require Import Strings.Byte.

(** go-i2cp's session status constants. *)
Class SessionStatusCodes := {
  I2CP_SESSION_STATUS_CREATED : Z;
  I2CP_SESSION_STATUS_DESTROYED : Z;
}.
#[export] Instance ConcreteSessionStatus : SessionStatusCodes := {|
  I2CP_SESSION_STATUS_CREATED := 1;
  I2CP_SESSION_STATUS_DESTROYED := 0;
|}.

Section Manager.
Context {I : I2CP} {B : CircBuf} {RT : GoRuntime} {C : MessageStatusCodes} {SS : SessionStatusCodes}.
#[local] Abbreviation Y := (STE Sys SysError).
Implicit Types pkt : Packet.
Implicit Types incoming : incomingPacket.

(** ** Creation and the session *)

(** A filter of its own for the configuration [config]. *)
Definition allocFilter (config : option positive) : Y positive :=
  f ← egets (λ s, base.fresh (dom (filters s)));
  _ ← emodify (λ s, let w := newAccessFilter config (access_configs s) in
         s <| access_configs := configs w |> <| filters ::= <[f := filter_ w]> |>);
  mret f.

Definition newStreamManagerBase : Y unit :=
  f ← allocFilter None;
  setm (λ _, MkManager None ∅
    (MkManagerView (Some newMessageStatusTracker) (Some (newTCBCache DefaultTCBCacheConfig))
       (Some (newConnectionLimiter (Some DefaultConnectionLimitsConfig))) ∅ DefaultProfileConfig)
    (newPingManager (Some DefaultPingConfig)) f [] false false false false ∅).

(** The send to [sessionReady] has a default. *)
Definition signalReady : Y unit := setm (λ m, m <| sessionReady := true |>).

(** [client] is whether the client is not nil, [session] the new session. *)
Definition NewStreamManager (client : bool) (session : Session) : Y unit :=
  if negb client then fail SNilClient
  else _ ← newStreamManagerBase; setm (λ m, m <| sm_session := Some session |>).

Definition NewStreamManagerFromSession (client : bool) (session : option Session) : Y unit :=
  if negb client then fail SNilClient
  else match session with
       | None => fail SNilSession
       | Some _ =>
           _ ← newStreamManagerBase;
           _ ← setm (λ m, m <| sm_session := session |>);
           signalReady
       end.

Definition SetSession (session : option Session) : Y unit :=
  match session with
  | None => fail SNilSession
  | Some _ =>
      m ← getm id;
      if sm_closed m then fail SManagerClosed
      else _ ← setm (λ m, m <| sm_session := session |>); signalReady
  end.

(** [created] is whether [CreateSession] succeeds; [ready] which case of the
    select fires: the signal, or the end of the context, which is no error. *)
Definition StartSession (env : Sys → Sys) (created ready : bool) : Y unit :=
  if negb created then fail SCreateSession
  else
    _ ← emodify env;
    if ready then
      r ← getm sessionReady;
      if r : bool then setm (λ m, m <| sessionReady := false |>) else fail SBlocked
    else mret ().

Definition WaitForLeaseSet (env : Sys → Sys) (ready : bool) : Y unit :=
  _ ← emodify env;
  if ready then r ← getm leaseSetReady; (if r : bool then mret () else fail SBlocked)
  else fail SContext.

(** ** Lookups *)

Definition newLookup : Y positive :=
  p ← egets (λ s, base.fresh (dom (lookups s)));
  _ ← emodify (λ s, s <| lookups ::= <[p := MkLookup [] None false]> |>);
  mret p.

(** [request] is the identifier of the request sent; its result may arrive in
    [before], between the request and the registration, or in [after]. *)
Definition LookupDestination (request : option Z) (before after : Sys → Sys) (sel : PingSelect)
    : Y Destination :=
  p ← newLookup;
  match request with
  | None => fail SLookupStart
  | Some requestID =>
      _ ← emodify before;
      _ ← setm (λ m, m <| lookupResults ::= <[requestID := p]> |>);
      _ ← emodify after;
      let delete := setm (λ m, m <| lookupResults ::= delete requestID |>) in
      o ← egets (λ s, lookups s !! p);
      match sel, o with
      | SelResult, Some r =>
          if negb (lr_ready r) then fail SBlocked
          else
            _ ← delete;
            match lr_dest r with None => fail SLookupFailed | Some d => mret d end
      | SelResult, None => lift Panic
      | _, _ => _ ← delete; fail SContext
      end
  end.

(** Closing a closed channel panics. *)
Definition handleDestinationResult (requestId : Z) (address : bytes) (dest : option Destination) : Y unit :=
  m ← getm lookupResults;
  match m !! requestId with
  | None => mret ()
  | Some p =>
      o ← egets (λ s, lookups s !! p);
      match o with
      | None => lift Panic
      | Some r =>
          _ ← emodify (λ s, s <| lookups ::= <[p := MkLookup address dest (lr_ready r)]> |>);
          if lr_ready r then lift Panic
          else emodify (λ s, s <| lookups ::= <[p := MkLookup address dest true]> |>)
      end
  end.

(** ** Incoming messages *)

Definition incomingQueue : nat := 100.

Definition handleIncomingMessage (srcDest : option Destination) (protocol srcPort destPort : Z)
    (payload : bytes) : Y unit :=
  if negb (protocol =? 6) then mret ()
  else
    q ← getm incomingPackets;
    if (length q <? incomingQueue)%nat
    then setm (λ m, m <| incomingPackets ::=
                λ q, q ++ [MkIncoming protocol srcDest srcPort destPort payload] |>)
    else mret ().

(** The packet, and the outcome: a panic ends the processor's goroutine. *)
Definition unmarshalIncomingPacket incoming : Y Packet :=
  match Unmarshal (i_payload incoming) empty_Packet with
  | (Ok _, pkt) => mret pkt
  | (Err e, _) => fail (SPacket e)
  | (Panic, _) => lift Panic
  end.

Definition isSynPacket pkt : bool := has_flag (Flags pkt) FlagSYN && (SendStreamID pkt =? 0).

Definition handleEchoPacket pkt incoming : Y unit :=
  if isPingPacket pkt then handlePing pkt (srcDest incoming) (srcPort incoming) (destPort incoming)
  else if isPongPacket pkt then handlePong pkt
  else mret ().

Definition handleSynPacket pkt incoming : Y unit :=
  m ← getm listeners;
  match m !! destPort incoming with
  | Some listener =>
      _ ← try (handleIncomingSYN listener pkt (srcPort incoming) (srcDest incoming));
      mret ()
  | None => sendResetPacket (srcDest incoming) (SendStreamID pkt) (destPort incoming) (srcPort incoming)
  end.

Definition routeToConnection (pick : bool) pkt incoming : Y unit :=
  m ← getm (λ m, connections (sm_view m));
  match m !! (destPort incoming, srcPort incoming) with
  | Some conn => _ ← try (on_conn conn (handleIncomingPacket pick pkt)); mret ()
  | None => sendResetPacket (srcDest incoming) (SendStreamID pkt) (destPort incoming) (srcPort incoming)
  end.

Definition dispatchPacket (pick : bool) incoming : Y unit :=
  r ← catch (unmarshalIncomingPacket incoming);
  match r with
  | inr _ => mret ()
  | inl pkt =>
      if has_flag (Flags pkt) FlagECHO then handleEchoPacket pkt incoming
      else if isSynPacket pkt then handleSynPacket pkt incoming
      else routeToConnection pick pkt incoming
  end.

(** One turn of the processor's loop, until it has stopped. *)
Definition processPackets (pick : bool) : Y unit :=
  m ← getm id;
  match if processor_done m then [] else incomingPackets m with
  | [] => mret ()
  | packet :: q =>
      _ ← setm (λ m, m <| incomingPackets := q |>);
      dispatchPacket pick packet
  end.

(** ** Message status *)

(** What the tracker calls back. *)
Definition notify (n : Notice) : Y unit :=
  match n with
  | MessageDelivered conn seq => on_conn conn (handleMessageDelivered seq)
  | MessageFailed conn seq retriable => on_conn conn (handleMessageFailed seq retriable)
  end.

Fixpoint notifyAll (l : list Notice) : Y unit :=
  match l with [] => mret () | n :: l => _ ← notify n; notifyAll l end.

Definition handleMessageStatus (messageId status : Z) : Y unit :=
  v ← getm sm_view;
  match msgTracker v with
  | None => mret ()
  | Some t =>
      now ← SysNow;
      let '(notices, t) := HandleStatus now messageId status t in
      _ ← setv (λ v, v <| msgTracker := Some t |>);
      notifyAll notices
  end.

Definition GetMessageStats : Y MessageStats :=
  v ← getm sm_view;
  mret (match msgTracker v with None => MkStats 0 0 0 0 0 0 0 | Some t => fst (GetStats t) end).

(** ** Closing *)

Fixpoint each {A} (f : A → Y unit) (l : list A) : Y unit :=
  match l with [] => mret () | x :: l => _ ← f x; each f l end.

(** [Range] visits an entry that is still there when its turn comes. *)
Definition closeListenerAt (port : Z) : Y unit :=
  m ← getm listeners;
  match m !! port with None => mret () | Some l => _ ← try (Listener.Close l); mret () end.
Definition closeConnectionAt (key : Z * Z) : Y unit :=
  m ← getm (λ m, connections (sm_view m));
  match m !! key with None => mret () | Some p => _ ← try (on_conn p ConnLife.Close); mret () end.

Definition closeAllConnections : Y unit :=
  ports ← getm (λ m, elements (dom (listeners m)));
  ports ← sys_range ports;
  _ ← each closeListenerAt ports;
  keys ← getm (λ m, elements (dom (connections (sm_view m))));
  keys ← sys_range keys;
  each closeConnectionAt keys.

Definition handleSessionStatus (status : Z) : Y unit :=
  if status =? I2CP_SESSION_STATUS_CREATED then signalReady
  else if status =? I2CP_SESSION_STATUS_DESTROYED then closeAllConnections
  else mret ().

(** [leaseSetOnce]: the channel is closed once. *)
Definition handleLeaseSet2 : Y unit := setm (λ m, m <| leaseSetReady := true |>).

(** [last]: the packets the processor still takes before it sees that it is
    cancelled; then it has stopped. *)
Definition Close (last : list bool) : Y unit :=
  m ← getm id;
  if sm_closed m then mret ()
  else
    _ ← setm (λ m, m <| sm_closed := true |>);
    _ ← each processPackets last;
    _ ← setm (λ m, m <| processor_done := true |>);
    closeAllConnections.

(** ** Dialing (stream.go)

    The client's handshake on an object of the heap, with the SYN-ACK arriving
    through the connection's queue.  At each wait the other goroutines act
    ([waits]) and the select takes the next packet, if there is one; after the
    last it has timed out, or is still waiting. *)

Fixpoint awaitSynAck (p : positive) (waits : list (Sys → Sys)) (timeout : bool) : Y Packet :=
  match waits with
  | [] => fail (if timeout then STimeout else SBlocked)
  | f :: waits =>
      _ ← emodify f;
      q ← on_conn p (getc recvChan);
      match q with
      | [] => awaitSynAck p waits timeout
      | pkt :: q =>
          _ ← on_conn p (setc (λ c, c <| recvChan := q |>));
          if isSynAckPacket pkt then mret pkt else awaitSynAck p waits timeout
      end
  end.

Definition sysHandshake (p : positive) (waits : list (Sys → Sys)) (timeout : bool) : Y unit :=
  _ ← on_conn p sendSYN;
  _ ← on_conn p (setState StateSynSent);
  synAck ← awaitSynAck p waits timeout;
  _ ← on_conn p (processSynAck synAck);
  _ ← on_conn p sendACK;
  _ ← on_conn p (setState StateEstablished);
  on_conn p startConnectionGoroutines.

(** [mem] is what the memory of the new object held before. *)
Definition newConnection (mem : StreamConn) (dest : option Destination) (localPort remotePort : Z)
    : Y positive :=
  session ← getm sm_session;
  p ← fresh_conn;
  _ ← emodify (λ s, s <| conns ::= <[p := mem]> |>);
  e ← try (on_conn p (createConnectionStruct p session true dest localPort remotePort DefaultMTU));
  match e with
  | Some e => _ ← emodify (λ s, s <| conns ::= delete p |>); fail e
  | None => mret p
  end.

Definition DialWithManager (mem : StreamConn) (dest : option Destination) (localPort remotePort : Z)
    (waits : list (Sys → Sys)) (timeout : bool) : Y positive :=
  p ← newConnection mem dest localPort remotePort;
  _ ← RegisterConnectionAt localPort remotePort p;
  e ← try (sysHandshake p waits timeout);
  match e with
  | Some SBlocked => fail SBlocked
  | Some e => _ ← UnregisterConnectionAt localPort remotePort; fail e
  | None => mret p
  end.

(** ** Configuration *)

Definition SetPingConfig (config : option PingConfig) : Y unit :=
  setm (λ m, m <| pingMgr ::= λ g, g <| ping_config := default DefaultPingConfig config |> |>).
Definition GetPingConfig : Y PingConfig := getm (λ m, ping_config (pingMgr m)).

Definition SetConnectionLimits (config : option ConnectionLimitsConfig) : Y unit :=
  on_limiter (λ cl, (Ok tt, snd (Limits.SetConfig config cl))).
Definition GetConnectionLimits : Y ConnectionLimitsConfig := on_limiter (λ cl, (Ok (Limits.config cl), cl)).
Definition ActiveStreams : Y Z := on_limiter (λ cl, (Ok (activeStreams cl), cl)).

(** A filter is replaced as an object: listeners keep the one they have. *)
Definition SetAccessFilter (config : option positive) : Y unit :=
  f ← allocFilter config;
  setm (λ m, m <| sm_accessFilter := f |>).
Definition managerFilter {A} (m : ST FilterWorld A) : Y A :=
  f ← getm sm_accessFilter;
  on_filter f m.
Definition GetAccessFilter : Y AccessListConfig := managerFilter AccessList.GetConfig.
Definition AddToAccessList (hash : bytes) : Y unit := managerFilter (AddHash hash).
Definition RemoveFromAccessList (hash : bytes) : Y unit := managerFilter (RemoveHash hash).

(** The configuration is copied, edited and installed. *)
Definition installMode (mode : Z) : Y unit :=
  c ← managerFilter AccessList.GetConfig;
  p ← egets (λ s, base.fresh (dom (access_configs s)));
  _ ← emodify (λ s, s <| access_configs ::= <[p := c <| Mode := mode |>]> |>);
  managerFilter (AccessList.SetConfig (Some p)).
Definition SetAccessListEnabled (enabled : bool) (mode : Z) : Y unit :=
  installMode (if enabled then mode else AccessListModeDisabled).
Definition SetAccessListMode (mode : Z) : Y unit := installMode mode.

Definition on_tcb {A} (m : ST tcbCache A) : Y A :=
  v ← getm sm_view;
  match tcb v with
  | None => lift Panic
  | Some t => let '(a, t) := m t in _ ← setv (λ v, v <| tcb := Some t |>); mret a
  end.
Definition GetTCBCacheConfig : Y TCBCacheConfig := on_tcb TCBCache.GetConfig.
Definition SetTCBCacheConfig (config : TCBCacheConfig) : Y unit := on_tcb (TCBCache.SetConfig config).
Definition EnableTCBCache (enabled : bool) : Y unit :=
  config ← on_tcb TCBCache.GetConfig;
  on_tcb (TCBCache.SetConfig (config <| Enabled := enabled |>)).
Definition CleanupTCBCache : Y Z := now ← SysNow; on_tcb (TCBCache.CleanupExpired now).

Definition GetProfileConfig : Y Z := getm (λ m, profileConfig (sm_view m)).
Definition SetProfileConfig (config : Z) : Y unit := setv (λ v, v <| profileConfig := config |>).
Definition GetStreamProfile : Y Z := GetProfileConfig.
Definition SetStreamProfile (profile : Z) : Y unit := SetProfileConfig profile.
Definition GetProfile : Y Z := GetProfileConfig.
Definition SetProfile (profile : Z) : Y unit := SetProfileConfig profile.
End Manager.
