(* ===== verification/SystemFrames.v ===== *)
(** * Reasoning about the manager and its parts

    What a connection's methods leave alone of the system they run in, and
    the rules for running a method on an object of the heap. *)

From S2P Require Import Prelude GoInt SeqNum I2CP Packet PacketProps Crypto Limits MessageStatus.
From S2P Require Import TCBCache Floats Runtime Conn ConnRecv ConnAck ConnLife ConnWrite.
From S2P Require Import ConnFrames ConnOps AccessList System Ping Listener Manager.
From Stdlib Require Import Strings.Byte.

Section Place.
Context {I : I2CP} {B : CircBuf} {RT : GoRuntime}.
Implicit Types w : World.
#[local] Abbreviation M := (STE World ConnError).

(** What a connection is in the system: who it is, whose session it uses and
    where it is registered. *)
Definition conn_ids (c : StreamConn) := (self c, manager c, session c, localPort c, remotePort c).

(** Where the manager's table would have the connection. *)
Definition table_key (c : StreamConn) : Z * Z := (localPort c, remotePort c).

(** A method keeps its connection's place: the connection's identity, the
    other entries of the manager's table and the limiter; and a connection of
    a manager whose goroutines it tells to stop is in the table no more. *)
Record place w w' : Prop := {
  pl_ids : conn_ids (conn w') = conn_ids (conn w);
  pl_table : connections (mgr w') ⊆ connections (mgr w);
  pl_limiter : is_Some (limiter (mgr w)) → is_Some (limiter (mgr w'));
  pl_rands : rands w' = rands w;
  pl_live : ctx_done (conn w') = ctx_done (conn w) ∨
    (manager (conn w) = true → connections (mgr w') !! table_key (conn w) = None);
}.

Lemma ids_key c c' : conn_ids c' = conn_ids c → table_key c' = table_key c ∧ manager c' = manager c.
Proof. unfold conn_ids, table_key. intros H. by injection H as _ -> _ -> ->. Qed.

#[export] Instance place_preorder : PreOrder place.
Proof.
  split; [intros w; split; [done..|by left]|]. intros w1 w2 w3 [I1 T1 L1 R1 V1] [I2 T2 L2 R2 V2].
  split; [congruence|by etransitivity|auto|congruence|]. destruct (ids_key _ _ I1) as [Hk Hm]. rewrite <-Hk, <-Hm.
  destruct V2 as [V2|V2]; [|by right]. destruct V1 as [V1|V1]; [left; congruence|right].
  rewrite Hk, Hm. intros H. by eapply lookup_weaken_None; [apply V1|].
Qed.

Lemma place_same w w' :
  (conn_ids (conn w'), connections (mgr w'), limiter (mgr w'), rands w', ctx_done (conn w')) =
  (conn_ids (conn w), connections (mgr w), limiter (mgr w), rands w, ctx_done (conn w)) → place w w'.
Proof.
  intros H. injection H as ? ? ? ? ? H2 H3 H4 H5.
  split; [unfold conn_ids; congruence|by rewrite H2|by rewrite H3|done|by left].
Qed.

#[local] Hint Extern 1 (Pres place (setc _)) =>
  (apply pres_emodify; intros; apply place_same; exact eq_refl) : typeclass_instances.
#[local] Hint Extern 1 (Pres place (emodify _)) =>
  (apply pres_emodify; intros; apply place_same; exact eq_refl) : typeclass_instances.

#[export] Instance Now_place : Pres place Now.
Proof. unfold Now. apply _. Qed.
#[export] Instance setState_place st : Pres place (setState st).
Proof. unfold setState. apply _. Qed.
#[export] Instance go_place g : Pres place (go g).
Proof. unfold go. apply _. Qed.
#[export] Instance SendMessage_place bs n : Pres place (SendMessage bs n).
Proof. unfold SendMessage, getc. apply _. Qed.
#[export] Instance marshal_place (pkt : Packet) : Pres place (marshal pkt).
Proof. intros w. unfold marshal. destruct (Marshal pkt); reflexivity. Qed.
#[export] Instance sendPacket_place (pkt : Packet) : Pres place (sendPacketLocked pkt).
Proof.
  unfold sendPacketLocked, sendViaI2CPWithTracking, trackMessage, trackPacketForRetransmission, getc.
  apply _.
Qed.
#[export] Instance packetNACKs_place : Pres place packetNACKs.
Proof. unfold packetNACKs, getNACKListSliceLocked, range_keys, getc. apply _. Qed.
#[export] Instance sendAck_place : Pres place sendAckLocked.
Proof. unfold sendAckLocked, getc. apply _. Qed.
#[export] Instance sendChoke_place : Pres place sendChokeSignalLocked.
Proof. unfold sendChokeSignalLocked, getc. apply _. Qed.
#[export] Instance sendUnchoke_place : Pres place sendUnchokeSignalLocked.
Proof. unfold sendUnchokeSignalLocked, getc. apply _. Qed.
#[export] Instance sign_place (pkt : Packet) kp : Pres place (sign pkt kp).
Proof. intros w. unfold sign. destruct (SignPacket kp pkt) as [[] ?]; reflexivity. Qed.
#[export] Instance sendClose_place : Pres place sendCloseLocked.
Proof. unfold sendCloseLocked, getc. apply _. Qed.

(** Receiving *)
#[export] Instance writeRecvBuf_place bs : Pres place (writeRecvBuf bs).
Proof. unfold writeRecvBuf, getc. apply _. Qed.
#[export] Instance manageChoke_place : Pres place manageChokeStateLocked.
Proof. unfold manageChokeStateLocked, updateChokeStateForUsage, calculateBufferUsage, getc. apply _. Qed.
#[export] Instance deliver_place fuel : Pres place (deliverBufferedPackets fuel).
Proof.
  induction fuel as [|fuel IH]; cbn [deliverBufferedPackets]; unfold removeFromNACKListLocked, getc; apply _.
Qed.
#[export] Instance addMissing_place n i : Pres place (addMissingSequencesFrom i n).
Proof.
  revert i. induction n as [|n IH]; intros i; cbn [addMissingSequencesFrom];
    unfold shouldAddToNACKListLocked, getc; apply _.
Qed.
#[export] Instance handleData_place (pkt : Packet) : Pres place (handleDataLocked pkt).
Proof.
  unfold handleDataLocked, processInSequencePacketLocked, handleOutOfOrderPacketLocked,
    handleBufferFullLocked, updateNACKListLocked, calculateSequenceGapLocked,
    addMissingSequencesToNACKListLocked, deliverBufferedPacketsLocked, removeFromNACKListLocked,
    recvBroadcast, getc. apply _.
Qed.
#[export] Instance consume_place n : Pres place (consumeBufferDataLocked n).
Proof. unfold consumeBufferDataLocked, getc. cbv zeta. apply _. Qed.
#[export] Instance postRead_place : Pres place handlePostReadActionsLocked.
Proof. unfold handlePostReadActionsLocked, deliverBufferedPacketsLocked, calculateBufferUsage, getc. apply _. Qed.

(** Acknowledgements and timers *)
#[export] Instance retransmit_place s : Pres place (retransmitPacketLocked s).
Proof. unfold retransmitPacketLocked, getc. apply _. Qed.
#[export] Instance handleNACKs_place l b : Pres place (handleNACKs l b).
Proof.
  revert b. induction l as [|x l IH]; intros b; cbn [handleNACKs]; [apply _|].
  unfold reduceCongestionWindowLocked, getc. apply _.
Qed.
#[export] Instance stopPersist_place : Pres place stopPersistTimerLocked.
Proof. unfold stopPersistTimerLocked, getc. apply _. Qed.
#[export] Instance handleAck_place (pkt : Packet) : Pres place (handleAckLocked pkt).
Proof.
  unfold handleAckLocked, handleNACKsLocked, handleOptionalDelayLocked, startPersistTimerLocked,
    cleanupAckedPacketsLocked, measureRTTFromAck, updateRTTEstimate,
    calculateRTO, updateCongestionWindow, sendBroadcast, getc. apply _.
Qed.
#[export] Instance retransmitTimedOut_place l : Pres place (retransmitTimedOutPacketsLocked l).
Proof. induction l as [|x l IH]; cbn [retransmitTimedOutPacketsLocked]; unfold getc; apply _. Qed.
#[export] Instance check_place : Pres place checkRetransmissions.
Proof.
  unfold checkRetransmissions, findTimedOutPacketsLocked, applyExponentialBackoffLocked, range_keys, getc.
  apply _.
Qed.
#[export] Instance inactivity_place : Pres place checkInactivity.
Proof. unfold checkInactivity, getc. apply _. Qed.
#[export] Instance persist_place : Pres place persistTimerFired.
Proof.
  unfold persistTimerFired, sendProbePacketLocked, getc. apply pres_bind; [apply _..|]. intros c.
  apply pres_if; [apply _|]. apply pres_bind; [apply _| |apply _].
  apply pres_bind; [apply _..|]. intros c1. cbv zeta. apply _.
Qed.
#[export] Instance delivered_place s : Pres place (handleMessageDelivered s).
Proof. unfold handleMessageDelivered, getc. apply _. Qed.
#[export] Instance failed_place s r : Pres place (handleMessageFailed s r).
Proof. unfold handleMessageFailed, sendViaI2CP, getc. cbv zeta. apply _. Qed.

(** Life cycle *)
#[export] Instance cacheTCB_place : Pres place cacheTCB.
Proof. unfold cacheTCB, getc. apply _. Qed.
#[export] Instance applyTCBData_place d : Pres place (applyTCBDataToConnection d).
Proof. unfold applyTCBDataToConnection, getc. apply _. Qed.
#[export] Instance applyCached_place d : Pres place (applyCachedTCB d).
Proof.
  unfold applyCachedTCB, getc. apply pres_bind; [apply _..|]. intros c.
  apply pres_bind; [apply _..|]. intros [t|]; [|apply _]. apply pres_if; [|apply _].
  apply pres_bind; [apply _..|]. intros now. destruct (Get now d t) as [[[[a1 a2] a3] a4] t']. apply _.
Qed.
#[export] Instance unregister_place : Pres place UnregisterConnection.
Proof.
  unfold UnregisterConnection, getc. apply pres_bind; [apply _..|]. intros c. apply pres_emodify.
  intros w. split; [done|cbn; apply delete_subseteq|done|done|by left].
Qed.
#[export] Instance limiterClosed_place : Pres place limiterClosed.
Proof.
  unfold limiterClosed. apply pres_emodify. intros w. split; [done|done| |done|by left]. cbn. intros [l ->]. by eexists.
Qed.
(** A connection of a manager leaves the table before its goroutines are told
    to stop. *)
#[export] Instance cleanup_place : Pres place cleanupConnectionLocked.
Proof.
  intros w. unfold cleanupConnectionLocked.
  assert (Ht : Total cacheTCB) by (unfold cacheTCB, Now, getc; apply _).
  destruct (Ht w) as [[] E1]. pose proof (cacheTCB_place w) as P1. destruct (cacheTCB w) as [r w1] eqn:E. cbn in E1, P1.
  subst r. rewrite (ste_step _ _ _ _ _ E), getc_step. cbn [id]. clear E Ht.
  set (gone := λ w2 : World, manager (conn w1) = true → connections (mgr w2) !! table_key (conn w1) = None).
  assert (H2 : ∃ w2, ewhen (manager (conn w1)) (_ ← UnregisterConnection; limiterClosed) w1 = (Ok (), w2) ∧
    place w1 w2 ∧ gone w2).
  { unfold gone. destruct (manager (conn w1)); cbn [ewhen]; [|by exists w1].
    unfold UnregisterConnection, limiterClosed. rewrite ste_assoc, getc_step. cbn [id].
    rewrite (ste_step _ _ w1 () (w1 <| mgr ::= λ m, m <| connections ::= delete (table_key (conn w1)) |> |>)) by done.
    eexists. split; [done|]. split; [|by cbn; rewrite lookup_delete_eq].
    split; [done|apply delete_subseteq| |done|by left]. cbn. intros [l ->]. by eexists. }
  destruct H2 as (w2 & E2 & P2 & G2). rewrite (ste_step _ _ _ _ _ E2).
  assert (Ht : Total stopPersistTimerLocked) by (unfold stopPersistTimerLocked, getc, setc; apply _).
  destruct (Ht w2) as [[] E3]. pose proof (stopPersist_place w2) as P3.
  destruct (stopPersistTimerLocked w2) as [r w3] eqn:E. cbn in E3, P3. subst r. rewrite (ste_step _ _ _ _ _ E).
  unfold wakeBlockedGoroutines, recvBroadcast, sendBroadcast. rewrite !setc_step, setc_eq. cbn [snd].
  transitivity w1; [done|].
  assert (P13 : place w1 w3) by (by transitivity w2). destruct P13 as [I3 T3 L3 R3 _].
  split; [exact I3|exact T3|exact L3|exact R3|]. right. intros Hm.
  eapply lookup_weaken_None; [by apply G2|]. apply P3.
Qed.
#[export] Instance Close_place : Pres place ConnLife.Close.
Proof. unfold ConnLife.Close, sendCloseIfEstablished, getc. apply _. Qed.
#[export] Instance tick_place : Pres place retransmitTimerTick.
Proof. unfold retransmitTimerTick. apply _. Qed.
#[export] Instance dispatch_place (pkt : Packet) : Pres place (dispatchPacketByFlags pkt).
Proof.
  unfold dispatchPacketByFlags, handleSynAckLocked, handleFinalAckLocked, handleCloseLocked, handleResetLocked,
    extractRemoteMTUFromSynAck, recvBroadcast, getc. cbv zeta. apply _.
Qed.
#[export] Instance receive_place : Pres place receiveLoopStep.
Proof.
  unfold receiveLoopStep, processPacket, getc. apply pres_bind; [apply _|apply _|]. intros c.
  destruct (recvChan c); apply _.
Qed.
#[export] Instance incoming_place pick (pkt : Packet) : Pres place (handleIncomingPacket pick pkt).
Proof. unfold handleIncomingPacket, getc. apply _. Qed.
#[export] Instance chunk_place chunk : Pres place (sendDataChunk chunk).
Proof. unfold sendDataChunk, getResendDelaySeconds, getc. cbv zeta. apply _. Qed.

(** Any operation of a connection keeps its place. *)
Lemma step_place (op : conn_op) w : place w (conn_step op w).
Proof.
  apply (conn_step_kept place); try apply _;
    try (intros; unfold SetDeadline, SetReadDeadline, SetWriteDeadline,
           SetInactivityTimeout, recvBroadcast, sendBroadcast; apply _).
  - intros waits k He. apply Read_env; [apply _..|exact He].
  - intros waits data He. apply Write_env; [apply _..| |exact He]. intros chunk w1 _ _. apply chunk_place.
Qed.

(** The handshake's methods *)
#[export] Instance sessionOf_place : Pres place sessionOf.
Proof. unfold sessionOf, getc. apply _. Qed.
#[export] Instance signOrFail_place (pkt : Packet) : Pres place (signOrFail pkt).
Proof. unfold signOrFail. apply _. Qed.
#[export] Instance sendSynAck_place : Pres place sendSynAck.
Proof. unfold sendSynAck, buildSynAckPacket, transmitSynAckPacket, getc. cbv zeta. apply _. Qed.
#[export] Instance sendSYN_place : Pres place sendSYN.
Proof.
  unfold sendSYN, generateReplayPreventionNACKs, buildSYNPacket, signAndSendPacket, getc. cbv zeta. apply _.
Qed.
#[export] Instance processSynAck_place (pkt : Packet) : Pres place (processSynAck pkt).
Proof.
  unfold processSynAck, validateSynAckAckThrough, extractRemoteMTUFromSynAck, extractRemoteProfileFromSynAck, getc.
  cbv zeta. apply _.
Qed.
#[export] Instance sendACK_place : Pres place sendACK.
Proof. unfold sendACK, getc. apply _. Qed.
End Place.

#[export] Hint Extern 1 (Pres place (setc _)) =>
  (apply pres_emodify; intros; apply place_same; exact eq_refl) : typeclass_instances.
#[export] Hint Extern 1 (Pres place (emodify _)) =>
  (apply pres_emodify; intros; apply place_same; exact eq_refl) : typeclass_instances.

(** ** Methods on the objects of the heap *)

Section Objects.
Context {I : I2CP} {B : CircBuf} {RT : GoRuntime} {C : MessageStatusCodes} {SS : SessionStatusCodes}.
Implicit Types s : Sys.
#[local] Abbreviation Y := (STE Sys SysError).

Lemma wp_on_conn {A} p (m : STE World ConnError A) c Q F s :
  conns s !! p = Some c →
  wp m (λ a w, Q a (put_world p w s)) (λ e w, F (SConn e) (put_world p w s)) (world_of c s) →
  wp (on_conn p m) Q F s.
Proof.
  intros Hc H. unfold wp, on_conn. rewrite Hc. unfold wp in H.
  by destruct (m (world_of c s)) as [[] ?].
Qed.

Lemma wp_on_listener {A} l (f : StreamListener → A) x Q (F : SysError → Sys → Prop) s :
  lsts s !! l = Some x → Q (f x) s → wp (on_listener l f) Q F s.
Proof. intros Hx H. unfold wp, on_listener. by rewrite Hx. Qed.

Lemma wp_getm {A} (f : StreamManager → A) Q (F : SysError → Sys → Prop) s :
  Q (f (sm s)) s → wp (getm f) Q F s.
Proof. done. Qed.
Lemma wp_setm f Q (F : SysError → Sys → Prop) s : Q () (s <| sm ::= f |>) → wp (setm f) Q F s.
Proof. done. Qed.
Lemma wp_setv f Q (F : SysError → Sys → Prop) s :
  Q () (s <| sm ::= λ m, m <| sm_view ::= f |> |>) → wp (setv f) Q F s.
Proof. done. Qed.

(** What sending, reading the clock and answering pings leave alone. *)
Definition core s := (sm s, conns s, lsts s, filters s, y_rands s).

#[export] Instance SysNow_core : Pres (same core) SysNow.
Proof. unfold SysNow. apply _. Qed.
#[export] Instance managerSession_core : Pres (same core) managerSession.
Proof. unfold managerSession, getm. apply _. Qed.
#[export] Instance SendMessageTo_core dest lp rp bs : Pres (same core) (SendMessageTo dest lp rp bs).
Proof. unfold SendMessageTo. apply _. Qed.
#[export] Instance marshalPacket_core (pkt : Packet) : Pres (same core) (marshalPacket pkt).
Proof. intros s. unfold marshalPacket. by destruct (Marshal pkt). Qed.
#[export] Instance marshalPacket_safe (pkt : Packet) : Safe (marshalPacket pkt).
Proof.
  intros s. unfold marshalPacket. pose proof (Marshal_inv pkt) as H. by destruct (Marshal pkt).
Qed.
#[export] Instance sendPacketToDest_core (pkt : Packet) dest lp rp :
  Pres (same core) (sendPacketToDest pkt dest lp rp).
Proof. unfold sendPacketToDest. apply _. Qed.
#[export] Instance signPacket_core (pkt : Packet) kp : Pres (same core) (signPacket pkt kp).
Proof. intros s. unfold signPacket. by destruct (SignPacket kp pkt) as [[] ?]. Qed.
#[export] Instance sendResetPacket_core dest id lp rp : Pres (same core) (sendResetPacket dest id lp rp).
Proof.
  unfold sendResetPacket, validateResetPrerequisites, createResetPacket, signResetPacket, getm. apply _.
Qed.

(** Signing does not panic. *)
Lemma SignPacket_safe kp (pkt : Packet) : fst (SignPacket kp pkt) ≠ Panic.
Proof.
  unfold SignPacket, prepareDataForSigning. unfold mbind, ste_bind, lift, egets, emodify. cbn [id].
  pose proof (Marshal_inv pkt) as Hm.
  destruct (validateSignPacketPrereqs pkt) eqn:Ev; [|done|].
  - destruct (Marshal pkt); [|done|done]. cbn. case_if; [done|].
    unfold signAndValidate. destruct (Sign kp _); [|done]. case_if; done.
  - exfalso. revert Ev. unfold validateSignPacketPrereqs. by repeat case_match.
Qed.
#[export] Instance signPacket_safe (pkt : Packet) kp : Safe (signPacket pkt kp).
Proof.
  intros s. unfold signPacket. pose proof (SignPacket_safe kp pkt) as H.
  by destruct (SignPacket kp pkt) as [[] ?].
Qed.

Lemma wp_core {A} (m : Y A) s (Q : A → Sys → Prop) (F : SysError → Sys → Prop) :
  fst (m s) ≠ Panic → Pres (same core) m →
  (∀ a s', core s' = core s → Q a s') → (∀ e s', core s' = core s → F e s') → wp m Q F s.
Proof.
  intros Hs Hp HQ HF. specialize (Hp s). unfold wp. destruct (m s) as [[] ?]; cbn in *; auto.
Qed.

(** A packet is sent without panicking when there is a session. *)
Lemma wp_managerSession x Q (F : SysError → Sys → Prop) s :
  sm_session (sm s) = Some x → Q x s → wp managerSession Q F s.
Proof. intros H HQ. unfold wp, managerSession, getm, mbind, ste_bind, egets. by rewrite H. Qed.

Lemma wp_SendMessageTo dest lp rp bs (Q : () → Sys → Prop) (F : SysError → Sys → Prop) s :
  is_Some (sm_session (sm s)) → (∀ s', core s' = core s → Q () s') → (∀ e s', core s' = core s → F e s') →
  wp (SendMessageTo dest lp rp bs) Q F s.
Proof.
  intros [x Hx] HQ HF. unfold SendMessageTo. apply wp_bind. eapply wp_managerSession; [exact Hx|].
  apply wp_bind, wp_egets, wp_bind, wp_emodify. destruct (send_ok (y_sends s)).
  - apply wp_emodify. by apply HQ.
  - apply wp_fail. by apply HF.
Qed.

Lemma wp_sendPacketToDest (pkt : Packet) dest lp rp (Q : () → Sys → Prop) (F : SysError → Sys → Prop) s :
  is_Some (sm_session (sm s)) → (∀ s', core s' = core s → Q () s') → (∀ e s', core s' = core s → F e s') →
  wp (sendPacketToDest pkt dest lp rp) Q F s.
Proof.
  intros Hx HQ HF. unfold sendPacketToDest, marshalPacket. apply wp_bind.
  pose proof (Marshal_inv pkt) as H. destruct (Marshal pkt); [|by apply HF|done].
  apply wp_ret. by apply wp_SendMessageTo.
Qed.

Lemma wp_signPacket (pkt : Packet) kp (Q : Packet * option CryptoError → Sys → Prop) F s :
  (∀ r, Q r s) → wp (signPacket pkt kp) Q F s.
Proof.
  intros HQ. unfold wp, signPacket. pose proof (SignPacket_safe kp pkt) as H.
  destruct (SignPacket kp pkt) as [[] p]; [apply HQ..|done].
Qed.

Lemma wp_sendReset dest id lp rp (Q : () → Sys → Prop) (F : SysError → Sys → Prop) s :
  (∀ s', core s' = core s → Q () s') → wp (sendResetPacket dest id lp rp) Q F s.
Proof.
  intros HQ. unfold sendResetPacket. apply wp_bind, wp_try. unfold validateResetPrerequisites.
  destruct dest as [d|]; [|by apply wp_fail, wp_ret, HQ]. apply wp_bind, wp_getm.
  destruct (sm_session (sm s)) as [x|] eqn:Hx; [|by apply wp_fail, wp_ret, HQ].
  apply wp_ret, wp_bind. unfold createResetPacket. apply wp_bind. eapply wp_managerSession; [exact Hx|].
  apply wp_ret, wp_bind. unfold signResetPacket. apply wp_bind. eapply wp_managerSession; [exact Hx|].
  assert (Hk : ∀ pkt, wp (_ ← try (sendPacketToDest pkt (Some d) lp rp); mret ()) Q F s).
  { intros pkt. apply wp_bind, wp_try, wp_sendPacketToDest; [by eexists|by intros; apply HQ..]. }
  destruct (SigningKeyPair x) as [kp|]; [|apply wp_ret, Hk]. apply wp_bind, wp_signPacket.
  intros [pkt [e|]]; apply wp_ret, Hk.
Qed.
End Objects.
