(* ===== verification/SystemInv.v ===== *)
(** * The invariant of the system

    The manager's tables name live objects registered where they say, the
    queues are bounded, and every part has what its methods dereference; so no
    operation panics, except the parsing of a truncated datagram. *)

From S2P Require Import Prelude GoInt SeqNum I2CP Packet PacketProps Crypto Limits MessageStatus.
From S2P Require Import TCBCache Floats Runtime Conn ConnRecv ConnAck ConnLife ConnWrite.
From S2P Require Import ConnFrames ConnOps AccessList System Ping Listener Manager SystemFrames.
From Stdlib Require Import Strings.Byte.

(** ** What does not panic *)

Section Safety.
Context {I : I2CP} {B : CircBuf} {RT : GoRuntime}.

#[export] Instance CheckAndRecord_safe now dest : Safe (CheckAndRecordConnection now dest).
Proof.
  unfold CheckAndRecordConnection, checkConcurrentLimitLocked, checkTotalRateLimitsLocked,
    checkPeerRateLimitsLocked, recordConnectionLocked, checkWindow, getOrCreatePeerHistoryLocked.
  apply _.
Qed.

Lemma Verify_safe (pkt : Packet) : fst (VerifyPacketSignature pkt) ≠ Panic.
Proof.
  unfold VerifyPacketSignature, marshalWithZeroedSignature.
  unfold mbind, ste_bind, lift, egets, emodify, mret, ste_ret. cbn [id].
  unfold validateSignaturePrerequisites. destruct (FromDestination pkt) as [d|] eqn:Ed; [|done].
  repeat (case_if; [done|]).
  match goal with |- context [Marshal ?p] => pose proof (Marshal_inv p) as Hm; destruct (Marshal p) end;
    [|done|done].
  cbn. case_if; [done|]. unfold mret, ste_ret. cbn. rewrite Ed. by case_if.
Qed.

(** What [rand.Read] delivers fills the four-byte buffer it is given. *)
Definition rands_ok (rs : list (option bytes)) : Prop :=
  Forall (λ o, ∀ b, o = Some b → length b = 4%nat) rs.

Lemma Uint32_four b : length b = 4%nat → Uint32 b ≠ (Panic : result CryptoError Z).
Proof. intros H. unfold Uint32, BigEndian_Uint. rewrite decide_True by lia. done. Qed.

Lemma generateISN_ok rs : rands_ok rs → fst (generateISN rs) ≠ Panic ∧ rands_ok (snd (generateISN rs)).
Proof.
  intros H. unfold generateISN. destruct H as [|[b|] rs Hb Hrs]; cbn; [by split; [|constructor]| |by split].
  split; [by apply Uint32_four, Hb|done].
Qed.

Lemma generateStreamID_ok rs :
  rands_ok rs → fst (Crypto.generateStreamID rs) ≠ Panic ∧ rands_ok (snd (Crypto.generateStreamID rs)).
Proof.
  unfold rands_ok. induction 1 as [|[b|] rs Hb Hrs IH]; cbn [Crypto.generateStreamID]; [by split; [|constructor]| |by split].
  pose proof (Uint32_four b (Hb b eq_refl)). destruct (Uint32 b); [|done|done]. by case_if.
Qed.

Lemma wp_sessionOf Q (F : ConnError → World → Prop) w :
  is_Some (session (conn w)) → (∀ x, Q x w) → wp sessionOf Q F w.
Proof. intros [x Hx] HQ. unfold sessionOf, getc. do 2 wp_step. rewrite Hx. wp_step. apply HQ. Qed.

Lemma signOrFail_total (pkt : Packet) w :
  is_Some (session (conn w)) → wp (signOrFail pkt) (λ _, place w) (λ _, place w) w.
Proof.
  intros Hs. unfold signOrFail. wp_step. apply wp_sessionOf; [done|]. intros x.
  destruct (SigningKeyPair x) as [kp|]; [|by wp_step]. apply (wp_safe place); [|apply _].
  apply safe_bind; [apply sign_safe|]. intros [? []]; apply _.
Qed.

Lemma wp_sendSynAck w :
  is_Some (session (conn w)) → wp sendSynAck (λ _, place w) (λ _, place w) w.
Proof.
  intros Hs. unfold sendSynAck, buildSynAckPacket, transmitSynAckPacket, getc. do 3 wp_step.
  wp_step. apply wp_sessionOf; [done|]. intros x. cbv zeta. wp_step. wp_step.
  eapply wp_mono; [by apply signOrFail_total| |done]. intros pkt w1 H1.
  eapply wp_mono.
  - apply (wp_safe place); [|apply _]. unfold SendMessage, getc, setc. apply _.
  - cbn. intros _ w2 H2. etransitivity; [exact H1|exact H2].
  - cbn. intros _ w2 H2. etransitivity; [exact H1|exact H2].
Qed.
End Safety.

(** ** The invariant *)

Section Inv.
Context {I : I2CP} {B : CircBuf} {RT : GoRuntime} {C : MessageStatusCodes} {SS : SessionStatusCodes}.
Implicit Types s : Sys.
#[local] Abbreviation Y := (STE Sys SysError).

(** A listener has a session and its filter; its queue is bounded and holds
    connections of its port. *)
Record listener_ok s (x : StreamListener) : Prop := {
  lo_closed : acceptClosed x = l_closed x;
  lo_backlog : (length (acceptChan x) ≤ acceptBacklog)%nat;
  lo_session : is_Some (l_session x);
  lo_filter : ∀ f, l_accessFilter x = Some f → is_Some (filters s !! f);
  lo_queue : ∀ p, p ∈ acceptChan x → ∃ c, conns s !! p = Some c ∧ localPort c = l_localPort x;
}.

Record SysInv s : Prop := {
  si_session : is_Some (sm_session (sm s));
  si_limiter : is_Some (limiter (sm_view (sm s)));
  si_filter : is_Some (filters s !! sm_accessFilter (sm s));
  si_queue : (length (incomingPackets (sm s)) ≤ incomingQueue)%nat;
  si_listeners : ∀ port l, listeners (sm s) !! port = Some l →
    ∃ x, lsts s !! l = Some x ∧ l_localPort x = port ∧ l_closed x = false ∧ l_manager x = true;
  si_lsts : ∀ l x, lsts s !! l = Some x → listener_ok s x;
  si_table : ∀ lp rp p, connections (sm_view (sm s)) !! (lp, rp) = Some p →
    ∃ c, conns s !! p = Some c ∧ localPort c = lp ∧ remotePort c = rp;
  si_live : ∀ key p c, connections (sm_view (sm s)) !! key = Some p → conns s !! p = Some c →
    manager c = true ∧ ctx_done c = false;
  si_conns : ∀ p c, conns s !! p = Some c → self c = p ∧ is_Some (session c);
  si_rands : rands_ok (y_rands s);
}.

Lemma Inv_core s s' : core s' = core s → SysInv s → SysInv s'.
Proof.
  unfold core. intros H Hi. injection H as H1 H2 H3 H4 H5. destruct Hi.
  constructor; rewrite ?H1, ?H2, ?H3, ?H4, ?H5; try done.
  intros l x Hx. destruct (si_lsts0 l x Hx). constructor; rewrite ?H2, ?H4; done.
Qed.

(** [listener_ok] when connections keep their ports and filters stay. *)
Definition conns_grow (m m' : gmap positive StreamConn) : Prop :=
  ∀ p c, m !! p = Some c → ∃ c', m' !! p = Some c' ∧ localPort c' = localPort c ∧ remotePort c' = remotePort c.

Lemma listener_ok_mono s s' x : conns_grow (conns s) (conns s') →
  (∀ f, is_Some (filters s !! f) → is_Some (filters s' !! f)) → listener_ok s x → listener_ok s' x.
Proof.
  intros Hc Hf []. constructor; [done..|by auto|]. intros p Hp. destruct (lo_queue0 p Hp) as (c & H1 & H2).
  destruct (Hc p c H1) as (c' & ? & ? & _). exists c'. split; [done|congruence].
Qed.

(** The connection's objects change, the table loses entries. *)
Lemma Inv_conns s s' :
  lsts s' = lsts s → filters s' = filters s → y_rands s' = y_rands s →
  (∃ v, sm s' = (sm s) <| sm_view := v |> ∧ connections v ⊆ connections (sm_view (sm s)) ∧ is_Some (limiter v)) →
  conns_grow (conns s) (conns s') → (∀ p c, conns s' !! p = Some c → self c = p ∧ is_Some (session c)) →
  (∀ p c c', connections (sm_view (sm s')) !! table_key c = Some p → conns s !! p = Some c →
    manager c = true → conns s' !! p = Some c' → manager c' = true ∧ ctx_done c' = ctx_done c) →
  SysInv s → SysInv s'.
Proof.
  intros Hl Hf Hr (v & Hv & Ht & Hlim) Hg Hc Hk []. rewrite Hv in Hk. constructor; rewrite ?Hl, ?Hf, ?Hr, ?Hv; cbn; try done.
  - intros l x Hx. apply (listener_ok_mono s); [done|by rewrite Hf|by apply (si_lsts0 l)].
  - intros lp rp p Hp. destruct (si_table0 lp rp p) as (c & H1 & <- & <-).
    { eapply lookup_weaken; [exact Hp|done]. }
    destruct (Hg p c H1) as (c' & ? & ? & ?). by exists c'.
  - intros [lp rp] p c' Hp Hc'. assert (Hp' : connections (sm_view (sm s)) !! (lp, rp) = Some p)
      by (eapply lookup_weaken; [exact Hp|done]).
    destruct (si_table0 lp rp p Hp') as (c & H1 & <- & <-). destruct (si_live0 _ p c Hp' H1) as [Hm Hd].
    destruct (Hk p c c' Hp H1 Hm Hc') as [? ->]. done.
Qed.

Lemma conns_grow_insert m p c c' : m !! p = Some c → localPort c' = localPort c →
  remotePort c' = remotePort c → conns_grow m (<[p := c']> m).
Proof.
  intros Hp H1 H2 q d Hq. destruct (decide (q = p)) as [->|Hne].
  - exists c'. rewrite lookup_insert_eq. split_and!; congruence.
  - exists d. by rewrite lookup_insert_ne.
Qed.

Lemma Inv_put p c w s :
  SysInv s → conns s !! p = Some c → place (world_of c s) w → SysInv (put_world p w s).
Proof.
  intros Hi Hc []. destruct (ids_key _ _ pl_ids) as [_ Em]. cbn in Em.
  unfold conn_ids in pl_ids. cbn in *. injection pl_ids as E1 E2 E3 E4 E5.
  pose proof (si_limiter s Hi) as Hlim. pose proof (si_conns s Hi) as Hcs.
  revert Hi. apply Inv_conns; try done.
  - eexists. split; [done|]. split; [done|]. by apply pl_limiter.
  - by eapply conns_grow_insert.
  - cbn. intros q d Hq. destruct (decide (q = p)) as [->|Hne].
    + rewrite lookup_insert_eq in Hq. injection Hq as <-. destruct (Hcs p c Hc). split; congruence.
    + rewrite lookup_insert_ne in Hq by done. by apply Hcs.
  - cbn. intros q d d' Hq Hd Hm Hd'. destruct (decide (q = p)) as [->|Hne].
    + rewrite lookup_insert_eq in Hd'. injection Hd' as <-. assert (d = c) as -> by congruence.
      destruct pl_live as [->|Hnone]; [split; [congruence|done]|]. rewrite Hnone in Hq; done.
    + rewrite lookup_insert_ne in Hd' by done. assert (d' = d) as -> by congruence. done.
Qed.

(** A method of a connection, from inside the invariant. *)
Lemma wp_conn_inv {A} p (m : STE World ConnError A) c (Q : A → Sys → Prop) (F : SysError → Sys → Prop) s :
  SysInv s → conns s !! p = Some c →
  wp m (λ a w, place (world_of c s) w → SysInv (put_world p w s) → Q a (put_world p w s))
       (λ e w, place (world_of c s) w → SysInv (put_world p w s) → F (SConn e) (put_world p w s)) (world_of c s) →
  Pres place m → wp (on_conn p m) Q F s.
Proof.
  intros Hi Hc Hm Hp. eapply wp_on_conn; [exact Hc|]. unfold wp in *. specialize (Hp (world_of c s)).
  destruct (m (world_of c s)) as [[a|e|] w]; cbn in Hp; [..|done];
    (apply Hm; [exact Hp|by eapply Inv_put]).
Qed.

(** What a listener's steps rely on: it stays, open. *)
Definition listening l x s : Prop := SysInv s ∧ lsts s !! l = Some x ∧ l_closed x = false.

Lemma listening_core l x s s' : core s' = core s → listening l x s → listening l x s'.
Proof.
  intros H (Hi & Hl & Hc). split_and!; [by eapply Inv_core| |done]. unfold core in H. congruence.
Qed.

(** A filter's method changes only that filter. *)
Lemma Inv_filter f w s :
  SysInv s → SysInv (s <| access_configs := configs w |> <| filters ::= <[f := filter_ w]> |>).
Proof.
  intros []. assert (Hf : ∀ g, is_Some (filters s !! g) → is_Some (<[f := filter_ w]> (filters s) !! g)).
  { intros g [y Hg]. destruct (decide (g = f)) as [->|]; [rewrite lookup_insert_eq|rewrite lookup_insert_ne by done];
      by eexists. }
  constructor; try done; cbn; [by apply Hf|]. intros l x Hx.
  apply (listener_ok_mono s); [|exact Hf|by apply (si_lsts0 l)]. intros p c Hp. by exists c.
Qed.

Lemma wp_on_filter {A} f (m : ST FilterWorld A) (Q : A → Sys → Prop) (F : SysError → Sys → Prop) s :
  is_Some (filters s !! f) →
  (∀ a w, Q a (s <| access_configs := configs w |> <| filters ::= <[f := filter_ w]> |>)) →
  wp (on_filter f m) Q F s.
Proof.
  intros [y Hy] HQ. unfold wp, on_filter. rewrite Hy. by destruct (m _) as [a w].
Qed.

Lemma checkAccessFilter_inv l x dest (pkt : Packet) s :
  listening l x s → wp (checkAccessFilter l dest pkt) (λ _, listening l x) (λ _, listening l x) s.
Proof.
  intros H. unfold checkAccessFilter. wp_step. eapply wp_on_listener; [apply H|]. cbn [id].
  destruct (l_accessFilter x) as [f|] eqn:Ef; [|by wp_step]. wp_step. apply wp_on_filter.
  { destruct H as (Hi & Hl & _). by apply (lo_filter _ _ (si_lsts s Hi l x Hl)). }
  intros r w. set (s' := s <| access_configs := _ |> <| filters ::= _ |>).
  assert (H' : listening l x s') by (destruct H as (? & ? & ?); split_and!; [by apply Inv_filter|done..]).
  clearbody s'. destruct r as [e|]; [|by wp_step].
  wp_step. apply wp_ewhen; intros _; [|by wp_step]. apply wp_sendReset. intros s2 H2. wp_step.
  by eapply listening_core.
Qed.

Lemma wp_on_limiter {A} (m : connectionLimiter → result LimitError A * connectionLimiter)
    (Q : A → Sys → Prop) (F : SysError → Sys → Prop) s :
  is_Some (limiter (sm_view (sm s))) → (∀ cl, fst (m cl) ≠ Panic) →
  (∀ a cl, Q a (s <| sm ::= λ y, y <| sm_view ::= λ v, v <| limiter := Some cl |> |> |>)) →
  (∀ e cl, F e (s <| sm ::= λ y, y <| sm_view ::= λ v, v <| limiter := Some cl |> |> |>)) →
  wp (on_limiter m) Q F s.
Proof.
  intros [cl Hl] Hs HQ HF. unfold wp, on_limiter. rewrite Hl. specialize (Hs cl).
  destruct (m cl) as [[] ?]; [apply HQ|apply HF|done].
Qed.

Lemma Inv_limiter cl s :
  SysInv s → SysInv (s <| sm ::= λ y, y <| sm_view ::= λ v, v <| limiter := Some cl |> |> |>).
Proof.
  intros Hi. pose proof (si_conns s Hi). revert Hi. apply Inv_conns; try done.
  - eexists. split; [done|]. split; [done|by eexists].
  - intros p c Hc. by exists c.
  - cbn. intros p c c' _ Hc Hm Hc'. by assert (c' = c) as -> by congruence.
Qed.

Lemma handleLimitExceeded_core l x action dest (pkt : Packet) (Q : () → Sys → Prop) F s :
  lsts s !! l = Some x → (∀ s', core s' = core s → Q () s') →
  wp (handleLimitExceeded l action dest pkt) Q F s.
Proof.
  intros Hx HQ. unfold handleLimitExceeded. wp_step. eapply wp_on_listener; [done|]. cbn [id].
  destruct action; [|by wp_step; apply HQ|]; (apply wp_ewhen; intros _; [by apply wp_sendReset|by apply HQ]).
Qed.

Lemma checkLimits_inv l x dest (pkt : Packet) s :
  listening l x s → wp (checkConnectionLimits l dest pkt) (λ _, listening l x) (λ _, listening l x) s.
Proof.
  intros H. unfold checkConnectionLimits. wp_step. eapply wp_on_listener; [apply H|]. cbn [id].
  destruct (l_limiter x); cbn [negb]; [|by wp_step]. unfold SysNow. do 6 wp_step.
  set (s1 := s <| y_ticks ::= S |>). assert (H1 : listening l x s1) by (by apply (listening_core l x s)).
  clearbody s1. wp_step. wp_step. destruct H1 as (Hi & Hl & Hc).
  apply wp_on_limiter; [by apply si_limiter|intros cl; apply CheckAndRecord_safe|..].
  - intros _ cl. wp_step. split_and!; [by apply Inv_limiter|done..].
  - intros e cl. set (s2 := s1 <| sm ::= _ |>).
    assert (H2 : listening l x s2) by (split_and!; [by apply Inv_limiter|done..]). clearbody s2.
    wp_step. apply wp_getm. destruct (limiter (sm_view (sm s2))) as [cl'|] eqn:El.
    2: { destruct H2 as (Hi2 & _). destruct (si_limiter s2 Hi2). congruence. }
    wp_step. eapply handleLimitExceeded_core; [apply H2|]. intros s3 H3. wp_step. by eapply listening_core.
Qed.

Lemma validateSYNSource_eq (pkt : Packet) dest (Q : Destination → Sys → Prop) (F : SysError → Sys → Prop) s :
  (∀ d, Q d s) → F SNoSource s → wp (validateSYNSource pkt dest) Q F s.
Proof. intros HQ HF. unfold validateSYNSource. cbv zeta. destruct (if has_flag _ _ then _ else _); wp_step; auto. Qed.

Lemma validateSYN_inv l x dest (pkt : Packet) s :
  listening l x s → wp (validateIncomingSYN l pkt dest) (λ _, listening l x) (λ _, listening l x) s.
Proof.
  intros H. unfold validateIncomingSYN. wp_step. apply validateSYNSource_eq; [intros _|done]. wp_step.
  assert (Hv : wp (verifySYNSignature pkt) (λ _, listening l x) (λ _, listening l x) s).
  { unfold verifySYNSignature. case_if; [by wp_step|]. pose proof (Verify_safe pkt) as Hs.
    destruct (VerifyPacketSignature pkt) as [[] ?]; [by wp_step..|done]. }
  eapply wp_mono; [exact Hv| |done]. intros [] s1 H1. unfold verifySYNReplayPrevention.
  case_if; [by wp_step|]. wp_step. eapply wp_on_listener; [apply H1|]. cbn [id].
  destruct H1 as (Hi & Hl & Hc). destruct (lo_session _ _ (si_lsts s1 Hi l x Hl)) as [y ->].
  destruct (hashDestination (session_Destination y)) as [h|]; [|by wp_step]. by case_if; wp_step.
Qed.

(** Drawing random words. *)
Lemma wp_sysDraw {A} (g : list (option bytes) → result CryptoError A * list (option bytes)) (Q : A → Sys → Prop)
    (F : SysError → Sys → Prop) s :
  (∀ rs, rands_ok rs → fst (g rs) ≠ Panic ∧ rands_ok (snd (g rs))) → rands_ok (y_rands s) →
  (∀ a rs, rands_ok rs → Q a (s <| y_rands := rs |>)) → (∀ e rs, rands_ok rs → F e (s <| y_rands := rs |>)) →
  wp (sysDraw g) Q F s.
Proof.
  intros Hg Hr HQ HF. unfold sysDraw. do 2 wp_step. destruct (Hg (y_rands s) Hr) as [H1 H2].
  destruct (g (y_rands s)) as [[a|e|] rs]; cbn in *; [..|done]; do 3 wp_step; auto.
Qed.

Lemma Inv_rands rs s : rands_ok rs → SysInv s → SysInv (s <| y_rands := rs |>).
Proof.
  intros Hr []. constructor; try done. intros l x Hx. by destruct (si_lsts0 l x Hx).
Qed.

(** A new object. *)
Lemma Inv_new p c s :
  conns s !! p = None → self c = p → is_Some (session c) → SysInv s → SysInv (s <| conns ::= <[p := c]> |>).
Proof.
  intros Hp Hc Hs Hi. pose proof (si_conns s Hi) as Hcs. pose proof (si_limiter s Hi). revert Hi.
  apply Inv_conns; try done.
  - exists (sm_view (sm s)). split; [cbn; by destruct (sm s)|done].
  - intros q d Hq. exists d. cbn. rewrite lookup_insert_ne; [done|congruence].
  - cbn. intros q d Hq. destruct (decide (q = p)) as [->|Hne].
    + rewrite lookup_insert_eq in Hq. by injection Hq as <-.
    + rewrite lookup_insert_ne in Hq by done. by apply Hcs.
  - cbn. intros q d d' _ Hd Hm Hd'. rewrite lookup_insert_ne in Hd' by congruence.
    by assert (d' = d) as -> by congruence.
Qed.

Lemma fresh_conn_None s : conns s !! base.fresh (dom (conns s)) = None.
Proof. apply not_elem_of_dom, is_fresh. Qed.

(** The new connection is an object of the listener's port and the SYN's. *)
Definition incoming_conn l x rp p s : Prop :=
  listening l x s ∧ ∃ c, conns s !! p = Some c ∧ localPort c = l_localPort x ∧ remotePort c = rp ∧
    manager c = l_manager x.

(** It has not been told to stop. *)
Definition running p s : Prop := ∃ c, conns s !! p = Some c ∧ ctx_done c = false.

#[export] Instance applyTCBData_safe d : Safe (applyTCBDataToConnection d).
Proof. unfold applyTCBDataToConnection, getc, setc. apply _. Qed.
#[export] Instance applyCached_safe d : Safe (applyCachedTCB d).
Proof.
  unfold applyCachedTCB, Now, getc. apply safe_bind; [apply _|]. intros c.
  apply safe_bind; [apply _|]. intros [t|]; [|apply _]. apply safe_if; [|apply _].
  apply safe_bind; [apply _|]. intros now. destruct (Get now d t) as [[[[a1 a2] a3] a4] t']. apply _.
Qed.

#[export] Instance applyCached_ctx d : Pres (same (λ w, ctx_done (conn w))) (applyCachedTCB d).
Proof.
  unfold applyCachedTCB, applyTCBDataToConnection, Now, getc, setc. apply pres_bind; [apply _..|]. intros c.
  apply pres_bind; [apply _..|]. intros [t|]; [|apply _]. apply pres_if; [|apply _].
  apply pres_bind; [apply _..|]. intros now. destruct (Get now d t) as [[[[a1 a2] a3] a4] t']. apply _.
Qed.

Lemma incoming_put l x rp p c w s :
  incoming_conn l x rp p s → conns s !! p = Some c → place (world_of c s) w → SysInv (put_world p w s) →
  incoming_conn l x rp p (put_world p w s).
Proof.
  intros [(_ & Hl & Hc) (c' & Hc' & H1 & H2 & H3)] Hp [] Hi. split; [by split_and!|].
  unfold conn_ids in pl_ids. injection pl_ids as ?????. cbn in *.
  exists (conn w). rewrite lookup_insert_eq. split_and!; congruence.
Qed.

Lemma createIncoming_inv l x rp dest (pkt : Packet) s :
  listening l x s →
  wp (createIncomingConnection l pkt rp dest)
    (λ p s', incoming_conn l x rp p s' ∧ running p s') (λ _, listening l x) s.
Proof.
  intros H. unfold createIncomingConnection. wp_step.
  apply wp_sysDraw; [apply generateISN_ok|apply si_rands, H| |].
  2: { intros e rs Hr. destruct H as (? & ? & ?). split_and!; [by apply Inv_rands|done..]. }
  intros isn rs Hr. set (s1 := s <| y_rands := rs |>).
  assert (H1 : listening l x s1) by (destruct H as (? & ? & ?); split_and!; [by apply Inv_rands|done..]).
  clearbody s1. clear H. wp_step. apply wp_sysDraw; [apply generateStreamID_ok|apply si_rands, H1| |].
  2: { intros e rs' Hr'. destruct H1 as (? & ? & ?). split_and!; [by apply Inv_rands|done..]. }
  intros id rs' Hr'. set (s2 := s1 <| y_rands := rs' |>).
  assert (H2 : listening l x s2) by (destruct H1 as (? & ? & ?); split_and!; [by apply Inv_rands|done..]).
  clearbody s2. clear H1. destruct (NewBuffer (64 * 1024)) as [buf|]; [|by wp_step].
  unfold initConnectionState. wp_step. eapply wp_on_listener; [apply H2|]. cbn [Datatypes.id].
  unfold SysNow, fresh_conn, getm. cbv zeta. repeat wp_step. set (s3 := s2 <| y_ticks ::= S |>).
  assert (H3 : listening l x s3) by (by apply (listening_core l x s2)). clearbody s3. clear H2.
  match goal with |- context [<[_ := ?c0]>] => set (c := c0) end.
  set (p := base.fresh (dom (conns s3))) in *. set (s4 := s3 <| conns ::= _ |>).
  assert (H4 : incoming_conn l x rp p s4).
  { destruct H3 as (Hi & Hl & Hc). split.
    - split_and!; [|done|done]. apply Inv_new; [apply fresh_conn_None|done| |done].
      apply (lo_session _ _ (si_lsts s3 Hi l x Hl)).
    - exists c. cbn. by rewrite lookup_insert_eq. }
  assert (Hrun : running p s4) by (exists c; cbn; by rewrite lookup_insert_eq).
  clearbody s4. clear H3. destruct H4 as [H4 (c4 & Hc4 & Hp4)].
  assert (Hd4 : ctx_done c4 = false) by (destruct Hrun as (c' & ? & ?); congruence).
  eapply wp_conn_inv; [apply H4|done| |apply _].
  set (R := λ w w' : World, place w w' ∧ ctx_done (conn w') = ctx_done (conn w)).
  assert (HR : Pres R (applyCachedTCB (Some dest))) by (intros w; split; [apply applyCached_place|apply applyCached_ctx]).
  eapply wp_mono; [apply (wp_safe R); apply _|..]; subst R.
  - cbn. intros [] w [Hw Hd] _ Hi. split; [apply (incoming_put l x rp p c4); [|done..]; split; [done|by exists c4]|].
    exists (conn w). cbn. rewrite lookup_insert_eq. split; [done|]. by rewrite Hd.
  - cbn. intros e w Hw _ Hi. destruct H4 as (_ & ? & ?). by split_and!.
Qed.

(** *** The tables and the queue *)

Lemma Inv_register lp rp p s :
  (∃ c, conns s !! p = Some c ∧ localPort c = lp ∧ remotePort c = rp ∧ manager c = true) → running p s → SysInv s →
  SysInv (s <| sm ::= λ m, m <| sm_view ::= λ v, v <| connections ::= <[(lp, rp) := p]> |> |> |>).
Proof.
  intros (c0 & Hp & Hlp & Hrp & Hm0) (c1 & Hp1 & Hd1) []. constructor; try done.
  - intros l x Hx. by destruct (si_lsts0 l x Hx).
  - cbn. intros lp' rp' q Hq. destruct (decide ((lp', rp') = (lp, rp))) as [[= -> ->]|Hne].
    + rewrite lookup_insert_eq in Hq. injection Hq as <-. by exists c0.
    + rewrite lookup_insert_ne in Hq by done. by apply si_table0.
  - cbn. intros key q c Hq Hc. destruct (decide (key = (lp, rp))) as [->|Hne].
    + rewrite lookup_insert_eq in Hq. injection Hq as <-. split; congruence.
    + rewrite lookup_insert_ne in Hq by done. by apply (si_live0 key q).
Qed.

(** A connection is told to stop and leaves the table, if it can be in it. *)
Lemma Inv_cancel p c s : conns s !! p = Some c → SysInv s →
  let s' := put_world p (updc (λ c, c <| ctx_done := true |>) (world_of c s)) s in
  SysInv (if manager c
          then s' <| sm ::= λ m, m <| sm_view ::= λ v, v <| connections ::= delete (table_key c) |> |> |> else s').
Proof.
  intros Hc Hi s'. pose proof (si_limiter s Hi) as Hlim. pose proof (si_conns s Hi) as Hcs.
  assert (Hs : ∀ s2, lsts s2 = lsts s → filters s2 = filters s → y_rands s2 = y_rands s → conns s2 = conns s' →
    (∃ v, sm s2 = (sm s) <| sm_view := v |> ∧ connections v ⊆ connections (sm_view (sm s)) ∧ is_Some (limiter v)) →
    (manager c = true → connections (sm_view (sm s2)) !! table_key c = None) → SysInv s2).
  { intros s2 H1 H2 H3 H4 H5 H6. revert Hi. apply Inv_conns; rewrite ?H4; try done.
    - cbn. by eapply conns_grow_insert.
    - cbn. intros q d Hq. destruct (decide (q = p)) as [->|Hne].
      + rewrite lookup_insert_eq in Hq. injection Hq as <-. by apply (Hcs p c).
      + rewrite lookup_insert_ne in Hq by done. by apply Hcs.
    - cbn. intros q d d' Hq Hd Hm Hd'. destruct (decide (q = p)) as [->|Hne].
      + assert (d = c) as -> by congruence. rewrite H6 in Hq; done.
      + rewrite lookup_insert_ne in Hd' by done. by assert (d' = d) as -> by congruence. }
  destruct (manager c); apply Hs; try done.
  - eexists. split; [done|]. split; [apply delete_subseteq|done].
  - intros _. cbn. apply lookup_delete_eq.
  - by eexists.
Qed.

Lemma Inv_unregister lp rp s :
  SysInv s → SysInv (s <| sm ::= λ m, m <| sm_view ::= λ v, v <| connections ::= delete (lp, rp) |> |> |>).
Proof.
  intros Hi. pose proof (si_limiter s Hi). pose proof (si_conns s Hi). revert Hi. apply Inv_conns; try done.
  - eexists. split; [done|]. split; [apply delete_subseteq|done].
  - intros p c Hp. by exists c.
  - cbn. intros p c c' _ Hc Hm Hc'. by assert (c' = c) as -> by congruence.
Qed.

Lemma Inv_set_listener l x f s :
  lsts s !! l = Some x → l_localPort (f x) = l_localPort x → l_closed (f x) = l_closed x →
  l_manager (f x) = l_manager x → listener_ok s (f x) → SysInv s → SysInv (s <| lsts ::= alter f l |>).
Proof.
  intros Hl Hp Hc Hm Ho []. constructor; try done.
  - cbn. intros port k Hk. destruct (si_listeners0 port k Hk) as (y & Hy & H1 & H2 & H3).
    destruct (decide (k = l)) as [->|Hne].
    + exists (f x). rewrite lookup_alter_eq, Hl. split_and!; [done|congruence..].
    + exists y. by rewrite lookup_alter_ne.
  - cbn. intros k y Hk. assert (listener_ok s y) as [].
    { destruct (decide (k = l)) as [->|Hne].
      - rewrite lookup_alter_eq, Hl in Hk. by injection Hk as <-.
      - rewrite lookup_alter_ne in Hk by done. by apply (si_lsts0 k). }
    by constructor.
Qed.

Lemma queue_inv l x rp p s :
  incoming_conn l x rp p s →
  wp (queueConnectionForAccept l p rp) (λ _, SysInv) (λ _, SysInv) s.
Proof.
  intros [(Hi & Hl & Hc) (c & Hp & H1 & H2 & H3)]. unfold queueConnectionForAccept. wp_step.
  eapply wp_on_listener; [exact Hl|]. cbn [id]. pose proof (si_lsts s Hi l x Hl) as [].
  rewrite lo_closed0, Hc. case_if; zbool.
  - unfold set_listener. wp_step. eapply Inv_set_listener; [done..| |done]. constructor; try done; cbn.
    + rewrite length_app. cbn. lia.
    + intros q Hq. apply elem_of_app in Hq as [Hq|Hq]; [by apply lo_queue0|].
      apply list_elem_of_singleton in Hq as ->. by exists c.
  - wp_step. eapply wp_on_conn; [exact Hp|]. unfold setc. wp_step.
    pose proof (Inv_cancel p c s Hp Hi) as Hk. cbv zeta in Hk. rewrite H3 in Hk. unfold table_key in Hk. rewrite H1, H2 in Hk.
    wp_step. apply wp_ewhen; intros Hm; rewrite Hm in Hk; [apply wp_setv|]; wp_step; exact Hk.
Qed.

Lemma finalize_inv l x rp p s :
  incoming_conn l x rp p s ∧ running p s →
  wp (finalizeIncomingConnection l p rp) (λ _, SysInv) (λ _, SysInv) s.
Proof.
  intros [H Hrun]. unfold finalizeIncomingConnection. wp_step. eapply wp_on_listener; [apply H|]. cbn [id]. wp_step.
  assert (Hw : ∀ s1, incoming_conn l x rp p s1 →
    wp (e ← try (on_conn p sendSynAck);
        match e with
        | Some e => _ ← ewhen (l_manager x) (UnregisterConnectionAt (l_localPort x) rp); fail e
        | None => _ ← on_conn p (setState StateSynRcvd); _ ← on_conn p (go GReceiveLoop);
                  queueConnectionForAccept l p rp
        end) (λ _, SysInv) (λ _, SysInv) s1).
  2: { apply wp_ewhen; intros Hm; [|by apply Hw]. apply wp_setv, Hw. destruct H as [(Hi & Hl & Hc) Hp].
       split; [|done]. split_and!; [|done..]. apply Inv_register; [|done..].
       destruct Hp as (c & ? & ? & ? & Hcm). exists c. by rewrite Hcm. }
  clear s H Hrun. intros s H. wp_step. wp_step. destruct (H) as [(Hi & Hl & Hc) (c & Hp & H1 & H2 & H3)].
  eapply wp_conn_inv; [done|done| |apply _].
  eapply wp_mono; [apply wp_sendSynAck; by apply (si_conns s Hi p c)|..]; cbn.
  2: { intros e w _ _ Hi'. wp_step. apply wp_ewhen; intros _; [apply wp_setv|]; wp_step; [by apply Inv_unregister|done]. }
  intros [] w _ Hw Hi'. pose proof (incoming_put l x rp p c w s H Hp Hw Hi') as Hs1.
  set (s1 := put_world p w s) in *. clearbody s1. clear -Hs1.
  wp_step. destruct (Hs1) as [(Hi & Hl & Hc) (c & Hp & H1 & H2 & H3)].
  eapply wp_conn_inv; [done|done| |apply _]. unfold setState, setc. wp_step. intros Hw2 Hi2.
  pose proof (incoming_put l x rp p c _ s1 Hs1 Hp Hw2 Hi2) as Hs2. set (s2 := put_world p _ s1) in *.
  clearbody s2. clear -Hs2. wp_step. destruct (Hs2) as [(Hi & Hl & Hc) (c & Hp & H1 & H2 & H3)].
  eapply wp_conn_inv; [done|done| |apply _]. unfold go. wp_step. intros Hw3 Hi3.
  apply (queue_inv l x). by apply (incoming_put l x rp p c _ s2).
Qed.

Lemma handleIncomingSYN_inv l x (pkt : Packet) rp dest s :
  listening l x s → wp (handleIncomingSYN l pkt rp dest) (λ _, SysInv) (λ _, SysInv) s.
Proof.
  intros H. unfold handleIncomingSYN. wp_step.
  eapply wp_mono; [by apply (checkAccessFilter_inv l x)|cbn|by intros e s1 []]. intros [] s1 H1. wp_step.
  eapply wp_mono; [by apply (checkLimits_inv l x)|cbn|by intros e s2 []]. intros [] s2 H2. wp_step.
  eapply wp_mono; [by apply (validateSYN_inv l x)|cbn|by intros e s3 []]. intros [] s3 H3. wp_step.
  apply validateSYNSource_eq; [|apply H3]. intros d. wp_step.
  eapply wp_mono; [by apply (createIncoming_inv l x)|cbn|by intros e s4 []]. intros p s4 H4.
  by apply (finalize_inv l x).
Qed.
End Inv.
