(* ===== verification/SystemOps.v ===== *)
(** * Everything that can happen to a manager

    The callbacks of I2CP, the turns of the packet processor, the calls of the
    users and the operations of every connection, as one inductive type: a
    call that waits contains what happens meanwhile.  Every run keeps the
    invariant, and the processor panics on nothing but a datagram whose
    parsing panics. *)

From S2P Require Import Prelude GoInt SeqNum I2CP Packet PacketProps Crypto Limits MessageStatus.
From S2P Require Import TCBCache Floats Runtime Conn ConnRecv ConnAck ConnLife ConnWrite.
From S2P Require Import ConnFrames ConnOps AccessList System Ping Listener Manager SystemFrames.
From S2P Require Import SystemInv.
From Stdlib Require Import Strings.Byte.

Section Ops.
Context {I : I2CP} {B : CircBuf} {RT : GoRuntime} {C : MessageStatusCodes} {SS : SessionStatusCodes}.
Implicit Types s : Sys.
#[local] Abbreviation Y := (STE Sys SysError).

Inductive config_op :=
| CfgPing (c : option PingConfig)
| CfgLimits (c : option ConnectionLimitsConfig)
| CfgFilter (c : option positive)
| CfgAddHash (h : bytes)
| CfgRemoveHash (h : bytes)
| CfgListEnabled (enabled : bool) (mode : Z)
| CfgListMode (mode : Z)
| CfgTCB (c : TCBCacheConfig)
| CfgEnableTCB (enabled : bool)
| CfgCleanupTCB
| CfgProfile (profile : Z).

Definition config_step (op : config_op) : Y unit :=
  match op with
  | CfgPing c => SetPingConfig c
  | CfgLimits c => SetConnectionLimits c
  | CfgFilter c => SetAccessFilter c
  | CfgAddHash h => AddToAccessList h
  | CfgRemoveHash h => RemoveFromAccessList h
  | CfgListEnabled e m => SetAccessListEnabled e m
  | CfgListMode m => SetAccessListMode m
  | CfgTCB c => SetTCBCacheConfig c
  | CfgEnableTCB e => EnableTCBCache e
  | CfgCleanupTCB => _ ← CleanupTCBCache; mret tt
  | CfgProfile p => SetStreamProfile p
  end.

(** An operation of the connection [p], if there is one. *)
Definition conn_turn (p : positive) (op : conn_op) s : Sys :=
  match conns s !! p with
  | None => s
  | Some c => put_world p (conn_step op (world_of c s)) s
  end.

#[warnings="-register-all"]
Inductive sys_op :=
| YMessage (srcDest : option Destination) (protocol srcPort destPort : Z) (payload : bytes)
| YProcess (pick : bool)
| YConn (p : positive) (op : conn_op)
| YListen (port mtu : Z)
| YAccept (l : positive)
| YCloseListener (l : positive)
| YStatus (status : Z)
| YMessageStatus (messageId status : Z)
| YLeaseSet
| YDestination (requestId : Z) (address : bytes) (dest : option Destination)
| YLookup (request : option Z) (before after : list sys_op) (sel : PingSelect)
| YSetSession (session : option Session)
| YStart (during : list sys_op) (created ready : bool)
| YPing (during : list sys_op) (sel : PingSelect) (dest : option Destination) (payload : bytes)
| YDial (mem : StreamConn) (dest : option Destination) (lp rp : Z) (waits : list (list sys_op)) (timeout : bool)
| YClose (last : list bool)
| YConfig (op : config_op).

Fixpoint sys_step (op : sys_op) s : Sys :=
  let run := fold_left (λ s op, sys_step op s) in
  match op with
  | YMessage d pr sp dp bs => snd (handleIncomingMessage d pr sp dp bs s)
  | YProcess pick => snd (processPackets pick s)
  | YConn p op => conn_turn p op s
  | YListen port mtu => snd (ListenWithManager true port mtu s)
  | YAccept l => snd (Accept l s)
  | YCloseListener l => snd (Listener.Close l s)
  | YStatus st => snd (handleSessionStatus st s)
  | YMessageStatus id st => snd (handleMessageStatus id st s)
  | YLeaseSet => snd (handleLeaseSet2 s)
  | YDestination id a d => snd (handleDestinationResult id a d s)
  | YLookup r b a sel => snd (LookupDestination r (run b) (run a) sel s)
  | YSetSession x => snd (SetSession x s)
  | YStart d c r => snd (StartSession (run d) c r s)
  | YPing d sel dest bs => snd (Ping (run d) sel dest bs s)
  | YDial mem d lp rp ws t => snd (DialWithManager mem d lp rp (map run ws) t s)
  | YClose last => snd (Close last s)
  | YConfig op => snd (config_step op s)
  end.

Definition sys_run (ops : list sys_op) s : Sys := fold_left (λ s op, sys_step op s) ops s.

(** Induction that reaches the operations inside a wait. *)
Lemma sys_op_nested (P : sys_op → Prop) :
  (∀ r b a sel, Forall P b → Forall P a → P (YLookup r b a sel)) →
  (∀ d c r, Forall P d → P (YStart d c r)) →
  (∀ d sel dest bs, Forall P d → P (YPing d sel dest bs)) →
  (∀ mem d lp rp ws t, Forall (Forall P) ws → P (YDial mem d lp rp ws t)) →
  (∀ op, match op with YLookup _ _ _ _ | YStart _ _ _ | YPing _ _ _ _ | YDial _ _ _ _ _ _ => True
         | _ => P op end) →
  ∀ op, P op.
Proof.
  intros HL HS HP HD HO. fix IH 1.
  intros [| | | | | | | | | |r b a sel| |d c r|d sel dest bs|mem d lp rp ws t| |];
    try (match goal with |- P ?o => exact (HO o) end).
  - apply HL.
    + induction b as [|o b IHb]; constructor; [apply IH|exact IHb].
    + induction a as [|o a IHa]; constructor; [apply IH|exact IHa].
  - apply HS. induction d as [|o d IHd]; constructor; [apply IH|exact IHd].
  - apply HP. induction d as [|o d IHd]; constructor; [apply IH|exact IHd].
  - apply HD. induction ws as [|ops ws IHw]; constructor; [|exact IHw].
    induction ops as [|o ops IHo]; constructor; [apply IH|exact IHo].
Qed.

(** ** Every operation keeps the invariant *)

#[local] Abbreviation kept := (Pres (keeps SysInv)).

Lemma Inv_sm f s :
  (sm_session (f (sm s)), listeners (f (sm s)), sm_view (f (sm s)), sm_accessFilter (f (sm s))) =
    (sm_session (sm s), listeners (sm s), sm_view (sm s), sm_accessFilter (sm s)) →
  (length (incomingPackets (f (sm s))) ≤ incomingQueue)%nat →
  SysInv s → SysInv (s <| sm ::= f |>).
Proof.
  intros H Hq []. injection H as H1 H2 H3 H4. constructor; cbn; rewrite ?H1, ?H2, ?H3, ?H4; try done.
  intros l x Hx. by destruct (si_lsts l x Hx).
Qed.

(** A change of the manager's state that the invariant does not look at. *)
Ltac keep_sm := apply pres_emodify; intros s Hi; apply Inv_sm; [done|by destruct Hi|done].

Lemma kept_core {A} (m : Y A) : Pres (same core) m → kept m.
Proof. intros H s Hi. eapply Inv_core; [apply H|done]. Qed.

Lemma kept_wp {A} (m : Y A) : (∀ s, SysInv s → wp m (λ _, SysInv) (λ _, SysInv) s ∨ fst (m s) = Panic ∧ snd (m s) = s) →
  kept m.
Proof.
  intros H s Hi. destruct (H s Hi) as [Hw|[_ ->]]; [|done]. unfold wp in Hw.
  by destruct (m s) as [[] ?].
Qed.

#[local] Instance on_conn_kept {A} p (m : STE World ConnError A) : Pres place m → kept (on_conn p m).
Proof.
  intros Hp s Hi. unfold on_conn. destruct (conns s !! p) as [c|] eqn:Hc; [|done].
  specialize (Hp (world_of c s)). destruct (m (world_of c s)) as [r w]. cbn in *. by eapply Inv_put.
Qed.

#[local] Instance on_listener_kept {A} l (f : StreamListener → A) : kept (on_listener l f).
Proof. intros s Hi. unfold on_listener. by destruct (lsts s !! l). Qed.

#[local] Instance on_filter_kept {A} f (m : ST FilterWorld A) : kept (on_filter f m).
Proof.
  intros s Hi. unfold on_filter. destruct (filters s !! f); [|done]. destruct (m _) as [r w]. cbn.
  by apply Inv_filter.
Qed.

#[local] Instance on_limiter_kept {A} (m : connectionLimiter → result LimitError A * connectionLimiter) :
  kept (on_limiter m).
Proof.
  intros s Hi. unfold on_limiter. destruct (limiter _); [|done]. destruct (m _) as [r cl]. cbn.
  by apply Inv_limiter.
Qed.

#[local] Instance getm_kept {A} (f : StreamManager → A) : kept (getm f).
Proof. unfold getm. apply _. Qed.
#[local] Instance SysNow_kept : kept SysNow.
Proof. apply kept_core, _. Qed.
#[local] Instance sendReset_kept d id lp rp : kept (sendResetPacket d id lp rp).
Proof. apply kept_core, _. Qed.

#[local] Instance unregister_kept lp rp : kept (UnregisterConnectionAt lp rp).
Proof. apply pres_emodify. intros s Hi. by apply Inv_unregister. Qed.

(** *** Incoming messages *)

#[local] Instance handleIncomingMessage_kept d pr sp dp bs : kept (handleIncomingMessage d pr sp dp bs).
Proof.
  unfold handleIncomingMessage. apply pres_if; [apply _|]. intros s Hi. unfold getm, mbind, ste_bind, egets.
  case_if; [|done]. zbool. apply Inv_sm; [done| |done]. cbn. rewrite length_app. cbn. lia.
Qed.

#[local] Instance set_ping_core p f : Pres (same core) (set_ping p f).
Proof. unfold set_ping. apply _. Qed.
#[local] Instance handlePong_core (pkt : Packet) : Pres (same core) (handlePong pkt).
Proof. unfold handlePong, getm. apply _. Qed.
#[local] Instance handlePing_core (pkt : Packet) d sp dp : Pres (same core) (handlePing pkt d sp dp).
Proof. unfold handlePing, getm. apply _. Qed.

Lemma handlePong_run (pkt : Packet) s : fst (handlePong pkt s) = Ok ().
Proof.
  unfold handlePong. case_if; [done|]. unfold getm, mbind, ste_bind, egets. by destruct (pendingPings _ !! _).
Qed.

Lemma handleEcho_inv (pkt : Packet) incoming s :
  SysInv s → wp (handleEchoPacket pkt incoming) (λ _, SysInv) (λ _, SysInv) s.
Proof.
  intros Hi. unfold handleEchoPacket. case_if.
  - unfold handlePing. wp_step. apply wp_getm. case_if; [by wp_step|]. case_if; [by wp_step|]. do 2 wp_step.
    apply wp_sendPacketToDest; [apply Hi|intros s' Hs'..]; [|intros Hc]; wp_step; by eapply Inv_core.
  - case_if; [|by wp_step]. apply wp_core; [by rewrite handlePong_run|apply _|..];
      [intros a s' Hs'|intros e s' Hs']; by eapply Inv_core.
Qed.

Lemma handleSyn_inv (pkt : Packet) incoming s :
  SysInv s → wp (handleSynPacket pkt incoming) (λ _, SysInv) (λ _, SysInv) s.
Proof.
  intros Hi. unfold handleSynPacket. wp_step. apply wp_getm. destruct (listeners (sm s) !! _) as [l|] eqn:El.
  - destruct (si_listeners s Hi _ _ El) as (x & Hx & _ & Hc & _). do 2 wp_step.
    eapply wp_mono; [by apply (handleIncomingSYN_inv l x)|..]; cbn; intros; by wp_step.
  - apply wp_sendReset. intros s' Hs'. by eapply Inv_core.
Qed.

Lemma routeToConnection_inv pick (pkt : Packet) incoming s :
  SysInv s → wp (routeToConnection pick pkt incoming) (λ _, SysInv) (λ _, SysInv) s.
Proof.
  intros Hi. unfold routeToConnection. wp_step. apply wp_getm.
  destruct (connections (sm_view (sm s)) !! _) as [p|] eqn:Ep.
  - destruct (si_table s Hi _ _ _ Ep) as (c & Hc & _). do 2 wp_step.
    eapply wp_conn_inv; [done|exact Hc| |apply _].
    eapply wp_mono; [apply (wp_safe place); [|apply _]|..]; cbn.
    + unfold handleIncomingPacket, getc, setc. apply _.
    + intros [] w _ _ Hw. by wp_step.
    + intros e w _ _ Hw. by wp_step.
  - apply wp_sendReset. intros s' Hs'. by eapply Inv_core.
Qed.

(** What the processor does with a message whose parsing does not panic. *)
Lemma dispatch_inv pick incoming s :
  SysInv s → fst (Unmarshal (i_payload incoming) empty_Packet) ≠ Panic →
  wp (dispatchPacket pick incoming) (λ _, SysInv) (λ _, SysInv) s.
Proof.
  intros Hi Hu. unfold dispatchPacket, unmarshalIncomingPacket. do 2 wp_step.
  destruct (Unmarshal (i_payload incoming) empty_Packet) as [[[]|e|] pkt]; [|by do 2 wp_step|done].
  wp_step. case_if; [by apply handleEcho_inv|]. case_if; [by apply handleSyn_inv|by apply routeToConnection_inv].
Qed.

Lemma dispatch_panic pick incoming s :
  fst (Unmarshal (i_payload incoming) empty_Packet) = Panic → dispatchPacket pick incoming s = (Panic, s).
Proof.
  intros Hu. unfold dispatchPacket, unmarshalIncomingPacket, catch, mbind, ste_bind.
  by destruct (Unmarshal (i_payload incoming) empty_Packet) as [[[]|e|] pkt].
Qed.

#[local] Instance dispatch_kept pick incoming : kept (dispatchPacket pick incoming).
Proof.
  apply kept_wp. intros s Hi.
  destruct (fst (Unmarshal (i_payload incoming) empty_Packet)) eqn:Hu;
    [left; apply dispatch_inv; [done|congruence]..|]. right. by rewrite dispatch_panic.
Qed.

Lemma process_pop pick s p q : processor_done (sm s) = false → incomingPackets (sm s) = p :: q →
  processPackets pick s = dispatchPacket pick p (s <| sm ::= λ m, m <| incomingPackets := q |> |>).
Proof.
  intros Hd Hq. unfold processPackets, getm. unfold mbind at 1, ste_bind at 1, egets. cbn [id]. by rewrite Hd, Hq.
Qed.

Lemma process_idle pick s :
  processor_done (sm s) = true ∨ incomingPackets (sm s) = [] → processPackets pick s = (Ok (), s).
Proof.
  intros H. unfold processPackets, getm. unfold mbind at 1, ste_bind at 1, egets. cbn [id].
  destruct (processor_done (sm s)); [done|]. destruct H as [|H]; [done|]. by rewrite H.
Qed.

Lemma Inv_pop p q s : incomingPackets (sm s) = p :: q → SysInv s →
  SysInv (s <| sm ::= λ m, m <| incomingPackets := q |> |>).
Proof.
  intros Hq Hi. apply Inv_sm; [done| |done]. cbn. pose proof (si_queue s Hi) as H. rewrite Hq in H. cbn in H. lia.
Qed.

#[local] Instance process_kept pick : kept (processPackets pick).
Proof.
  intros s Hi. destruct (processor_done (sm s)) eqn:Hd; [by rewrite process_idle by auto|].
  destruct (incomingPackets (sm s)) as [|p q] eqn:Hq; [by rewrite process_idle by auto|].
  rewrite (process_pop pick s p q Hd Hq). apply dispatch_kept. by eapply Inv_pop.
Qed.

(** *** Listeners *)

#[local] Instance listen_kept port mtu : kept (ListenWithManager true port mtu).
Proof.
  intros s Hi. unfold ListenWithManager. case_if; [done|]. cbn [negb].
  unfold getm, newListener, RegisterListener, setm, mbind, ste_bind, egets, emodify, mret, ste_ret. cbn [id snd].
  pose proof Hi as [].
  set (l := base.fresh (dom (lsts s))). set (x := MkListener _ _ _ _ _ _ _ _ _).
  assert (Hl : lsts s !! l = None) by (apply not_elem_of_dom, is_fresh).
  constructor; cbn; try done.
  - intros p k Hk. destruct (decide (p = port)) as [->|Hne].
    + rewrite lookup_insert_eq in Hk. injection Hk as <-. exists x. by rewrite lookup_insert_eq.
    + rewrite lookup_insert_ne in Hk by done. destruct (si_listeners p k Hk) as (y & Hy & Hr).
      exists y. rewrite lookup_insert_ne by congruence. done.
  - intros k y Hk. assert (listener_ok s y) as []; [|by constructor].
    destruct (decide (k = l)) as [->|Hne].
    + rewrite lookup_insert_eq in Hk. injection Hk as <-. constructor; try done; cbn; [unfold acceptBacklog; lia|..].
      * by intros f [= <-].
      * by intros p ?%elem_of_nil.
    + rewrite lookup_insert_ne in Hk by done. by apply (si_lsts k).
Qed.

#[local] Instance accept_kept l : kept (Accept l).
Proof.
  intros s Hi. unfold Accept, on_listener. unfold mbind, ste_bind. destruct (lsts s !! l) as [x|] eqn:Hl; [|done].
  cbn [id]. case_if; [done|]. destruct (acceptChan x) as [|p q] eqn:Hq; [by destruct (acceptClosed x)|].
  cbn. pose proof (si_lsts s Hi l x Hl) as []. eapply Inv_set_listener; [done..| |done]. constructor; try done; cbn.
  - rewrite Hq in lo_backlog. cbn in lo_backlog. lia.
  - intros r Hr. apply lo_queue. rewrite Hq. by right.
Qed.

#[local] Instance closeListener_kept l : kept (Listener.Close l).
Proof.
  intros s Hi. unfold Listener.Close, on_listener. unfold mbind, ste_bind.
  destruct (lsts s !! l) as [x|] eqn:Hl; [|done]. cbn [id]. case_if; [done|].
  unfold set_listener, UnregisterListener, setm, emodify, ewhen. cbn [snd].
  pose proof (si_lsts s Hi l x Hl) as [].
  set (x' := (x <| l_closed := true |>) <| acceptClosed := true |>).
  assert (Hm : ∀ k y, alter (λ x, x <| acceptClosed := true |>) l (alter (λ x, x <| l_closed := true |>) l (lsts s)) !! k
    = Some y → k = l ∧ y = x' ∨ k ≠ l ∧ lsts s !! k = Some y).
  { intros k y. destruct (decide (k = l)) as [->|Hne].
    - rewrite !lookup_alter_eq, Hl. intros [= <-]. by left.
    - rewrite !lookup_alter_ne by done. by right. }
  assert (Ho : ∀ k y, k = l ∧ y = x' ∨ k ≠ l ∧ lsts s !! k = Some y → listener_ok s y).
  { intros k y [[-> ->]|[_ Hk]]; [by constructor|by apply (si_lsts s Hi k)]. }
  pose proof Hi as []. destruct (l_manager x) eqn:Hlm; cbn.
  - constructor; cbn; try done.
    + intros p k [Hne Hk]%lookup_delete_Some. destruct (si_listeners p k Hk) as (y & Hy & H1 & H2).
      assert (k ≠ l) by congruence. exists y. by rewrite !lookup_alter_ne.
    + intros k y Hk. destruct (Ho k y (Hm k y Hk)). by constructor.
  - constructor; cbn; try done.
    + intros p k Hk. destruct (si_listeners p k Hk) as (y & Hy & H1 & H2 & H3).
      assert (k ≠ l) by congruence. exists y. by rewrite !lookup_alter_ne.
    + intros k y Hk. destruct (Ho k y (Hm k y Hk)). by constructor.
Qed.

(** *** Session, closing *)

#[local] Instance each_kept {A} (f : A → Y unit) l : (∀ x, kept (f x)) → kept (each f l).
Proof. intros Hf. induction l as [|x l IH]; cbn [each]; apply _. Qed.
#[local] Instance sys_range_kept {A} (l : list A) : kept (sys_range l).
Proof. apply kept_core. unfold sys_range. apply _. Qed.
#[local] Instance closeAll_kept : kept closeAllConnections.
Proof. unfold closeAllConnections, closeListenerAt, closeConnectionAt. apply _. Qed.
#[local] Instance signalReady_kept : kept signalReady.
Proof. unfold signalReady, setm. keep_sm. Qed.
#[local] Instance status_kept st : kept (handleSessionStatus st).
Proof. unfold handleSessionStatus. apply _. Qed.
#[local] Instance leaseSet_kept : kept handleLeaseSet2.
Proof. unfold handleLeaseSet2, setm. keep_sm. Qed.
#[local] Instance close_kept last : kept (Close last).
Proof.
  unfold Close.
  assert (kept (setm (λ m, m <| sm_closed := true |>))) by (unfold setm; keep_sm).
  assert (kept (setm (λ m, m <| processor_done := true |>))) by (unfold setm; keep_sm).
  apply _.
Qed.
#[local] Instance setSession_kept x : kept (SetSession x).
Proof.
  unfold SetSession. destruct x as [x|]; [|apply _]. apply pres_bind; [apply _..|]. intros m.
  apply pres_if; [apply _|]. apply pres_bind; [apply _| |intros; apply _].
  unfold setm. apply pres_emodify. intros s []. constructor; try done.
  intros l y Hy. by destruct (si_lsts l y Hy).
Qed.

Lemma Inv_view f s :
  connections (f (sm_view (sm s))) = connections (sm_view (sm s)) →
  (is_Some (limiter (sm_view (sm s))) → is_Some (limiter (f (sm_view (sm s))))) →
  SysInv s → SysInv (s <| sm ::= λ m, m <| sm_view ::= f |> |>).
Proof.
  intros Hc Hl []. constructor; try done; cbn.
  - by apply Hl.
  - intros l y Hy. by destruct (si_lsts l y Hy).
  - rewrite Hc. done.
  - rewrite Hc. done.
Qed.
Ltac keep_view := apply pres_emodify; intros s Hi; by apply Inv_view.

#[local] Instance notifyAll_kept l : kept (notifyAll l).
Proof. induction l as [|[] l IH]; cbn [notifyAll]; unfold notify; apply _. Qed.
#[local] Instance messageStatus_kept id st : kept (handleMessageStatus id st).
Proof.
  unfold handleMessageStatus. apply pres_bind; [apply _..|]. intros v. destruct (msgTracker v) as [t|]; [|apply _].
  apply pres_bind; [apply _..|]. intros now. destruct (HandleStatus now id st t) as [ns t'].
  apply pres_bind; [apply _| |apply _]. unfold setv, setm. keep_view.
Qed.

(** *** Lookups and pings *)

#[local] Instance lookups_kept f : kept (emodify (λ s, s <| lookups ::= f |>) : Y ()).
Proof. apply kept_core, _. Qed.
#[local] Instance destination_kept id a d : kept (handleDestinationResult id a d).
Proof. unfold handleDestinationResult. apply _. Qed.
#[local] Instance newLookup_kept : kept newLookup.
Proof. unfold newLookup. apply _. Qed.
#[local] Instance lookupResults_kept f : kept (setm (λ m, m <| lookupResults ::= f |>)).
Proof. unfold setm. keep_sm. Qed.

Lemma sysDraw_kept {A} (g : list (option bytes) → result CryptoError A * list (option bytes)) :
  (∀ rs, rands_ok rs → fst (g rs) ≠ Panic ∧ rands_ok (snd (g rs))) → kept (sysDraw g).
Proof.
  intros Hg s Hi. pose proof (wp_sysDraw g (λ _, SysInv) (λ _, SysInv) s Hg (si_rands s Hi)) as H.
  unfold wp in H. specialize (H (λ _ rs Hr, Inv_rands rs s Hr Hi) (λ _ rs Hr, Inv_rands rs s Hr Hi)).
  by destruct (sysDraw g s) as [[] ?].
Qed.

Section Env.
Context (env : Sys → Sys) (Henv : ∀ s, SysInv s → SysInv (env s)).

#[local] Instance env_kept : kept (emodify env : Y ()).
Proof. by apply pres_emodify. Qed.
Lemma start_kept c r : kept (StartSession env c r).
Proof.
  unfold StartSession. assert (kept (setm (λ m, m <| sessionReady := false |>))) by (unfold setm; keep_sm).
  apply _.
Qed.
Lemma ping_kept sel d bs : kept (Ping env sel d bs).
Proof.
  unfold Ping, validatePingPrerequisites.
  assert (∀ id, kept (deletePing id)) by (intros id; unfold deletePing, setm; keep_sm).
  assert (kept Ping.generateStreamID) by (apply sysDraw_kept, generateStreamID_ok).
  assert (∀ id bs, kept (storePing id bs)).
  { intros id bs'. unfold storePing. apply pres_bind; [apply _..|]. intros now.
    apply pres_bind; [apply _..|]. intros p. apply pres_bind; [apply _|apply kept_core, _|]. intros [].
    apply pres_bind; [apply _| |intros; apply _]. unfold setm. keep_sm. }
  assert (∀ id bs, kept (sendPingPacket d id bs)).
  { intros id bs'. apply kept_core. unfold sendPingPacket, signPingPacket. cbv zeta. apply _. }
  assert (∀ p, kept (awaitPong p sel)).
  { intros p. apply kept_core. unfold awaitPong. destruct sel; apply _. }
  cbv zeta. apply pres_bind; [apply _..|]. intros []. apply pres_bind; [apply _..|]. intros id.
  apply pres_bind; [apply _..|]. intros p. apply pres_bind; [apply _..|]. intros [r|e]; [apply _|].
  destruct e; apply _.
Qed.

Lemma lookup_kept r after sel : (∀ s, SysInv s → SysInv (after s)) → kept (LookupDestination r env after sel).
Proof.
  intros Ha. assert (kept (emodify after : Y ())) by (by apply pres_emodify).
  unfold LookupDestination. cbv zeta. apply pres_bind; [apply _..|]. intros p.
  destruct r as [id|]; [|apply _]. apply pres_bind; [apply _..|]. intros _. apply pres_bind; [apply _..|]. intros _.
  apply pres_bind; [apply _..|]. intros _. apply pres_bind; [apply _..|]. intros o.
  destruct sel, o; apply _.
Qed.
End Env.

(** *** Dialing *)

Lemma createConnection_wp p x d lp rp mtu w : rands_ok (rands w) →
  let table w' := (connections (mgr w'), limiter (mgr w')) in
  wp (createConnectionStruct p x true d lp rp mtu)
    (λ _ w', conn_ids (conn w') = (p, true, x, lp, rp) ∧ ctx_done (conn w') = false ∧ is_Some x ∧
       table w' = table w ∧ rands_ok (rands w'))
    (λ _ w', table w' = table w ∧ rands_ok (rands w')) w.
Proof.
  intros Hr. cbv zeta. unfold createConnectionStruct. wp_step. unfold validateConnectionParams.
  case_if; [by wp_step|]. case_if; [by wp_step|]. destruct x as [x|]; [|by wp_step].
  destruct d as [d|]; [|by wp_step]. wp_step. wp_step. unfold generateConnectionIdentifiers.
  assert (Hd : ∀ (k : Z → STE World ConnError (Z * Z)) Q (F : ConnError → World → Prop) w0, rands_ok (rands w0) →
    (∀ v rs, rands_ok rs → wp (k v) Q F (w0 <| rands := rs |>)) → (∀ rs, rands_ok rs → F ERand (w0 <| rands := rs |>)) →
    wp (drawISN ≫= k) Q F w0).
  { intros k Q F w0 H0 Hk HF. unfold drawISN. do 3 wp_step. destruct (generateISN_ok _ H0) as [H1 H2].
    destruct (generateISN (rands w0)) as [[v|e|] rs]; cbn in *; [..|done]; do 3 wp_step; auto. }
  apply Hd; [done| |by intros]. intros isn rs Hrs. apply Hd; [done| |by intros]. intros id rs' Hrs'. wp_step.
  destruct (NewBuffer (64 * 1024)) as [buf|]; [|by wp_step]. unfold Now, setc, getc. do 8 wp_step. wp_step.
  match goal with |- wp _ _ _ ?w1 => set (w1' := w1) end.
  assert (H1 : conn_ids (conn w1') = (p, true, Some x, lp, rp)) by done.
  assert (H2 : (connections (mgr w1'), limiter (mgr w1')) = (connections (mgr w), limiter (mgr w))) by done.
  assert (H3 : rands_ok (rands w1')) by done. assert (H4 : ctx_done (conn w1') = false) by done. clearbody w1'.
  assert (Hf : Pres (same (λ w, (connections (mgr w), limiter (mgr w)))) (applyCachedTCB (Some d))).
  { unfold applyCachedTCB, applyTCBDataToConnection, Now, getc, setc. apply pres_bind; [apply _..|]. intros c.
    apply pres_bind; [apply _..|]. intros [t|]; [|apply _]. apply pres_if; [|apply _].
    apply pres_bind; [apply _..|]. intros now. destruct (Get now (Some d) t) as [[[[a1 a2] a3] a4] t']. apply _. }
  pose proof (applyCached_ctx (Some d) w1') as Hx. specialize (Hf w1'). pose proof (applyCached_place (Some d) w1') as Hp. pose proof (applyCached_safe (Some d) w1') as Hs.
  unfold wp. destruct (applyCachedTCB (Some d) w1') as [[[]|e|] w2]; cbn in *; [..|done].
  - destruct Hp. unfold same in Hf. unfold mbind, ste_bind, egets, emodify. unfold conn_ids in *. cbn.
    split; [etransitivity; [exact pl_ids|exact H1]|]. split; [by unfold same in Hx; rewrite Hx|]. split; [by eexists|].
    split; [congruence|by rewrite pl_rands].
  - destruct Hp. unfold same in Hf. split; [congruence|by rewrite pl_rands].
Qed.

Lemma Inv_world s p w :
  conns s !! p = None → (connections (mgr w), limiter (mgr w)) =
    (connections (sm_view (sm s)), limiter (sm_view (sm s))) → rands_ok (rands w) →
  SysInv s → SysInv ((put_world p w s) <| conns := conns s |>).
Proof.
  intros Hp H Hr []. injection H as H1 H2. constructor; cbn; rewrite ?H1, ?H2; try done.
  intros l y Hy. by destruct (si_lsts l y Hy).
Qed.

Lemma newConnection_wp mem d lp rp s :
  SysInv s → wp (newConnection mem d lp rp)
    (λ p s', SysInv s' ∧ (∃ c, conns s' !! p = Some c ∧ localPort c = lp ∧ remotePort c = rp ∧ manager c = true) ∧
       running p s')
    (λ _, SysInv) s.
Proof.
  intros Hi. unfold newConnection. wp_step. apply wp_getm. wp_step. unfold fresh_conn. wp_step.
  set (p := base.fresh (dom (conns s))). assert (Hp : conns s !! p = None) by apply fresh_conn_None. clearbody p.
  do 4 wp_step. eapply wp_on_conn; [cbn; by rewrite lookup_insert_eq|].
  eapply wp_mono; [apply createConnection_wp; cbn; apply Hi|..]; cbv beta.
  - intros [] w (Hids & Hd & Hx & Ht & Hr). wp_step. unfold conn_ids in Hids. injection Hids as H1 H2 H3 H4 H5.
    pose proof (Inv_world s p w Hp Ht Hr Hi) as Hw.
    assert (Heq : put_world p w (s <| conns ::= <[p := mem]> |>) =
      ((put_world p w s) <| conns := conns s |>) <| conns ::= <[p := conn w]> |>).
    { exact (f_equal (λ m, (put_world p w s) <| conns := m |>) (insert_insert_eq (conns s) p (conn w) mem)). }
    rewrite Heq. split; [apply Inv_new; [done..| |done]; by rewrite H3|].
    split; exists (conn w); cbn; by rewrite lookup_insert_eq.
  - intros e w [Ht Hr]. do 3 wp_step. pose proof (Inv_world s p w Hp Ht Hr Hi) as Hw.
    assert (Heq : ∀ s1, conns s1 = <[p := conn w]> (<[p := mem]> (conns s)) →
      s1 <| conns ::= delete p |> = s1 <| conns := conns s |>).
    { intros s1 H1. assert (Hd : delete p (conns s1) = conns s)
        by (rewrite H1, insert_insert_eq; by apply delete_insert_id).
      exact (f_equal (λ m, s1 <| conns := m |>) Hd). }
    rewrite Heq by done. exact Hw.
Qed.

Lemma awaitSynAck_kept p waits t :
  Forall (λ f, ∀ s, SysInv s → SysInv (f s)) waits → kept (awaitSynAck p waits t).
Proof.
  induction 1 as [|f ws Hf _ IH]; cbn [awaitSynAck]; [apply _|].
  assert (kept (emodify f : Y ())) by (by apply pres_emodify).
  assert (Pres place (getc recvChan : STE World ConnError _)) by (unfold getc; apply _).
  apply pres_bind; [apply _..|]. intros _. apply pres_bind; [apply _..|]. intros [|pkt q]; [exact IH|]. apply _.
Qed.

Lemma dial_kept mem d lp rp waits t :
  Forall (λ f, ∀ s, SysInv s → SysInv (f s)) waits → kept (DialWithManager mem d lp rp waits t).
Proof.
  intros Hwaits s Hi. unfold DialWithManager. pose proof (newConnection_wp mem d lp rp s Hi) as Hw. unfold wp in Hw.
  unfold mbind at 1, ste_bind at 1. destruct (newConnection mem d lp rp s) as [[p|e|] s1]; [|done..].
  destruct Hw as (Hi1 & Hc & Hrun). unfold RegisterConnectionAt, setv, setm. unfold mbind at 1, ste_bind at 1, emodify at 1.
  assert (kept (sysHandshake p waits t)).
  { unfold sysHandshake, startConnectionGoroutines. pose proof (awaitSynAck_kept p waits t Hwaits).
    apply _. }
  set (s2 := s1 <| sm ::= _ |>). assert (Hi2 : SysInv s2) by (by apply Inv_register). clearbody s2.
  assert (Hk : kept (e ← try (sysHandshake p waits t);
    match e with
    | Some SBlocked => fail SBlocked
    | Some e => _ ← UnregisterConnectionAt lp rp; fail e
    | None => mret p
    end)); [|by apply Hk].
  apply pres_bind; [apply _..|]. intros [e|]; [|apply _]. destruct e; apply _.
Qed.

(** *** Configuration *)

#[local] Instance allocFilter_kept c : kept (allocFilter c).
Proof.
  intros s Hi. unfold allocFilter, mbind, ste_bind, egets, emodify, mret, ste_ret. cbn [snd].
  by apply (Inv_filter _ (newAccessFilter c (access_configs s))).
Qed.

#[local] Instance managerFilter_kept {A} (m : ST FilterWorld A) : kept (managerFilter m).
Proof. unfold managerFilter. apply _. Qed.

#[local] Instance installMode_kept mode : kept (installMode mode).
Proof.
  unfold installMode. apply pres_bind; [apply _..|]. intros c. apply pres_bind; [apply _..|]. intros p.
  apply pres_bind; [apply _|apply kept_core, _|intros; apply _].
Qed.

#[local] Instance on_tcb_kept {A} (m : ST tcbCache A) : kept (on_tcb m).
Proof.
  unfold on_tcb. apply pres_bind; [apply _..|]. intros v. destruct (tcb v) as [t|]; [|apply _].
  destruct (m t) as [r t']. apply pres_bind; [apply _| |intros; apply _]. unfold setv, setm. keep_view.
Qed.

Lemma allocFilter_live c s : is_Some (filters (snd (allocFilter c s)) !! base.fresh (dom (filters s))).
Proof.
  unfold allocFilter, mbind, ste_bind, egets, emodify, mret, ste_ret. cbn. rewrite lookup_insert_eq. by eexists.
Qed.

#[local] Instance config_kept op : kept (config_step op).
Proof.
  destruct op; cbn [config_step].
  - unfold SetPingConfig, setm. keep_sm.
  - unfold SetConnectionLimits. apply _.
  - intros s Hi. unfold SetAccessFilter. unfold mbind, ste_bind.
    pose proof (allocFilter_kept c s Hi) as Hi1. pose proof (allocFilter_live c s) as Hl.
    assert (Hr : fst (allocFilter c s) = Ok (base.fresh (dom (filters s)))) by done.
    destruct (allocFilter c s) as [r s1]. cbn in *. subst r. cbn.
    destruct Hi1. constructor; try done. intros l y Hy. by destruct (si_lsts l y Hy).
  - unfold AddToAccessList. apply _.
  - unfold RemoveFromAccessList. apply _.
  - unfold SetAccessListEnabled. apply _.
  - unfold SetAccessListMode. apply _.
  - unfold SetTCBCacheConfig. apply _.
  - unfold EnableTCBCache. apply _.
  - unfold CleanupTCBCache. apply _.
  - unfold SetStreamProfile, SetProfileConfig, setv, setm. keep_view.
Qed.

(** *** Runs *)

Lemma conn_turn_kept p op s : SysInv s → SysInv (conn_turn p op s).
Proof.
  intros Hi. unfold conn_turn. destruct (conns s !! p) as [c|] eqn:Hc; [|done].
  eapply Inv_put; [done..|apply step_place].
Qed.

Lemma sys_runs_kept ops : Forall (λ op, ∀ s, SysInv s → SysInv (sys_step op s)) ops →
  ∀ s, SysInv s → SysInv (sys_run ops s).
Proof. unfold sys_run. induction 1 as [|op ops Ho _ IH]; intros s Hi; cbn; auto. Qed.

Lemma sys_step_kept op s : SysInv s → SysInv (sys_step op s).
Proof.
  revert s. revert op. apply (sys_op_nested (λ op, ∀ s, SysInv s → SysInv (sys_step op s))).
  - intros r b a sel Hb Ha s Hi. by apply (lookup_kept _ (sys_runs_kept b Hb) r _ sel (sys_runs_kept a Ha)).
  - intros d c r Hd s Hi. by apply (start_kept _ (sys_runs_kept d Hd)).
  - intros d sel dest bs Hd s Hi. by apply (ping_kept _ (sys_runs_kept d Hd)).
  - intros mem d lp rp ws t Hws s Hi. apply dial_kept; [|done].
    apply Forall_map. eapply Forall_impl; [exact Hws|]. intros ops Hops. by apply sys_runs_kept.
  - intros op. destruct op; try exact Logic.I; intros s Hi; cbn [sys_step]; revert Hi.
    + apply handleIncomingMessage_kept.
    + apply process_kept.
    + apply conn_turn_kept.
    + apply listen_kept.
    + apply accept_kept.
    + apply closeListener_kept.
    + apply status_kept.
    + apply messageStatus_kept.
    + apply leaseSet_kept.
    + apply destination_kept.
    + apply setSession_kept.
    + apply close_kept.
    + apply config_kept.
Qed.

Lemma sys_run_kept ops s : SysInv s → SysInv (sys_run ops s).
Proof. apply sys_runs_kept, Forall_true, sys_step_kept. Qed.
End Ops.
