(* ===== verification/SystemProps.v ===== *)
(** * Properties of the stream manager

    What holds in every state a manager can reach, on what its packet
    processor panics, and where an incoming packet goes. *)

From S2P Require Import Prelude GoInt SeqNum I2CP Packet PacketProps Crypto Limits MessageStatus.
From S2P Require Import TCBCache Floats Runtime Conn ConnRecv ConnAck ConnLife ConnWrite.
From S2P Require Import ConnFrames ConnOps ConnExamples AccessList System Ping Listener Manager.
From S2P Require Import SystemFrames SystemInv SystemOps.
From Stdlib Require Import Strings.Byte.

(** ** Every reachable state *)

Section Reachable.
Context {I : I2CP} {B : CircBuf} {RT : GoRuntime} {C : MessageStatusCodes} {SS : SessionStatusCodes}.
Implicit Types s : Sys.
#[local] Abbreviation Y := (STE Sys SysError).

(** Before the manager is made; [rs] is what [rand.Read] will deliver. *)
Definition empty_Sys (rs : list (option bytes)) : Sys :=
  MkSys (MkManager None ∅ (MkManagerView None None None ∅ ProfileBulk) (newPingManager None) 1 []
           false false false false ∅)
    ∅ ∅ ∅ ∅ ∅ ∅ 0 0 0 rs [] [].

(** The manager [NewStreamManager] returns for the session [x]. *)
Definition started (x : Session) (rs : list (option bytes)) : Sys :=
  snd (NewStreamManager true x (empty_Sys rs)).

Lemma started_inv x rs : rands_ok rs → SysInv (started x rs).
Proof.
  intros Hr. unfold started, NewStreamManager, newStreamManagerBase, allocFilter. cbn [negb].
  unfold setm, mbind, ste_bind, egets, emodify, mret, ste_ret.
  constructor; cbn; try done; try (by eexists); try lia.
Qed.

Lemma reachable_inv x rs ops : rands_ok rs → SysInv (sys_run ops (started x rs)).
Proof. intros Hr. by apply sys_run_kept, started_inv. Qed.

(** C8.  The manager's tables stay coherent.  In every state a manager can
    reach, whatever arrives and whatever its users do: an entry of the routing
    table is an existing connection of the manager with exactly these ports,
    whose goroutines have not been told to stop, so that a connection that was
    closed by [Close], given up on or dropped from a full accept queue is never
    in it (one the peer has closed still is, see
    [ConnLifeProps.peer_close_never_released]); a registered listener is open,
    listens on that port and has at most ten connections waiting; and at most a
    hundred messages are queued. *)
Theorem tables_coherent (x : Session) (rs : list (option bytes)) (ops : list sys_op) :
  rands_ok rs →
  let s := sys_run ops (started x rs) in
  (∀ lp rp p, connections (sm_view (sm s)) !! (lp, rp) = Some p →
     ∃ c, conns s !! p = Some c ∧ self c = p ∧ localPort c = lp ∧ remotePort c = rp ∧
       manager c = true ∧ ctx_done c = false) ∧
  (∀ port l, listeners (sm s) !! port = Some l →
     ∃ y, lsts s !! l = Some y ∧ l_localPort y = port ∧ l_closed y = false ∧ acceptClosed y = false ∧
       (length (acceptChan y) ≤ 10)%nat) ∧
  (length (incomingPackets (sm s)) ≤ 100)%nat.
Proof.
  intros Hr s. pose proof (reachable_inv x rs ops Hr) as Hi. fold s in Hi. split_and!.
  - intros lp rp p Hp. destruct (si_table s Hi lp rp p Hp) as (c & Hc & H1 & H2).
    destruct (si_live s Hi _ p c Hp Hc) as [H3 H4].
    exists c. split_and!; [done|apply (si_conns s Hi p c Hc)|done..].
  - intros port l Hl. destruct (si_listeners s Hi port l Hl) as (y & Hy & H1 & H2 & _).
    destruct (si_lsts s Hi l y Hy). exists y. split_and!; [done..|congruence|done].
  - apply (si_queue s Hi).
Qed.

(** C11.  The packet processor survives everything but a truncated datagram.  In
    every reachable state, taking the next message panics, and so ends the
    program, exactly when its payload has at least 22 bytes, holds the NACKs it
    counts, and has fewer than five bytes after them; whatever the packet asks of
    listeners, connections, pings, limits and filters.  The operations are
    steps: that a listener is closed while a SYN is being queued on it, which
    the code does not exclude by a lock, is outside the model. *)
Theorem processor_panics_exactly (x : Session) (rs : list (option bytes)) (ops : list sys_op) (pick : bool) :
  rands_ok rs →
  let s := sys_run ops (started x rs) in
  fst (processPackets pick s) = Panic ↔
  processor_done (sm s) = false ∧
  ∃ incoming q, incomingPackets (sm s) = incoming :: q ∧ header_overrun (i_payload incoming).
Proof.
  intros Hr s. pose proof (reachable_inv x rs ops Hr) as Hi. fold s in Hi. clearbody s. split.
  - intros Hp. destruct (processor_done (sm s)) eqn:Hd; [by rewrite process_idle in Hp by auto|]. split; [done|].
    destruct (incomingPackets (sm s)) as [|i q] eqn:Hq; [by rewrite process_idle in Hp by auto|].
    exists i, q. split; [done|]. rewrite (process_pop pick s i q Hd Hq) in Hp.
    apply Unmarshal_panic_iff. unfold unmarshal_fresh.
    pose proof (dispatch_inv pick i _ (Inv_pop i q s Hq Hi)) as Hw. unfold wp in Hw.
    destruct (Unmarshal (i_payload i) empty_Packet) as [[[]|e|] ?] eqn:Hu; [exfalso..|done];
      (destruct (dispatchPacket pick i _) as [[] ?]; cbn in Hp; [done..|by apply Hw]).
  - intros (Hd & i & q & Hq & Ho). rewrite (process_pop pick s i q Hd Hq).
    rewrite dispatch_panic; [done|]. apply Unmarshal_panic_iff in Ho. unfold unmarshal_fresh in Ho.
    by destruct (Unmarshal (i_payload i) empty_Packet) as [[[]|e|] ?].
Qed.

(** ** Where a packet goes *)

Definition put_conn (p : positive) (c : StreamConn) (s : Sys) : Sys := s <| conns ::= <[p := c]> |>.

(** What the connection's queue makes of a packet: dropped when it is full,
    or, once the connection is told to stop, also at the scheduler's choice. *)
Definition enqueued (pick : bool) (pkt : Packet) (c : StreamConn) : StreamConn :=
  if (length (recvChan c) <? 32)%nat && (pick || negb (ctx_done c))
  then c <| recvChan ::= λ q, q ++ [pkt] |> else c.

Lemma put_world_same p c s : put_world p (world_of c s) s = put_conn p c s.
Proof.
  unfold put_world, put_conn, world_of. cbn. rewrite app_nil_r. unfold upd, set_conns. cbn. f_equal.
  by destruct (sm s).
Qed.

Lemma incoming_run pick (pkt : Packet) c s :
  snd (handleIncomingPacket pick pkt (world_of c s)) = world_of (enqueued pick pkt c) s.
Proof.
  unfold handleIncomingPacket, enqueued. rewrite getc_step. cbn [id world_of conn].
  case_if; [done|]. by destruct (ctx_done c).
Qed.

Lemma route_run pick (pkt : Packet) incoming p c s :
  connections (sm_view (sm s)) !! (destPort incoming, srcPort incoming) = Some p → conns s !! p = Some c →
  routeToConnection pick pkt incoming s = (Ok (), put_conn p (enqueued pick pkt c) s).
Proof.
  intros Hp Hc. unfold routeToConnection, getm. unfold mbind at 1, ste_bind at 1, egets. rewrite Hp.
  unfold try, on_conn. unfold mbind, ste_bind. rewrite Hc. pose proof (incoming_run pick pkt c s) as Hr.
  assert (Hs : fst (handleIncomingPacket pick pkt (world_of c s)) ≠ Panic).
  { unfold handleIncomingPacket. rewrite getc_step. cbn [id]. case_if; [done|]. by destruct (ctx_done _). }
  destruct (handleIncomingPacket pick pkt (world_of c s)) as [r w]. cbn in Hr. subst w.
  rewrite put_world_same. by destruct r.
Qed.

Lemma dispatch_parsed pick incoming (pkt : Packet) s :
  Unmarshal (i_payload incoming) empty_Packet = (Ok (), pkt) →
  dispatchPacket pick incoming s =
    (if has_flag (Flags pkt) FlagECHO then handleEchoPacket pkt incoming s
     else if isSynPacket pkt then handleSynPacket pkt incoming s
     else routeToConnection pick pkt incoming s).
Proof.
  intros Hu. unfold dispatchPacket, unmarshalIncomingPacket, catch, mbind, ste_bind. rewrite Hu. cbn.
  by repeat case_if.
Qed.

End Reachable.

(** ** Instances *)

Section Examples.

(** The manager listens on port 443; a truncated message has arrived. *)
Definition rands_two : list (option bytes) := [Some [x00; x00; x03; x07]; Some [x00; x00; x00; x09]].
Definition ops_ex : list sys_op := [YListen 443 1730; YMessage None 6 10 443 (replicate 16 x00 ++ [x01] ++ replicate 5 x00)].
Definition data_ex : bytes := wire (base_Packet 9 7 1 1 0).

Lemma rands_two_ok : rands_ok rands_two.
Proof. repeat constructor; by intros ? [= <-]. Qed.

(** A peer connects to port 443 from port 10: the table has the connection, and
    no more once it is closed. *)
Definition connect_ex : list sys_op :=
  [YListen 443 1730; YMessage (Some dest_B) 6 10 443 (wire (base_Packet 0 7 500 0 FlagSYN)); YProcess true].
Lemma tables_coherent_witness :
  let s := sys_run connect_ex (started session_A rands_two) in
  connections (sm_view (sm s)) !! (443, 10) = Some 1%positive ∧
  connections (sm_view (sm (sys_step (YConn 1 OpClose) s))) !! (443, 10) = None ∧
  (∃ c, conns s !! 1%positive = Some c ∧ self c = 1%positive ∧ localPort c = 443 ∧ remotePort c = 10 ∧
     manager c = true ∧ ctx_done c = false) ∧
  ∀ port l, listeners (sm s) !! port = Some l →
    ∃ y, lsts s !! l = Some y ∧ l_localPort y = port ∧ l_closed y = false ∧ acceptClosed y = false ∧
      (length (acceptChan y) ≤ 10)%nat.
Proof.
  destruct (tables_coherent session_A rands_two connect_ex rands_two_ok) as (H1 & H2 & _).
  split; [vmeq|]. split; [vmeq|]. split; [|exact H2]. apply H1. vmeq.
Defined.

Lemma processor_panics_exactly_witness :
  rands_ok rands_two ∧
  let s := sys_run ops_ex (started session_A rands_two) in
  (fst (processPackets true s) = Panic ↔
   processor_done (sm s) = false ∧
   ∃ incoming q, incomingPackets (sm s) = incoming :: q ∧ header_overrun (i_payload incoming)).
Proof. split; [apply rands_two_ok|]. apply (processor_panics_exactly session_A rands_two ops_ex true rands_two_ok). Defined.

End Examples.
