(* ===== verification/SystemExamples.v ===== *)
(** * A concrete manager

    The sessions of two clients over the concrete instances of the third-party
    interfaces, and a manager that listens on a port, on which the theorems
    about managers are evaluated. *)

From S2P Require Import Prelude GoInt I2CP Packet Crypto Runtime Conn ConnExamples Delivery.
From S2P Require Import MessageStatus AccessList System Ping Listener Manager SystemInv SystemOps.
From S2P Require Import SystemProps.
From Stdlib Require Import Strings.Byte.

(** [session_B]'s manager, listening on port 443. *)
Definition rands_ex : list (option bytes) := [Some [x00; x00; x03; x07]; Some [x00; x00; x00; x09]].
Definition listening_ex : Sys := sys_run [YListen 443 1730] (started session_B rands_ex).
Definition listener_ex : StreamListener := MkListener true (Some session_B) 443 [] false 1730 true (Some 1%positive) false.

Lemma listening_ex_inv : SysInv listening_ex.
Proof. apply reachable_inv. repeat constructor; by intros ? [= <-]. Qed.
