(* ===== verification/Handshake.v ===== *)
(** * The packets of the handshake

    What a connection's methods send while a connection is set up, exactly:
    the SYN, the SYN-ACK and the final acknowledgement, each signed with the
    session's key or not sent at all; and what the other side takes over from
    them. *)

From S2P Require Import Prelude GoInt SeqNum I2CP Packet PacketProps Crypto Limits MessageStatus.
From S2P Require Import TCBCache Floats Runtime Conn ConnRecv ConnAck ConnLife ConnFrames.
From S2P Require Import Delivery.
From S2P Require Import ConnOps AccessList System Ping Listener Manager SystemFrames SystemInv.
From Stdlib Require Import Strings.Byte.

Section Packets.
Context {I : I2CP} {B : CircBuf} {RT : GoRuntime}.
Implicit Types w : World.
Implicit Types c : StreamConn.
#[local] Abbreviation M := (STE World ConnError).

Definition syn_flags : Z :=
  Z.lor (Z.lor (Z.lor (Z.lor FlagSYN FlagNoACK) FlagMaxPacketSizeIncluded) FlagSignatureIncluded)
    FlagFromIncluded.
Definition syn_packet c (y : Session) (nacks : list Z) : Packet :=
  (base_Packet 0 (localStreamID c) (sendSeq c) 0 (Z.lor syn_flags (profileToFlag (profile c))))
    <| MaxPacketSize := localMTU c |> <| NACKs := nacks |> <| FromDestination := session_Destination y |>.

Definition synack_flags c : Z :=
  let flags := Z.lor (Z.lor (Z.lor FlagSYN FlagMaxPacketSizeIncluded) FlagSignatureIncluded)
                 FlagFromIncluded in
  if profile c =? ProfileInteractive then Z.lor flags FlagProfileInteractive else flags.
Definition synack_packet c (y : Session) : Packet :=
  (base_Packet (localStreamID c) (remoteStreamID c) (sendSeq c) (recvSeq c -% 1) (synack_flags c))
    <| MaxPacketSize := localMTU c |> <| FromDestination := session_Destination y |>.

Definition ack_packet c : Packet := base_Packet (localStreamID c) (remoteStreamID c) 0 (recvSeq c -% 1) 0.

(** [bs] is the signed wire form of [pkt], and I2CP accepts the [n]-th message. *)
Definition sent_signed (y : Session) (pkt : Packet) (n : nat) (bs : bytes) : Prop :=
  signed y pkt bs ∧ send_ok n = true.

Definition message c (bs : bytes) : Message := MkMessage (dest c) (localPort c) (remotePort c) bs 0.
Definition after_send (bs : bytes) w : World :=
  w <| sends ::= S |> <| outbox ::= λ o, o ++ [message (conn w) bs] |>.

(** What a failed send leaves alone: all but the count of messages. *)
Definition unsent w := (conn w, mgr w, (ticks w, ranges w, rands w, outbox w, spawned w)).

Lemma wp_SendMessage bs (Q : () → World → Prop) (F : ConnError → World → Prop) w :
  (send_ok (sends w) = true → Q () (after_send bs w)) →
  (send_ok (sends w) = false → F ESend (w <| sends ::= S |>)) → wp (SendMessage bs 0) Q F w.
Proof.
  intros HQ HF. unfold SendMessage, getc. do 4 wp_step. destruct (send_ok (sends w)); wp_step; [|by apply HF].
  wp_step. wp_step. by apply HQ.
Qed.

Lemma wp_sessionOf_eq y (Q : Session → World → Prop) (F : ConnError → World → Prop) w :
  session (conn w) = Some y → Q y w → wp sessionOf Q F w.
Proof. intros Hy HQ. unfold sessionOf, getc. do 2 wp_step. rewrite Hy. by wp_step. Qed.

(** Signing and marshalling, or stopping before the message is out. *)
Lemma wp_signed (pkt : Packet) y (f : bytes → M ()) (Q : () → World → Prop) (F : ConnError → World → Prop) w :
  session (conn w) = Some y → (∀ bs, signed y pkt bs → wp (f bs) Q F w) →
  (∀ e, ¬ (∃ bs, signed y pkt bs) → F e w) →
  wp (pkt ← signOrFail pkt; data ← marshal pkt; f data) Q F w.
Proof.
  intros Hy HQ HF. unfold signOrFail, sessionOf, getc. do 4 wp_step. rewrite Hy. wp_step.
  destruct (SigningKeyPair y) as [kp|] eqn:Ek.
  2: { wp_step. apply HF. intros (bs & kp & p1 & H & _). congruence. }
  wp_step. unfold sign. pose proof (SignPacket_safe kp pkt) as Hs.
  destruct (SignPacket kp pkt) as [[[]|e|] p1] eqn:Es; [..|done]; wp_step.
  2: { wp_step. apply HF. intros (bs & kp' & p2 & H1 & H2 & _). congruence. }
  wp_step. wp_step. unfold marshal. pose proof (Marshal_inv p1) as Hm. destruct (Marshal p1) as [bs|e|] eqn:Em; [..|done].
  2: { wp_step. apply HF. intros (bs & kp' & p2 & H1 & H2 & H3). congruence. }
  wp_step. apply HQ. by exists kp, p1.
Qed.

Lemma sendSynAck_eq w : sendSynAck w =
  (pkt ← buildSynAckPacket; pkt ← signOrFail pkt; data ← marshal pkt; _ ← SendMessage data 0;
   setc (λ c, c <| sendSeq ::= λ s, s +% 1 |>) : M ()) w.
Proof.
  unfold sendSynAck, transmitSynAckPacket, mbind, ste_bind. destruct (buildSynAckPacket w) as [[p|e|] w1]; [|done..].
  destruct (signOrFail p w1) as [[p'|e|] w2]; [|done..]. by destruct (marshal p' w2) as [[bs|e|] w3].
Qed.

Lemma sendSynAck_wp y w :
  session (conn w) = Some y →
  wp sendSynAck
    (λ _ w', ∃ bs, sent_signed y (synack_packet (conn w) y) (sends w) bs ∧
       w' = updc (λ c, c <| sendSeq ::= λ s, s +% 1 |>) (after_send bs w))
    (λ _ w', (¬ ∃ bs, sent_signed y (synack_packet (conn w) y) (sends w) bs) ∧ unsent w' = unsent w) w.
Proof.
  intros Hy. eapply wp_ext; [apply sendSynAck_eq|]. unfold buildSynAckPacket, getc. repeat wp_step.
  eapply wp_sessionOf_eq; [exact Hy|]. cbv zeta. wp_step. eapply wp_signed; [exact Hy|..].
  - intros bs Hb. wp_step. apply wp_SendMessage; intros Ho.
    + unfold setc. wp_step. by exists bs.
    + split; [|done]. intros (? & _ & ?). congruence.
  - intros e Hb. split; [|done]. intros (bs & ? & _). apply Hb. by exists bs.
Qed.

Lemma sendSYN_wp y h w :
  session (conn w) = Some y → hashDestination (dest (conn w)) = Some h →
  wp sendSYN
    (λ _ w', ∃ bs, sent_signed y (syn_packet (conn w) y (hash_words h)) (sends w) bs ∧
       w' = updc (λ c, c <| sendSeq ::= λ s, s +% 1 |>) (after_send bs w))
    (λ _ w', (¬ ∃ bs, sent_signed y (syn_packet (conn w) y (hash_words h)) (sends w) bs) ∧ unsent w' = unsent w) w.
Proof.
  intros Hy Hh. unfold sendSYN, generateReplayPreventionNACKs, buildSYNPacket, getc.
  repeat wp_step. rewrite Hh. repeat wp_step. eapply wp_sessionOf_eq; [exact Hy|]. cbv zeta. do 2 wp_step.
  unfold signAndSendPacket. eapply wp_signed; [exact Hy|..].
  - intros bs Hb. apply wp_SendMessage; intros Ho.
    + unfold setc. wp_step. by exists bs.
    + split; [|done]. intros (? & _ & ?). congruence.
  - intros e Hb. split; [|done]. intros (bs & ? & _). apply Hb. by exists bs.
Qed.
End Packets.
