(* ===== verification/ListenerProps.v ===== *)
(** * Properties of the listener

    What a SYN has to pass to become a connection, and what it is then. *)

From S2P Require Import Prelude GoInt SeqNum I2CP Packet PacketProps Crypto Limits MessageStatus.
From S2P Require Import TCBCache Floats Runtime Conn ConnRecv ConnAck ConnLife ConnWrite.
From S2P Require Import ConnFrames ConnOps ConnExamples AccessList System Ping Listener Manager.
From S2P Require Import SystemFrames SystemInv SystemOps SystemProps SystemExamples Handshake.
From Stdlib Require Import Strings.Byte.

(** What the handshake fixes in a connection. *)
Section View.
Context {I : I2CP} {B : CircBuf} {RT : GoRuntime}.
#[local] Abbreviation M := (STE World ConnError).

(** What sending leaves alone. *)
Definition fixed_part (c : StreamConn) :=
  (conn_ids c, dest c, localStreamID c, remoteStreamID c, recvSeq c,
   (localMTU c, remoteMTU c, recvChan c, ctx_done c, closed c, state c, profile c, remoteProfile c)).
Definition send_part (c : StreamConn) := (sendSeq c, ackThrough c).
Definition stream_part (c : StreamConn) := (recvBuf c, sentPackets c, outOfOrderPackets c, nackList c).
#[global] Arguments fixed_part : simpl never.
#[global] Arguments send_part : simpl never.
#[global] Arguments stream_part : simpl never.

Definition handshake_part (w : World) :=
  (fixed_part (conn w), (send_part (conn w), stream_part (conn w)), connections (mgr w), limiter (mgr w), msgTracker (mgr w),
   (profileConfig (mgr w), ranges w, sends w, rands w, outbox w, spawned w)).

#[export] Instance applyTCBData_part d : Pres (same handshake_part) (applyTCBDataToConnection d).
Proof. unfold applyTCBDataToConnection, getc, setc. apply _. Qed.
#[export] Instance applyCached_part d : Pres (same handshake_part) (applyCachedTCB d).
Proof.
  unfold applyCachedTCB, Now, getc. apply pres_bind; [apply _..|]. intros c.
  apply pres_bind; [apply _..|]. intros [t|]; [|apply _]. apply pres_if; [|apply _].
  apply pres_bind; [apply _..|]. intros now. destruct (Get now d t) as [[[[a1 a2] a3] a4] t']. apply _.
Qed.

#[export] Instance applyTCBData_total d : Total (applyTCBDataToConnection d).
Proof. unfold applyTCBDataToConnection, getc, setc. apply _. Qed.
#[export] Instance applyCached_total d : Total (applyCachedTCB d).
Proof.
  unfold applyCachedTCB, Now, getc. apply total_bind; [apply _|]. intros c.
  apply total_bind; [apply _|]. intros [t|]; [|apply _]. apply total_if; [|apply _].
  apply total_bind; [apply _|]. intros now. destruct (Get now d t) as [[[[a1 a2] a3] a4] t']. apply _.
Qed.
Lemma wp_total {A} (R : World → World → Prop) (m : M A) w :
  Total m → Pres R m → wp m (λ _, R w) (λ _ _, False) w.
Proof.
  intros Ht Hp. destruct (Ht w) as [a Ha]. specialize (Hp w). unfold wp.
  by destruct (m w) as [[] ?].
Qed.

(** Sending a SYN-ACK changes the outbox and the sequence number. *)
Definition sending_part (w : World) := (fixed_part (conn w), mgr w, rands w).
#[export] Instance SendMessage_part bs n : Pres (same sending_part) (SendMessage bs n).
Proof. unfold SendMessage, getc. apply _. Qed.
#[export] Instance sessionOf_part : Pres (same sending_part) sessionOf.
Proof. unfold sessionOf, getc. apply _. Qed.
#[export] Instance sign_part (pkt : Packet) kp : Pres (same sending_part) (sign pkt kp).
Proof. intros w. unfold sign. by destruct (SignPacket kp pkt) as [[] ?]. Qed.
#[export] Instance marshal_part (pkt : Packet) : Pres (same sending_part) (marshal pkt).
Proof. intros w. unfold marshal. by destruct (Marshal pkt). Qed.
#[export] Instance sendSynAck_part : Pres (same sending_part) sendSynAck.
Proof. unfold sendSynAck, buildSynAckPacket, transmitSynAckPacket, signOrFail, getc, setc. cbv zeta. apply _. Qed.
End View.

Section Admission.
Context {I : I2CP} {B : CircBuf} {RT : GoRuntime} {C : MessageStatusCodes} {SS : SessionStatusCodes}.
Implicit Types s : Sys.
#[local] Abbreviation Y := (STE Sys SysError).

(** ** What is checked *)

(** The filter [f] lets the destination through. *)
Definition lets_through (f : positive) (dest : option Destination) s : Prop :=
  ∀ y, filters s !! f = Some y → fst (IsAllowed dest (MkFilterWorld (access_configs s) y)) = true.

(** Whom a SYN comes from: what it says, or what I2CP says. *)
Definition syn_source (pkt : Packet) (dest : option Destination) : option Destination :=
  if has_flag (Flags pkt) FlagFromIncluded then
    match FromDestination pkt with Some d => Some d | None => dest end
  else dest.

(** The eight words are those of the listener's own destination. *)
Definition for_us (x : StreamListener) (pkt : Packet) : Prop :=
  length (NACKs pkt) = 8%nat → ∀ y h, l_session x = Some y →
    hashDestination (session_Destination y) = Some h → NACKs pkt = hash_words h.

Definition authentic (pkt : Packet) : Prop :=
  has_flag (Flags pkt) FlagSignatureIncluded = true → fst (VerifyPacketSignature pkt) = Ok ().

(** The random words a new connection takes. *)
Definition drawn (rs : list (option bytes)) (isn id : Z) : Prop :=
  ∃ rs1 rs2, generateISN rs = (Ok isn, rs1) ∧ Crypto.generateStreamID rs1 = (Ok id, rs2).

(** ** What does not change on the way *)

Definition objects s := (conns s, lsts s, listeners (sm s), connections (sm_view (sm s))).
Definition quiet s :=
  (objects s, y_sends s, y_outbox s, y_rands s, y_spawned s, profileConfig (sm_view (sm s))).

Lemma core_objects s s' : core s' = core s → objects s' = objects s.
Proof. unfold core, objects. intros H. injection H as H1 H2 H3 _ _. congruence. Qed.
Lemma quiet_objects s s' : quiet s' = quiet s → objects s' = objects s.
Proof. unfold quiet. congruence. Qed.

Lemma quiet_parts s s' : quiet s' = quiet s →
  objects s' = objects s ∧ y_sends s' = y_sends s ∧ y_outbox s' = y_outbox s ∧ y_rands s' = y_rands s ∧
  profileConfig (sm_view (sm s')) = profileConfig (sm_view (sm s)).
Proof. unfold quiet. intros H. split_and!; congruence. Qed.

Lemma IsAllowed_world dest w : snd (IsAllowed dest w) = w.
Proof. unfold IsAllowed, mbind, st_bind, gets, mret, st_ret. done. Qed.

Lemma wp_CheckAndLog f y dest (Q : option AccessError → Sys → Prop) (F : SysError → Sys → Prop) s :
  filters s !! f = Some y →
  (lets_through f dest s → Q None s) → (∀ e, ¬ lets_through f dest s → Q (Some e) s) →
  wp (on_filter f (CheckAndLog dest)) Q F s.
Proof.
  intros Hy HQ HF. unfold wp, on_filter. rewrite Hy. unfold CheckAndLog, mbind, st_bind.
  pose proof (IsAllowed_world dest (MkFilterWorld (access_configs s) y)) as Hw.
  assert (Hs : s <| access_configs := access_configs s |> <| filters ::= <[f := y]> |> = s).
  { unfold upd, set_filters, set_access_configs. cbn. rewrite insert_id by done. by destruct s. }
  destruct (IsAllowed dest _) as [b w] eqn:Ea. cbn in Hw. subst w. destruct b.
  - change (Q None (s <| access_configs := access_configs s |> <| filters ::= <[f := y]> |>)).
    rewrite Hs. apply HQ. intros y' Hy'. rewrite Hy in Hy'. injection Hy' as <-. by rewrite Ea.
  - change (Q (Some (if Mode (cfg (MkFilterWorld (access_configs s) y)) =? AccessListModeWhitelist
                     then ENotWhitelisted else EBlacklisted))
              (s <| access_configs := access_configs s |> <| filters ::= <[f := y]> |>)).
    rewrite Hs. apply HF. intros Hl. specialize (Hl y Hy). by rewrite Ea in Hl.
Qed.

Lemma checkAccessFilter_wp l x dest (pkt : Packet) s :
  listening l x s →
  wp (checkAccessFilter l dest pkt)
    (λ _ s', s' = s ∧ ∀ f, l_accessFilter x = Some f → lets_through f dest s)
    (λ e s', (∃ e', e = SAccess e') ∧ objects s' = objects s ∧
       ∃ f, l_accessFilter x = Some f ∧ ¬ lets_through f dest s) s.
Proof.
  intros H. unfold checkAccessFilter. wp_step. eapply wp_on_listener; [apply H|]. cbn [id].
  destruct (l_accessFilter x) as [f|] eqn:Ef; [|by wp_step]. wp_step.
  destruct (lo_filter _ _ (si_lsts s (proj1 H) l x (proj1 (proj2 H))) f Ef) as [y Hy].
  eapply wp_CheckAndLog; [exact Hy|..].
  - intros Hl. wp_step. split; [done|]. by intros ? [= <-].
  - intros e Hl. wp_step. apply wp_ewhen; intros _.
    + apply wp_sendReset. intros s' Hs'. wp_step. split; [by eexists|]. split; [by apply core_objects|by eexists].
    + wp_step. split; [by eexists|]. split; [done|by eexists].
Qed.

Lemma wp_limiter_exact {A} (m : connectionLimiter → result LimitError A * connectionLimiter) cl
    (Q : A → Sys → Prop) (F : SysError → Sys → Prop) s :
  limiter (sm_view (sm s)) = Some cl → fst (m cl) ≠ Panic →
  (∀ a cl', m cl = (Ok a, cl') → Q a (s <| sm ::= λ y, y <| sm_view ::= λ v, v <| limiter := Some cl' |> |> |>)) →
  (∀ e cl', m cl = (Err e, cl') →
     F (SLimit e) (s <| sm ::= λ y, y <| sm_view ::= λ v, v <| limiter := Some cl' |> |> |>)) →
  wp (on_limiter m) Q F s.
Proof.
  intros Hl Hs HQ HF. unfold wp, on_limiter. rewrite Hl.
  destruct (m cl) as [[] ?]; [by apply HQ|by apply HF|done].
Qed.

(** The limiter's answer, at the next reading of the clock. *)
Definition limit_answer (dest : option Destination) s (r : result LimitError ()) : Prop :=
  ∃ cl, limiter (sm_view (sm s)) = Some cl ∧
    fst (CheckAndRecordConnection (clock (y_ticks s)) dest cl) = r.

Lemma checkLimits_wp l x dest (pkt : Packet) s :
  listening l x s →
  wp (checkConnectionLimits l dest pkt)
    (λ _ s', listening l x s' ∧ quiet s' = quiet s ∧ (l_limiter x = true → limit_answer dest s (Ok ())))
    (λ e s', objects s' = objects s ∧
       ∃ e', e = SLimit e' ∧ l_limiter x = true ∧ limit_answer dest s (Err e')) s.
Proof.
  intros H. unfold checkConnectionLimits. wp_step. eapply wp_on_listener; [apply H|]. cbn [id].
  destruct (l_limiter x) eqn:El; cbn [negb]; [|by wp_step]. unfold SysNow. do 6 wp_step.
  destruct (si_limiter s (proj1 H)) as [cl Hcl].
  set (s1 := s <| y_ticks ::= S |>). assert (H1 : listening l x s1) by (by apply (listening_core l x s)).
  assert (Hcl1 : limiter (sm_view (sm s1)) = Some cl) by done. assert (Hq1 : quiet s1 = quiet s) by done.
  clearbody s1. do 2 wp_step.
  eapply wp_limiter_exact; [exact Hcl1|apply CheckAndRecord_safe|..].
  - intros [] cl' Er. wp_step. split; [split_and!; [by apply Inv_limiter, H1|apply H1|apply H1]|].
    split; [exact Hq1|]. intros _. exists cl. by rewrite Er.
  - intros e cl' Er. set (s2 := s1 <| sm ::= _ |>).
    assert (Hl2 : lsts s2 !! l = Some x) by apply H1. assert (Ho : objects s2 = objects s) by (by apply quiet_objects).
    assert (Hcl2 : limiter (sm_view (sm s2)) = Some cl') by done. clearbody s2.
    wp_step. apply wp_getm. rewrite Hcl2. wp_step.
    eapply handleLimitExceeded_core; [exact Hl2|]. intros s3 H3. wp_step.
    split; [by rewrite (core_objects _ _ H3)|]. exists e. split_and!; [done|done|]. exists cl. by rewrite Er.
Qed.

(** The checks of the SYN itself change nothing. *)
Lemma wp_validateSYNSource (pkt : Packet) dest (Q : Destination → Sys → Prop) (F : SysError → Sys → Prop) s :
  (∀ d, syn_source pkt dest = Some d → Q d s) → (syn_source pkt dest = None → F SNoSource s) →
  wp (validateSYNSource pkt dest) Q F s.
Proof.
  intros HQ HF. unfold validateSYNSource. fold (syn_source pkt dest). cbv zeta.
  destruct (syn_source pkt dest); wp_step; auto.
Qed.

Lemma zip_eqb (l1 l2 : list Z) : length l1 = length l2 →
  forallb (λ p, fst p =? snd p) (zip l1 l2) = true ↔ l1 = l2.
Proof.
  revert l2. induction l1 as [|a l1 IH]; intros [|b l2]; cbn; try done. intros [= Hl].
  rewrite andb_true_iff, Z.eqb_eq, (IH l2 Hl). split; [by intros [-> ->]|by intros [= -> ->]].
Qed.

Lemma validateSYN_wp l x dest (pkt : Packet) s :
  listening l x s →
  wp (validateIncomingSYN l pkt dest)
    (λ _ s', s' = s ∧ is_Some (syn_source pkt dest) ∧ authentic pkt ∧ for_us x pkt)
    (λ e s', s' = s ∧ (e = SNoSource ∧ syn_source pkt dest = None ∨
       (∃ e', e = SCrypto e') ∧ ¬ authentic pkt ∨ e = SReplay ∧ ¬ for_us x pkt)) s.
Proof.
  intros H. unfold validateIncomingSYN. wp_step. apply wp_validateSYNSource.
  2: { intros Hd. split; [done|]. by left. }
  intros d Hd. wp_step. unfold verifySYNSignature.
  assert (Hr : authentic pkt → wp (verifySYNReplayPrevention l pkt)
    (λ _ s', s' = s ∧ is_Some (syn_source pkt dest) ∧ authentic pkt ∧ for_us x pkt)
    (λ e s', s' = s ∧ (e = SNoSource ∧ syn_source pkt dest = None ∨
       (∃ e', e = SCrypto e') ∧ ¬ authentic pkt ∨ e = SReplay ∧ ¬ for_us x pkt)) s).
  { intros Ha. unfold verifySYNReplayPrevention. case_if; zbool.
    { wp_step. split_and!; [done|by eexists|done|]. intros Hn. contradiction. }
    wp_step. eapply wp_on_listener; [apply H|]. cbn [id].
    destruct (lo_session _ _ (si_lsts s (proj1 H) l x (proj1 (proj2 H)))) as [y Hy]. rewrite Hy.
    destruct (hashDestination (session_Destination y)) as [h|] eqn:Eh.
    - assert (Hz := zip_eqb (NACKs pkt) (hash_words h) ltac:(rewrite Hif; done)).
      case_if; wp_step; (split; [done|]).
      + split_and!; [by eexists|done|]. intros _ y' h' Hy' Hh'. rewrite Hy in Hy'. injection Hy' as <-.
        rewrite Eh in Hh'. injection Hh' as <-. by apply Hz.
      + right. right. split; [done|]. intros Hu. specialize (Hu Hif y h Hy Eh). apply Hz in Hu. congruence.
    - wp_step. split_and!; [done|by eexists|done|]. intros _ y' h' Hy' Hh'. congruence. }
  case_if; zbool.
  { wp_step. apply Hr. intros Hf. congruence. }
  pose proof (Verify_safe pkt) as Hs. destruct (VerifyPacketSignature pkt) as [[[]|e|] q] eqn:Ev; [..|done].
  - wp_step. apply Hr. intros _. by rewrite Ev.
  - wp_step. split; [done|]. right. left. split; [by eexists|]. intros Ha. specialize (Ha Hif). by rewrite Ev in Ha.
Qed.

(** ** The new connection *)

Lemma wp_draw_exact {A} (g : list (option bytes) → result CryptoError A * list (option bytes))
    (Q : A → Sys → Prop) (F : SysError → Sys → Prop) s :
  fst (g (y_rands s)) ≠ Panic → (∀ a rs, g (y_rands s) = (Ok a, rs) → Q a (s <| y_rands := rs |>)) →
  (∀ e rs, g (y_rands s) = (Err e, rs) → F SRand (s <| y_rands := rs |>)) → wp (sysDraw g) Q F s.
Proof.
  intros Hg HQ HF. unfold sysDraw. do 2 wp_step. destruct (g (y_rands s)) as [[a|e|] rs]; [..|done];
    do 3 wp_step; [by apply HQ|by eapply HF].
Qed.

(** A connection that has neither received nor sent anything of its stream. *)
Definition fresh_stream (c : StreamConn) : Prop :=
  ∃ buf, NewBuffer (64 * 1024) = Some buf ∧ stream_part c = (buf, ∅, ∅, ∅).

(** The connection a SYN makes, up to what the TCB cache knows of the peer. *)
Record syn_conn (x : StreamListener) (pkt : Packet) (rp : Z) (d : Destination) (isn id prof : Z)
    (p : positive) (c : StreamConn) : Prop := {
  sc_fixed : fixed_part c =
    ((p, l_manager x, l_session x, l_localPort x, rp), Some d, id, RecvStreamID pkt,
     SequenceNum pkt +% 1,
     (l_localMTU x, extractRemoteMTU pkt (l_localMTU x), [], false, false, StateInit, prof,
      if has_flag (Flags pkt) FlagProfileInteractive then ProfileInteractive else ProfileBulk));
  sc_send : send_part c = (isn, 0);
  sc_stream : fresh_stream c;
}.

Definition listener_profile (x : StreamListener) s : Z :=
  if l_manager x then profileConfig (sm_view (sm s)) else 0.

(** What applying the cached estimates leaves alone of the system. *)
Lemma put_cached_objects p c w s : handshake_part w = handshake_part (world_of c s) →
  objects (put_world p w s) = (<[p := conn w]> (conns s), lsts s, listeners (sm s), connections (sm_view (sm s))) ∧
  y_sends (put_world p w s) = y_sends s ∧ y_outbox (put_world p w s) = y_outbox s ∧
  fixed_part (conn w) = fixed_part c ∧ send_part (conn w) = send_part c ∧ stream_part (conn w) = stream_part c.
Proof.
  unfold handshake_part, objects. cbn. intros H. split_and!; congruence.
Qed.

Lemma createIncoming_wp l x rp d (pkt : Packet) s :
  listening l x s →
  wp (createIncomingConnection l pkt rp d)
    (λ p s', ∃ isn id c, drawn (y_rands s) isn id ∧ conns s !! p = None ∧
       syn_conn x pkt rp d isn id (listener_profile x s) p c ∧
       objects s' = (<[p := c]> (conns s), lsts s, listeners (sm s), connections (sm_view (sm s))) ∧
       y_sends s' = y_sends s ∧ y_outbox s' = y_outbox s)
    (λ e s', objects s' = objects s ∧
       (e = SRand ∧ (¬ ∃ isn id, drawn (y_rands s) isn id) ∨ e = SNewBuffer ∧ NewBuffer (64 * 1024) = None)) s.
Proof.
  intros H. pose proof (si_rands s (proj1 H)) as Hr. assert (Hl : lsts s !! l = Some x) by apply H.
  unfold createIncomingConnection. destruct (generateISN_ok (y_rands s) Hr) as [Hs1 Hr1].
  wp_step. apply wp_draw_exact; [done|..].
  2: { intros e rs E1. split; [done|]. left. split; [done|]. intros (? & ? & ? & ? & ? & _). congruence. }
  intros isn rs1 E1. rewrite E1 in Hr1. destruct (generateStreamID_ok rs1 Hr1) as [Hs2 _].
  set (s1 := s <| y_rands := rs1 |>). wp_step. apply wp_draw_exact; [done|..].
  2: { intros e rs E2. split; [done|]. left. split; [done|]. intros (? & ? & r & ? & E & E').
       rewrite E1 in E. injection E as <- <-. cbn in E2. congruence. }
  intros id rs2 E2. assert (Hd : drawn (y_rands s) isn id) by (exists rs1, rs2; done).
  set (s2 := s1 <| y_rands := rs2 |>).
  assert (Ho2 : objects s2 = objects s) by done.
  assert (Hq2 : (y_sends s2, y_outbox s2, profileConfig (sm_view (sm s2))) =
    (y_sends s, y_outbox s, profileConfig (sm_view (sm s)))) by done.
  clearbody s2. clear s1 E1 E2 Hr1 Hs1 Hs2.
  destruct (NewBuffer (64 * 1024)) as [buf|] eqn:Eb; [|wp_step; split; [done|by right]].
  unfold objects in Ho2. injection Ho2 as O1 O2 O3 O4. injection Hq2 as Q1 Q2 Q3.
  unfold initConnectionState. wp_step. eapply wp_on_listener; [by rewrite O2|]. cbn [Datatypes.id].
  unfold SysNow, fresh_conn, getm. cbv zeta. repeat wp_step. set (s3 := s2 <| y_ticks ::= S |>).
  match goal with |- context [<[_ := ?c0]>] => set (c := c0) end.
  set (p := base.fresh (dom (conns s3))) in *.
  assert (Hp : conns s !! p = None) by (rewrite <-O1; apply (fresh_conn_None s3)).
  assert (Hc : syn_conn x pkt rp d isn id (listener_profile x s) p c).
  { split; [|done|by eexists]. unfold listener_profile. rewrite <-Q3. done. }
  set (s4 := s3 <| conns ::= _ |>).
  assert (Hc4 : conns s4 !! p = Some c) by apply lookup_insert_eq.
  assert (O4' : objects s4 = (<[p := c]> (conns s), lsts s, listeners (sm s), connections (sm_view (sm s)))).
  { unfold objects. cbn. by rewrite O1, O2, O3, O4. }
  assert (Hq4 : y_sends s4 = y_sends s ∧ y_outbox s4 = y_outbox s) by done.
  clearbody s4 p c. clear s3.
  eapply wp_on_conn; [exact Hc4|]. unfold objects in O4'.
  eapply wp_mono; [apply (wp_total (same handshake_part)); apply _|cbn beta|done].
  intros [] w Hw. wp_step. destruct (put_cached_objects p c w s4 Hw) as (P1 & P2 & P3 & P4 & P5 & P6).
  destruct Hc as [C1 C2 C3]. exists isn, id, (conn w). split_and!;
    [done|done|split; [congruence|congruence|unfold fresh_stream; by rewrite P6]| |
    by rewrite P2, (proj1 Hq4)|by rewrite P3, (proj2 Hq4)].
  rewrite P1. injection O4' as -> -> -> ->. by rewrite insert_insert_eq.
Qed.
(** *** Registering, answering and queueing it *)

Definition table_key (x : StreamListener) (rp : Z) : Z * Z := (l_localPort x, rp).
Definition registered (x : StreamListener) (rp : Z) (p : positive) (m : gmap (Z * Z) positive) :=
  if l_manager x then <[table_key x rp := p]> m else m.
Definition unregistered_at (x : StreamListener) (rp : Z) (m : gmap (Z * Z) positive) :=
  if l_manager x then delete (table_key x rp) m else m.

Lemma unregistered_registered x rp p m : unregistered_at x rp (registered x rp p m) = unregistered_at x rp m.
Proof. unfold unregistered_at, registered. destruct (l_manager x); [apply delete_insert_eq|done]. Qed.

Lemma wp_register x rp p (Q : () → Sys → Prop) (F : SysError → Sys → Prop) s :
  (∀ s', objects s' = (conns s, lsts s, listeners (sm s), registered x rp p (connections (sm_view (sm s)))) →
     y_sends s' = y_sends s → y_outbox s' = y_outbox s → Q () s') →
  wp (ewhen (l_manager x) (RegisterConnectionAt (l_localPort x) rp p)) Q F s.
Proof.
  intros HQ. apply wp_ewhen; intros Hm; [apply wp_setv|]; apply HQ; try done; unfold objects, registered; by rewrite Hm.
Qed.
Lemma wp_unregister x rp (Q : () → Sys → Prop) (F : SysError → Sys → Prop) s :
  (∀ s', objects s' = (conns s, lsts s, listeners (sm s), unregistered_at x rp (connections (sm_view (sm s)))) → Q () s') →
  wp (ewhen (l_manager x) (UnregisterConnectionAt (l_localPort x) rp)) Q F s.
Proof.
  intros HQ. apply wp_ewhen; intros Hm; [apply wp_setv|]; apply HQ; try done; unfold objects, unregistered_at; by rewrite Hm.
Qed.

(** A method that only changes its object. *)
Lemma objects_put p w s : connections (mgr w) = connections (sm_view (sm s)) →
  objects (put_world p w s) = (<[p := conn w]> (conns s), lsts s, listeners (sm s), connections (sm_view (sm s))).
Proof. intros H. unfold objects. cbn. by rewrite H. Qed.

Definition accepted (p : positive) (x : StreamListener) : StreamListener := x <| acceptChan ::= λ q, q ++ [p] |>.

Lemma queue_wp l x rp p c s :
  lsts s !! l = Some x → acceptClosed x = false → conns s !! p = Some c →
  wp (queueConnectionForAccept l p rp)
    (λ _ s', (length (acceptChan x) < acceptBacklog)%nat ∧ y_outbox s' = y_outbox s ∧
       objects s' = (conns s, alter (accepted p) l (lsts s), listeners (sm s), connections (sm_view (sm s))))
    (λ e s', e = SAcceptFull ∧ (acceptBacklog ≤ length (acceptChan x))%nat ∧
       ∃ c', objects s' = (<[p := c']> (conns s), lsts s, listeners (sm s),
         unregistered_at x rp (connections (sm_view (sm s))))) s.
Proof.
  intros Hl Hc Hp. unfold queueConnectionForAccept. wp_step. eapply wp_on_listener; [exact Hl|]. cbn [id].
  rewrite Hc. case_if; zbool.
  - unfold set_listener. wp_step. done.
  - wp_step. eapply wp_on_conn; [exact Hp|]. unfold setc. wp_step. wp_step. apply wp_unregister. intros s' Hs'.
    wp_step. split_and!; [done|done|]. eexists. exact Hs'.
Qed.

(** The connection once its SYN-ACK is out. *)
Definition answered (c : StreamConn) : StreamConn :=
  c <| sendSeq ::= λ n, n +% 1 |> <| state := StateSynRcvd |>.

Definition failed_late (x : StreamListener) (y : Session) (c : StreamConn) s (e : SysError) : Prop :=
  (∃ e', e = SConn e') ∧ (¬ ∃ bs, sent_signed y (synack_packet c y) (y_sends s) bs) ∨
  e = SAcceptFull ∧ (acceptBacklog ≤ length (acceptChan x))%nat.

(** The tail of [finalizeIncomingConnection], once the SYN-ACK is out. *)
Lemma answered_wp l x rp p c bs (y : Session) s s0 :
  lsts s = lsts s0 → listeners (sm s) = listeners (sm s0) →
  connections (sm_view (sm s)) = registered x rp p (connections (sm_view (sm s0))) →
  y_outbox s = y_outbox s0 ++ [message c bs] →
  conns s = <[p := c <| sendSeq ::= λ n, n +% 1 |>]> (conns s0) →
  lsts s0 !! l = Some x → acceptClosed x = false →
  wp (_ ← on_conn p (setState StateSynRcvd); _ ← on_conn p (go GReceiveLoop); queueConnectionForAccept l p rp)
    (λ _ s', (length (acceptChan x) < acceptBacklog)%nat ∧ y_outbox s' = y_outbox s0 ++ [message c bs] ∧
       objects s' = (<[p := answered c]> (conns s0), alter (accepted p) l (lsts s0), listeners (sm s0),
         registered x rp p (connections (sm_view (sm s0)))))
    (λ e s', failed_late x y c s0 e ∧ ∃ c', objects s' = (<[p := c']> (conns s0), lsts s0, listeners (sm s0),
         unregistered_at x rp (connections (sm_view (sm s0))))) s.
Proof.
  intros Hl Hls Ht Ho Hcs Hx Hac. wp_step. eapply wp_on_conn; [by rewrite Hcs, lookup_insert_eq|].
  unfold setState, setc. wp_step. cbn [world_of conn]. set (w1 := upd conn _ _).
  assert (O1 : objects (put_world p w1 s) = (<[p := answered c]> (conns s0), lsts s0, listeners (sm s0),
    registered x rp p (connections (sm_view (sm s0))))).
  { rewrite objects_put by done. rewrite Hl, Hls, Ht, Hcs, insert_insert_eq. done. }
  assert (B1 : y_outbox (put_world p w1 s) = y_outbox s0 ++ [message c bs]) by done.
  set (s1 := put_world p w1 s) in *. clearbody s1. clear -O1 B1 Hx Hac. unfold objects in O1.
  injection O1 as O11 O12 O13 O14.
  wp_step. eapply wp_on_conn; [by rewrite O11, lookup_insert_eq|]. unfold go. wp_step. set (w2 := upd spawned _ _).
  assert (O2 : objects (put_world p w2 s1) = (<[p := answered c]> (conns s0), lsts s0, listeners (sm s0),
    registered x rp p (connections (sm_view (sm s0))))).
  { rewrite objects_put by done. rewrite O11, O12, O13, O14, insert_insert_eq. done. }
  assert (B2 : y_outbox (put_world p w2 s1) = y_outbox s0 ++ [message c bs]) by done.
  set (s2 := put_world p w2 s1) in *. clearbody s2. clear -O2 B2 Hx Hac. unfold objects in O2.
  injection O2 as O21 O22 O23 O24.
  eapply wp_mono; [eapply (queue_wp l x rp p (answered c))|..]; cbn beta.
  - by rewrite O22.
  - done.
  - by rewrite O21, lookup_insert_eq.
  - intros [] s' (H1 & H2 & H3). rewrite O21, O22, O23, O24 in H3. split_and!; [done|congruence|done].
  - intros e s' (H1 & H2 & c' & H3). rewrite O21, O22, O23, O24, unregistered_registered, insert_insert_eq in H3.
    split; [right; done|]. by exists c'.
Qed.

Lemma finalize_wp l x rp p c y s :
  lsts s !! l = Some x → acceptClosed x = false → conns s !! p = Some c → session c = Some y →
  wp (finalizeIncomingConnection l p rp)
    (λ _ s', ∃ bs, sent_signed y (synack_packet c y) (y_sends s) bs ∧
       (length (acceptChan x) < acceptBacklog)%nat ∧ y_outbox s' = y_outbox s ++ [message c bs] ∧
       objects s' = (<[p := answered c]> (conns s), alter (accepted p) l (lsts s), listeners (sm s),
         registered x rp p (connections (sm_view (sm s)))))
    (λ e s', failed_late x y c s e ∧ ∃ c', objects s' = (<[p := c']> (conns s), lsts s, listeners (sm s),
         unregistered_at x rp (connections (sm_view (sm s))))) s.
Proof.
  intros Hx Hac Hp Hy. unfold finalizeIncomingConnection. wp_step. eapply wp_on_listener; [exact Hx|]. cbn [id].
  wp_step. apply wp_register. intros s1 O1 Q1 B1. unfold objects in O1. injection O1 as O11 O12 O13 O14.
  do 2 wp_step. eapply wp_on_conn; [by rewrite O11|].
  eapply wp_mono; [by apply (sendSynAck_wp y)|..]; cbn beta; cbn [world_of conn sends].
  - intros [] w (bs & Hs & ->). rewrite Q1 in Hs.
    match goal with |- wp _ _ _ ?s' => set (s2 := s') end.
    eapply wp_mono; [apply (answered_wp l x rp p c bs y s2 s)|..]; cbn beta; try done.
    + unfold s2. cbn. by rewrite B1.
    + unfold s2. cbn. by rewrite O11.
    + intros [] s' (H1 & H2 & H3). by exists bs.
  - intros e w (Hs & Hu). rewrite Q1 in Hs. wp_step. unfold unsent in Hu.
    assert (Hm : connections (mgr w) = connections (sm_view (sm s1))) by (by injection Hu as _ -> _ _ _ _).
    pose proof (objects_put p w s1 Hm) as O2. set (s2 := put_world p w s1) in *. clearbody s2.
    unfold objects in O2. injection O2 as O21 O22 O23 O24.
    apply wp_unregister. intros s3 O3. wp_step. split; [left; split; [by eexists|done]|].
    exists (conn w). rewrite O3, O21, O22, O23, O24, O11, O12, O13, O14, unregistered_registered. done.
Qed.

(** ** The whole way of a SYN *)

(** Why a SYN is refused. *)
Inductive refused (x : StreamListener) (pkt : Packet) (rp : Z) (dest : option Destination) s : SysError → Prop :=
| refused_filter e f : l_accessFilter x = Some f → ¬ lets_through f dest s → refused x pkt rp dest s (SAccess e)
| refused_limit e : l_limiter x = true → limit_answer dest s (Err e) → refused x pkt rp dest s (SLimit e)
| refused_source : syn_source pkt dest = None → refused x pkt rp dest s SNoSource
| refused_signature e : ¬ authentic pkt → refused x pkt rp dest s (SCrypto e)
| refused_replay : ¬ for_us x pkt → refused x pkt rp dest s SReplay
| refused_random : (¬ ∃ isn id, drawn (y_rands s) isn id) → refused x pkt rp dest s SRand
| refused_buffer : NewBuffer (64 * 1024) = None → refused x pkt rp dest s SNewBuffer
| refused_send d isn id p c y e :
    syn_source pkt dest = Some d → l_session x = Some y → drawn (y_rands s) isn id →
    syn_conn x pkt rp d isn id (listener_profile x s) p c →
    (¬ ∃ bs, sent_signed y (synack_packet c y) (y_sends s) bs) → refused x pkt rp dest s (SConn e)
| refused_full : (10 ≤ length (acceptChan x))%nat → refused x pkt rp dest s SAcceptFull.

(** What a refused SYN leaves: the listeners and the other connections; a
    connection refused late has taken, and lost, its place in the table. *)
Definition rejected (x : StreamListener) (rp : Z) s s' : Prop :=
  lsts s' = lsts s ∧ listeners (sm s') = listeners (sm s) ∧
  (connections (sm_view (sm s')) = connections (sm_view (sm s)) ∨
   connections (sm_view (sm s')) = unregistered_at x rp (connections (sm_view (sm s)))) ∧
  conns s ⊆ conns s'.

Lemma rejected_objects x rp s s' : objects s' = objects s → rejected x rp s s'.
Proof.
  unfold objects. intros H. injection H as H1 H2 H3 H4. split_and!; [done|done|by left|by rewrite H1].
Qed.

Record syn_admitted l x (pkt : Packet) (rp : Z) (dest : option Destination) s s' (d : Destination) (p : positive)
    (isn id : Z) (c : StreamConn) (y : Session) (bs : bytes) : Prop := {
  ad_filter : ∀ f, l_accessFilter x = Some f → lets_through f dest s;
  ad_limit : l_limiter x = true → limit_answer dest s (Ok ());
  ad_source : syn_source pkt dest = Some d;
  ad_signature : authentic pkt;
  ad_replay : for_us x pkt;
  ad_random : drawn (y_rands s) isn id;
  ad_new : conns s !! p = None;
  ad_conn : syn_conn x pkt rp d isn id (listener_profile x s) p c;
  ad_session : l_session x = Some y;
  ad_synack : sent_signed y (synack_packet c y) (y_sends s) bs;
  ad_room : (length (acceptChan x) < 10)%nat;
  ad_outbox : y_outbox s' = y_outbox s ++ [message c bs];
  ad_objects : objects s' = (<[p := answered c]> (conns s), alter (accepted p) l (lsts s), listeners (sm s),
    registered x rp p (connections (sm_view (sm s))));
}.

Lemma syn_conn_session x (pkt : Packet) rp d isn id prof p c :
  syn_conn x pkt rp d isn id prof p c → session c = l_session x.
Proof. intros [H _ _]. unfold fixed_part, conn_ids in H. congruence. Qed.

Lemma handleIncomingSYN_wp l x (pkt : Packet) (rp : Z) dest s :
  listening l x s →
  wp (handleIncomingSYN l pkt rp dest)
    (λ _ s', ∃ d p isn id c y bs, syn_admitted l x pkt rp dest s s' d p isn id c y bs)
    (λ e s', refused x pkt rp dest s e ∧ rejected x rp s s') s.
Proof.
  intros H. unfold handleIncomingSYN. wp_step.
  eapply wp_mono; [by apply checkAccessFilter_wp|cbn beta|cbn beta].
  2: { intros e s1 ((e' & ->) & Ho & f & Hf & Hn). split; [by eapply refused_filter|by apply rejected_objects]. }
  intros [] s1 (-> & Hfilter). wp_step.
  eapply wp_mono; [by apply checkLimits_wp|cbn beta|cbn beta].
  2: { intros e s1 (Ho & e' & -> & Hl & Hn). split; [by apply refused_limit|by apply rejected_objects]. }
  intros [] s1 (H1 & Hq & Hlimit). wp_step. apply quiet_parts in Hq as (Ho & Q1 & Q2 & Q3 & Q4).
  eapply wp_mono; [by apply validateSYN_wp|cbn beta|cbn beta].
  2: { intros e s2 (-> & He). split; [|by apply rejected_objects].
       destruct He as [[-> ?]|[[[e' ->] ?]|[-> ?]]]; by constructor. }
  intros [] s2 (-> & Hsrc & Hau & Hus). wp_step.
  apply wp_validateSYNSource; [|by destruct Hsrc as [? ->]]. intros d Hd. wp_step.
  assert (Hprof : listener_profile x s1 = listener_profile x s) by (unfold listener_profile; by rewrite Q4).
  eapply wp_mono; [by apply createIncoming_wp|cbn beta|cbn beta].
  2: { intros e s2 (Ho2 & He). rewrite Q3 in He. split; [|apply rejected_objects; congruence].
       destruct He as [[-> ?]|[-> ?]]; by constructor. }
  intros p s2 (isn & id & c & Hdr & Hnew & Hc & Ho2 & R1 & R2). rewrite Hprof in Hc. rewrite Q3 in Hdr.
  unfold objects in Ho, Ho2. injection Ho as O1 O2 O3 O4. rewrite O1, O2, O3, O4 in Ho2. rewrite O1 in Hnew.
  injection Ho2 as P1 P2 P3 P4. rewrite Q1 in R1. rewrite Q2 in R2.
  destruct (lo_session _ _ (si_lsts s (proj1 H) l x (proj1 (proj2 H)))) as [y Hy].
  eapply wp_mono; [apply (finalize_wp l x rp p c y s2)|cbn beta|cbn beta].
  - rewrite P2. apply H.
  - rewrite (lo_closed _ _ (si_lsts s (proj1 H) l x (proj1 (proj2 H)))). apply H.
  - by rewrite P1, lookup_insert_eq.
  - rewrite <-Hy. by eapply syn_conn_session.
  - rewrite R1, R2, P1, P2, P3, P4, insert_insert_eq. intros [] s3 (bs & Hbs & Hroom & Hout & Ho3).
    exists d, p, isn, id, c, y, bs. by constructor.
  - intros e s3 (He & c' & Ho3). rewrite P1, P2, P3, P4, insert_insert_eq in Ho3. split.
    + unfold failed_late in He. rewrite R1 in He. destruct He as [[[e' ->] Hn]|[-> Hn]]; [|by constructor].
      by eapply refused_send.
    + unfold objects in Ho3. injection Ho3 as T1 T2 T3 T4. split_and!; [done|done|by right|].
      rewrite T1. by apply insert_subseteq.
Qed.

(** C9.  What becomes of a SYN.  Offered to an open listener, a SYN never
    panics the program.  It is accepted only if the access list lets its
    sender through, the limiter admits it, it names a source, its signature,
    if it has one, verifies, and its eight replay words, if it has them, are
    the hash of the listener's own destination; then exactly one SYN-ACK,
    signed with the listener's session, goes out to that source, and exactly
    one new connection, with the SYN's stream identifier and the sequence
    number after the SYN's, is made, registered for its two ports and put at
    the end of the accept queue.  Otherwise the error names a check that
    failed, no listener's queue changes, no other connection changes, and the
    table has at most lost the entry for the two ports. *)
Theorem syn_admission_exact l x (pkt : Packet) (rp : Z) (dest : option Destination) s :
  listening l x s →
  match handleIncomingSYN l pkt rp dest s with
  | (Ok _, s') => ∃ d p isn id c y bs, syn_admitted l x pkt rp dest s s' d p isn id c y bs
  | (Err e, s') => refused x pkt rp dest s e ∧ rejected x rp s s'
  | (Panic, _) => False
  end.
Proof. intros H. by apply (handleIncomingSYN_wp l x pkt rp dest s). Qed.
End Admission.

(** ** Instances *)

Section Examples.

Lemma listening_ex_listening : listening 1 listener_ex listening_ex.
Proof. split; [apply listening_ex_inv|]. split; vmeq. Qed.

(** An unsigned SYN that names no source of its own. *)
Definition bare_syn : @Packet ConcreteI2CP := base_Packet 0 7 500 0 FlagSYN.

Lemma syn_admission_exact_witness :
  listening 1 listener_ex listening_ex ∧
  match handleIncomingSYN 1 bare_syn 10 (Some dest_A) listening_ex with
  | (Ok _, s') => ∃ d p isn id c y bs,
      syn_admitted 1 listener_ex bare_syn 10 (Some dest_A) listening_ex s' d p isn id c y bs
  | (Err e, s') => refused listener_ex bare_syn 10 (Some dest_A) listening_ex e ∧ rejected listener_ex 10 listening_ex s'
  | (Panic, _) => False
  end.
Proof.
  split; [apply listening_ex_listening|].
  apply syn_admission_exact, listening_ex_listening.
Defined.
End Examples.
