(* ===== verification/HandshakeProps.v ===== *)
(** * The two halves of the handshake agree

    A client's SYN, delivered to a listener; its SYN-ACK, delivered to the
    client; the client's acknowledgement, delivered to the listener's
    connection: both ends are established and each knows the other's stream
    identifier, next sequence number and packet size. *)

From S2P Require Import Prelude GoInt SeqNum I2CP Packet PacketProps Crypto Limits MessageStatus.
From S2P Require Import TCBCache Floats Runtime Conn ConnRecv ConnAck ConnLife ConnWrite.
From S2P Require Import ConnFrames ConnOps ConnExamples Delivery AccessList System Ping Listener.
From S2P Require Import Manager.
From S2P Require Import SystemFrames SystemInv SystemOps SystemProps SystemExamples Handshake.
From S2P Require Import ListenerProps.
From Stdlib Require Import Strings.Byte.

(** ** The drawn words *)

Lemma Uint32_word {E} b (v : Z) : Uint32 b = (Ok v : result E Z) → is_u32 v.
Proof.
  unfold Uint32, BigEndian_Uint. case_decide; [|done]. intros [= <-].
  pose proof (be_get_range (take 4 b)) as H1. assert (length (take 4 b) ≤ 4)%nat by (rewrite length_take; lia).
  pose proof (Z.pow_le_mono_r 256 (Z.of_nat (length (take 4 b))) 4 ltac:(lia) ltac:(lia)). lia.
Qed.

Lemma generateISN_word rs v rs' : generateISN rs = (Ok v, rs') → is_u32 v.
Proof.
  unfold generateISN. destruct rs as [|[b|] rs]; [done| |done]. intros [= H _]. by eapply Uint32_word.
Qed.

Lemma generateStreamID_word rs v rs' : Crypto.generateStreamID rs = (Ok v, rs') → is_u32 v ∧ v ≠ 0.
Proof.
  induction rs as [|[b|] rs IH]; cbn [Crypto.generateStreamID]; [done| |done].
  destruct (Uint32 b) as [w|e|] eqn:Eb; [|done|done]. case_if; [|exact IH].
  intros [= <- _]. split; [by eapply Uint32_word|lia].
Qed.

Section Agreement.
Context {I : I2CP} {B : CircBuf} {RT : GoRuntime} {C : MessageStatusCodes} {SS : SessionStatusCodes}.
Context `{!I2CPLaws I} `{!CircBufLaws B}.
Implicit Types s : Sys.
Implicit Types w : World.

Lemma hash_words_u32 h : Forall (λ n, is_u32 n) (hash_words h).
Proof.
  unfold hash_words. apply Forall_fmap, Forall_true. intros i. cbn.
  pose proof (be_get_range (take 4 (drop (i * 4) h))) as H.
  assert (length (take 4 (drop (i * 4) h)) ≤ 4)%nat by (rewrite length_take; lia).
  pose proof (Z.pow_le_mono_r 256 (Z.of_nat (length (take 4 (drop (i * 4) h)))) 4 ltac:(lia) ltac:(lia)). lia.
Qed.

(** The identifiers of a connection fit their types. *)
Record widths (c : StreamConn) : Prop := {
  wd_local : is_u32 (localStreamID c);
  wd_remote : is_u32 (remoteStreamID c);
  wd_send : is_u32 (sendSeq c);
  wd_mtu : is_u16 (localMTU c);
}.

Lemma syn_signable c y d h : widths c → session_Destination y = Some d → signable (syn_packet c y (hash_words h)) d.
Proof.
  intros [] Hd. unfold syn_packet, profileToFlag.
  destruct (profile c =? ProfileInteractive); (split; [done..| |]; [cbn; lia|]);
    split; cbn; try done; try lia; apply hash_words_u32.
Qed.

Lemma synack_signable c y d : widths c → session_Destination y = Some d → signable (synack_packet c y) d.
Proof.
  intros [] Hd. unfold synack_packet, synack_flags. pose proof (u32_range (recvSeq c - 1)).
  destruct (profile c =? ProfileInteractive); (split; [done..| |]; [cbn; lia|]); split; cbn; done || lia.
Qed.

Lemma ack_plain c : widths c → plain (ack_packet c).
Proof.
  intros []. unfold ack_packet. pose proof (u32_range (recvSeq c - 1)).
  split; try done. cbn; lia.
Qed.

(** What each side reads of the other's packet. *)
Lemma parsed_syn c y d h q : parsed_signed (syn_packet c y (hash_words h)) q → session_Destination y = Some d →
  has_flag (Flags q) FlagECHO = false ∧ isSynPacket q = true ∧ authentic q ∧
  (∀ dest, syn_source q dest = Some d) ∧ NACKs q = hash_words h ∧
  RecvStreamID q = localStreamID c ∧ SequenceNum q = sendSeq c ∧
  has_flag (Flags q) FlagMaxPacketSizeIncluded = true ∧ MaxPacketSize q = localMTU c ∧
  has_flag (Flags q) FlagProfileInteractive = (profile c =? ProfileInteractive).
Proof.
  intros (sig & -> & Hv) Hd. unfold authentic, isSynPacket, syn_source. rewrite wire_view_dest, wire_view_mps.
  revert Hv. unfold syn_packet, profileToFlag.
  destruct (profile c =? ProfileInteractive); cbn; rewrite Hd; intros Hv; split_and!; try done.
Qed.

Lemma parsed_synack c y q : parsed_signed (synack_packet c y) q →
  has_flag (Flags q) FlagSYN = true ∧ SendStreamID q = localStreamID c ∧
  SequenceNum q = sendSeq c ∧ AckThrough q = recvSeq c -% 1 ∧
  has_flag (Flags q) FlagMaxPacketSizeIncluded = true ∧ MaxPacketSize q = localMTU c ∧
  profileFromFlag (Flags q) = if profile c =? ProfileInteractive then ProfileInteractive else ProfileBulk.
Proof.
  intros (sig & -> & _). rewrite wire_view_mps. unfold synack_packet, synack_flags, profileFromFlag.
  by destruct (profile c =? ProfileInteractive).
Qed.

(** ** The client's half *)

(** The client's connection after the SYN-ACK [q]. *)
Definition completed (q : Packet) (c : StreamConn) : StreamConn :=
  c <| sendSeq ::= λ n, n +% 1 |> <| state := StateSynSent |> <| recvSeq := SequenceNum q +% 1 |>
    <| remoteStreamID := SendStreamID q |> <| ackThrough := AckThrough q |> <| remoteMTU := MaxPacketSize q |>
    <| remoteProfile := profileFromFlag (Flags q) |>.

Context (Hsend : ∀ n, send_ok n = true).

Lemma sendSYN_run y d h w :
  session (conn w) = Some y → session_ok y d → hashDestination (dest (conn w)) = Some h → widths (conn w) →
  ∃ bs, sendSYN w = (Ok (), updc (λ c, c <| sendSeq ::= λ n, n +% 1 |>) (after_send bs w)) ∧
    signed y (syn_packet (conn w) y (hash_words h)) bs.
Proof.
  intros Hy Hok Hh Hw. pose proof (sendSYN_wp y h w Hy Hh) as H. unfold wp in H.
  destruct (signed_delivered _ d y (syn_signable (conn w) y d h Hw (so_dest _ _ Hok)) Hok) as [(bs & Hbs) _].
  destruct (sendSYN w) as [[[]|e|] w1]; [|exfalso|done].
  - destruct H as (bs' & [Hs _] & ->). by exists bs'.
  - destruct H as [H _]. apply H. exists bs. split; [done|apply Hsend].
Qed.

Lemma processSynAck_run (q : Packet) w :
  AckThrough q = sendSeq (conn w) -% 1 → has_flag (Flags q) FlagMaxPacketSizeIncluded = true →
  0 < MaxPacketSize q →
  processSynAck q w = (Ok (), updc (λ c, c <| recvSeq := SequenceNum q +% 1 |>
    <| remoteStreamID := SendStreamID q |> <| ackThrough := AckThrough q |> <| remoteMTU := MaxPacketSize q |>
    <| remoteProfile := profileFromFlag (Flags q) |>) w).
Proof.
  intros Ha Hm Hp. unfold processSynAck, validateSynAckAckThrough, extractRemoteMTUFromSynAck, extractRemoteProfileFromSynAck.
  rewrite (ste_step _ _ w () w).
  2: { rewrite getc_step. cbn [id]. by rewrite Ha, Z.eqb_refl. }
  rewrite !setc_step. rewrite Hm. destruct (Z.ltb_spec 0 (MaxPacketSize q)); [|lia]. cbn [andb].
  rewrite setc_step, setc_eq. by rewrite !updc_updc.
Qed.

Lemma sendACK_run y w :
  session (conn w) = Some y → widths (conn w) →
  sendACK w = (Ok (), after_send (wire (ack_packet (conn w))) w).
Proof.
  intros Hy Hw. unfold sendACK. rewrite getc_step. cbn [id]. unfold marshal, sessionOf.
  destruct (plain_arrives _ (ack_plain _ Hw)) as [Hm _]. fold (ack_packet (conn w)). rewrite Hm.
  unfold mret at 1, ste_ret at 1. rewrite (ste_step _ _ w _ w) by done.
  rewrite (ste_step _ _ w y w) by (by rewrite getc_step, Hy).
  unfold SendMessage. unfold mbind, ste_bind, egets, emodify. cbn -[after_send]. by rewrite Hsend.
Qed.

Lemma started_run w : ∃ w', startConnectionGoroutines w = (Ok (), w') ∧ conn w' = conn w ∧ outbox w' = outbox w.
Proof. by eexists. Qed.
Lemma updc_conn f w : conn (updc f w) = f (conn w).
Proof. done. Qed.
Lemma updc_outbox f w : outbox (updc f w) = outbox w.
Proof. done. Qed.
Lemma after_send_conn bs w : conn (after_send bs w) = conn w.
Proof. done. Qed.
Lemma after_send_outbox bs w : outbox (after_send bs w) = outbox w ++ [message (conn w) bs].
Proof. done. Qed.

Lemma client_run y d h (q : Packet) w :
  session (conn w) = Some y → session_ok y d → hashDestination (dest (conn w)) = Some h → widths (conn w) →
  isSynAckPacket q = true → is_u32 (SendStreamID q) → AckThrough q = sendSeq (conn w) →
  has_flag (Flags q) FlagMaxPacketSizeIncluded = true → 0 < MaxPacketSize q →
  let c := completed q (conn w) in
  ∃ w', performHandshake [Some q] w = (Ok (), w') ∧ conn w' = c <| state := StateEstablished |> ∧
    last (outbox w') = Some (message c (wire (ack_packet c))).
Proof.
  intros Hy Hok Hh Hw Hq Hid Ha Hm Hp c. unfold performHandshake.
  destruct (sendSYN_run y d h w Hy Hok Hh Hw) as (bs & E & _). rewrite (ste_step _ _ _ _ _ E). clear E.
  set (w1 := updc _ (after_send bs w)). unfold setState. rewrite setc_step.
  set (w2 := updc (λ c, c <| state := StateSynSent |>) w1).
  assert (Hs2 : sendSeq (conn w2) -% 1 = sendSeq (conn w)).
  { cbn. rewrite u32_sub_l. replace (sendSeq (conn w) + 1 - 1) with (sendSeq (conn w)) by lia.
    apply u32_small, Hw. }
  unfold completeHandshake. rewrite ste_assoc. rewrite (ste_step _ _ w2 q w2) by (cbn; by rewrite Hq).
  rewrite ste_assoc. rewrite (ste_step _ _ _ _ _ (processSynAck_run q w2 ltac:(congruence) Hm Hp)).
  set (w3 := updc _ w2). assert (Hc3 : conn w3 = c) by done.
  assert (Hw3 : widths (conn w3)).
  { rewrite Hc3. destruct Hw. split; cbn; [done|done|apply u32_range|done]. }
  rewrite (ste_step _ _ _ _ _ (sendACK_run y w3 Hy Hw3)), setc_step.
  clearbody w3. destruct (started_run (updc (λ c, c <| state := StateEstablished |>)
    (after_send (wire (ack_packet (conn w3))) w3))) as (w' & -> & H1 & H2).
  exists w'. split; [done|]. rewrite H1, H2, updc_conn, updc_outbox, after_send_conn, after_send_outbox, Hc3.
  split; [done|]. apply last_snoc.
Qed.

(** ** The listener's half *)

(** A listener that takes the next connection of the peer [dest]: its session
    signs, the access list and the limits let the peer through, there are
    random words, and there is room in the accept queue. *)
Record server_ready l x y d (dest : option Destination) s : Prop := {
  sr_listening : listening l x s;
  sr_session : l_session x = Some y;
  sr_ok : session_ok y d;
  sr_filter : ∀ f, l_accessFilter x = Some f → lets_through f dest s;
  sr_limit : l_limiter x = true → limit_answer dest s (Ok ());
  sr_random : ∃ isn id, drawn (y_rands s) isn id;
  sr_room : (length (acceptChan x) < 10)%nat;
  sr_mtu : 0 < l_localMTU x < 65536;
}.

Lemma syn_conn_fields x (pkt : Packet) rp d isn id prof p c : syn_conn x pkt rp d isn id prof p c →
  localStreamID c = id ∧ remoteStreamID c = RecvStreamID pkt ∧ recvSeq c = SequenceNum pkt +% 1 ∧ sendSeq c = isn ∧
  localMTU c = l_localMTU x ∧ remoteMTU c = extractRemoteMTU pkt (l_localMTU x) ∧ dest c = Some d ∧
  localPort c = l_localPort x ∧ remotePort c = rp ∧
  remoteProfile c = profileFromFlag (Flags pkt).
Proof. intros [H1 H2 _]. unfold fixed_part, send_part, conn_ids in *. split_and!; unfold profileFromFlag; congruence. Qed.

Lemma drawn_words rs isn id : drawn rs isn id → is_u32 isn ∧ is_u32 id ∧ id ≠ 0.
Proof.
  intros (rs1 & rs2 & H1 & H2). split; [by eapply generateISN_word|by eapply generateStreamID_word].
Qed.

Lemma syn_conn_widths x (pkt : Packet) rp d isn id prof p c rs :
  syn_conn x pkt rp d isn id prof p c → drawn rs isn id → is_u32 (RecvStreamID pkt) → 0 < l_localMTU x < 65536 →
  widths c.
Proof.
  intros Hc Hd Hr Hm. destruct (syn_conn_fields _ _ _ _ _ _ _ _ _ Hc) as (E1 & E2 & _ & E3 & E4 & _).
  destruct (drawn_words _ _ _ Hd) as (? & ? & _). split; rewrite ?E1, ?E2, ?E3, ?E4; done || lia.
Qed.

Lemma server_run l x y d (q : Packet) rp dest dC s :
  server_ready l x y d dest s → (∀ o, syn_source q o = Some dC) → authentic q → for_us x q → is_u32 (RecvStreamID q) →
  ∃ s' p isn id c bs, handleIncomingSYN l q rp dest s = (Ok (), s') ∧
    syn_admitted l x q rp dest s s' dC p isn id c y bs ∧ widths c ∧ id ≠ 0 ∧ signed y (synack_packet c y) bs.
Proof.
  intros [] Hsrc Hau Hus Hid. pose proof (handleIncomingSYN_wp l x q rp dest s sr_listening0) as H.
  unfold wp in H. destruct (handleIncomingSYN l q rp dest s) as [[[]|e|] s'] eqn:E; [| |done].
  - destruct H as (d' & p & isn & id & c & y' & bs & Ha). exists s', p, isn, id, c, bs.
    assert (d' = dC) as -> by (pose proof (ad_source _ _ _ _ _ _ _ _ _ _ _ _ _ _ Ha); specialize (Hsrc dest); congruence).
    assert (y' = y) as -> by (pose proof (ad_session _ _ _ _ _ _ _ _ _ _ _ _ _ _ Ha); congruence).
    split; [done|]. split; [done|]. destruct Ha.
    split; [by eapply syn_conn_widths|]. split; [by eapply drawn_words|by destruct ad_synack].
  - exfalso. destruct H as [H _]. destruct H as [e f Hf Hn|e Hl Ha|Hd|e Hn|Hn|Hn|Hn|d' isn id p c y' e Hd Hy Hdr Hc Hn|Hn].
    + by apply Hn, sr_filter0.
    + destruct (sr_limit0 Hl) as (cl & H1 & H2), Ha as (cl' & H3 & H4). congruence.
    + specialize (Hsrc dest). congruence.
    + done.
    + done.
    + done.
    + destruct (NewBuffer_ok (64 * 1024)) as (b & Hb & _); [lia|]. congruence.
    + assert (y' = y) as -> by congruence.
      destruct (signed_delivered _ d y (synack_signable c y d (syn_conn_widths _ _ _ _ _ _ _ _ _ _ Hc Hdr Hid sr_mtu0)
        (so_dest _ _ sr_ok0)) sr_ok0) as [(bs & Hbs) _].
      apply Hn. exists bs. split; [done|apply Hsend].
    + lia.
Qed.

(** The final acknowledgement reaches the listener's connection. *)
Lemma final_ack_run c0 w : state (conn w) = StateSynRcvd →
  ∃ w', processPacket (wire_view (ack_packet c0)) w = (Ok (), w') ∧
    conn w' = (conn w) <| lastActivity := clock (ticks w) |> <| ackThrough := recvSeq c0 -% 1 |> <| state := StateEstablished |>.
Proof.
  intros Hs. unfold processPacket. rewrite Now_step, setc_step. set (w1 := updc _ _).
  unfold dispatchPacketByFlags. rewrite getc_step. cbn [id]. cbv zeta.
  assert (Hs1 : state (conn w1) = StateSynRcvd) by done. rewrite Hs1.
  change (Flags (wire_view (ack_packet c0))) with 0. rewrite bool_decide_true by done. cbn.
  eexists. split; done.
Qed.

(** ** Both halves *)

(** What arrives of a message. *)
Definition arriving (m : option Message) : Packet := snd (Unmarshal (default [] (m_data <$> m)) empty_Packet).

(** Two connections that know each other. *)
Record agreement (a b : StreamConn) : Prop := {
  ag_state : state a = StateEstablished ∧ state b = StateEstablished;
  ag_ids : remoteStreamID a = localStreamID b ∧ remoteStreamID b = localStreamID a;
  ag_numbers : recvSeq a = sendSeq b ∧ recvSeq b = sendSeq a;
  ag_mtu : remoteMTU a = localMTU b ∧ remoteMTU b = localMTU a;
  ag_acks : ackThrough a = sendSeq a -% 1 ∧ ackThrough b = sendSeq b -% 1;
  ag_profiles : remoteProfile a = (if profile b =? ProfileInteractive then ProfileInteractive else ProfileBulk) ∧
    remoteProfile b = (if profile a =? ProfileInteractive then ProfileInteractive else ProfileBulk);
}.

Lemma arriving_signed (pkt : Packet) y d bs c :
  signable pkt d → session_ok y d → signed y pkt bs → parsed_signed pkt (arriving (Some (message c bs))).
Proof.
  intros Hp Hy Hs. destruct (signed_delivered pkt d y Hp Hy) as [_ H]. destruct (H bs Hs) as (q & Hq & Hq').
  unfold arriving. cbn. by rewrite Hq.
Qed.

Lemma arriving_plain (pkt : Packet) c : plain pkt → arriving (Some (message c (wire pkt))) = wire_view pkt.
Proof. intros Hp. unfold arriving. cbn. by rewrite (proj2 (plain_arrives pkt Hp)). Qed.

(** The numbers and names the two halves end up with. *)
Lemma halves_agree x q0 rp dC isn id prof p c (q1 : Packet) ca h yc y tm :
  syn_conn x q0 rp dC isn id prof p c → widths ca → widths c →
  parsed_signed (syn_packet ca yc (hash_words h)) q0 → session_Destination yc = Some dC → 0 < localMTU ca →
  parsed_signed (synack_packet c y) q1 →
  agreement ((completed q1 ca) <| state := StateEstablished |>)
    ((answered c) <| lastActivity := tm |> <| ackThrough := recvSeq (completed q1 ca) -% 1 |> <| state := StateEstablished |>).
Proof.
  intros Hc Ha Hw H0 Hd Hm H1. destruct (syn_conn_fields _ _ _ _ _ _ _ _ _ Hc) as (E1 & E2 & E3 & E4 & E5 & E6 & _ & _ & _ & E7).
  destruct (parsed_syn _ _ _ _ _ H0 Hd) as (_ & _ & _ & _ & _ & F1 & F2 & F3 & F4 & F5).
  destruct (parsed_synack _ _ _ H1) as (_ & G1 & G2 & G3 & _ & G4 & G5).
  assert (Hs : AckThrough q1 = sendSeq ca).
  { rewrite G3, E3, F2, u32_sub_l. replace (sendSeq ca + 1 - 1) with (sendSeq ca) by lia. apply u32_small, Ha. }
  split; cbn.
  - done.
  - split; [done|congruence].
  - split; [by rewrite G2|by rewrite E3, F2].
  - split; [done|]. rewrite E6. unfold extractRemoteMTU. rewrite F3, F4. by destruct (Z.ltb_spec 0 (localMTU ca)); [|lia].
  - rewrite Hs, G2, !u32_sub_l. split; [|done]. replace (sendSeq ca + 1 - 1) with (sendSeq ca) by lia.
    symmetry. apply u32_small, Ha.
  - split; [done|]. rewrite E7. unfold profileFromFlag. by rewrite F5.
Qed.

(** Everything a handshake without losses leads to. *)
Definition syn_sent (wc : World) : Packet := arriving (last (outbox (snd (sendSYN wc)))).

Lemma handshake_run (wc : World) (yc yS : Session) (dC dS : Destination) (h : bytes) (l : positive)
    (x : StreamListener) s (rp : Z) :
  session (conn wc) = Some yc → session_ok yc dC → dest (conn wc) = Some dS →
  hashDestination (Some dS) = Some h → widths (conn wc) → 0 < localMTU (conn wc) →
  server_ready l x yS dS (Some dC) s →
  ∃ s1 p isn id c tm, let synack := arriving (last (y_outbox s1)) in
    handleIncomingSYN l (syn_sent wc) rp (Some dC) s = (Ok (), s1) ∧
    syn_conn x (syn_sent wc) rp dC isn id (listener_profile x s) p c ∧ widths c ∧
    parsed_signed (syn_packet (conn wc) yc (hash_words h)) (syn_sent wc) ∧
    parsed_signed (synack_packet c yS) synack ∧
    objects s1 = (<[p := answered c]> (conns s), alter (accepted p) l (lsts s), listeners (sm s),
      registered x rp p (connections (sm_view (sm s)))) ∧
    ∃ wc', performHandshake [Some synack] wc = (Ok (), wc') ∧
      let ca := completed synack (conn wc) in
      conn wc' = ca <| state := StateEstablished |> ∧
      conn (snd (processPacket (arriving (last (outbox wc'))) (world_of (answered c) s1))) =
        (answered c) <| lastActivity := tm |> <| ackThrough := recvSeq ca -% 1 |> <| state := StateEstablished |>.
Proof.
  intros Hy Hok HdS Hh Hw Hm Hsr. rewrite <-HdS in Hh. set (syn := syn_sent wc).
  destruct (sendSYN_run yc dC h wc Hy Hok Hh Hw) as (bs0 & E0 & Hb0).
  assert (Hsyn : parsed_signed (syn_packet (conn wc) yc (hash_words h)) syn).
  { unfold syn, syn_sent. rewrite E0. cbn [snd]. rewrite updc_outbox, after_send_outbox, last_snoc.
    eapply arriving_signed; [by eapply syn_signable, so_dest|done..]. }
  clearbody syn. clear E0 Hb0 bs0.
  destruct (parsed_syn _ _ _ _ _ Hsyn (so_dest _ _ Hok)) as (_ & _ & Hau & Hsrc & Hn & Hr & F2 & _).
  assert (Hus : for_us x syn).
  { intros _ y' h' Hy' Hh'. rewrite (sr_session _ _ _ _ _ _ Hsr) in Hy'. injection Hy' as <-.
    rewrite (so_dest _ _ (sr_ok _ _ _ _ _ _ Hsr)) in Hh'. rewrite HdS in Hh. congruence. }
  destruct (server_run l x yS dS syn rp (Some dC) dC s Hsr Hsrc Hau Hus) as
    (s1 & p & isn & id & c & bs & E1 & Had & Hwc & Hid & Hbs); [rewrite Hr; apply Hw|].
  exists s1, p, isn, id, c. set (synack := arriving (last (y_outbox s1))).
  assert (Hack : parsed_signed (synack_packet c yS) synack).
  { unfold synack. rewrite (ad_outbox _ _ _ _ _ _ _ _ _ _ _ _ _ _ Had), last_snoc.
    eapply arriving_signed; [|apply Hsr|done]. eapply synack_signable; [done|]. apply so_dest, Hsr. }
  clearbody synack. destruct (parsed_synack _ _ _ Hack) as (P1 & P2 & _ & P4 & P5 & P6 & _).
  pose proof (ad_conn _ _ _ _ _ _ _ _ _ _ _ _ _ _ Had) as Hc.
  destruct (syn_conn_fields _ _ _ _ _ _ _ _ _ Hc) as (Q1 & _ & Q3 & _ & Q5 & _).
  assert (Hiu : is_u32 (localStreamID c)) by apply Hwc.
  destruct (client_run yc dC h synack wc Hy Hok Hh Hw) as (wc' & E2 & Hc' & Ho').
  - unfold isSynAckPacket. rewrite P1, P2, Q1. destruct (Z.ltb_spec 0 id); [done|]. rewrite Q1 in Hiu. lia.
  - by rewrite P2.
  - rewrite P4, Q3, u32_sub_l, F2. replace (sendSeq (conn wc) + 1 - 1) with (sendSeq (conn wc)) by lia.
    apply u32_small, Hw.
  - done.
  - rewrite P6, Q5. apply Hsr.
  - set (ca := completed synack (conn wc)) in *.
    assert (Hca : widths ca).
    { destruct Hw. split; cbn; [done|by rewrite P2|apply u32_range|done]. }
    destruct (final_ack_run ca (world_of (answered c) s1) eq_refl) as (ws & E3 & Hws).
    eexists. cbv zeta. do 5 (split; [done|]). split.
    { apply (ad_objects _ _ _ _ _ _ _ _ _ _ _ _ _ _ Had). }
    exists wc'. split_and!; [done|done|]. rewrite Ho', arriving_plain by (by apply ack_plain).
    rewrite E3. exact Hws.
Qed.

(** C5.  The handshake.  A client's SYN that reaches a listener ready for the
    client makes a connection on the listener's side; when the SYN-ACK reaches
    the client its handshake completes; and when the client's
    acknowledgement reaches the listener's connection both ends are
    established and agree: each has the other's stream identifier, next
    sequence number, packet size and profile, and has its own handshake
    packet acknowledged.  The listener's connection waits in the accept queue
    and is the one registered for the two ports. *)
Theorem handshake_agreement (wc : World) (yc yS : Session) (dC dS : Destination) (h : bytes) (l : positive)
    (x : StreamListener) s (rp : Z) :
  session (conn wc) = Some yc → session_ok yc dC → dest (conn wc) = Some dS →
  hashDestination (Some dS) = Some h → widths (conn wc) → 0 < localMTU (conn wc) →
  server_ready l x yS dS (Some dC) s →
  let syn := syn_sent wc in
  let s1 := snd (handleIncomingSYN l syn rp (Some dC) s) in
  let synack := arriving (last (y_outbox s1)) in
  let wc' := snd (performHandshake [Some synack] wc) in
  let ack := arriving (last (outbox wc')) in
  ∃ p c1, lsts s1 !! l = Some (accepted p x) ∧ conns s1 !! p = Some c1 ∧ dest c1 = Some dC ∧
    (l_manager x = true → connections (sm_view (sm s1)) !! (l_localPort x, rp) = Some p) ∧
    fst (handleIncomingSYN l syn rp (Some dC) s) = Ok () ∧ fst (performHandshake [Some synack] wc) = Ok () ∧
    agreement (conn wc') (conn (snd (processPacket ack (world_of c1 s1)))).
Proof.
  intros Hy Hok HdS Hh Hw Hm Hsr.
  destruct (handshake_run wc yc yS dC dS h l x s rp Hy Hok HdS Hh Hw Hm Hsr)
    as (s1 & p & isn & id & c & tm & E1 & Hc & Hwc & Hsyn & Hack & Ho & wc' & E2 & Hc' & Hs').
  cbv zeta. rewrite E1. cbn [fst snd]. rewrite E2. cbn [fst snd]. unfold objects in Ho. injection Ho as O1 O2 _ O4.
  exists p, (answered c). rewrite O1, O2, O4, Hs', Hc'. split_and!; [|by rewrite lookup_insert_eq| | |done|done|].
  - rewrite lookup_alter_eq. destruct (sr_listening _ _ _ _ _ _ Hsr) as (_ & -> & _). done.
  - by destruct (syn_conn_fields _ _ _ _ _ _ _ _ _ Hc) as (_ & _ & _ & _ & _ & _ & ? & _).
  - unfold registered. intros ->. apply lookup_insert_eq.
  - eapply halves_agree; [done|done|done|done|apply Hok|done|done].
Qed.
End Agreement.

(** ** Instances *)

Section Examples.

Lemma server_ready_ex : server_ready 1 listener_ex session_B dest_B (Some dest_A) listening_ex.
Proof.
  split; try done; try (cbn; lia).
  - split; [apply listening_ex_inv|]. split; vmeq.
  - apply session_B_ok.
  - intros f [= <-] y Hy.
    vm_compute in Hy. injection Hy as <-. vmeq.
  - intros _. exists (default (newConnectionLimiter None) (limiter (sm_view (sm listening_ex)))). split; vmeq.
  - exists 775, 9. by eexists _, _.
Qed.

(** The digest of the listener's destination, evaluated. *)
Definition hash_ex : bytes := Eval vm_compute in default [] (hashDestination (Some dest_B)).

Lemma handshake_agreement_witness :
  let syn := syn_sent dialing_world in
  let s1 := snd (handleIncomingSYN 1 syn 10 (Some dest_A) listening_ex) in
  let synack := arriving (last (y_outbox s1)) in
  let wc' := snd (performHandshake [Some synack] dialing_world) in
  let ack := arriving (last (outbox wc')) in
  ∃ p c1, lsts s1 !! 1%positive = Some (accepted p listener_ex) ∧ conns s1 !! p = Some c1 ∧ dest c1 = Some dest_A ∧
    (true = true → connections (sm_view (sm s1)) !! (443, 10) = Some p) ∧
    fst (handleIncomingSYN 1 syn 10 (Some dest_A) listening_ex) = Ok () ∧
    fst (performHandshake [Some synack] dialing_world) = Ok () ∧
    agreement (conn wc') (conn (snd (processPacket ack (world_of c1 s1)))).
Proof.
  apply (handshake_agreement (RT:=ConcreteRuntime) (λ _, eq_refl) dialing_world session_A session_B dest_A dest_B
    hash_ex 1 listener_ex listening_ex 10);
    [done|apply session_A_ok|done|vmeq|by repeat split; vm_compute|done|apply server_ready_ex].
Defined.
End Examples.
