(* ===== verification/Streams.v ===== *)
(** * From dialing to reading

    The handshake of [HandshakeProps] and the transfer of [Transfer] put
    together: the two connections a handshake makes carry a byte stream each
    way. *)

From S2P Require Import Prelude GoInt SeqNum I2CP Packet PacketProps Crypto Limits MessageStatus.
From S2P Require Import TCBCache Floats Runtime Conn ConnRecv ConnAck ConnLife ConnWrite.
From S2P Require Import ConnFrames ConnOps ConnExamples ConnRecvProps ConnTx Transfer Duplex.
From S2P Require Import Delivery AccessList System Ping Listener Manager.
From S2P Require Import SystemFrames SystemInv SystemOps SystemProps SystemExamples Handshake.
From S2P Require Import ListenerProps HandshakeProps.
From Stdlib Require Import Strings.Byte.

Section Streams.
Context {I : I2CP} {B : CircBuf} {RT : GoRuntime} {C : MessageStatusCodes} {SS : SessionStatusCodes}.
Context `{!I2CPLaws I} `{!CircBufLaws B}.
Context (Hsend : ∀ n, send_ok n = true).
Implicit Types s : Sys.
Implicit Types w : World.
Implicit Types c : StreamConn.

(** An end of an established connection that has used its stream for nothing. *)
Record fresh_end c : Prop := {
  fe_stream : fresh_stream c;
  fe_state : state c = StateEstablished ∧ closed c = false;
  fe_session : is_Some (session c);
  fe_mtu : 0 < localMTU c ∧ 0 <= remoteMTU c;
  fe_seq : is_u32 (sendSeq c);
  fe_queue : recvChan c = [];
}.

Lemma fresh_sends w : fresh_end (conn w) → 0 < sendSeq (conn w) → ready_to_send w.
Proof.
  intros [(buf & _ & Hs) _ ? ? ? _] ?. unfold stream_part in Hs. injection Hs as _ Hs _ _. by split; [..|lia|].
Qed.

Lemma fresh_receives w (base : Z) : fresh_end (conn w) → recvSeq (conn w) = base → rx_init base w.
Proof.
  intros [(buf & Hb & Hs) [H1 H2] _ _ _ _] Hr. unfold stream_part in Hs. injection Hs as E1 _ E3 E4.
  destruct (NewBuffer_ok (64 * 1024)) as (buf' & Hb' & Hsz & Hby & Hw); [lia|].
  assert (buf' = buf) as -> by congruence. rewrite <-E1 in Hsz, Hby, Hw.
  split; rewrite ?Hsz; try done. unfold rest. congruence.
Qed.

Lemma fresh_carries wa wb : fresh_end (conn wa) → fresh_end (conn wb) →
  recvSeq (conn wb) = sendSeq (conn wa) → 0 < sendSeq (conn wa) → carries_stream wa wb.
Proof.
  intros Ha Hb Hn Hp. apply established_carries; [done| |].
  - by apply fresh_sends.
  - by apply fresh_receives.
Qed.

Lemma fresh_joined wa wb : fresh_end (conn wa) → fresh_end (conn wb) →
  recvSeq (conn wb) = sendSeq (conn wa) → recvSeq (conn wa) = sendSeq (conn wb) →
  0 < sendSeq (conn wa) → 0 < sendSeq (conn wb) → joined wa (sendSeq (conn wb)) ∧ joined wb (sendSeq (conn wa)).
Proof.
  intros Fa Fb Hb Ha Pa Pb.
  split; (split; [by apply fresh_sends|by apply fresh_receives|by apply fe_queue]).
Qed.

(** A connection about to dial: what [createConnectionStruct] makes. *)
Record about_to_dial c y : Prop := {
  td_stream : fresh_stream c;
  td_open : closed c = false ∧ remoteStreamID c = 0 ∧ recvChan c = [];
  td_session : session c = Some y;
  td_mtu : 0 < localMTU c;
  td_widths : widths c;
}.

Lemma wp_drawISN {A} (k : Z → STE World ConnError A) (Q : A → World → Prop) (F : ConnError → World → Prop) w :
  rands_ok (rands w) →
  (∀ v rs, is_u32 v → rands_ok rs → wp (k v) Q F (w <| rands := rs |>)) →
  (∀ rs, F ERand (w <| rands := rs |>)) → wp (v ← drawISN; k v) Q F w.
Proof.
  intros Hr Hk HF. unfold drawISN. do 3 wp_step. destruct (generateISN_ok _ Hr) as [H1 H2].
  destruct (generateISN (rands w)) as [[v|e|] rs] eqn:E; cbn in *; [..|done]; do 3 wp_step; [|done].
  apply Hk; [by eapply generateISN_word|done].
Qed.

(** What the TCB cache changes of it does not matter here. *)
Lemma about_to_dial_cached w w' y d : same handshake_part w w' →
  about_to_dial (conn w) y ∧ dest (conn w) = Some d → about_to_dial (conn w') y ∧ dest (conn w') = Some d.
Proof.
  intros H [[Hs (Ho & Hr & Hq) Hy Hm [W1 W2 W3 W4]] Hd].
  assert (Hst : stream_part (conn w') = stream_part (conn w)) by (unfold same, handshake_part in H; congruence).
  unfold same, handshake_part, fixed_part, conn_ids, send_part in H.
  assert (E : (closed (conn w'), remoteStreamID (conn w'), session (conn w'), localMTU (conn w')) =
    (closed (conn w), remoteStreamID (conn w), session (conn w), localMTU (conn w))) by congruence.
  assert (E0 : recvChan (conn w') = recvChan (conn w)) by congruence.
  assert (E' : (localStreamID (conn w'), sendSeq (conn w'), dest (conn w')) =
    (localStreamID (conn w), sendSeq (conn w), dest (conn w))) by congruence.
  injection E as E1 E2 E3 E4. injection E' as E5 E6 E7. split; [|congruence].
  split; rewrite ?E0, ?E1, ?E2, ?E3, ?E4; try done; [unfold fresh_stream in *; by rewrite Hst|].
  by split; rewrite ?E2, ?E4, ?E5, ?E6.
Qed.

Lemma createConnection_made p y m d lp rp mtu w : rands_ok (rands w) →
  wp (createConnectionStruct p (Some y) m (Some d) lp rp mtu)
    (λ _ w', about_to_dial (conn w') y ∧ dest (conn w') = Some d) (λ _ _, True) w.
Proof.
  intros Hr. unfold createConnectionStruct. wp_step. unfold validateConnectionParams.
  case_if; zbool; [by wp_step|]. case_if; [by wp_step|]. wp_step. wp_step. unfold generateConnectionIdentifiers.
  apply wp_drawISN; [done| |done]. intros isn rs Hisn Hrs. apply wp_drawISN; [done| |done].
  intros id rs' Hid Hrs'. wp_step. destruct (NewBuffer (64 * 1024)) as [buf|] eqn:Eb; [|by wp_step].
  unfold Now, setc, getc. do 8 wp_step.
  match goal with |- wp _ _ _ ?w0 => set (w1 := w0) end.
  assert (Hm : 0 < u16 mtu < 65536).
  { destruct (Z.ltb_spec 1730 mtu); destruct (Z.eqb_spec mtu 1812); unfold MinMTU, DefaultMTU, ECIESMTU in *; try done;
      rewrite u16_small; lia. }
  assert (H1 : about_to_dial (conn w1) y ∧ dest (conn w1) = Some d).
  { split; [|done]. split; [exists buf; split; [exact Eb|reflexivity]|done|done|cbn; lia|]. split; cbn; done || lia. }
  clearbody w1. wp_step. eapply wp_mono; [apply (wp_total (same handshake_part)); apply _| |done].
  cbn beta. intros [] w2 Hw. destruct (about_to_dial_cached w1 w2 y d Hw H1) as [[Hs Ho Hy Hn []] Hd].
  unfold setc. do 3 wp_step. split; [|exact Hd]. by split; [exact Hs|exact Ho|exact Hy|exact Hn|split].
Qed.

(** The client's end once the handshake is over. *)
Lemma dialed_end y c (q : Packet) : about_to_dial c y → 0 <= MaxPacketSize q →
  fresh_end ((completed q c) <| state := StateEstablished |>).
Proof.
  intros [Hs (Ho & _ & Hc) Hy Hm []] Hq. by split; [exact Hs|done|exists y|done|apply u32_range|].
Qed.

(** The listener's end. *)
Lemma accepted_end x (pkt : Packet) rp d isn id prof p c y tm a :
  syn_conn x pkt rp d isn id prof p c → l_session x = Some y → widths c → 0 < l_localMTU x → 0 <= remoteMTU c →
  fresh_end ((answered c) <| lastActivity := tm |> <| ackThrough := a |> <| state := StateEstablished |>).
Proof.
  intros Hc Hy Hw Hm Hr. destruct (syn_conn_fields _ _ _ _ _ _ _ _ _ Hc) as (_ & _ & _ & _ & E & _).
  pose proof (syn_conn_session _ _ _ _ _ _ _ _ _ Hc) as Hse.
  assert (Hcl : closed c = false) by (destruct Hc as [H _ _]; unfold fixed_part, conn_ids in H; congruence).
  assert (Hch : recvChan c = []) by (destruct Hc as [H _ _]; unfold fixed_part, conn_ids in H; congruence).
  split; [exact (sc_stream _ _ _ _ _ _ _ _ _ Hc)|done| | |apply u32_range|exact Hch].
  - exists y. cbn. congruence.
  - cbn. by rewrite E.
Qed.

End Streams.

(** ** Concrete runs *)

Section Examples.
Definition before_dial : World :=
  MkWorld conn_ex manager_A 0 0 0 [Some [x00; x00; x01; xf4]; Some [x00; x00; x00; x07]] [] [].
Definition dial_ex : World :=
  snd (createConnectionStruct 1 (Some session_A) true (Some dest_B) 10 443 1730 before_dial).

End Examples.
