(* ===== verification/PingProps.v ===== *)
(** * A ping and its answer

    Two managers: what one of them sends as a ping, delivered to the other,
    and the answer delivered back, make the waiting call return. *)

From S2P Require Import Prelude GoInt I2CP Packet PacketProps Crypto Limits MessageStatus.
From S2P Require Import TCBCache Runtime Conn ConnLife ConnExamples Delivery AccessList System.
From S2P Require Import Ping Listener Manager.
From S2P Require Import SystemFrames SystemInv SystemOps SystemProps SystemExamples Handshake.
From S2P Require Import HandshakeProps.
From Stdlib Require Import Strings.Byte.

Section PingPong.
Context {I : I2CP} {B : CircBuf} {RT : GoRuntime} {C : MessageStatusCodes} {SS : SessionStatusCodes}.
Context `{!I2CPLaws I} (Hsend : ∀ n, send_ok n = true).
Implicit Types s : Sys.
#[local] Abbreviation Y := (STE Sys SysError).

(** I2CP delivers a message: its ports change sides. *)
Definition deliver (from : Destination) (m : Message) s : Sys :=
  snd (dispatchPacket true (MkIncoming 6 (Some from) (m_localPort m) (m_remotePort m) (m_data m)) s).

(** The last message of [sA] goes to [sB], and what [sB] sends then comes back. *)
Definition exchange (dA dB : Destination) sB sA : Sys :=
  match last (y_outbox sA) with
  | None => sA
  | Some m =>
      match last (y_outbox (deliver dA m sB)) with
      | None => sA
      | Some m' => deliver dB m' sA
      end
  end.

Definition ping_packet (y : Session) (id : Z) (payload : bytes) : Packet :=
  (base_Packet id 0 0 0 (Z.lor (Z.lor FlagECHO FlagSignatureIncluded) FlagFromIncluded))
    <| FromDestination := session_Destination y |> <| Payload := payload |>.

(** Sending changes the outbox and the count of messages. *)
Definition posted (dest : option Destination) (lp rp : Z) (bs : bytes) s : Sys :=
  s <| y_sends ::= S |> <| y_outbox ::= λ o, o ++ [MkMessage dest lp rp bs 0] |>.

Lemma SendMessageTo_run y dest lp rp bs s : sm_session (sm s) = Some y →
  SendMessageTo dest lp rp bs s = (Ok (), posted dest lp rp bs s).
Proof.
  intros Hy. unfold SendMessageTo, managerSession, getm, mbind, ste_bind, egets, emodify. rewrite Hy.
  unfold mret, ste_ret. cbv beta iota. rewrite Hsend. done.
Qed.

Lemma send_plain y (pkt : Packet) dest lp rp s : sm_session (sm s) = Some y → plain pkt →
  sendPacketToDest pkt dest lp rp s = (Ok (), posted dest lp rp (wire pkt) s).
Proof.
  intros Hy Hp. unfold sendPacketToDest, marshalPacket. rewrite (proj1 (plain_arrives pkt Hp)).
  unfold mret, ste_ret. rewrite (ste_step _ _ s (wire pkt) s) by done. by eapply SendMessageTo_run.
Qed.

Lemma sendPing_run y d dest id payload s :
  sm_session (sm s) = Some y → session_ok y d → is_u32 id →
  ∃ bs, sendPingPacket dest id payload s = (Ok (), posted dest 0 0 bs s) ∧ signed y (ping_packet y id payload) bs.
Proof.
  intros Hy Hok Hid.
  assert (Hp : signable (ping_packet y id payload) d).
  { split; try done; [apply Hok|cbn; lia]. }
  destruct (signed_delivered _ d y Hp Hok) as [(bs & kp & p' & H1 & H2 & H3) _].
  exists bs. split; [|by exists kp, p'].
  unfold sendPingPacket, signPingPacket, managerSession, getm, mbind, ste_bind, egets. rewrite Hy.
  unfold mret, ste_ret. cbv beta iota. rewrite Hy. cbv beta iota. rewrite H1. unfold signPacket.
  fold (ping_packet y id payload). rewrite H2. unfold mret, ste_ret. cbv beta iota.
  unfold sendPacketToDest, marshalPacket. rewrite H3. unfold mbind, ste_bind, mret, ste_ret.
  rewrite (SendMessageTo_run y dest 0 0 bs s Hy). done.
Qed.

(** ** The answering side *)

Lemma pong_plain (q : Packet) : is_u32 (SendStreamID q) → plain (pongPacket q).
Proof. intros Hq. split; try done. cbn; lia. Qed.

Lemma answer_run y (q : Packet) dA dest lp rp bs s :
  sm_session (sm s) = Some y → AnswerPings (ping_config (pingMgr (sm s))) = true →
  Unmarshal bs empty_Packet = (Ok (), q) → has_flag (Flags q) FlagECHO = true → is_u32 (SendStreamID q) →
  0 < SendStreamID q →
  deliver dA (MkMessage dest lp rp bs 0) s = posted (Some dA) rp lp (wire (pongPacket q)) s.
Proof.
  intros Hy Ha Hu He Hid Hpos. unfold deliver. cbn [m_localPort m_remotePort m_data].
  rewrite (dispatch_parsed true (MkIncoming 6 (Some dA) lp rp bs) q s Hu), He.
  unfold handleEchoPacket, isPingPacket. rewrite He. destruct (Z.ltb_spec 0 (SendStreamID q)); [|lia]. cbn [andb].
  unfold handlePing, getm, mbind, ste_bind, egets. rewrite Ha. cbn [negb].
  destruct (Z.eqb_spec (SendStreamID q) 0); [lia|]. unfold try. cbn [srcDest srcPort destPort].
  by rewrite (send_plain y _ _ _ _ _ Hy (pong_plain q Hid)).
Qed.

(** ** The asking side *)

Definition answered_ping (q : Packet) (now : Z) (x : pendingPing) : pendingPing :=
  match resultCh x with
  | None => x <| resultCh := Some (MkPingResult (time_Sub now (pp_sentAt x)) (Payload q)) |>
  | Some _ => x
  end.

Lemma pong_run (q : Packet) dB dest lp rp bs p s :
  Unmarshal bs empty_Packet = (Ok (), q) → has_flag (Flags q) FlagECHO = true → SendStreamID q = 0 →
  pendingPings (pingMgr (sm s)) !! RecvStreamID q = Some p →
  deliver dB (MkMessage dest lp rp bs 0) s =
    s <| y_ticks ::= S |> <| pings ::= alter (answered_ping q (clock (y_ticks s))) p |>.
Proof.
  intros Hu He Hs Hp. unfold deliver. cbn [m_localPort m_remotePort m_data].
  rewrite (dispatch_parsed true (MkIncoming 6 (Some dB) lp rp bs) q s Hu), He.
  unfold handleEchoPacket, isPingPacket, isPongPacket. rewrite He, Hs. cbn [Z.ltb Z.eqb andb Z.compare].
  unfold handlePong. rewrite Hs. cbn [Z.eqb negb]. unfold getm, mbind, ste_bind, egets. rewrite Hp. done.
Qed.

Definition clipped (payload : bytes) : bytes := take MaxPingPayloadSize payload.

Lemma clip_eq (payload : bytes) :
  (if (MaxPingPayloadSize <? length payload)%nat then take MaxPingPayloadSize payload else payload) = clipped payload.
Proof. unfold clipped. case_if; zbool; [done|]. by rewrite take_ge. Qed.

Lemma clipped_idemp payload : clipped (clipped payload) = clipped payload.
Proof. unfold clipped. by rewrite take_take, Nat.min_id. Qed.

(** The ping is stored and on its way. *)
Definition pinging (id : Z) (payload : bytes) (p : positive) (rs : list (option bytes)) s : Sys :=
  s <| y_rands := rs |> <| y_ticks ::= S |>
    <| pings ::= <[p := MkPendingPing id payload (clock (y_ticks s)) None]> |>
    <| sm ::= λ m, m <| pingMgr ::= λ g, g <| pendingPings ::= <[id := p]> |> |> |>.

Lemma parsed_ping y id payload q : parsed_signed (ping_packet y id payload) q →
  has_flag (Flags q) FlagECHO = true ∧ SendStreamID q = id ∧ Payload q = payload.
Proof. by intros (sig & -> & _). Qed.

(** The exchange leaves the result in the ping's channel. *)
Lemma exchange_run yB dA dB sB y id payload p bs dest s :
  sm_session (sm sB) = Some yB → AnswerPings (ping_config (pingMgr (sm sB))) = true →
  is_u32 id → 0 < id → signed y (ping_packet y id payload) bs → session_ok y dA →
  pendingPings (pingMgr (sm s)) !! id = Some p →
  let s1 := posted dest 0 0 bs s in
  ∃ q, Payload q = clipped payload ∧
    exchange dA dB sB s1 = s1 <| y_ticks ::= S |> <| pings ::= alter (answered_ping q (clock (y_ticks s1))) p |>.
Proof.
  intros HyB Ha Hid Hpos Hs Hok Hp s1.
  assert (Hsg : signable (ping_packet y id payload) dA) by (split; try done; [apply Hok|cbn; lia]).
  destruct (signed_delivered _ dA y Hsg Hok) as [_ Hd]. destruct (Hd bs Hs) as (q & Hu & Hq).
  destruct (parsed_ping _ _ _ _ Hq) as (Q1 & Q2 & Q3).
  assert (Hpq : plain (pongPacket q)) by (apply pong_plain; by rewrite Q2).
  exists (wire_view (pongPacket q)). split; [unfold pongPacket; cbn; by rewrite Q3, clip_eq|].
  unfold exchange. assert (Ho : last (y_outbox s1) = Some (MkMessage dest 0 0 bs 0)) by apply last_snoc.
  rewrite Ho. rewrite (answer_run yB q dA dest 0 0 bs sB HyB Ha Hu Q1) by (by rewrite Q2).
  assert (Ho' : last (y_outbox (posted (Some dA) 0 0 (wire (pongPacket q)) sB)) =
    Some (MkMessage (Some dA) 0 0 (wire (pongPacket q)) 0)) by apply last_snoc.
  rewrite Ho'. apply (pong_run (wire_view (pongPacket q))); try done; [by apply plain_arrives|].
  cbn. rewrite Q2. exact Hp.
Qed.

(** C24.  A ping comes back.  When the peer's manager has a session and
    answers pings, a [Ping] whose packet is delivered to it and whose answer is
    delivered back returns the first 32 bytes of the payload and the time
    between its sending and the answer's arrival, and is no longer pending. *)
Theorem ping_round_trip (yA yB : Session) (dA dB : Destination) sA sB (payload : bytes) (id : Z)
    (rs : list (option bytes)) :
  sm_session (sm sA) = Some yA → session_ok yA dA →
  sm_session (sm sB) = Some yB → AnswerPings (ping_config (pingMgr (sm sB))) = true →
  Crypto.generateStreamID (y_rands sA) = (Ok id, rs) →
  ∃ s', Ping (exchange dA dB sB) SelResult (Some dB) payload sA =
      (Ok (MkPingResult (time_Sub (clock (S (y_ticks sA))) (clock (y_ticks sA))) (take 32 payload)), s') ∧
    pendingPings (pingMgr (sm s')) = delete id (pendingPings (pingMgr (sm sA))).
Proof.
  intros HyA Hok HyB Ha Hg. destruct (generateStreamID_word _ _ _ Hg) as [Hid Hnz].
  unfold Ping. rewrite (ste_step _ _ sA () sA).
  2: { unfold validatePingPrerequisites, getm, mbind, ste_bind, egets. by rewrite HyA. }
  cbv zeta. rewrite clip_eq. fold (clipped payload).
  rewrite (ste_step _ _ sA id (sA <| y_rands := rs |>)).
  2: { unfold generateStreamID, sysDraw, mbind, ste_bind, egets. by rewrite Hg. }
  set (p := base.fresh (dom (pings sA))). set (s1 := pinging id (clipped payload) p rs sA).
  rewrite (ste_step _ _ _ p s1) by done.
  destruct (sendPing_run yA dA (Some dB) id (clipped payload) s1 HyA Hok Hid) as (bs & Hsend1 & Hbs).
  destruct (exchange_run yB dA dB sB yA id (clipped payload) p bs (Some dB) s1) as (q & Hq & He); try done; [lia|apply lookup_insert_eq|].
  set (s2 := posted (Some dB) 0 0 bs s1) in *. remember (exchange dA dB sB s2) as s3 eqn:E3.
  assert (H3 : pings s3 !! p = Some (MkPendingPing id (clipped payload) (clock (y_ticks sA))
    (Some (MkPingResult (time_Sub (clock (S (y_ticks sA))) (clock (y_ticks sA))) (clipped payload))))).
  { rewrite He. unfold s2, s1. cbn. rewrite lookup_alter_eq, lookup_insert_eq. cbn. by rewrite Hq, clipped_idemp. }
  assert (Hp3 : pendingPings (pingMgr (sm s3)) = <[id := p]> (pendingPings (pingMgr (sm sA)))) by (by rewrite He).
  clear He Hq. set (r := MkPingResult _ _) in H3.
  set (s4 := s3 <| pings ::= alter (λ x, x <| resultCh := None |>) p |>).
  assert (Hc : catch (_ ← sendPingPacket (Some dB) id (clipped payload);
      _ ← emodify (exchange dA dB sB); awaitPong p SelResult) s1 = (Ok (inl r), s4)).
  { unfold catch. rewrite (ste_step _ _ _ _ _ Hsend1). rewrite (ste_step _ _ s2 () s3) by (by rewrite E3).
    unfold awaitPong, mbind at 1, ste_bind at 1, egets. rewrite H3. done. }
  rewrite (ste_step _ _ _ _ _ Hc). eexists. split; [done|]. cbn. by rewrite Hp3, delete_insert_eq.
Qed.
End PingPong.

Section Examples.

Definition payload_ex : bytes := replicate 40 x61.

Lemma ping_round_trip_witness :
  let sA := started session_A [Some [x00; x00; x00; x09]] in
  ∃ s', Ping (exchange dest_A dest_B (started session_B [])) SelResult (Some dest_B) payload_ex sA =
      (Ok (MkPingResult (time_Sub (clock (S (y_ticks sA))) (clock (y_ticks sA))) (take 32 payload_ex)), s') ∧
    pendingPings (pingMgr (sm s')) = delete 9 (pendingPings (pingMgr (sm sA))).
Proof.
  apply (ping_round_trip (RT:=ConcreteRuntime) (λ _, eq_refl) session_A session_B dest_A dest_B _ _ payload_ex 9 []);
    [done|apply session_A_ok|done..].
Defined.
End Examples.
