(* ===== verification/ManagerProps.v ===== *)
(** * What sharing leads to

    The consequences of what the manager's parts share: RESETs answered by
    RESETs, limits spent on forged SYNs, the routing table keyed by ports
    alone; and what closing the manager does. *)

From S2P Require Import Prelude GoInt SeqNum I2CP Packet PacketProps Crypto Limits MessageStatus.
From S2P Require Import TCBCache Floats Runtime Conn ConnRecv ConnAck ConnLife ConnWrite.
From S2P Require Import ConnFrames ConnOps ConnExamples Delivery AccessList System Ping Listener.
From S2P Require Import Manager.
From S2P Require Import SystemFrames SystemInv SystemOps SystemProps SystemExamples Handshake.
From S2P Require Import ListenerProps HandshakeProps PingProps ConnLifeProps.
From Stdlib Require Import Strings.Byte.

(** ** RESETs *)

Section Resets.
Context {I : I2CP} {B : CircBuf} {RT : GoRuntime} {C : MessageStatusCodes} {SS : SessionStatusCodes}.
Context `{!I2CPLaws I} (Hsend : ∀ n, send_ok n = true).
Implicit Types s : Sys.

Definition reset_packet (y : Session) (remoteStreamID : Z) : Packet :=
  (base_Packet 0 remoteStreamID 0 0 (Z.lor (Z.lor FlagRESET FlagSignatureIncluded) FlagFromIncluded))
    <| FromDestination := session_Destination y |>.

Lemma reset_signable y d id : session_ok y d → is_u32 id → signable (reset_packet y id) d.
Proof. intros Hy Hid. split; try done; [apply Hy|cbn; lia]. Qed.

Lemma sendReset_run y d dest id lp rp s :
  sm_session (sm s) = Some y → session_ok y d → is_u32 id →
  ∃ bs, sendResetPacket (Some dest) id lp rp s = (Ok (), posted (Some dest) lp rp bs s) ∧
    signed y (reset_packet y id) bs.
Proof.
  intros Hy Hok Hid.
  destruct (signed_delivered _ d y (reset_signable y d id Hok Hid) Hok) as [(bs & kp & p' & H1 & H2 & H3) _].
  exists bs. split; [|by exists kp, p'].
  unfold sendResetPacket. rewrite (ste_step _ _ s None s).
  2: { unfold try, validateResetPrerequisites, getm, mbind, ste_bind, egets. by rewrite Hy. }
  unfold createResetPacket, signResetPacket, managerSession, getm, mbind, ste_bind, egets. rewrite Hy.
  unfold mret, ste_ret. cbv beta iota. rewrite Hy. cbv beta iota. rewrite H1. fold (reset_packet y id).
  unfold signPacket. rewrite H2. unfold mret, ste_ret. cbv beta iota.
  unfold try, sendPacketToDest, marshalPacket. rewrite H3. unfold mbind, ste_bind, mret, ste_ret.
  by rewrite (SendMessageTo_run Hsend y (Some dest) lp rp bs s Hy).
Qed.

(** A packet that reads as a RESET, and as nothing else. *)
Definition reads_reset (bs : bytes) : Prop :=
  ∃ q, Unmarshal bs empty_Packet = (Ok (), q) ∧ has_flag (Flags q) FlagRESET = true ∧
    has_flag (Flags q) FlagECHO = false ∧ isSynPacket q = false ∧ is_u32 (SendStreamID q).

Lemma reset_answered (y : Session) (d from : Destination) s (lp rp : Z) (md : option Destination) (bs : bytes) (nonce : Z) :
  sm_session (sm s) = Some y → session_ok y d →
  connections (sm_view (sm s)) !! (rp, lp) = None → reads_reset bs →
  ∃ bs', deliver from (MkMessage md lp rp bs nonce) s = posted (Some from) rp lp bs' s ∧ reads_reset bs'.
Proof.
  intros Hy Hok Hn (q & Hu & Hr & He & Hs & Hid). unfold deliver. cbn [m_localPort m_remotePort m_data].
  rewrite (dispatch_parsed true (MkIncoming 6 (Some from) lp rp bs) q s Hu), He, Hs.
  unfold routeToConnection, getm. unfold mbind at 1, ste_bind at 1, egets. cbn [srcDest srcPort destPort]. rewrite Hn.
  destruct (sendReset_run y d from (SendStreamID q) rp lp s Hy Hok Hid) as (bs' & -> & Hs').
  exists bs'. split; [done|].
  destruct (signed_delivered _ d y (reset_signable y d _ Hok Hid) Hok) as [_ Hd].
  destruct (Hd bs' Hs') as (q' & Hu' & sig & -> & _). by eexists.
Qed.

(** [n] deliveries, to and fro, of whatever single message each one causes. *)
Fixpoint volley (n : nat) (dA dB : Destination) sA sB (m : Message) : option Message :=
  match n with
  | O => Some m
  | S n =>
      let sB' := deliver dA m sB in
      match drop (length (y_outbox sB)) (y_outbox sB') with
      | [m'] => volley n dB dA sB' sA m'
      | _ => None
      end
  end.

(** C37.  A RESET that no connection claims is answered by a RESET.  The answer
    goes back to the sender with the ports exchanged, and the sender, if it
    has no such connection either, answers it in turn: two managers that have
    forgotten a connection exchange RESETs without end, one for each that
    arrives. *)
Theorem reset_volley (yA yB : Session) (dA dB : Destination) sA sB (lp rp : Z) (m : Message) (n : nat) :
  sm_session (sm sA) = Some yA → session_ok yA dA → sm_session (sm sB) = Some yB → session_ok yB dB →
  connections (sm_view (sm sA)) !! (lp, rp) = None → connections (sm_view (sm sB)) !! (rp, lp) = None →
  m_localPort m = lp → m_remotePort m = rp → reads_reset (m_data m) →
  ∃ m', volley n dA dB sA sB m = Some m' ∧ reads_reset (m_data m').
Proof.
  revert yA yB dA dB sA sB lp rp m. induction n as [|n IH]; intros yA yB dA dB sA sB lp rp [md lp' rp' bs nonce];
    cbn [m_localPort m_remotePort m_data]; intros HyA HokA HyB HokB HA HB -> -> Hr; [by eexists|].
  destruct (reset_answered yB dB dA sB lp rp md bs nonce HyB HokB HB Hr) as (bs' & Hd & Hr').
  cbn [volley]. rewrite Hd. change (y_outbox (posted (Some dA) rp lp bs' sB)) with
    (y_outbox sB ++ [MkMessage (Some dA) rp lp bs' 0]). rewrite drop_app_length.
  by apply (IH yB yA dB dA _ sA rp lp).
Qed.
End Resets.

(** ** The routing table is keyed by the two ports *)

Section Routes.
Context {I : I2CP} {B : CircBuf} {RT : GoRuntime} {C : MessageStatusCodes} {SS : SessionStatusCodes}.
Implicit Types s : Sys.

(** Whatever arrives for these two ports, an ECHO or a SYN apart, goes into the
    queue of the connection [c], registered as [p], and does nothing else. *)
Definition routed_to (p : positive) (c : StreamConn) (lp rp : Z) s : Prop :=
  ∀ pick incoming pkt, destPort incoming = lp → srcPort incoming = rp →
    Unmarshal (i_payload incoming) empty_Packet = (Ok (), pkt) →
    has_flag (Flags pkt) FlagECHO = false → isSynPacket pkt = false →
    dispatchPacket pick incoming s = (Ok (), put_conn p (enqueued pick pkt c) s).

(** C34.  A second peer takes over a connection's route.  When a listener
    accepts a SYN from the remote port of a connection that is registered on
    its own port, whoever sends it, the new connection replaces the old one in
    the routing table: from then on whatever arrives for these ports, from the
    first peer too, goes into the queue of the second peer's connection, and
    nothing reaches the first connection, which stays as it is. *)
Theorem second_peer_takes_over l x (pkt : Packet) (rp : Z) (dest : option Destination) s s' (q : positive) :
  listening l x s → l_manager x = true →
  connections (sm_view (sm s)) !! (l_localPort x, rp) = Some q →
  handleIncomingSYN l pkt rp dest s = (Ok (), s') →
  ∃ p c d, p ≠ q ∧ conns s' !! p = Some c ∧ syn_source pkt dest = Some d ∧ Conn.dest c = Some d ∧
    conns s' !! q = conns s !! q ∧ routed_to p c (l_localPort x) rp s'.
Proof.
  intros Hl Hm Hq Hr. pose proof (handleIncomingSYN_wp l x pkt rp dest s Hl) as H. unfold wp in H. rewrite Hr in H.
  destruct H as (d & p & isn & id & c & y & bs & Ha). destruct Ha.
  destruct (si_table s (proj1 Hl) _ _ _ Hq) as (cq & Hcq & _).
  assert (Hpq : p ≠ q) by (intros ->; congruence).
  unfold objects in ad_objects. injection ad_objects as O1 _ _ O4. unfold registered in O4. rewrite Hm in O4.
  assert (Hp : conns s' !! p = Some (answered c)) by (by rewrite O1, lookup_insert_eq).
  exists p, (answered c), d. split_and!; [done|done|done| |by rewrite O1, lookup_insert_ne|].
  - apply (syn_conn_fields _ _ _ _ _ _ _ _ _ ad_conn).
  - intros pick incoming pkt' Hd Hs Hu He Hsyn. rewrite (dispatch_parsed pick incoming pkt' s' Hu), He, Hsyn.
    apply route_run; [|done]. rewrite O4, Hd, Hs. apply lookup_insert_eq.
Qed.
End Routes.

(** ** Forged SYNs spend the limit *)

Section Forged.
Context {I : I2CP} {B : CircBuf} {RT : GoRuntime} {C : MessageStatusCodes} {SS : SessionStatusCodes}.
Implicit Types s : Sys.
#[local] Abbreviation Y := (STE Sys SysError).

Lemma wp_both {A} (m : Y A) (Q Q' : A → Sys → Prop) (F F' : SysError → Sys → Prop) s :
  wp m Q F s → wp m Q' F' s → wp m (λ a s', Q a s' ∧ Q' a s') (λ e s', F e s' ∧ F' e s') s.
Proof. unfold wp. by destruct (m s) as [[] ?]. Qed.

(** The limiter's configuration and count. *)
Definition limit_state s : option (ConnectionLimitsConfig * Z) :=
  (λ cl, (Limits.config cl, activeStreams cl)) <$> limiter (sm_view (sm s)).

Lemma core_limit s s' : core s' = core s → limit_state s' = limit_state s.
Proof. unfold core, limit_state. intros H. by injection H as -> _ _ _ _. Qed.

Lemma checkAccessFilter_limit l x dest (pkt : Packet) s : listening l x s →
  wp (checkAccessFilter l dest pkt) (λ _ s', s' = s)
    (λ e s', (∃ a, e = SAccess a) ∧ limit_state s' = limit_state s ∧ objects s' = objects s) s.
Proof.
  intros H. unfold checkAccessFilter. wp_step. eapply wp_on_listener; [apply H|]. cbn [id].
  destruct (l_accessFilter x) as [f|] eqn:Ef; [|by wp_step]. wp_step.
  destruct (lo_filter _ _ (si_lsts s (proj1 H) l x (proj1 (proj2 H))) f Ef) as [y Hy].
  eapply wp_CheckAndLog; [exact Hy|by intros; wp_step|]. intros e _. wp_step. apply wp_ewhen; intros _.
  - apply wp_sendReset. intros s' Hs'. wp_step. split; [by eexists|]. by split; [apply core_limit|apply core_objects].
  - wp_step. split; [by eexists|done].
Qed.

(** The limiter counts what it lets through, and refuses at its maximum. *)
Lemma checkLimits_limit l x dest (pkt : Packet) c k s :
  listening l x s → l_limiter x = true → limit_state s = Some (c, k) →
  wp (checkConnectionLimits l dest pkt)
    (λ _ s', limit_state s' = Some (c, k + 1) ∧ ¬ 0 < MaxConcurrentStreams c <= k)
    (λ e s', limit_state s' = Some (c, k) ∧
       ∃ e', e = SLimit e' ∧ (0 < MaxConcurrentStreams c <= k → e' = EConcurrent (MaxConcurrentStreams c))) s.
Proof.
  intros H Hl Hk. unfold checkConnectionLimits. wp_step. eapply wp_on_listener; [apply H|]. cbn [id]. rewrite Hl.
  cbn [negb]. unfold SysNow. do 6 wp_step. unfold limit_state in Hk.
  destruct (limiter (sm_view (sm s))) as [cl|] eqn:Ecl; [|done]. injection Hk as Hc Hk. subst c k.
  set (s1 := s <| y_ticks ::= S |>). assert (Hl1 : lsts s1 !! l = Some x) by apply H.
  assert (Ecl1 : limiter (sm_view (sm s1)) = Some cl) by done. clearbody s1. do 2 wp_step.
  pose proof (CheckAndRecordConnection_spec (clock (y_ticks s)) dest cl) as Hs.
  eapply wp_limiter_exact; [exact Ecl1|apply CheckAndRecord_safe|..].
  - intros [] cl' Er. rewrite Er in Hs. destruct Hs as (Hi & Hc & Ha & _). wp_step.
    match goal with |- limit_state ?s' = _ ∧ _ =>
      change (limit_state s') with (Some (Limits.config cl', activeStreams cl')) end.
    rewrite Hc, Ha. split; [done|]. destruct (proj1 Hi eq_refl) as (Hm & _). lia.
  - intros e cl' Er. rewrite Er in Hs. destruct Hs as (Hi & Hc & Hsame). set (s2 := s1 <| sm ::= _ |>).
    assert (Hl2 : lsts s2 !! l = Some x) by done. assert (Ecl2 : limiter (sm_view (sm s2)) = Some cl') by done.
    clearbody s2. wp_step. apply wp_getm. rewrite Ecl2. wp_step.
    eapply handleLimitExceeded_core; [exact Hl2|]. intros s3 H3. wp_step. rewrite (core_limit _ _ H3).
    assert (limit_state s2 = Some (Limits.config cl', activeStreams cl')) as -> by (unfold limit_state; by rewrite Ecl2).
    rewrite Hc. destruct Hsame as (_ & Ha & _). rewrite Ha. split; [done|].
    exists e. split; [done|]. intros Hm.
    unfold CheckAndRecordConnection, checkConcurrentLimitLocked in Er. unfold mbind, ste_bind, egets in Er. cbn in Er.
    destruct (Z.ltb_spec 0 (MaxConcurrentStreams (Limits.config cl))); [|lia].
    destruct (Z.leb_spec (MaxConcurrentStreams (Limits.config cl)) (activeStreams cl)); [|lia].
    cbn in Er. by injection Er as <- _.
Qed.

(** What a refused SYN has spent. *)
Definition spent (e : SysError) : Z := match e with SAccess _ | SLimit _ => 0 | _ => 1 end.

Lemma forged_step l x (pkt : Packet) rp dest c k s :
  listening l x s → l_limiter x = true → limit_state s = Some (c, k) → ¬ authentic pkt →
  wp (handleIncomingSYN l pkt rp dest) (λ _ _, False)
    (λ e s', objects s' = objects s ∧ limit_state s' = Some (c, k + spent e)) s.
Proof.
  intros H Hl Hk Hau. unfold handleIncomingSYN. wp_step.
  eapply wp_mono; [by apply (checkAccessFilter_limit l x)|cbn beta|cbn beta].
  2: { intros e s1 ((a & ->) & H1 & H2). split; [done|]. cbn. by rewrite H1, Hk, Z.add_0_r. }
  intros [] s1 ->. wp_step.
  eapply wp_mono; [apply wp_both; [by apply (checkLimits_wp l x)|by apply (checkLimits_limit l x dest pkt c k)]|cbn beta|cbn beta].
  2: { intros e s1 [(H1 & _) (H2 & e' & -> & _)]. split; [done|]. cbn. by rewrite H2, Z.add_0_r. }
  intros [] s1 [(H1 & Hq & _) (H2 & _)]. apply quiet_objects in Hq. wp_step.
  eapply wp_mono; [by apply validateSYN_wp|cbn beta|cbn beta].
  - by intros [] s2 (_ & _ & ? & _).
  - intros e s2 (-> & He). split; [done|]. rewrite H2.
    by destruct He as [[-> _]|[[[? ->] _]|[-> _]]].
Qed.

(** SYNs offered one after the other: their errors, and the state they leave. *)
Fixpoint offer (l : positive) (syns : list (Packet * Z * option Destination)) s : list SysError * Sys :=
  match syns with
  | [] => ([], s)
  | (pkt, rp, dest) :: syns =>
      let '(r, s) := handleIncomingSYN l pkt rp dest s in
      let '(es, s) := offer l syns s in
      (match r with Err e => e :: es | _ => es end, s)
  end.

Lemma offer_spends l x c syns : l_limiter x = true → ∀ k s,
  listening l x s → limit_state s = Some (c, k) → Forall (λ f, ¬ authentic (f.1.1)) syns →
  let '(es, s') := offer l syns s in
  length es = length syns ∧ listening l x s' ∧ objects s' = objects s ∧
  limit_state s' = Some (c, k + foldr Z.add 0 (spent <$> es)).
Proof.
  intros Hl. induction syns as [|[[pkt rp] dest] syns IH]; intros k s H Hk Hf; cbn [offer].
  { split_and!; [done|done|done|]. cbn. by rewrite Z.add_0_r. }
  inversion Hf as [|?? H1 H2]; subst. cbn in H1.
  pose proof (forged_step l x pkt rp dest c k s H Hl Hk H1) as Hw. unfold wp in Hw.
  pose proof (handleIncomingSYN_inv l x pkt rp dest s H) as Hi. unfold wp in Hi.
  destruct (handleIncomingSYN l pkt rp dest s) as [[|e|] s1]; [done| |done]. destruct Hw as [Ho Hk1].
  assert (Hl1 : listening l x s1).
  { destruct H as (_ & ? & ?). split; [done|]. split; [|done]. unfold objects in Ho. injection Ho as _ -> _ _. done. }
  specialize (IH _ s1 Hl1 Hk1 H2). destruct (offer l syns s1) as [es s2]. destruct IH as (G1 & G2 & G3 & G4).
  split_and!; [cbn; by rewrite G1|done|congruence|]. rewrite G4. cbn. by rewrite Z.add_assoc.
Qed.

(** Refused by the access list, or for the number of streams. *)
Definition crowded_out c (e : SysError) : Prop :=
  (∃ a, e = SAccess a) ∨ e = SLimit (EConcurrent (MaxConcurrentStreams c)).

(** At the maximum a SYN changes nothing. *)
Lemma saturated_step l x (pkt : Packet) rp dest c k s :
  listening l x s → l_limiter x = true → limit_state s = Some (c, k) → 0 < MaxConcurrentStreams c <= k →
  wp (handleIncomingSYN l pkt rp dest) (λ _ _, False)
    (λ e s', crowded_out c e ∧ objects s' = objects s ∧ limit_state s' = Some (c, k)) s.
Proof.
  intros H Hl Hk Hm. unfold handleIncomingSYN. wp_step.
  eapply wp_mono; [by apply (checkAccessFilter_limit l x)|cbn beta|cbn beta].
  2: { intros e s1 (? & H1 & H2). split; [by left|]. by rewrite H1. }
  intros [] s1 ->. wp_step.
  eapply wp_mono; [apply wp_both; [by apply (checkLimits_wp l x)|by apply (checkLimits_limit l x dest pkt c k)]|cbn beta|cbn beta].
  - by intros [] s1 [_ [_ ?]].
  - intros e s1 [(H1 & _) (H2 & e' & -> & He)]. split; [|done]. right. by rewrite He.
Qed.

Lemma saturated_offer l x c k syns : l_limiter x = true → 0 < MaxConcurrentStreams c <= k → ∀ s,
  listening l x s → limit_state s = Some (c, k) →
  let '(es, s') := offer l syns s in
  length es = length syns ∧ Forall (crowded_out c) es ∧ objects s' = objects s ∧ limit_state s' = Some (c, k).
Proof.
  intros Hl Hm. induction syns as [|[[pkt rp] dest] syns IH]; intros s H Hk; cbn [offer]; [done|].
  pose proof (saturated_step l x pkt rp dest c k s H Hl Hk Hm) as Hw. unfold wp in Hw.
  pose proof (handleIncomingSYN_inv l x pkt rp dest s H) as Hi. unfold wp in Hi.
  destruct (handleIncomingSYN l pkt rp dest s) as [[|e|] s1]; [done| |done]. destruct Hw as (He & Ho & Hk1).
  assert (Hl1 : listening l x s1).
  { destruct H as (_ & ? & ?). split; [done|]. split; [|done]. unfold objects in Ho. injection Ho as _ -> _ _. done. }
  specialize (IH s1 Hl1 Hk1). destruct (offer l syns s1) as [es s2]. destruct IH as (G1 & G2 & G3 & G4).
  split_and!; [cbn; by rewrite G1|by constructor|congruence|done].
Qed.

(** C33.  Forged SYNs spend the limit.  The limiter counts a SYN before its
    signature is checked, and the refusal does not take the count back: after
    any number of SYNs with bad signatures each of them was refused, no object
    and no table has changed, and the number of active streams has grown by
    the number of those that passed the access list and the limits.  Once it
    has reached the maximum, however many SYNs follow, genuine or not, every
    one of them is refused, the count staying where it is, though no
    connection was made. *)
Theorem forged_syns_spend_limit l x c k (syns : list (Packet * Z * option Destination)) s :
  listening l x s → l_limiter x = true → limit_state s = Some (c, k) → Forall (λ f, ¬ authentic (f.1.1)) syns →
  let '(es, s') := offer l syns s in
  let k' := k + foldr Z.add 0 (spent <$> es) in
  length es = length syns ∧ objects s' = objects s ∧ limit_state s' = Some (c, k') ∧
  (0 < MaxConcurrentStreams c <= k' → ∀ more,
    let '(es', s'') := offer l more s' in
    length es' = length more ∧ Forall (crowded_out c) es' ∧ objects s'' = objects s ∧
    limit_state s'' = Some (c, k')).
Proof.
  intros H Hl Hk Hf. pose proof (offer_spends l x c syns Hl k s H Hk Hf) as Ho.
  destruct (offer l syns s) as [es s']. destruct Ho as (H1 & H2 & H3 & H4). split_and!; [done..|].
  intros Hm more. pose proof (saturated_offer l x c _ more Hl Hm s' H2 H4) as Hs.
  destruct (offer l more s') as [es' s'']. destruct Hs as (G1 & G2 & G3 & G4). split_and!; [done|done|congruence|done].
Qed.
End Forged.

(** ** Closing the manager *)

Section CloseAll.
Context {I : I2CP} {B : CircBuf} {RT : GoRuntime} {C : MessageStatusCodes} {SS : SessionStatusCodes}.
Context `{!GoRuntimeLaws RT}.
Implicit Types s : Sys.
#[local] Abbreviation Y := (STE Sys SysError).

(** An invariant over the keys visited so far. *)
Lemma wp_each {A} (f : A → Y ()) (inv : list A → Sys → Prop) (F : SysError → Sys → Prop) keys s :
  (∀ seen k s, inv seen s → wp (f k) (λ _ s', inv (seen ++ [k]) s') F s) → inv [] s →
  wp (each f keys) (λ _ s', inv keys s') F s.
Proof.
  intros Hf. enough (H : ∀ seen s, inv seen s → wp (each f keys) (λ _ s', inv (seen ++ keys) s') F s) by apply (H []).
  induction keys as [|k keys IH]; intros seen s' Hs; cbn [each]; wp_step; [by rewrite app_nil_r|].
  eapply wp_mono; [by apply Hf|cbn beta|done]. intros [] s2 H2.
  eapply wp_mono; [by apply IH|cbn beta|done]. intros [] s3 H3. by rewrite <-app_assoc in H3.
Qed.

Lemma omap_lookup_seq {A} (keys : list A) : omap (λ i, keys !! i) (seq 0 (length keys)) = keys.
Proof.
  induction keys as [|k keys IH] using rev_ind; [done|].
  rewrite length_app, Nat.add_1_r, seq_S, omap_app. cbn [omap list_omap]. rewrite Nat.add_0_l.
  rewrite lookup_app_r, Nat.sub_diag by lia. cbn. f_equal. rewrite <-IH at 2. apply omap_ext_elem.
  intros i Hi%elem_of_seq. apply lookup_app_l. lia.
Qed.

Lemma omap_over_fmap {A A' A''} (f : A' → option A'') (g : A → A') (l : list A) :
  omap f (g <$> l) = omap (λ a, f (g a)) l.
Proof. induction l as [|a l IH]; [done|]. cbn. by rewrite IH. Qed.

(** A range visits every key once. *)
Lemma wp_sys_range {A} (keys : list A) (Q : list A → Sys → Prop) (F : SysError → Sys → Prop) s :
  (∀ keys', keys' ≡ₚ keys → Q keys' (s <| y_ranges ::= S |>)) → wp (sys_range keys) Q F s.
Proof.
  intros HQ. unfold sys_range. do 4 wp_step. wp_step. apply HQ.
  rewrite (range_order_perm (y_ranges s) (seqZ 0 (Z.of_nat (length keys)))).
  unfold seqZ. rewrite Nat2Z.id, omap_over_fmap. erewrite omap_ext_elem; [by rewrite omap_lookup_seq|].
  intros i _. cbn. by rewrite Z.add_0_r, Nat2Z.id.
Qed.

(** The listeners, one after the other. *)
Record closing_listeners s0 (seen : list Z) s : Prop := {
  kl_inv : SysInv s;
  kl_rest : (conns s, connections (sm_view (sm s)), sm_closed (sm s), processor_done (sm s)) =
    (conns s0, connections (sm_view (sm s0)), sm_closed (sm s0), processor_done (sm s0));
  kl_unseen : ∀ port, port ∉ seen → listeners (sm s) !! port = listeners (sm s0) !! port;
  kl_seen : ∀ port, port ∈ seen → listeners (sm s) !! port = None;
  kl_closed : ∀ port l, port ∈ seen → listeners (sm s0) !! port = Some l →
    ∃ x, lsts s !! l = Some x ∧ l_closed x = true ∧ acceptClosed x = true;
}.

Lemma closeListener_run l x s :
  lsts s !! l = Some x → l_closed x = false → l_manager x = true →
  ∃ s', Listener.Close l s = (Ok (), s') ∧
    lsts s' !! l = Some (x <| l_closed := true |> <| acceptClosed := true |>) ∧
    (∀ m, m ≠ l → lsts s' !! m = lsts s !! m) ∧
    sm s' = (sm s) <| listeners ::= delete (l_localPort x) |> ∧ conns s' = conns s.
Proof.
  intros Hl Hc Hm. unfold Listener.Close, on_listener. unfold mbind, ste_bind. rewrite Hl. cbn [id]. rewrite Hc, Hm.
  unfold set_listener, UnregisterListener, setm, emodify, ewhen. eexists. split; [done|]. cbn. split_and!; try done.
  - by rewrite !lookup_alter_eq, Hl.
  - intros m Hne. by rewrite !lookup_alter_ne.
Qed.

Lemma closeListenerAt_wp s0 seen port s : closing_listeners s0 seen s →
  wp (closeListenerAt port) (λ _ s', closing_listeners s0 (seen ++ [port]) s') (λ _ _, False) s.
Proof.
  intros [Hi Hr Hu Hs Hc]. unfold closeListenerAt. wp_step. apply wp_getm.
  assert (Hold : ∀ l, listeners (sm s) !! port = Some l → listeners (sm s0) !! port = Some l).
  { intros l Hl. rewrite <-Hu; [done|]. intros Hin. by rewrite (Hs port Hin) in Hl. }
  destruct (listeners (sm s) !! port) as [l|] eqn:El.
  - destruct (si_listeners s Hi port l El) as (x & Hx & Hport & Hopen & Hman).
    destruct (closeListener_run l x s Hx Hopen Hman) as (s' & Hrun & L1 & L1' & L2 & L3).
    assert (Hi' : SysInv s').
    { pose proof (sys_run_kept [YCloseListener l] s Hi) as H. cbn in H. by rewrite Hrun in H. }
    wp_step. unfold wp, try. rewrite Hrun. rewrite Hport in L2. cbn.
    constructor; [done|by rewrite L3, L2| | |].
    + intros q [Hq Hne]%not_elem_of_app. rewrite L2. cbn. rewrite lookup_delete_ne; [by apply Hu|].
      intros ->. apply Hne. by left.
    + intros q Hq. rewrite L2. cbn. apply elem_of_app in Hq as [Hq|Hq%list_elem_of_singleton].
      * apply lookup_delete_None. right. by apply Hs.
      * subst q. apply lookup_delete_eq.
    + intros q m Hq Hm. apply elem_of_app in Hq as [Hq|Hq%list_elem_of_singleton].
      * destruct (Hc q m Hq Hm) as (y & Hy & H1 & H2). assert (m ≠ l) by congruence.
        exists y. by rewrite L1'.
      * subst q. assert (m = l) as -> by (specialize (Hold l eq_refl); congruence). by eexists.
  - wp_step. constructor; [done|done| | |].
    + intros q [Hq _]%not_elem_of_app. by apply Hu.
    + intros q [Hq|Hq%list_elem_of_singleton]%elem_of_app; [by apply Hs|by subst].
    + intros q m [Hq|Hq%list_elem_of_singleton]%elem_of_app Hm; [by eapply Hc|]. subst q.
      destruct (decide (port ∈ seen)) as [Hin|Hin]; [by eapply Hc|]. rewrite <-(Hu port Hin) in Hm. congruence.
Qed.

(** The connections, one after the other. *)
Definition shut (c : StreamConn) : Prop := closed c = true ∧ ctx_done c = true.

Record closing_conns s0 (seen : list (Z * Z)) s : Prop := {
  kc_inv : SysInv s;
  kc_rest : (lsts s, listeners (sm s), sm_closed (sm s), processor_done (sm s)) =
    (lsts s0, listeners (sm s0), sm_closed (sm s0), processor_done (sm s0));
  kc_table : connections (sm_view (sm s)) ⊆ connections (sm_view (sm s0));
  kc_open : ∀ key p c, connections (sm_view (sm s0)) !! key = Some p → conns s0 !! p = Some c →
    key ∈ seen → closed c = false →
    (∃ c', conns s !! p = Some c' ∧ shut c') ∧
    (manager c = true → connections (sm_view (sm s)) !! key = None);
  kc_still : ∀ key p c, connections (sm_view (sm s0)) !! key = Some p → conns s0 !! p = Some c →
    key ∉ seen ∨ closed c = true →
    connections (sm_view (sm s)) !! key = Some p ∧ conns s !! p = Some c;
}.

Lemma table_key_inj s key key' p : SysInv s →
  connections (sm_view (sm s)) !! key = Some p → connections (sm_view (sm s)) !! key' = Some p → key' = key.
Proof.
  intros Hi H1 H2. destruct key as [a b], key' as [a' b'].
  destruct (si_table s Hi _ _ _ H1) as (c & Hc & <- & <-). destruct (si_table s Hi _ _ _ H2) as (c' & Hc' & <- & <-).
  congruence.
Qed.

(** Closing the connection [p], registered under [key], for the first time. *)
Lemma closing_conns_step s0 seen key p c w s s' :
  SysInv s0 → closing_conns s0 seen s → SysInv s' → connections (sm_view (sm s)) !! key = Some p →
  conns s !! p = Some c → closed c = false → closed_down (world_of c s) w → s' = put_world p w s →
  key = (localPort c, remotePort c) → closing_conns s0 (seen ++ [key]) s'.
Proof.
  intros Hi0 [Hi Hr Ht Ho Hs] Hi' Hk Hc Hopen Hcd -> Hkey.
  assert (Hk0 : connections (sm_view (sm s0)) !! key = Some p) by (by eapply lookup_weaken).
  destruct Hcd as [_ Hcl Hctx _ _ _ Hcn _]. cbn in Hcn. rewrite <-Hkey in Hcn.
  assert (Hlook : ∀ q, q ≠ p → <[p := conn w]> (conns s) !! q = conns s !! q) by (intros; by apply lookup_insert_ne).
  assert (Htab : ∀ k, k ≠ key → connections (mgr w) !! k = connections (sm_view (sm s)) !! k).
  { intros k Hne. rewrite Hcn. destruct (manager c); [by rewrite lookup_delete_ne|done]. }
  assert (Hsub : connections (mgr w) ⊆ connections (sm_view (sm s)))
    by (rewrite Hcn; destruct (manager c); [apply delete_subseteq|done]).
  constructor; [done|done|by etransitivity| |]; cbn -[shut].
  - intros k q d Hq Hd Hin Hdo. destruct (decide (k = key)) as [->|Hne].
    + assert (q = p) as -> by congruence. rewrite lookup_insert_eq.
      split; [by exists (conn w)|]. intros Hm. rewrite Hcn.
      assert (Hnin : key ∉ seen).
      { intros Hin'. destruct (Ho key p d Hk0 Hd Hin' Hdo) as [(c' & Hc' & [Hx _]) _]. congruence. }
      destruct (Hs key p d Hk0 Hd (or_introl Hnin)) as [_ Hcd]. assert (d = c) as -> by congruence.
      rewrite Hm. apply lookup_delete_eq.
    + assert (q ≠ p) by (intros ->; apply Hne; by eapply (table_key_inj s0)).
      rewrite Hlook, Htab by done. apply elem_of_app in Hin as [Hin|Hin%list_elem_of_singleton]; [by apply (Ho k q d)|done].
  - intros k q d Hq Hd Hin. assert (Hne : k ≠ key).
    { intros ->. assert (q = p) as -> by congruence. destruct Hin as [Hin|Hin].
      - apply Hin, elem_of_app. right. by left.
      - destruct (Hs key p d Hk0 Hd (or_intror Hin)) as [_ ?]. congruence. }
    assert (q ≠ p) by (intros ->; apply Hne; by eapply (table_key_inj s0)).
    rewrite Hlook, Htab by done. apply (Hs k q d); [done..|]. destruct Hin as [Hin|Hin]; [left|by right].
    intros Hx. apply Hin, elem_of_app. by left.
Qed.

(** Visiting a connection that is closed already, or none. *)
Lemma closing_conns_skip s0 seen key s s' : closing_conns s0 seen s → SysInv s' →
  (conns s', connections (sm_view (sm s')), lsts s', listeners (sm s'), sm_closed (sm s'), processor_done (sm s')) =
  (conns s, connections (sm_view (sm s)), lsts s, listeners (sm s), sm_closed (sm s), processor_done (sm s)) →
  (∀ p c, connections (sm_view (sm s)) !! key = Some p → conns s !! p = Some c → closed c = true) →
  closing_conns s0 (seen ++ [key]) s'.
Proof.
  intros [Hi Hr Ht Ho Hs] Hi' H Hskip. injection H as H1 H2 H3 H4 H5 H6.
  constructor; [done|by rewrite H3, H4, H5, H6|by rewrite H2|rewrite H1, H2|rewrite H1, H2].
  - intros k q d Hq Hd Hin Hdo. destruct (decide (k ∈ seen)) as [Hks|Hks]; [by apply (Ho k q d)|].
    apply elem_of_app in Hin as [Hin|Hin%list_elem_of_singleton]; [done|subst k].
    destruct (Hs key q d Hq Hd (or_introl Hks)) as [G1 G2]. specialize (Hskip q d G1 G2). congruence.
  - intros k q d Hq Hd Hin. apply (Hs k q d Hq Hd). destruct Hin as [Hin|Hin]; [left|by right].
    intros Hx. apply Hin, elem_of_app. by left.
Qed.

Lemma closeConnectionAt_wp s0 seen key s : SysInv s0 → closing_conns s0 seen s →
  wp (closeConnectionAt key) (λ _ s', closing_conns s0 (seen ++ [key]) s') (λ _ _, False) s.
Proof.
  intros Hi0 H. pose proof (kc_inv _ _ _ H) as Hi. unfold closeConnectionAt. wp_step. apply wp_getm.
  destruct (connections (sm_view (sm s)) !! key) as [p|] eqn:Ep.
  2: { wp_step. eapply closing_conns_skip; [done|done|done|]. intros p c. congruence. }
  destruct key as [lp rp]. destruct (si_table s Hi lp rp p Ep) as (c & Hc & Hlp & Hrp).
  wp_step. apply wp_try. eapply wp_conn_inv; [done|exact Hc| |apply _].
  destruct (closed c) eqn:Ecl.
  - unfold ConnLife.Close, wp. rewrite getc_step. cbn [id world_of conn]. rewrite Ecl. intros _ Hi'.
    unfold mret, ste_ret. eapply closing_conns_skip; [exact H|exact Hi'| |intros; congruence].
    cbn. by rewrite insert_id.
  - unfold wp. destruct (Close_run (world_of c s) Ecl) as (w & -> & Hcd). intros _ Hi'.
    eapply closing_conns_step; [done|exact H|exact Hi'|exact Ep|exact Hc|done|exact Hcd|done|congruence].
Qed.

(** What closing every listener and connection registered in [s0] leaves. *)
Record all_closed s0 s' : Prop := {
  al_listeners : listeners (sm s') = ∅;
  al_accept : ∀ port l, listeners (sm s0) !! port = Some l →
    ∃ x, lsts s' !! l = Some x ∧ l_closed x = true ∧ acceptClosed x = true;
  al_open : ∀ key p c, connections (sm_view (sm s0)) !! key = Some p → conns s0 !! p = Some c → closed c = false →
    (∃ c', conns s' !! p = Some c' ∧ shut c') ∧ (manager c = true → connections (sm_view (sm s')) !! key = None);
  al_still : ∀ key p c, connections (sm_view (sm s0)) !! key = Some p → conns s0 !! p = Some c → closed c = true →
    connections (sm_view (sm s')) !! key = Some p ∧ conns s' !! p = Some c;
}.

Lemma Inv_ranges s : SysInv s → SysInv (s <| y_ranges ::= S |>).
Proof. by apply Inv_core. Qed.

Lemma closeAll_wp s0 : SysInv s0 →
  wp closeAllConnections (λ _ s', all_closed s0 s' ∧ processor_done (sm s') = processor_done (sm s0)) (λ _ _, False) s0.
Proof.
  intros Hi. unfold closeAllConnections. wp_step. apply wp_getm. wp_step. apply wp_sys_range. intros ports Hports.
  wp_step. eapply wp_mono; [apply (wp_each closeListenerAt (closing_listeners s0)) with (F := λ _ _, False)|cbn beta|done].
  { intros seen port s. apply closeListenerAt_wp. }
  { constructor; [by apply Inv_ranges|done|done|..]; [by intros ? ?%elem_of_nil|by intros ?? ?%elem_of_nil]. }
  intros [] s1 [Hi1 Hr1 Hu1 Hs1 Hc1].
  assert (Hall : ∀ port, is_Some (listeners (sm s0) !! port) → port ∈ ports)
    by (intros port Hp; by rewrite Hports, elem_of_elements, elem_of_dom).
  injection Hr1 as R1 R2 _ R4.
  wp_step. apply wp_getm. wp_step. apply wp_sys_range. intros keys Hkeys.
  eapply wp_mono; [apply (wp_each closeConnectionAt (closing_conns s1)) with (F := λ _ _, False)|cbn beta|done].
  { intros seen key s. by apply closeConnectionAt_wp. }
  { constructor; [by apply Inv_ranges|done|done|by intros ??? _ _ ?%elem_of_nil|done]. }
  intros [] s2 [_ Hr2 _ Ho2 Hk2]. injection Hr2 as T1 T2 _ T4. rewrite R1, R2 in Ho2, Hk2.
  assert (Hkall : ∀ key p, connections (sm_view (sm s0)) !! key = Some p → key ∈ keys)
    by (intros key p Hp; rewrite Hkeys, R2, elem_of_elements, elem_of_dom; by eexists).
  split; [constructor|congruence].
  - rewrite T2. apply map_eq. intros port. rewrite lookup_empty.
    destruct (decide (port ∈ ports)) as [Hin|Hin]; [by apply Hs1|]. rewrite (Hu1 port Hin).
    apply eq_None_not_Some. intros Hp. by apply Hin, Hall.
  - intros port l Hl. rewrite T1. eapply Hc1; [|exact Hl]. apply Hall. by eexists.
  - intros key p c Hp Hc Hopen. eapply Ho2; [done..| |done]. by eapply Hkall.
  - intros key p c Hp Hc Hcl. apply Hk2; [done..|by right].
Qed.

Lemma processed_inv last : ∀ s, SysInv s → SysInv (snd (each processPackets last s)).
Proof.
  induction last as [|pick last IH]; intros s Hi; cbn [each]; [done|].
  pose proof (sys_run_kept [YProcess pick] s Hi) as H. cbn in H.
  unfold mbind, ste_bind. destruct (processPackets pick s) as [[[]|e|] s1]; [by apply IH|done..].
Qed.

(** C25.  Closing the manager.  Unless one of the packets the processor still
    takes ends the program, [Close] succeeds: afterwards the processor has
    stopped, no listener is registered, every listener that was is closed and
    its accept queue too, and every registered connection that was open is
    marked closed, has its goroutines told to stop and has left the table.  A
    registered connection that its peer had already closed is passed over: it
    keeps its entry and everything else. *)
Theorem manager_close_exact (last : list bool) s :
  SysInv s → sm_closed (sm s) = false →
  let closing := s <| sm ::= λ m, m <| sm_closed := true |> |> in
  fst (each processPackets last closing) = Ok () →
  let s0 := snd (each processPackets last closing) in
  ∃ s', Manager.Close last s = (Ok (), s') ∧ processor_done (sm s') = true ∧ all_closed s0 s'.
Proof.
  intros Hi Hc closing Hr s0.
  assert (Hi1 : SysInv closing) by (apply Inv_sm; [done|apply (si_queue s Hi)|done]).
  assert (Hi0 : SysInv s0) by (by apply processed_inv).
  unfold Manager.Close, getm. unfold mbind at 1, ste_bind at 1, egets. cbn [id]. rewrite Hc.
  rewrite (ste_step _ _ s () closing) by done.
  assert (Hrun : each processPackets last closing = (Ok (), s0)).
  { unfold s0. by destruct (each processPackets last closing) as [[[]|e|] ?]. }
  rewrite (ste_step _ _ _ _ _ Hrun). clearbody s0.
  set (s1 := s0 <| sm ::= λ m, m <| processor_done := true |> |>). rewrite (ste_step _ _ s0 () s1) by done.
  assert (Hi2 : SysInv s1) by (apply Inv_sm; [done|apply (si_queue s0 Hi0)|done]).
  pose proof (closeAll_wp s1 Hi2) as Hw. unfold wp in Hw.
  destruct (closeAllConnections s1) as [[[]|e|] s']; [|done..]. destruct Hw as [[] Hd].
  exists s'. split_and!; [done|done|by constructor].
Qed.
End CloseAll.

(** ** Instances *)

Section Examples.

(** Two managers without connections; a RESET from the first to the second. *)
Definition reset_ex : @Packet ConcreteI2CP := base_Packet 0 7 0 0 FlagRESET.
Lemma reads_reset_ex : reads_reset (wire reset_ex).
Proof. exists reset_ex. split_and!; try vmeq; cbn; lia. Qed.

Lemma reset_volley_witness :
  ∃ m', volley 5 dest_A dest_B (started session_A []) (started session_B []) (MkMessage (Some dest_B) 10 443 (wire reset_ex) 0)
    = Some m' ∧ reads_reset (m_data m').
Proof.
  apply (reset_volley (RT:=ConcreteRuntime) (λ _, eq_refl) session_A session_B dest_A dest_B _ _ 10 443);
    [done|apply session_A_ok|done|apply session_B_ok|vmeq|vmeq|done|done|apply reads_reset_ex].
Defined.

(** [dest_A] has connected from port 10; [dest_B] does the same. *)
Definition rands_four : list (option bytes) :=
  [Some [x00; x00; x03; x07]; Some [x00; x00; x00; x09]; Some [x00; x00; x03; x08]; Some [x00; x00; x00; x0a]].
Definition taken_ex : Sys :=
  sys_run [YListen 443 1730; YMessage (Some dest_A) 6 10 443 (wire bare_syn); YProcess true] (started session_B rands_four).
Definition taken_listener : StreamListener :=
  MkListener true (Some session_B) 443 [1%positive] false 1730 true (Some 1%positive) false.
Definition over_ex : Sys := snd (handleIncomingSYN 1 bare_syn 10 (Some dest_B) taken_ex).

Lemma taken_listening : listening 1 taken_listener taken_ex.
Proof.
  split; [|split; vmeq]. apply reachable_inv. repeat constructor; by intros ? [= <-].
Qed.

Lemma over_run : handleIncomingSYN 1 bare_syn 10 (Some dest_B) taken_ex = (Ok (), over_ex).
Proof.
  assert (H : fst (handleIncomingSYN 1 bare_syn 10 (Some dest_B) taken_ex) = Ok ()) by vmeq.
  unfold over_ex. by destruct (handleIncomingSYN 1 bare_syn 10 (Some dest_B) taken_ex) as [[[]|e|] s'].
Qed.

Lemma second_peer_takes_over_witness :
  ∃ p c, p ≠ 1%positive ∧ conns over_ex !! p = Some c ∧ Conn.dest c = Some dest_B ∧
    conns over_ex !! 1%positive = conns taken_ex !! 1%positive.
Proof.
  destruct (second_peer_takes_over 1 taken_listener bare_syn 10 (Some dest_B) taken_ex over_ex 1 taken_listening eq_refl
    ltac:(vmeq) over_run) as (p & c & d & H1 & H2 & H3 & H4 & H5 & _).
  exists p, c. split; [exact H1|]. split; [exact H2|]. split; [|exact H5]. rewrite H4. rewrite <-H3. vmeq.
Defined.

(** A SYN whose signature is all zeros, twice. *)
Definition forged_syn : @Packet ConcreteI2CP :=
  (base_Packet 0 7 500 0 (Z.lor (Z.lor FlagSYN FlagSignatureIncluded) FlagFromIncluded))
    <| FromDestination := Some dest_A |> <| Signature := replicate 64 x00 |>.
Lemma forged_syn_ex : ¬ authentic forged_syn.
Proof. intros H. specialize (H eq_refl). by vm_compute in H. Qed.

(** A manager that allows two streams. *)
Definition two_streams : ConnectionLimitsConfig := MkLimitsConfig 2 0 0 0 0 0 0 LimitActionReset false.
Definition limited_ex : Sys :=
  sys_run [YConfig (CfgLimits (Some two_streams)); YListen 443 1730] (started session_B rands_four).
Definition forged_two : list (@Packet ConcreteI2CP * Z * option (@Destination ConcreteI2CP)) :=
  [(forged_syn, 10, Some dest_A); (forged_syn, 11, Some dest_B)].

Lemma limited_listening : listening 1 listener_ex limited_ex.
Proof.
  split; [|split; vmeq]. apply reachable_inv. repeat constructor; by intros ? [= <-].
Qed.

(** A SYN that would be accepted is refused after two forged ones. *)
Lemma forged_syns_spend_limit_witness :
  (fst (handleIncomingSYN 1 bare_syn 12 (Some dest_A) limited_ex) = Ok ()) ∧
  let s' := (offer 1 forged_two limited_ex).2 in
  let '(es', s'') := offer 1 [(bare_syn, 12, Some dest_A); (bare_syn, 13, Some dest_B)] s' in
  length es' = 2%nat ∧ Forall (crowded_out two_streams) es' ∧ objects s'' = objects limited_ex ∧
  limit_state s'' = Some (two_streams, 2).
Proof.
  split; [vmeq|]. pose proof (forged_syns_spend_limit 1 listener_ex two_streams 0 forged_two limited_ex
    limited_listening eq_refl ltac:(vmeq) ltac:(repeat constructor; apply forged_syn_ex)) as H.
  assert (E : 0 + foldr Z.add 0 (spent <$> (offer 1 forged_two limited_ex).1) = 2) by vmeq.
  cbv zeta. destruct (offer 1 forged_two limited_ex) as [es s']. cbn [fst snd] in *. cbv zeta in H. rewrite E in H.
  destruct H as (_ & _ & _ & H). apply (H ltac:(cbn; lia) [(bare_syn, 12, Some dest_A); (bare_syn, 13, Some dest_B)]).
Defined.

Lemma manager_close_exact_witness :
  ∃ s', Manager.Close [] taken_ex = (Ok (), s') ∧ processor_done (sm s') = true ∧
    all_closed (taken_ex <| sm ::= λ m, m <| sm_closed := true |> |>) s'.
Proof. apply (manager_close_exact [] taken_ex); [apply taken_listening|vmeq|done]. Defined.
End Examples.
