(* ===== verification/Locks.v ===== *)
(** * Goroutines and locks

    The locking of a method is a little program of lock sections and waits on
    condition variables; a goroutine runs one of its traces, interleaved with
    those of the others.  Here are the programs, the interleavings, and that
    goroutines which take their locks in the order of a rank never block each
    other for ever. *)

From S2P Require Import Prelude.
From stdpp Require Import relations.

(** The locks of the library: [sync.Mutex] and [sync.RWMutex] fields, by the
    object they are in. *)
Inductive lock :=
| Lconn (s : positive)
| Ltracker
| Ltcb
| Llimiter
| Lhistory (k : positive)
| Llistener (l : positive)
| Lmanager
| Lping
| Lfilter (f : positive).
#[export] Instance lock_eq_dec : EqDecision lock.
Proof. solve_decision. Defined.

(** [RLock] and [Lock]. *)
Inductive mode := Rd | Wr.
#[export] Instance mode_eq_dec : EqDecision mode.
Proof. solve_decision. Defined.

(** ** Programs and their traces *)

(** [PWith m l p] is [l.Lock(); p; l.Unlock()], deferred or not; [PWait l]
    gives up [l] while the goroutine sleeps, on a condition variable or not. *)
Inductive prog :=
| PSkip
| PSeq (p q : prog)
| PAlt (p q : prog)
| PLoop (p : prog)
| PWith (m : mode) (l : lock) (p : prog)
| PWait (l : lock).

Definition PMany (ps : list prog) : prog := foldr PSeq PSkip ps.
(** A conditional without an else. *)
Definition PMay (p : prog) : prog := PAlt p PSkip.

Inductive action := Acq (m : mode) (l : lock) | Rel (m : mode) (l : lock) | CondWait (l : lock).

Inductive runs : prog → list action → Prop :=
| runs_skip : runs PSkip []
| runs_seq p q a b : runs p a → runs q b → runs (PSeq p q) (a ++ b)
| runs_left p q a : runs p a → runs (PAlt p q) a
| runs_right p q a : runs q a → runs (PAlt p q) a
| runs_done p : runs (PLoop p) []
| runs_again p a b : runs p a → runs (PLoop p) b → runs (PLoop p) (a ++ b)
| runs_with m l p a : runs p a → runs (PWith m l p) (Acq m l :: a ++ [Rel m l])
| runs_wait l : runs (PWait l) [CondWait l].

(** ** Interleavings *)

Record thread := MkThread {
  held : list (mode * lock);
  todo : list action;
  asleep : option lock;
}.

Definition config : Type := list thread.
Definition start (tr : list action) : thread := MkThread [] tr None.

Definition holds (t : thread) (x : mode * lock) : bool := bool_decide (x ∈ held t).
Definition wants_write (t : thread) (l : lock) : bool :=
  bool_decide (asleep t = None) &&
  match todo t with Acq Wr l' :: _ => bool_decide (l' = l) | _ => false end.

(** Nobody holds the lock in a way that excludes the request. *)
Definition free (c : config) (m : mode) (l : lock) : bool :=
  match m with
  | Wr => forallb (λ t, negb (holds t (Rd, l)) && negb (holds t (Wr, l))) c
  | Rd => forallb (λ t, negb (holds t (Wr, l))) c
  end.

(** Go may also keep readers waiting while somebody waits to write. *)
Definition surely_free (c : config) (m : mode) (l : lock) : bool :=
  free c m l && match m with Wr => true | Rd => forallb (λ t, negb (wants_write t l)) c end.

Fixpoint drop_lock (x : mode * lock) (h : list (mode * lock)) : list (mode * lock) :=
  match h with
  | [] => []
  | y :: h => if decide (x = y) then h else y :: drop_lock x h
  end.

(** One step of a thread that is awake, when [grant] says which requests are
    granted; [None] when it has to wait, or has nothing to do, or gives back
    what it does not hold. *)
Definition advance (grant : mode → lock → bool) (t : thread) : option thread :=
  match asleep t, todo t with
  | None, Acq m l :: r => if grant m l then Some (MkThread ((m, l) :: held t) r None) else None
  | None, Rel m l :: r => if holds t (m, l) then Some (MkThread (drop_lock (m, l) (held t)) r None) else None
  | None, CondWait l :: r =>
      if holds t (Wr, l) then Some (MkThread (drop_lock (Wr, l) (held t)) r (Some l)) else None
  | _, _ => None
  end.

(** A thread advances; or somebody wakes a sleeping one, which then asks for
    its lock again. *)
Inductive step : config → config → Prop :=
| step_advance c i t t' :
    c !! i = Some t → advance (free c) t = Some t' → step c (<[i := t']> c)
| step_wake c i t l :
    c !! i = Some t → asleep t = Some l →
    step c (<[i := MkThread (held t) (Acq Wr l :: todo t) None]> c).

(** Awake and not finished. *)
Definition busy (t : thread) : Prop := asleep t = None ∧ todo t ≠ [].

(** Some busy thread can go on, also if writers keep readers waiting. *)
Definition can_go_on (c : config) : Prop :=
  ∃ i t, c !! i = Some t ∧ busy t ∧ is_Some (advance (surely_free c) t).

(** Nothing is unlocked, or given up for a sleep, that is not held; a goroutine
    that sleeps or has finished holds nothing. *)
Definition tidy (t : thread) : Prop :=
  match asleep t, todo t with
  | Some _, _ | None, [] => held t = []
  | None, Rel m l :: _ => (m, l) ∈ held t
  | None, CondWait l :: _ => (Wr, l) ∈ held t
  | None, Acq _ _ :: _ => True
  end.

(** ** The order of locks *)

Section Order.
Context (rank : lock → nat) (top : nat) (Htop : ∀ l, (rank l < top)%nat).

Definition above (h : list (mode * lock)) (l : lock) : Prop := Forall (λ x, (rank x.2 < rank l)%nat) h.

(** A program that holds [h] takes only locks above those it holds, and sleeps
    with nothing but the lock it gives up. *)
Fixpoint ordered (h : list (mode * lock)) (p : prog) : Prop :=
  match p with
  | PSkip => True
  | PSeq p q | PAlt p q => ordered h p ∧ ordered h q
  | PLoop p => ordered h p
  | PWith m l p => above h l ∧ ordered ((m, l) :: h) p
  | PWait l => h = [(Wr, l)]
  end.

Lemma ordered_many h ps : Forall (ordered h) ps → ordered h (PMany ps).
Proof. by induction 1. Qed.

(** The same of a trace, which gives everything back. *)
Fixpoint fits (h : list (mode * lock)) (tr : list action) : Prop :=
  match tr with
  | [] => h = []
  | Acq m l :: tr => above h l ∧ fits ((m, l) :: h) tr
  | Rel m l :: tr => ∃ h', h = (m, l) :: h' ∧ fits h' tr
  | CondWait l :: tr => h = [(Wr, l)] ∧ fits h tr
  end.

Lemma runs_fits p a h r : runs p a → ordered h p → fits h r → fits h (a ++ r).
Proof.
  intros H. revert h r. induction H as [|p q a b _ IHa _ IHb|p q a _ IH|p q a _ IH|p|p a b _ IHa _ IHb|m l p a _ IH|l];
    intros h r; cbn [ordered]; cbn [app]; rewrite <-?app_assoc.
  - done.
  - intros [Hp Hq] Hr. by apply IHa, IHb.
  - intros [Hp _] Hr. by apply IH.
  - intros [_ Hq] Hr. by apply IH.
  - done.
  - intros Hp Hr. by apply IHa, IHb.
  - intros [Ha Hp] Hr. split; [done|]. rewrite <-?app_assoc. apply IH; [done|]. by exists h.
  - by intros -> Hr.
Qed.

Definition orderly (t : thread) : Prop :=
  match asleep t with
  | None => fits (held t) (todo t)
  | Some l => held t = [] ∧ fits [(Wr, l)] (todo t)
  end.

Lemma start_orderly p tr : runs p tr → ordered [] p → orderly (start tr).
Proof.
  intros H Ho. unfold orderly, start. cbn. rewrite <-(app_nil_r tr). by apply (runs_fits p).
Qed.

Lemma advance_orderly grant t t' : orderly t → advance grant t = Some t' → orderly t'.
Proof.
  unfold orderly, advance. destruct t as [h [|[m l|m l|l] r] [s|]]; cbn; try done.
  - intros [_ Hf]. case_match; [|done]. by intros [= <-].
  - intros (h' & -> & Hf). case_match; [|done]. intros [= <-]. cbn. by rewrite decide_True.
  - intros [-> Hf]. case_match; [|done]. intros [= <-]. cbn. by rewrite decide_True.
Qed.

Lemma step_orderly c c' : step c c' → Forall orderly c → Forall orderly c'.
Proof.
  intros Hs Hc. destruct Hs as [c i t t' Hi Ha|c i t l Hi Ha]; apply Forall_insert; try done;
    apply (Forall_lookup_1 _ _ _ _ Hc) in Hi.
  - by eapply advance_orderly.
  - unfold orderly in *. rewrite Ha in Hi. cbn. destruct Hi as [-> Hf]. by split; [constructor|].
Qed.

(** What keeps a busy thread from going on is another one, which asks for a
    lock higher up. *)
Lemma holder_blocked c j u m l : Forall orderly c → ¬ can_go_on c → c !! j = Some u → (m, l) ∈ held u →
  ∃ k v r m' l', c !! k = Some v ∧ asleep v = None ∧ todo v = Acq m' l' :: r ∧ (rank l < rank l')%nat.
Proof.
  intros Hc Hn Hj Hm. pose proof (Forall_lookup_1 _ _ _ _ Hc Hj) as Hu. unfold orderly in Hu.
  destruct (asleep u) as [s|] eqn:Es; [destruct Hu as [Hu _]; rewrite Hu in Hm; by apply not_elem_of_nil in Hm|].
  destruct (todo u) as [|[m' l'|m' l'|l'] r] eqn:Et; cbn in Hu.
  - rewrite Hu in Hm. by apply not_elem_of_nil in Hm.
  - exists j, u, r, m', l'. split_and!; [done..|]. destruct Hu as [Ha _]. unfold above in Ha.
    rewrite Forall_forall in Ha. by apply (Ha _ Hm).
  - exfalso. apply Hn. destruct Hu as (h' & Hh & _). exists j, u. split_and!; [done|by split; [|rewrite Et]|].
    unfold advance, holds. rewrite Es, Et, Hh, bool_decide_true by constructor. by eexists.
  - exfalso. apply Hn. destruct Hu as (Hh & _). exists j, u. split_and!; [done|by split; [|rewrite Et]|].
    unfold advance, holds. rewrite Es, Et, Hh, bool_decide_true by constructor. by eexists.
Qed.

Lemma not_forallb {A} (f : A → bool) (l : list A) : forallb f l = false → ∃ i x, l !! i = Some x ∧ f x = false.
Proof.
  induction l as [|a l IH]; cbn; [done|]. destruct (f a) eqn:E; cbn.
  - intros H. destruct (IH H) as (i & x & Hi & Hx). by exists (S i), x.
  - intros _. by exists 0%nat, a.
Qed.

Lemma not_free c m l : free c m l = false → ∃ j u m', c !! j = Some u ∧ (m', l) ∈ held u.
Proof.
  destruct m; cbn; intros H; apply not_forallb in H as (j & u & Hj & Hu); exists j, u; unfold holds in Hu.
  - exists Wr. split; [done|]. by destruct (bool_decide_reflect ((Wr, l) ∈ held u)).
  - destruct (bool_decide_reflect ((Rd, l) ∈ held u)); [by exists Rd|].
    exists Wr. split; [done|]. by destruct (bool_decide_reflect ((Wr, l) ∈ held u)).
Qed.

Lemma blocked_chain c i t m l r : Forall orderly c → ¬ can_go_on c →
  c !! i = Some t → asleep t = None → todo t = Acq m l :: r →
  ∃ k v r' m' l', c !! k = Some v ∧ asleep v = None ∧ todo v = Acq m' l' :: r' ∧ (rank l < rank l')%nat.
Proof.
  intros Hc Hn Hi Ha Ht.
  assert (Hno : ∀ k v m' r', c !! k = Some v → asleep v = None → todo v = Acq m' l :: r' → surely_free c m' l = false).
  { intros k v m' r' Hk Hv Hr. destruct (surely_free c m' l) eqn:Es; [|done]. exfalso. apply Hn. exists k, v.
    split_and!; [done|by split; [|rewrite Hr]|]. unfold advance. rewrite Hv, Hr, Es. by eexists. }
  pose proof (Hno i t m r Hi Ha Ht) as Hs. unfold surely_free in Hs.
  destruct (free c m l) eqn:Ef.
  2: { apply not_free in Ef as (j & u & m' & Hj & Hu). by eapply holder_blocked. }
  destruct m; [|done]. apply not_forallb in Hs as (j & u & Hj & Hu). unfold wants_write in Hu.
  destruct (bool_decide_reflect (asleep u = None)) as [Hau|]; [|done].
  destruct (todo u) as [|[[] l'|m' l'|l'] r'] eqn:Et; try done. cbn in Hu.
  destruct (bool_decide_reflect (l' = l)) as [->|]; [|done].
  pose proof (Hno j u Wr r' Hj Hau Et) as Hs. unfold surely_free in Hs. rewrite andb_true_r in Hs.
  apply not_free in Hs as (k & v & m' & Hk & Hv). by eapply holder_blocked.
Qed.

Lemma orderly_progress c i t : Forall orderly c → c !! i = Some t → busy t → ¬ can_go_on c → False.
Proof.
  intros Hc Hi [Ha Ht] Hn.
  assert (Hx : ∃ k v r m l, c !! k = Some v ∧ asleep v = None ∧ todo v = Acq m l :: r).
  { pose proof (Forall_lookup_1 _ _ _ _ Hc Hi) as Ho. unfold orderly in Ho. rewrite Ha in Ho.
    destruct (todo t) as [|[m l|m l|l] r] eqn:Et; [done|by eexists _, _, _, _, _|..]; exfalso; apply Hn;
      exists i, t; (split; [done|]); (split; [by split; [|rewrite Et]|]); unfold advance, holds; rewrite Ha, Et; cbn in Ho.
    - destruct Ho as (h' & -> & _). rewrite bool_decide_true by constructor. by eexists.
    - destruct Ho as (-> & _). rewrite bool_decide_true by constructor. by eexists. }
  destruct Hx as (k & v & r & m & l & Hk & Hv & Hr). clear i t Hi Ha Ht.
  assert (Hind : ∀ n, (top - rank l ≤ n)%nat → False); [|by eapply (Hind (top - rank l)%nat)].
  intros n. revert k v r m l Hk Hv Hr. induction n as [|n IH]; intros k v r m l Hk Hv Hr Hle.
  { pose proof (Htop l). lia. }
  destruct (blocked_chain c k v m l r Hc Hn Hk Hv Hr) as (k' & v' & r' & m' & l' & Hk' & Hv' & Hr' & Hlt).
  apply (IH k' v' r' m' l' Hk' Hv' Hr'). lia.
Qed.

#[local] Instance busy_dec t : Decision (busy t).
Proof. unfold busy. destruct t as [h [|] [|]]; cbn; [right|right|right|left]; naive_solver. Defined.

Lemma can_go_on_dec c : can_go_on c ∨ ¬ can_go_on c.
Proof.
  destruct (decide (Exists (λ t, busy t ∧ is_Some (advance (surely_free c) t)) c)) as [H|H].
  - left. apply Exists_exists in H as (t & Hin & H1 & H2). apply list_elem_of_lookup in Hin as [i Hi]. by exists i, t.
  - right. intros (i & t & Hi & Hb & Ht). apply H, Exists_exists. exists t. split; [|done]. by eapply list_elem_of_lookup_2.
Qed.

(** Threads that take their locks in order never all block. *)
Lemma orderly_goes_on c i t : Forall orderly c → c !! i = Some t → busy t → can_go_on c.
Proof.
  intros Hc Hi Hb. destruct (can_go_on_dec c) as [|Hn]; [done|]. by destruct (orderly_progress c i t Hc Hi Hb).
Qed.

Lemma orderly_tidy t : orderly t → tidy t.
Proof.
  unfold orderly, tidy. destruct (asleep t) as [l|]; [by intros [-> _]|].
  destruct (todo t) as [|[m l|m l|l] r]; cbn; [done|done| |].
  - intros (h' & -> & _). constructor.
  - intros [-> _]. constructor.
Qed.

Lemma reachable_orderly c c' : rtc step c c' → Forall orderly c → Forall orderly c'.
Proof. induction 1 as [|? ? ? Hs _ IH]; [done|]. intros Hc. apply IH. by eapply step_orderly. Qed.
End Order.

(** ** Mutual exclusion *)

(** A lock held for writing is held by nobody else, and once. *)
Definition exclusive (c : config) : Prop :=
  ∀ i j t u m l, c !! i = Some t → c !! j = Some u → i ≠ j → (Wr, l) ∈ held t → (m, l) ∉ held u.

Lemma drop_lock_subset x h : drop_lock x h ⊆ h.
Proof.
  induction h as [|y h IH]; cbn; [done|]. case_decide; set_solver.
Qed.

Lemma free_excludes c j u m l : free c m l = true → c !! j = Some u →
  ((Wr, l) ∉ held u) ∧ (m = Wr → (Rd, l) ∉ held u).
Proof.
  intros Hf Hj. unfold free, holds in Hf. destruct m; rewrite forallb_forall in Hf;
    specialize (Hf u (proj1 (list_elem_of_In _ _) (list_elem_of_lookup_2 _ _ _ Hj))).
  - split; [|done]. intros H. by rewrite bool_decide_true in Hf.
  - apply andb_true_iff in Hf as [H1 H2]. split; [intros H; by rewrite bool_decide_true in H2|].
    intros _ H. by rewrite bool_decide_true in H1.
Qed.

Lemma step_exclusive c c' : step c c' → exclusive c → exclusive c'.
Proof.
  intros Hs Hc. destruct Hs as [c i t t' Hi Ha|c i t l Hi Ha].
  - assert (Hh : held t' ⊆ held t ∨ ∃ m l, held t' = (m, l) :: held t ∧ free c m l = true).
    { unfold advance in Ha. destruct t as [h [|[m l|m l|l] r] [s|]]; cbn in *; try done;
        case_match eqn:E; try done; injection Ha as <-; cbn; [right; by eexists _, _|left; apply drop_lock_subset..]. }
    pose proof (lookup_lt_Some _ _ _ Hi) as Hlt.
    intros a b ta tb m l Hta Htb Hab Hw Hm.
    apply list_lookup_insert_Some in Hta as [(<- & <- & _)|[Hne Hta]];
      apply list_lookup_insert_Some in Htb as [(<- & <- & _)|[Hne' Htb]]; try done.
    + destruct Hh as [Hh|(m0 & l0 & Hh & Hf)].
      * by apply (Hc i b t tb m l Hi Htb Hab (Hh _ Hw)).
      * rewrite Hh in Hw. apply elem_of_cons in Hw as [[= <- <-]|Hw]; [|by apply (Hc i b t tb m l Hi Htb Hab Hw)].
        destruct (free_excludes c b tb Wr l Hf Htb) as [H1 H2]. destruct m; [by apply (H2 eq_refl)|done].
    + destruct Hh as [Hh|(m0 & l0 & Hh & Hf)].
      * by apply (Hc a i ta t m l Hta Hi Hab Hw (Hh _ Hm)).
      * rewrite Hh in Hm. apply elem_of_cons in Hm as [[= <- <-]|Hm]; [|by apply (Hc a i ta t m l Hta Hi Hab Hw Hm)].
        by destruct (free_excludes c a ta m l Hf Hta).
    + by apply (Hc a b ta tb m l Hta Htb Hab Hw).
  - intros a b ta tb m l' Hta Htb Hab Hw Hm.
    assert (Hold : ∀ k u, <[i := MkThread (held t) (Acq Wr l :: todo t) None]> c !! k = Some u →
      ∃ u', c !! k = Some u' ∧ held u' = held u).
    { intros k u Hk. apply list_lookup_insert_Some in Hk as [(<- & <- & _)|[_ Hk]]; [by exists t|by exists u]. }
    destruct (Hold _ _ Hta) as (ta' & H1 & E1), (Hold _ _ Htb) as (tb' & H2 & E2). rewrite <-E1 in Hw. rewrite <-E2 in Hm.
    by apply (Hc a b ta' tb' m l' H1 H2 Hab Hw).
Qed.

Lemma reachable_exclusive c c' : rtc step c c' → exclusive c → exclusive c'.
Proof. induction 1 as [|? ? ? Hs _ IH]; [done|]. intros Hc. apply IH. by eapply step_exclusive. Qed.
