(* ===== verification/LockUse.v ===== *)
(** * How the library locks

    The locking of every method and goroutine of the library that takes a
    lock, method by method: which lock sections it has, what it calls inside
    them, and where it sleeps.  Tests of the state become choices, so a program
    has every trace the method has, and the calls of methods that take no lock
    are left out.  Then: the locks are taken in one order, so that goroutines
    never block each other for ever, with one exception. *)

From S2P Require Import Prelude Locks.
From stdpp Require Import relations.

(** ** message_status.go *)

Definition TrackMessage_locks : prog := PWith Wr Ltracker PSkip.
Definition PendingCount_locks : prog := PWith Rd Ltracker PSkip.
Definition trackerClear_locks : prog := PWith Wr Ltracker PSkip.

(** ** stream.go, what holds the connection's lock already *)

Definition sendViaI2CPWithTracking_locks : prog := PMay TrackMessage_locks.
Definition sendPacketLocked_locks : prog := PMay sendViaI2CPWithTracking_locks.
Definition sendDataChunk_locks : prog := sendPacketLocked_locks.
Definition sendAckLocked_locks : prog := sendPacketLocked_locks.
Definition sendChokeSignalLocked_locks : prog := sendPacketLocked_locks.
Definition sendUnchokeSignalLocked_locks : prog := sendPacketLocked_locks.
Definition sendCloseLocked_locks : prog := sendPacketLocked_locks.

Definition manageChokeStateLocked_locks : prog :=
  PMay (PAlt sendChokeSignalLocked_locks sendUnchokeSignalLocked_locks).
Definition handleBufferFullLocked_locks : prog := PSeq (PMay sendChokeSignalLocked_locks) sendAckLocked_locks.
Definition processInSequencePacketLocked_locks : prog :=
  PAlt handleBufferFullLocked_locks (PSeq manageChokeStateLocked_locks (PMay sendAckLocked_locks)).
Definition handleOutOfOrderPacketLocked_locks : prog := sendAckLocked_locks.
Definition handleDataLocked_locks : prog :=
  PMay (PAlt processInSequencePacketLocked_locks handleOutOfOrderPacketLocked_locks).
Definition handleSynAckLocked_locks : prog := PMay sendAckLocked_locks.
Definition handleCloseLocked_locks : prog := PMay sendCloseLocked_locks.
Definition dispatchPacketByFlags_locks : prog :=
  PMay (PAlt handleSynAckLocked_locks (PAlt handleCloseLocked_locks handleDataLocked_locks)).

Section Connection.
(** The connection, and the history of the peer in the limiter. *)
Context (s : positive).

Definition waitForChokeCondVar_locks : prog := PLoop (PWait (Lconn s)).
Definition waitForChokeFallback_locks : prog := PMay (PWait (Lconn s)).
Definition handleChokeWaitLocked_locks : prog := PMay (PAlt waitForChokeCondVar_locks waitForChokeFallback_locks).
Definition waitForWindowSpace_locks : prog := PLoop (PWait (Lconn s)).
Definition writeChunksLocked_locks : prog := PLoop (PSeq waitForWindowSpace_locks (PMay sendDataChunk_locks)).
Definition Write_locks : prog :=
  PWith Wr (Lconn s) (PMay (PSeq handleChokeWaitLocked_locks (PMay writeChunksLocked_locks))).
Definition waitForReadDataLocked_locks : prog := PLoop (PWait (Lconn s)).
Definition handlePostReadActionsLocked_locks : prog := PMay sendUnchokeSignalLocked_locks.
Definition Read_locks : prog :=
  PWith Wr (Lconn s) (PMay (PSeq waitForReadDataLocked_locks (PMay handlePostReadActionsLocked_locks))).

(** The goroutines that wake a sleeper at a deadline. *)
Definition waitWithTimerSignal_locks : prog := PMay (PWith Wr (Lconn s) PSkip).
Definition setupReadTimer_locks : prog := PMay (PWith Wr (Lconn s) PSkip).

Definition processPacket_locks : prog := PWith Wr (Lconn s) dispatchPacketByFlags_locks.
Definition receiveLoop_locks : prog := PLoop processPacket_locks.
Definition checkRetransmissions_locks : prog := PWith Wr (Lconn s) PSkip.
Definition checkInactivity_locks : prog := PWith Wr (Lconn s) (PMay sendAckLocked_locks).
Definition inactivityTimer_locks : prog := PLoop checkInactivity_locks.
Definition runPersistTimer_locks : prog := PLoop (PSeq (PWith Wr (Lconn s) PSkip) (PMay (PWith Wr (Lconn s) PSkip))).

(** Addresses, profiles, deadlines, the steps of the handshake. *)
Definition accessor_locks : prog := PWith Wr (Lconn s) PSkip.
(** [sendSYN], [processSynAck], [sendACK] and, for the log, [getNegotiatedMTU];
    each may be the last when it fails. *)
Definition performHandshake_locks : prog :=
  PSeq accessor_locks (PMay (PSeq accessor_locks (PMay (PSeq accessor_locks (PMay accessor_locks))))).
Definition sendSynAck_locks : prog := accessor_locks.
Definition applyTCBDataToConnection_locks : prog := PMay accessor_locks.
Definition handleMessageDelivered_locks : prog := accessor_locks.
Definition handleMessageFailed_locks : prog := accessor_locks.

(** message_status.go: the tracker is unlocked before the connection is told. *)
Definition HandleStatus_locks : prog :=
  PSeq (PWith Wr Ltracker PSkip) (PMay (PAlt handleMessageDelivered_locks handleMessageFailed_locks)).
End Connection.

(** [CleanupExpired] tells the connections of the expired messages [ss] while
    it holds the tracker. *)
Definition CleanupExpired_locks (ss : list positive) : prog :=
  PWith Wr Ltracker (PMany (handleMessageFailed_locks <$> ss)).

(** ** tcb_cache.go *)

Definition Get_locks : prog := PMay (PSeq (PWith Rd Ltcb PSkip) (PMay (PWith Wr Ltcb PSkip))).
Definition Put_locks : prog := PMay (PWith Wr Ltcb PSkip).
Definition tcb_read_locks : prog := PWith Rd Ltcb PSkip.
Definition tcb_write_locks : prog := PWith Wr Ltcb PSkip.

(** ** limits.go *)

Section Limiter.
(** The total history, and the peer's. *)
Context (total peer : positive).
Definition recordConnectionLocked_locks : prog :=
  PSeq (PWith Wr (Lhistory total) PSkip) (PMay (PWith Wr (Lhistory peer) PSkip)).
Definition checkPeerRateLimitsLocked_locks : prog := PMay (PWith Wr (Lhistory peer) PSkip).
Definition CheckAndRecordConnection_locks : prog :=
  PWith Wr Llimiter (PMay (PSeq checkPeerRateLimitsLocked_locks (PMay recordConnectionLocked_locks))).
End Limiter.
Definition ConnectionClosed_locks : prog := PWith Wr Llimiter PSkip.
Definition CleanupStaleHistory_locks (ks : list positive) : prog :=
  PWith Wr Llimiter (PMany ((λ k, PWith Wr (Lhistory k) PSkip) <$> ks)).

(** ** accesslist.go *)

Section Filter.
Context (f : positive).
Definition IsAllowed_locks : prog := PWith Rd (Lfilter f) PSkip.
Definition CheckAndLog_locks : prog := PSeq IsAllowed_locks (PMay (PWith Rd (Lfilter f) PSkip)).
Definition filter_read_locks : prog := PWith Rd (Lfilter f) PSkip.
Definition filter_write_locks : prog := PWith Wr (Lfilter f) PSkip.
End Filter.

(** ** Closing, the listener and the manager *)

Definition cleanupConnectionLocked_locks : prog := PSeq (PMay Put_locks) (PMay ConnectionClosed_locks).
Definition Close_locks (s : positive) : prog :=
  PWith Wr (Lconn s) (PMay (PSeq (PMay sendCloseLocked_locks) cleanupConnectionLocked_locks)).
Definition retransmitTimer_locks (s : positive) : prog :=
  PLoop (PSeq (checkRetransmissions_locks s) (PMay (Close_locks s))).

Definition managerField_locks : prog := PWith Wr Lmanager PSkip.
Definition pingConfig_locks : prog := PWith Wr Lping PSkip.
Definition createConnectionStruct_locks (s : positive) : prog :=
  PSeq (PMay (PSeq Get_locks (applyTCBDataToConnection_locks s))) (PMay managerField_locks).
Definition DialWithManager_locks (s : positive) : prog :=
  PSeq (createConnectionStruct_locks s) (PMay (performHandshake_locks s)).

Definition listenerField_locks (l : positive) : prog := PWith Wr (Llistener l) PSkip.
Definition checkConnectionLimits_locks (total peer : positive) : prog :=
  PMay (PSeq (CheckAndRecordConnection_locks total peer) (PMay (PWith Wr Llimiter PSkip))).
Definition initConnectionState_locks (s : positive) : prog :=
  PSeq (PMay managerField_locks) (PMay (PSeq Get_locks (applyTCBDataToConnection_locks s))).
Definition handleIncomingSYN_locks (s f total peer : positive) : prog :=
  PSeq (PMay (CheckAndLog_locks f))
    (PMay (PSeq (checkConnectionLimits_locks total peer)
      (PMay (PSeq (initConnectionState_locks s) (sendSynAck_locks s))))).

Definition closeAllConnections_locks (ls ss : list positive) : prog :=
  PSeq (PMany (listenerField_locks <$> ls)) (PMany (Close_locks <$> ss)).
Definition managerClose_locks (ls ss : list positive) : prog :=
  PSeq managerField_locks (PMay (closeAllConnections_locks ls ss)).

(** ** What a goroutine runs *)

(** Everything the library runs in a goroutine of its own, in a callback of
    I2CP, or offers to its user, but [CleanupExpired]. *)
Inductive library : prog → Prop :=
| lib_Write s : library (Write_locks s)
| lib_Read s : library (Read_locks s)
| lib_waitWithTimerSignal s : library (waitWithTimerSignal_locks s)
| lib_setupReadTimer s : library (setupReadTimer_locks s)
| lib_receiveLoop s : library (receiveLoop_locks s)
| lib_retransmitTimer s : library (retransmitTimer_locks s)
| lib_inactivityTimer s : library (inactivityTimer_locks s)
| lib_runPersistTimer s : library (runPersistTimer_locks s)
| lib_accessor s : library (accessor_locks s)
| lib_Close s : library (Close_locks s)
| lib_HandleStatus s : library (HandleStatus_locks s)
| lib_PendingCount : library PendingCount_locks
| lib_trackerClear : library trackerClear_locks
| lib_Dial s : library (DialWithManager_locks s)
| lib_handleIncomingSYN s f total peer : library (handleIncomingSYN_locks s f total peer)
| lib_listenerField l : library (listenerField_locks l)
| lib_managerField : library managerField_locks
| lib_pingConfig : library pingConfig_locks
| lib_tcb_read : library tcb_read_locks
| lib_tcb_write : library tcb_write_locks
| lib_limiterField : library ConnectionClosed_locks
| lib_CleanupStaleHistory ks : library (CleanupStaleHistory_locks ks)
| lib_filter_read f : library (filter_read_locks f)
| lib_filter_write f : library (filter_write_locks f)
| lib_closeAllConnections ls ss : library (closeAllConnections_locks ls ss)
| lib_managerClose ls ss : library (managerClose_locks ls ss).

(** The order: a connection's lock before those of what it shares, the
    limiter's before those of its histories. *)
Definition rank (l : lock) : nat :=
  match l with
  | Llistener _ | Lmanager | Lping | Lfilter _ => 0
  | Lconn _ => 1
  | Ltracker | Ltcb | Llimiter => 2
  | Lhistory _ => 3
  end.

Lemma rank_below l : (rank l < 4)%nat.
Proof. destruct l; cbn; lia. Qed.

Ltac solve_ordered :=
  repeat first
    [ progress cbn [ordered PMay]
    | match goal with |- _ ∧ _ => split end
    | match goal with |- True => exact I end
    | match goal with |- _ = _ => reflexivity end
    | match goal with |- above _ _ _ => repeat constructor; cbn; lia end ].

Lemma accessor_ordered s : ordered rank [] (accessor_locks s).
Proof. unfold accessor_locks. solve_ordered. Qed.
Lemma Close_ordered s : ordered rank [] (Close_locks s).
Proof. cbv -[ordered rank PMay above]. solve_ordered. Qed.

Lemma closeAll_ordered ls ss : ordered rank [] (closeAllConnections_locks ls ss).
Proof.
  split; apply ordered_many, Forall_fmap, Forall_true; intros x; [unfold compose, listenerField_locks; solve_ordered|].
  apply Close_ordered.
Qed.

Lemma library_ordered p : library p → ordered rank [] p.
Proof.
  destruct 1; try (cbv -[ordered rank PMay above]; solve_ordered; fail).
  - split; [repeat constructor|]. apply ordered_many, Forall_fmap, Forall_true. intros k. unfold compose. solve_ordered.
  - apply closeAll_ordered.
  - split; [unfold managerField_locks; solve_ordered|]. split; [apply closeAll_ordered|done].
Qed.

(** ** The properties *)

(** C6.  Goroutines do not deadlock on the library's locks.  Let any number of
    goroutines each call any sequence of the library's methods, or run one of
    its own loops, but not [CleanupExpired], interleaved in any way.  Then a
    lock taken for writing is held by nobody else; nothing is unlocked that is
    not locked, and who sleeps or has finished holds nothing; and whenever some
    goroutine is neither finished nor asleep on a condition variable, one such
    goroutine can go on, even when Go keeps readers waiting for writers: there
    is no cycle of goroutines that wait for each other's locks. *)
Theorem no_lock_deadlock (gs : list (list prog)) (trs : list (list action)) (c : config) :
  Forall2 (λ ps tr, Forall library ps ∧ runs (PMany ps) tr) gs trs → rtc step (start <$> trs) c →
  exclusive c ∧ Forall tidy c ∧ ∀ i t, c !! i = Some t → busy t → can_go_on c.
Proof.
  intros Hg Hc. assert (Ho : Forall (orderly rank) c).
  { apply (reachable_orderly _ _ _ Hc), Forall_fmap. clear Hc.
    induction Hg as [|ps tr gs trs [Hp Hr] _ IH]; constructor; [|by apply IH].
    apply (start_orderly _ _ _ Hr), ordered_many. eapply Forall_impl; [exact Hp|apply library_ordered]. }
  split_and!.
  - apply (reachable_exclusive _ _ Hc). intros i j t u m l Ht _ _ Hw.
    apply list_lookup_fmap_Some in Ht as (tr & -> & _). by apply not_elem_of_nil in Hw.
  - eapply Forall_impl; [exact Ho|apply orderly_tidy].
  - intros i t. by apply (orderly_goes_on rank 4 rank_below).
Qed.

(** A writer that has its connection's lock and asks for the tracker's, and
    [CleanupExpired] the other way round. *)
Definition stuck_writer (s : positive) (r : list action) : thread :=
  MkThread [(Wr, Lconn s)] (Acq Wr Ltracker :: r) None.
Definition stuck_cleaner (s : positive) (r : list action) : thread :=
  MkThread [(Wr, Ltracker)] (Acq Wr (Lconn s) :: r) None.

Lemma not_free_held c j u m l : c !! j = Some u → (Wr, l) ∈ held u → free c m l = false.
Proof.
  intros Hj Hu. destruct (free c m l) eqn:E; [|done]. by destruct (free_excludes c j u m l E Hj).
Qed.

Lemma stuck_step s a b others c : step (stuck_writer s a :: stuck_cleaner s b :: others) c →
  ∃ others', c = stuck_writer s a :: stuck_cleaner s b :: others'.
Proof.
  inversion 1 as [c0 i t t' Hi Ha E1 E2|c0 i t l Hi Ha E1 E2]; clear E1 E2; (destruct i as [|[|i]]); cbn in Hi;
    try by eexists.
  - injection Hi as <-. unfold advance in Ha. cbn [asleep todo stuck_writer] in Ha.
    by rewrite (not_free_held _ 1 (stuck_cleaner s b)) in Ha by (done || constructor).
  - injection Hi as <-. unfold advance in Ha. cbn [asleep todo stuck_cleaner] in Ha.
    by rewrite (not_free_held _ 0 (stuck_writer s a)) in Ha by (done || constructor).
  - by injection Hi as <-.
  - by injection Hi as <-.
Qed.

Lemma stuck_stays s a b others c :
  rtc step (stuck_writer s a :: stuck_cleaner s b :: others) c →
  ∃ others', c = stuck_writer s a :: stuck_cleaner s b :: others'.
Proof.
  intros H. remember (stuck_writer s a :: stuck_cleaner s b :: others) as c0 eqn:E. revert others E.
  induction H as [c0|c0 c1 c2 Hs _ IH]; intros others ->; [by eexists|].
  destruct (stuck_step s a b others c1 Hs) as [others' ->]. by eapply IH.
Qed.

(** A [Write] of one packet, and a [CleanupExpired] that expires one message. *)
Definition write_trace (s : positive) : list action :=
  [Acq Wr (Lconn s); Acq Wr Ltracker; Rel Wr Ltracker; Rel Wr (Lconn s)].
Definition cleanup_trace (s : positive) : list action :=
  [Acq Wr Ltracker; Acq Wr (Lconn s); Rel Wr (Lconn s); Rel Wr Ltracker].

Lemma write_trace_runs s : runs (Write_locks s) (write_trace s).
Proof.
  apply (runs_with Wr (Lconn s) _ [Acq Wr Ltracker; Rel Wr Ltracker]), runs_left.
  apply (runs_seq _ _ [] [Acq Wr Ltracker; Rel Wr Ltracker]); [apply runs_right, runs_skip|]. apply runs_left.
  apply (runs_again _ [Acq Wr Ltracker; Rel Wr Ltracker] []); [|apply runs_done].
  apply (runs_seq _ _ [] [Acq Wr Ltracker; Rel Wr Ltracker]); [apply runs_done|]. do 3 apply runs_left.
  apply (runs_with Wr Ltracker _ []), runs_skip.
Qed.
Lemma cleanup_trace_runs s : runs (CleanupExpired_locks [s]) (cleanup_trace s).
Proof.
  apply (runs_with Wr Ltracker _ [Acq Wr (Lconn s); Rel Wr (Lconn s)]).
  apply (runs_seq _ _ [Acq Wr (Lconn s); Rel Wr (Lconn s)] []); [|apply runs_skip].
  apply (runs_with Wr (Lconn s) _ []), runs_skip.
Qed.

(** C32.  [CleanupExpired] can deadlock.  It tells the connections of the
    expired messages while it holds the tracker's lock, and a connection that
    sends asks for the tracker's lock while it holds its own.  From the start
    of a [Write] and a [CleanupExpired] that expires a message of the same
    connection, with any other goroutines about, a state can be reached in
    which both are busy and neither ever advances again, whatever the others
    do. *)
Theorem cleanup_deadlocks (s : positive) (others : config) :
  Forall (λ t, held t = []) others →
  ∃ wr cl, rtc step (start (write_trace s) :: start (cleanup_trace s) :: others) (wr :: cl :: others) ∧
    runs (Write_locks s) (write_trace s) ∧ runs (CleanupExpired_locks [s]) (cleanup_trace s) ∧
    busy wr ∧ busy cl ∧
    ∀ c, rtc step (wr :: cl :: others) c → ∃ others', c = wr :: cl :: others'.
Proof.
  intros Ho. exists (stuck_writer s [Rel Wr Ltracker; Rel Wr (Lconn s)]), (stuck_cleaner s [Rel Wr (Lconn s); Rel Wr Ltracker]).
  assert (Hfree : ∀ l, forallb (λ t, negb (holds t (Rd, l)) && negb (holds t (Wr, l))) others = true).
  { intros l. apply forallb_forall. intros t Ht%list_elem_of_In. rewrite Forall_forall in Ho. unfold holds.
    by rewrite (Ho t Ht). }
  split_and!; [|apply write_trace_runs|apply cleanup_trace_runs|done|done|intros c; apply stuck_stays].
  eapply rtc_l; [eapply (step_advance _ 0); [done|]|].
  { unfold advance. cbn [asleep todo start write_trace free forallb]. rewrite Hfree. by cbn. }
  eapply rtc_l; [eapply (step_advance _ 1); [done|]|].
  { unfold advance. cbn [asleep todo start cleanup_trace free forallb list_insert insert]. rewrite Hfree. by cbn. }
  reflexivity.
Qed.

(** ** Concrete runs *)

(** A [Write] and a [Close] of one connection, and a reader of the tracker. *)
Definition goroutines_ex : list (list prog) :=
  [[Write_locks 1]; [Close_locks 1]; [PendingCount_locks]].
Definition traces_ex : list (list action) :=
  [write_trace 1; [Acq Wr (Lconn 1); Rel Wr (Lconn 1)]; [Acq Rd Ltracker; Rel Rd Ltracker]].

Lemma goroutines_ex_run : Forall2 (λ ps tr, Forall library ps ∧ runs (PMany ps) tr) goroutines_ex traces_ex.
Proof.
  repeat constructor; cbn.
  - rewrite <-(app_nil_r (write_trace 1)). apply runs_seq; [apply write_trace_runs|apply runs_skip].
  - apply (runs_seq _ _ [Acq Wr (Lconn 1); Rel Wr (Lconn 1)] []); [|apply runs_skip].
    apply (runs_with Wr (Lconn 1) _ []), runs_right, runs_skip.
  - apply (runs_seq _ _ [Acq Rd Ltracker; Rel Rd Ltracker] []); [|apply runs_skip].
    apply (runs_with Rd Ltracker _ []), runs_skip.
Qed.

Lemma no_lock_deadlock_witness :
  let c := [MkThread [(Wr, Lconn 1)] (drop 1 (write_trace 1)) None; start [Acq Wr (Lconn 1); Rel Wr (Lconn 1)];
            start [Acq Rd Ltracker; Rel Rd Ltracker]] in
  exclusive c ∧ Forall tidy c ∧ ∀ i t, c !! i = Some t → busy t → can_go_on c.
Proof.
  apply (no_lock_deadlock goroutines_ex traces_ex); [apply goroutines_ex_run|].
  apply rtc_once.
  exact (step_advance (start <$> traces_ex) 0 (start (write_trace 1))
    (MkThread [(Wr, Lconn 1)] (drop 1 (write_trace 1)) None) eq_refl eq_refl).
Defined.

Lemma cleanup_deadlocks_witness :
  ∃ wr cl, rtc step [start (write_trace 1); start (cleanup_trace 1)] [wr; cl] ∧
    runs (Write_locks 1) (write_trace 1) ∧ runs (CleanupExpired_locks [1%positive]) (cleanup_trace 1) ∧
    busy wr ∧ busy cl ∧ ∀ c, rtc step [wr; cl] c → ∃ others', c = wr :: cl :: others'.
Proof. apply (cleanup_deadlocks 1 []). constructor. Defined.
